(** * Run scheduler and streaming-reply reconciler: a shallow embedding

    The development follows the TypeScript sources:
    - [src/agents/pi-embedded-subscribe.ts]  (the streaming reply reconciler),
    - [src/agents/pi-embedded-runner.ts]     (run registry, profile rotation),
    - [src/auto-reply/reply.ts]              (queue policy, interrupt handling).

    JavaScript strings are modelled by [string]; a character stands for one
    UTF-16 code unit in the Latin-1 range.  Every string primitive used by the
    sources ([startsWith], [includes], [slice], [trim], [trimEnd], regular
    expression scans) is defined below on that representation. *)

From Stdlib Require Import ZArith Ascii Bool Lia.
From Stdlib Require String QArith Qround.
From stdpp Require Import base option list gmap strings.

Local Open Scope Z_scope.

(** ** JavaScript string primitives *)

Module Js.

(** Truthiness of a string: [if (text)] holds for non-empty strings. *)
Definition truthy (s : string) : bool :=
  match s with EmptyString => false | String _ _ => true end.

(** [s.startsWith(p)]. *)
Fixpoint startsWith (s p : string) : bool :=
  match p, s with
  | EmptyString, _ => true
  | String _ _, EmptyString => false
  | String a p', String b s' => if Ascii.eqb a b then startsWith s' p' else false
  end.

(** [s.includes(p)]. *)
Fixpoint includes (s p : string) : bool :=
  startsWith s p ||
  match s with
  | EmptyString => false
  | String _ s' => includes s' p
  end.

(** [s.slice(n)] for [0 <= n]. *)
Fixpoint slice_from (s : string) (n : nat) : string :=
  match n, s with
  | O, _ => s
  | S _, EmptyString => EmptyString
  | S n', String _ s' => slice_from s' n'
  end.

(** [s.slice(a, b)] for [0 <= a] and [0 <= b]. *)
Definition slice (s : string) (a b : nat) : string :=
  String.substring a (b - a) s.

(** WhiteSpace and LineTerminator code units below 256: this is the set
    matched by [\s] and removed by [trim], [trimStart] and [trimEnd]. *)
Definition isSpace (c : ascii) : bool :=
  match c with
  | "009" | "010" | "011" | "012" | "013" | " " | "160" => true
  | _ => false
  end%char.

Fixpoint trimStart (s : string) : string :=
  match s with
  | EmptyString => EmptyString
  | String c s' => if isSpace c then trimStart s' else s
  end.

Fixpoint trimEnd (s : string) : string :=
  match s with
  | EmptyString => EmptyString
  | String c s' =>
      match trimEnd s' with
      | EmptyString => if isSpace c then EmptyString else String c EmptyString
      | r => String c r
      end
  end.

Definition trim (s : string) : string := trimEnd (trimStart s).

(** Canonicalisation used by the [i] flag for the ASCII letters of the
    tag names: an upper-case ASCII letter is compared as its lower-case
    counterpart, every other code unit only matches itself. *)
Definition lower (c : ascii) : ascii :=
  let n := nat_of_ascii c in
  if ((65 <=? n) && (n <=? 90))%nat then ascii_of_nat (n + 32) else c.

End Js.

(** ** The tag regular expressions

    [THINKING_TAG_RE], [THINKING_TAG_SCAN_RE], the open/close variants and the
    [FINAL_*] expressions all have the shape
    [/<\s*(\/?)\s*WORD(?:SUFFIX)?\s*>/gi].  A match starts at a ["<"], contains
    no further ["<"] and ends at the first [">"], so from a given start the
    match is unique and matches never overlap. *)

Module Tag.

Record Match := { index : nat; len : nat; isClose : bool }.

(** Case-insensitive literal [w] at the head of [s]; returns the rest. *)
Fixpoint word (w s : string) : option string :=
  match w with
  | EmptyString => Some s
  | String a w' =>
      match s with
      | EmptyString => None
      | String b s' => if Ascii.eqb a (Js.lower b) then word w' s' else None
      end
  end.

(** [\s*>] at the head of [s]. *)
Definition closing (s : string) : option string :=
  match Js.trimStart s with
  | String ">" r => Some r
  | _ => None
  end.

(** One match attempt of [<\s*(\/?)\s*w(?:sfx)?\s*>] at the head of [s]:
    whether group 1 captured the slash, and the length of the match. *)
Definition matchAt (w sfx : string) (s : string) : option (bool * nat) :=
  match s with
  | String "<" r =>
      let r1 := Js.trimStart r in
      let '(slash, r2) :=
        match r1 with
        | String "/" r' => (true, r')
        | _ => (false, r1)
        end in
      match word w (Js.trimStart r2) with
      | None => None
      | Some r3 =>
          let tail :=
            match word sfx r3 with
            | Some r4 =>
                match closing r4 with
                | Some r5 => Some r5
                | None => closing r3
                end
            | None => closing r3
            end in
          match tail with
          | Some rest => Some (slash, (String.length s - String.length rest)%nat)
          | None => None
          end
      end
  | _ => None
  end.

(** [text.matchAll(re)] for a global expression with [lastIndex = 0]:
    leftmost matches, each search resuming at the end of the previous
    match.  [idx] is the index of the head of [s] in the text, [skip] the
    number of characters still covered by the previous match. *)
Fixpoint matchAllFrom (w sfx : string) (idx skip : nat) (s : string) : list Match :=
  match s with
  | EmptyString => []
  | String _ s' =>
      match skip with
      | S k => matchAllFrom w sfx (S idx) k s'
      | O =>
          match matchAt w sfx s with
          | Some (slash, n) =>
              {| index := idx; len := n; isClose := slash |}
                :: matchAllFrom w sfx (S idx) (n - 1) s'
          | None => matchAllFrom w sfx (S idx) 0 s'
          end
      end
  end.

Definition matchAll (w sfx : string) (s : string) : list Match :=
  matchAllFrom w sfx 0 0 s.

(** [re.replace(text, "")] for a non-global expression: the first match
    satisfying [sel] is removed. *)
Definition removeFirst (sel : Match -> bool) (ms : list Match) (text : string) : string :=
  match List.find sel ms with
  | Some m =>
      Js.slice text 0 (index m) +:+ Js.slice_from text (index m + len m)
  | None => text
  end.

End Tag.

(** Matches of [/<\s*(\/?)\s*think(?:ing)?\s*>/gi].  The module-level
    expressions are only ever used with [lastIndex = 0]: each successful
    [test] is followed by an explicit reset and a failed [test] resets it. *)
Definition thinkingTags (text : string) : list Tag.Match :=
  Tag.matchAll "think" "ing" text.

(** Matches of [/<\s*(\/?)\s*final\s*>/gi]. *)
Definition finalTags (text : string) : list Tag.Match :=
  Tag.matchAll "final" "" text.

Definition isOpenTag (m : Tag.Match) : bool := negb (Tag.isClose m).

(** The loop shared by [stripThinkingSegments] and
    [stripBlockThinkingSegments]: text outside tagged segments is kept. *)
Definition stripLoop (text : string) (ms : list Tag.Match) (inThinking0 : bool)
  : string * nat * bool :=
  fold_left
    (fun '(result, lastIndex, inThinking) m =>
       ((if inThinking : bool then result
         else result +:+ Js.slice text lastIndex (Tag.index m)),
        (Tag.index m + Tag.len m)%nat,
        negb (Tag.isClose m)))
    ms (EmptyString, 0%nat, inThinking0).

Definition stripThinkingSegments (text : string) : string :=
  if negb (Js.truthy text) || negb (bool_decide (thinkingTags text <> []))
  then text
  else
    let '(result, lastIndex, inThinking) := stripLoop text (thinkingTags text) false in
    if inThinking then result else result +:+ Js.slice_from text lastIndex.

Definition stripUnpairedThinkingTags (text : string) : string :=
  if negb (Js.truthy text) then text
  else
    let hasOpen := existsb isOpenTag (thinkingTags text) in
    let hasClose := existsb Tag.isClose (thinkingTags text) in
    if hasOpen && hasClose then text
    else if negb hasOpen then Tag.removeFirst Tag.isClose (thinkingTags text) text
    else if negb hasClose then Tag.removeFirst isOpenTag (thinkingTags text) text
    else text.

(** [stripBlockThinkingSegments]: the closure variable [blockThinkingActive]
    is threaded explicitly; the result is the visible text and the new flag. *)
Definition stripBlockThinkingSegments (blockThinkingActive : bool) (text : string)
  : string * bool :=
  if negb (Js.truthy text) then (text, blockThinkingActive)
  else if negb blockThinkingActive && negb (bool_decide (thinkingTags text <> []))
  then (text, blockThinkingActive)
  else
    let '(result, lastIndex, inThinking) :=
      stripLoop text (thinkingTags text) blockThinkingActive in
    ((if inThinking then result else result +:+ Js.slice_from text lastIndex),
     inThinking).

(** ** The streaming reply reconciler ([subscribeEmbeddedPiSession]) *)

(** Collaborators of the reconciler whose sources are outside this
    repository slice: [splitMediaFromOutput] (media/parse.js),
    [isMessagingToolDuplicate] (pi-embedded-helpers.js),
    [formatToolAggregate] (auto-reply/tool-meta.js) and the methods of
    [EmbeddedBlockChunker] (pi-embedded-block-chunker.js) on a chunker state
    [C].  [chunker_drain force c] returns the chunks handed to the [emit]
    callback, in order, and the chunker after the drain. *)
Class Collaborators (C : Type) := {
  splitMediaFromOutput : string -> string * list string;
  isMessagingToolDuplicate : string -> list string -> bool;
  formatToolAggregate : string -> option (list string) -> string;
  chunker_append : C -> string -> C;
  chunker_drain : bool -> C -> list string * C;
  chunker_hasBuffered : C -> bool;
  chunker_reset : C -> C;
}.

Inductive BlockReplyBreak := BreakTextEnd | BreakMessageEnd.
Inductive ReasoningLevel := ReasoningOff | ReasoningOn | ReasoningStream.

(** The parameters of [subscribeEmbeddedPiSession] after defaulting.  A
    callback is represented by whether it was supplied.  What the optional
    [shouldEmitToolResult] callback answers is not fixed: the handler calls
    it at every [tool_execution_start], and the answer it gets there comes
    with the event (see [Event]). *)
Record Params := {
  verboseLevelOn : bool;
  reasoningMode : ReasoningLevel;
  shouldEmitToolResultFn : bool;
  onToolResult : bool;
  onReasoningStream : bool;
  onBlockReply : bool;
  blockReplyBreak : BlockReplyBreak;
  onPartialReply : bool;
  enforceFinalTag : bool;
}.

Definition includeReasoning (p : Params) : bool :=
  match reasoningMode p with ReasoningOn => true | _ => false end.

Definition streamReasoning (p : Params) : bool :=
  match reasoningMode p with ReasoningStream => onReasoningStream p | _ => false end.

(** The local [shouldEmitToolResult()], where [emitAnswer] is what
    [params.shouldEmitToolResult()] returns for this call. *)
Definition shouldEmitToolResult (p : Params) (emitAnswer : bool) : bool :=
  if shouldEmitToolResultFn p then emitAnswer else verboseLevelOn p.

(** The three argument fields the handler reads from a tool call. *)
Inductive JsValue := JsUndefined | JsNull | JsString (s : string) | JsOther.

Record ToolArgs := {
  arg_action : JsValue;
  arg_content : JsValue;
  arg_message : JsValue;
}.

Record MessagingToolSend := {
  send_tool : string;
  send_provider : string;
  send_accountId : option string;
  send_to : option string;
}.

Inductive Role := Assistant | OtherRole.
Inductive AssistantEventType := TextDelta | TextStart | TextEnd | OtherAssistantEvent.

(** Agent events as the handler observes them.  [meta] is the value of
    [inferToolMetaFromArgs], [args] is [None] when the arguments are not an
    object, [sendTarget] is the value of [extractMessagingToolSend],
    [emitAnswer] is what the callback [params.shouldEmitToolResult], when
    supplied, answers on being called for this event;
    [delta] and [content] are the strings after the [typeof] defaulting;
    [rawText] and [assistantThinking] are [extractAssistantText] and
    [extractAssistantThinking] of the finished message, taken after
    [promoteThinkingTagsToBlocks]. *)
Inductive Event :=
| MessageStart (role : Role)
| ToolExecutionStart (toolName toolCallId : string) (meta : option string)
    (args : option ToolArgs) (sendTarget : option MessagingToolSend)
    (emitAnswer : bool)
| ToolExecutionUpdate (toolName toolCallId : string)
| ToolExecutionEnd (toolName toolCallId : string) (isError : bool)
| MessageUpdate (role : Role) (evtType : AssistantEventType) (delta content : string)
| MessageEnd (role : Role) (rawText assistantThinking : string)
| AgentStart
| AutoCompactionStart
| AutoCompactionEnd (willRetry : bool)
| AgentEnd
| OtherEvent.

#[global] Instance JsValue_eq_dec : EqDecision JsValue.
Proof. solve_decision. Defined.

#[global] Instance ToolArgs_eq_dec : EqDecision ToolArgs.
Proof. solve_decision. Defined.

#[global] Instance MessagingToolSend_eq_dec : EqDecision MessagingToolSend.
Proof. solve_decision. Defined.

#[global] Instance Role_eq_dec : EqDecision Role.
Proof. solve_decision. Defined.

#[global] Instance AssistantEventType_eq_dec : EqDecision AssistantEventType.
Proof. solve_decision. Defined.

#[global] Instance Event_eq_dec : EqDecision Event.
Proof. solve_decision. Defined.

(** What the reconciler hands to its consumers, in order.
    - [ToolResult]: a call of [onToolResult].
    - [ReasoningDraft]: a call of [onReasoningStream].
    - [AssistantStream next]: the cleaned cumulative text [next] became the
      new [lastStreamedAssistant]; [splitMediaFromOutput next] is sent on the
      assistant event stream and to [onPartialReply] when supplied.
    - [BlockChunk chunk]: [emitBlockChunk] accepted [chunk]; it is appended to
      [assistantTexts] and [splitMediaFromOutput chunk] goes to [onBlockReply]
      when supplied and non-empty.
    - [FinalBlock text]: the final answer accepted at [message_end]; payload
      as for [BlockChunk].
    - [ReasoningBlock text]: [onBlockReply] called with formatted reasoning. *)
Inductive Output :=
| ToolResult (text : string) (mediaUrls : list string)
| ReasoningDraft (text : string)
| AssistantStream (next : string)
| BlockChunk (chunk : string)
| FinalBlock (text : string)
| ReasoningBlock (text : string).

Definition MESSAGING_TOOLS : list string :=
  ["telegram"; "whatsapp"; "discord"; "slack"; "sessions_send"].

Definition newline : string := String "010"%char EmptyString.

(** [formatReasoningMarkdown] (pi-embedded-utils.ts) and the local
    [formatReasoningDraft] have the same body. *)
Definition formatReasoningMarkdown (text : string) : string :=
  let trimmed := Js.trim text in
  if negb (Js.truthy trimmed) then EmptyString
  else "Reasoning:" +:+ newline +:+ trimmed.

Definition formatReasoningDraft (text : string) : string :=
  let trimmed := Js.trim text in
  if negb (Js.truthy trimmed) then EmptyString
  else "Reasoning:" +:+ newline +:+ trimmed.

Definition extractThinkingFromText (text : string) : string :=
  if negb (Js.truthy text) || negb (bool_decide (thinkingTags text <> []))
  then EmptyString
  else
    let '(result, _, _) :=
      fold_left
        (fun '(result, lastIndex, inThinking) m =>
           ((if inThinking : bool
             then result +:+ Js.slice text lastIndex (Tag.index m)
             else result),
            (Tag.index m + Tag.len m)%nat,
            negb (Tag.isClose m)))
        (thinkingTags text) (EmptyString, 0%nat, false) in
    Js.trim result.

Definition extractThinkingFromStream (text : string) : string :=
  if negb (Js.truthy text) then EmptyString
  else
    let closed := extractThinkingFromText text in
    if Js.truthy closed then closed
    else
      let openMatches := filter (fun m => isOpenTag m = true) (thinkingTags text) in
      let closeMatches := filter (fun m => Tag.isClose m = true) (thinkingTags text) in
      match last openMatches with
      | None => EmptyString
      | Some lastOpen =>
          let closedAfter :=
            match last closeMatches with
            | Some lastClose => (Tag.index lastOpen <? Tag.index lastClose)%nat
            | None => false
            end in
          if closedAfter then closed
          else Js.trim (Js.slice_from text (Tag.index lastOpen + Tag.len lastOpen))
      end.

Definition sanitizeFinalText (text : string) : string :=
  if negb (Js.truthy text) then text
  else
    let hasStart := existsb isOpenTag (finalTags text) in
    let hasEnd := existsb Tag.isClose (finalTags text) in
    if hasStart && negb hasEnd then Tag.removeFirst isOpenTag (finalTags text) text
    else if negb hasStart && hasEnd then Tag.removeFirst Tag.isClose (finalTags text) text
    else text.

Definition extractFinalText (text : string) : option string :=
  let cleaned := sanitizeFinalText text in
  match List.find isOpenTag (finalTags cleaned) with
  | None => None
  | Some startMatch =>
      let afterStart := Js.slice_from cleaned (Tag.index startMatch + Tag.len startMatch) in
      let endIndex :=
        match List.find Tag.isClose (finalTags afterStart) with
        | Some endMatch => Tag.index endMatch
        | None => String.length afterStart
        end in
      Some (Js.slice afterStart 0 endIndex)
  end.

(** The cleaned text of a buffer: [cleaned] and then [next] in the
    [message_update] handler. *)
Definition cleanedNext (p : Params) (buffer : string) : string :=
  let cleaned :=
    if enforceFinalTag p
    then stripThinkingSegments (stripUnpairedThinkingTags buffer)
    else stripThinkingSegments buffer in
  if enforceFinalTag p
  then match extractFinalText cleaned with
       | Some final => Js.trim final
       | None => Js.trim cleaned
       end
  else Js.trim cleaned.

(** Chunk resolution of the [message_update] handler: the text that an
    assistant text event adds to [deltaBuffer]. *)
Definition resolveChunk (evtType : AssistantEventType) (delta content deltaBuffer : string)
  : string :=
  match evtType with
  | TextDelta => delta
  | TextStart | TextEnd =>
      if Js.truthy delta then delta
      else if Js.truthy content then
        if Js.startsWith content deltaBuffer
        then Js.slice_from content (String.length deltaBuffer)
        else if Js.startsWith deltaBuffer content then EmptyString
        else if negb (Js.includes deltaBuffer content) then content
        else EmptyString
      else EmptyString
  | OtherAssistantEvent => EmptyString
  end.

Section Reconciler.

Context {C : Type} {E : Collaborators C}.

(** The closure variables of [subscribeEmbeddedPiSession].  The retry gate
    ([compactionRetryPromise] with its [compactionRetryResolve]) is
    represented by the identifier of the pending promise;
    [promisesCreated] numbers the promises and [promisesResolved] records
    the ones whose resolver has been called.  [outputs] is the record of
    what has been handed to the consumers. *)
Record State := {
  assistantTexts : list string;
  toolMetas : list (string * option string);
  toolMetaById : gmap string (option string);
  toolSummaryById : gset string;
  deltaBuffer : string;
  blockBuffer : string;
  blockChunker : option C;
  blockThinkingActive : bool;
  lastStreamedAssistant : option string;
  lastStreamedReasoning : option string;
  lastBlockReplyText : option string;
  assistantTextBaseline : nat;
  compactionInFlight : bool;
  pendingCompactionRetry : Z;
  compactionRetryPromise : option nat;
  lastReasoningSent : option string;
  messagingToolSentTexts : list string;
  messagingToolSentTargets : list MessagingToolSend;
  pendingMessagingTexts : gmap string string;
  pendingMessagingTargets : gmap string MessagingToolSend;
  promisesCreated : nat;
  promisesResolved : list nat;
  outputs : list Output;
}.

(** The state right after [subscribeEmbeddedPiSession] has run; [chunker]
    is [new EmbeddedBlockChunker(blockReplyChunking)] when chunking is
    configured. *)
Definition initial (chunker : option C) : State :=
  {| assistantTexts := []; toolMetas := []; toolMetaById := ∅;
     toolSummaryById := ∅; deltaBuffer := EmptyString; blockBuffer := EmptyString;
     blockChunker := chunker; blockThinkingActive := false;
     lastStreamedAssistant := None; lastStreamedReasoning := None;
     lastBlockReplyText := None; assistantTextBaseline := 0%nat;
     compactionInFlight := false; pendingCompactionRetry := 0;
     compactionRetryPromise := None; lastReasoningSent := None;
     messagingToolSentTexts := []; messagingToolSentTargets := [];
     pendingMessagingTexts := ∅; pendingMessagingTargets := ∅;
     promisesCreated := 0%nat; promisesResolved := []; outputs := [] |}.

(** Assignment to one closure variable. *)
Definition set_assistantTexts v (s : State) : State :=
  Build_State v (toolMetas s) (toolMetaById s) (toolSummaryById s) (deltaBuffer s)
    (blockBuffer s) (blockChunker s) (blockThinkingActive s) (lastStreamedAssistant s)
    (lastStreamedReasoning s) (lastBlockReplyText s) (assistantTextBaseline s)
    (compactionInFlight s) (pendingCompactionRetry s) (compactionRetryPromise s)
    (lastReasoningSent s) (messagingToolSentTexts s) (messagingToolSentTargets s)
    (pendingMessagingTexts s) (pendingMessagingTargets s) (promisesCreated s)
    (promisesResolved s) (outputs s).
Definition set_toolMetas v (s : State) : State :=
  Build_State (assistantTexts s) v (toolMetaById s) (toolSummaryById s) (deltaBuffer s)
    (blockBuffer s) (blockChunker s) (blockThinkingActive s) (lastStreamedAssistant s)
    (lastStreamedReasoning s) (lastBlockReplyText s) (assistantTextBaseline s)
    (compactionInFlight s) (pendingCompactionRetry s) (compactionRetryPromise s)
    (lastReasoningSent s) (messagingToolSentTexts s) (messagingToolSentTargets s)
    (pendingMessagingTexts s) (pendingMessagingTargets s) (promisesCreated s)
    (promisesResolved s) (outputs s).
Definition set_toolMetaById v (s : State) : State :=
  Build_State (assistantTexts s) (toolMetas s) v (toolSummaryById s) (deltaBuffer s)
    (blockBuffer s) (blockChunker s) (blockThinkingActive s) (lastStreamedAssistant s)
    (lastStreamedReasoning s) (lastBlockReplyText s) (assistantTextBaseline s)
    (compactionInFlight s) (pendingCompactionRetry s) (compactionRetryPromise s)
    (lastReasoningSent s) (messagingToolSentTexts s) (messagingToolSentTargets s)
    (pendingMessagingTexts s) (pendingMessagingTargets s) (promisesCreated s)
    (promisesResolved s) (outputs s).
Definition set_toolSummaryById v (s : State) : State :=
  Build_State (assistantTexts s) (toolMetas s) (toolMetaById s) v (deltaBuffer s)
    (blockBuffer s) (blockChunker s) (blockThinkingActive s) (lastStreamedAssistant s)
    (lastStreamedReasoning s) (lastBlockReplyText s) (assistantTextBaseline s)
    (compactionInFlight s) (pendingCompactionRetry s) (compactionRetryPromise s)
    (lastReasoningSent s) (messagingToolSentTexts s) (messagingToolSentTargets s)
    (pendingMessagingTexts s) (pendingMessagingTargets s) (promisesCreated s)
    (promisesResolved s) (outputs s).
Definition set_deltaBuffer v (s : State) : State :=
  Build_State (assistantTexts s) (toolMetas s) (toolMetaById s) (toolSummaryById s) v
    (blockBuffer s) (blockChunker s) (blockThinkingActive s) (lastStreamedAssistant s)
    (lastStreamedReasoning s) (lastBlockReplyText s) (assistantTextBaseline s)
    (compactionInFlight s) (pendingCompactionRetry s) (compactionRetryPromise s)
    (lastReasoningSent s) (messagingToolSentTexts s) (messagingToolSentTargets s)
    (pendingMessagingTexts s) (pendingMessagingTargets s) (promisesCreated s)
    (promisesResolved s) (outputs s).
Definition set_blockBuffer v (s : State) : State :=
  Build_State (assistantTexts s) (toolMetas s) (toolMetaById s) (toolSummaryById s)
    (deltaBuffer s) v (blockChunker s) (blockThinkingActive s) (lastStreamedAssistant s)
    (lastStreamedReasoning s) (lastBlockReplyText s) (assistantTextBaseline s)
    (compactionInFlight s) (pendingCompactionRetry s) (compactionRetryPromise s)
    (lastReasoningSent s) (messagingToolSentTexts s) (messagingToolSentTargets s)
    (pendingMessagingTexts s) (pendingMessagingTargets s) (promisesCreated s)
    (promisesResolved s) (outputs s).
Definition set_blockChunker v (s : State) : State :=
  Build_State (assistantTexts s) (toolMetas s) (toolMetaById s) (toolSummaryById s)
    (deltaBuffer s) (blockBuffer s) v (blockThinkingActive s) (lastStreamedAssistant s)
    (lastStreamedReasoning s) (lastBlockReplyText s) (assistantTextBaseline s)
    (compactionInFlight s) (pendingCompactionRetry s) (compactionRetryPromise s)
    (lastReasoningSent s) (messagingToolSentTexts s) (messagingToolSentTargets s)
    (pendingMessagingTexts s) (pendingMessagingTargets s) (promisesCreated s)
    (promisesResolved s) (outputs s).
Definition set_blockThinkingActive v (s : State) : State :=
  Build_State (assistantTexts s) (toolMetas s) (toolMetaById s) (toolSummaryById s)
    (deltaBuffer s) (blockBuffer s) (blockChunker s) v (lastStreamedAssistant s)
    (lastStreamedReasoning s) (lastBlockReplyText s) (assistantTextBaseline s)
    (compactionInFlight s) (pendingCompactionRetry s) (compactionRetryPromise s)
    (lastReasoningSent s) (messagingToolSentTexts s) (messagingToolSentTargets s)
    (pendingMessagingTexts s) (pendingMessagingTargets s) (promisesCreated s)
    (promisesResolved s) (outputs s).
Definition set_lastStreamedAssistant v (s : State) : State :=
  Build_State (assistantTexts s) (toolMetas s) (toolMetaById s) (toolSummaryById s)
    (deltaBuffer s) (blockBuffer s) (blockChunker s) (blockThinkingActive s) v
    (lastStreamedReasoning s) (lastBlockReplyText s) (assistantTextBaseline s)
    (compactionInFlight s) (pendingCompactionRetry s) (compactionRetryPromise s)
    (lastReasoningSent s) (messagingToolSentTexts s) (messagingToolSentTargets s)
    (pendingMessagingTexts s) (pendingMessagingTargets s) (promisesCreated s)
    (promisesResolved s) (outputs s).
Definition set_lastStreamedReasoning v (s : State) : State :=
  Build_State (assistantTexts s) (toolMetas s) (toolMetaById s) (toolSummaryById s)
    (deltaBuffer s) (blockBuffer s) (blockChunker s) (blockThinkingActive s)
    (lastStreamedAssistant s) v (lastBlockReplyText s) (assistantTextBaseline s)
    (compactionInFlight s) (pendingCompactionRetry s) (compactionRetryPromise s)
    (lastReasoningSent s) (messagingToolSentTexts s) (messagingToolSentTargets s)
    (pendingMessagingTexts s) (pendingMessagingTargets s) (promisesCreated s)
    (promisesResolved s) (outputs s).
Definition set_lastBlockReplyText v (s : State) : State :=
  Build_State (assistantTexts s) (toolMetas s) (toolMetaById s) (toolSummaryById s)
    (deltaBuffer s) (blockBuffer s) (blockChunker s) (blockThinkingActive s)
    (lastStreamedAssistant s) (lastStreamedReasoning s) v (assistantTextBaseline s)
    (compactionInFlight s) (pendingCompactionRetry s) (compactionRetryPromise s)
    (lastReasoningSent s) (messagingToolSentTexts s) (messagingToolSentTargets s)
    (pendingMessagingTexts s) (pendingMessagingTargets s) (promisesCreated s)
    (promisesResolved s) (outputs s).
Definition set_assistantTextBaseline v (s : State) : State :=
  Build_State (assistantTexts s) (toolMetas s) (toolMetaById s) (toolSummaryById s)
    (deltaBuffer s) (blockBuffer s) (blockChunker s) (blockThinkingActive s)
    (lastStreamedAssistant s) (lastStreamedReasoning s) (lastBlockReplyText s) v
    (compactionInFlight s) (pendingCompactionRetry s) (compactionRetryPromise s)
    (lastReasoningSent s) (messagingToolSentTexts s) (messagingToolSentTargets s)
    (pendingMessagingTexts s) (pendingMessagingTargets s) (promisesCreated s)
    (promisesResolved s) (outputs s).
Definition set_compactionInFlight v (s : State) : State :=
  Build_State (assistantTexts s) (toolMetas s) (toolMetaById s) (toolSummaryById s)
    (deltaBuffer s) (blockBuffer s) (blockChunker s) (blockThinkingActive s)
    (lastStreamedAssistant s) (lastStreamedReasoning s) (lastBlockReplyText s)
    (assistantTextBaseline s) v (pendingCompactionRetry s) (compactionRetryPromise s)
    (lastReasoningSent s) (messagingToolSentTexts s) (messagingToolSentTargets s)
    (pendingMessagingTexts s) (pendingMessagingTargets s) (promisesCreated s)
    (promisesResolved s) (outputs s).
Definition set_pendingCompactionRetry v (s : State) : State :=
  Build_State (assistantTexts s) (toolMetas s) (toolMetaById s) (toolSummaryById s)
    (deltaBuffer s) (blockBuffer s) (blockChunker s) (blockThinkingActive s)
    (lastStreamedAssistant s) (lastStreamedReasoning s) (lastBlockReplyText s)
    (assistantTextBaseline s) (compactionInFlight s) v (compactionRetryPromise s)
    (lastReasoningSent s) (messagingToolSentTexts s) (messagingToolSentTargets s)
    (pendingMessagingTexts s) (pendingMessagingTargets s) (promisesCreated s)
    (promisesResolved s) (outputs s).
Definition set_compactionRetryPromise v (s : State) : State :=
  Build_State (assistantTexts s) (toolMetas s) (toolMetaById s) (toolSummaryById s)
    (deltaBuffer s) (blockBuffer s) (blockChunker s) (blockThinkingActive s)
    (lastStreamedAssistant s) (lastStreamedReasoning s) (lastBlockReplyText s)
    (assistantTextBaseline s) (compactionInFlight s) (pendingCompactionRetry s) v
    (lastReasoningSent s) (messagingToolSentTexts s) (messagingToolSentTargets s)
    (pendingMessagingTexts s) (pendingMessagingTargets s) (promisesCreated s)
    (promisesResolved s) (outputs s).
Definition set_lastReasoningSent v (s : State) : State :=
  Build_State (assistantTexts s) (toolMetas s) (toolMetaById s) (toolSummaryById s)
    (deltaBuffer s) (blockBuffer s) (blockChunker s) (blockThinkingActive s)
    (lastStreamedAssistant s) (lastStreamedReasoning s) (lastBlockReplyText s)
    (assistantTextBaseline s) (compactionInFlight s) (pendingCompactionRetry s)
    (compactionRetryPromise s) v (messagingToolSentTexts s) (messagingToolSentTargets s)
    (pendingMessagingTexts s) (pendingMessagingTargets s) (promisesCreated s)
    (promisesResolved s) (outputs s).
Definition set_messagingToolSentTexts v (s : State) : State :=
  Build_State (assistantTexts s) (toolMetas s) (toolMetaById s) (toolSummaryById s)
    (deltaBuffer s) (blockBuffer s) (blockChunker s) (blockThinkingActive s)
    (lastStreamedAssistant s) (lastStreamedReasoning s) (lastBlockReplyText s)
    (assistantTextBaseline s) (compactionInFlight s) (pendingCompactionRetry s)
    (compactionRetryPromise s) (lastReasoningSent s) v (messagingToolSentTargets s)
    (pendingMessagingTexts s) (pendingMessagingTargets s) (promisesCreated s)
    (promisesResolved s) (outputs s).
Definition set_messagingToolSentTargets v (s : State) : State :=
  Build_State (assistantTexts s) (toolMetas s) (toolMetaById s) (toolSummaryById s)
    (deltaBuffer s) (blockBuffer s) (blockChunker s) (blockThinkingActive s)
    (lastStreamedAssistant s) (lastStreamedReasoning s) (lastBlockReplyText s)
    (assistantTextBaseline s) (compactionInFlight s) (pendingCompactionRetry s)
    (compactionRetryPromise s) (lastReasoningSent s) (messagingToolSentTexts s) v
    (pendingMessagingTexts s) (pendingMessagingTargets s) (promisesCreated s)
    (promisesResolved s) (outputs s).
Definition set_pendingMessagingTexts v (s : State) : State :=
  Build_State (assistantTexts s) (toolMetas s) (toolMetaById s) (toolSummaryById s)
    (deltaBuffer s) (blockBuffer s) (blockChunker s) (blockThinkingActive s)
    (lastStreamedAssistant s) (lastStreamedReasoning s) (lastBlockReplyText s)
    (assistantTextBaseline s) (compactionInFlight s) (pendingCompactionRetry s)
    (compactionRetryPromise s) (lastReasoningSent s) (messagingToolSentTexts s)
    (messagingToolSentTargets s) v (pendingMessagingTargets s) (promisesCreated s)
    (promisesResolved s) (outputs s).
Definition set_pendingMessagingTargets v (s : State) : State :=
  Build_State (assistantTexts s) (toolMetas s) (toolMetaById s) (toolSummaryById s)
    (deltaBuffer s) (blockBuffer s) (blockChunker s) (blockThinkingActive s)
    (lastStreamedAssistant s) (lastStreamedReasoning s) (lastBlockReplyText s)
    (assistantTextBaseline s) (compactionInFlight s) (pendingCompactionRetry s)
    (compactionRetryPromise s) (lastReasoningSent s) (messagingToolSentTexts s)
    (messagingToolSentTargets s) (pendingMessagingTexts s) v (promisesCreated s)
    (promisesResolved s) (outputs s).
Definition set_promisesCreated v (s : State) : State :=
  Build_State (assistantTexts s) (toolMetas s) (toolMetaById s) (toolSummaryById s)
    (deltaBuffer s) (blockBuffer s) (blockChunker s) (blockThinkingActive s)
    (lastStreamedAssistant s) (lastStreamedReasoning s) (lastBlockReplyText s)
    (assistantTextBaseline s) (compactionInFlight s) (pendingCompactionRetry s)
    (compactionRetryPromise s) (lastReasoningSent s) (messagingToolSentTexts s)
    (messagingToolSentTargets s) (pendingMessagingTexts s) (pendingMessagingTargets s) v
    (promisesResolved s) (outputs s).
Definition set_promisesResolved v (s : State) : State :=
  Build_State (assistantTexts s) (toolMetas s) (toolMetaById s) (toolSummaryById s)
    (deltaBuffer s) (blockBuffer s) (blockChunker s) (blockThinkingActive s)
    (lastStreamedAssistant s) (lastStreamedReasoning s) (lastBlockReplyText s)
    (assistantTextBaseline s) (compactionInFlight s) (pendingCompactionRetry s)
    (compactionRetryPromise s) (lastReasoningSent s) (messagingToolSentTexts s)
    (messagingToolSentTargets s) (pendingMessagingTexts s) (pendingMessagingTargets s)
    (promisesCreated s) v (outputs s).
Definition set_outputs v (s : State) : State :=
  Build_State (assistantTexts s) (toolMetas s) (toolMetaById s) (toolSummaryById s)
    (deltaBuffer s) (blockBuffer s) (blockChunker s) (blockThinkingActive s)
    (lastStreamedAssistant s) (lastStreamedReasoning s) (lastBlockReplyText s)
    (assistantTextBaseline s) (compactionInFlight s) (pendingCompactionRetry s)
    (compactionRetryPromise s) (lastReasoningSent s) (messagingToolSentTexts s)
    (messagingToolSentTargets s) (pendingMessagingTexts s) (pendingMessagingTargets s)
    (promisesCreated s) (promisesResolved s) v.

Definition emit (o : Output) (s : State) : State :=
  set_outputs (outputs s ++ [o]) s.

(** A guarded statement: [if (cond) step]. *)
Definition when (cond : bool) (step : State -> State) (s : State) : State :=
  if cond then step s else s.

(** *** Compaction retry gate *)

Definition ensureCompactionPromise (s : State) : State :=
  match compactionRetryPromise s with
  | Some _ => s
  | None =>
      set_promisesCreated (S (promisesCreated s))
        (set_compactionRetryPromise (Some (promisesCreated s)) s)
  end.

Definition noteCompactionRetry (s : State) : State :=
  ensureCompactionPromise
    (set_pendingCompactionRetry (pendingCompactionRetry s + 1) s).

(** [compactionRetryResolve?.(); compactionRetryResolve = undefined;
    compactionRetryPromise = null]. *)
Definition resolveGate (s : State) : State :=
  match compactionRetryPromise s with
  | Some pr =>
      set_compactionRetryPromise None
        (set_promisesResolved (promisesResolved s ++ [pr]) s)
  | None => s
  end.

Definition maybeResolveCompactionWait (s : State) : State :=
  if (pendingCompactionRetry s =? 0) && negb (compactionInFlight s)
  then resolveGate s
  else s.

Definition resolveCompactionRetry (s : State) : State :=
  if pendingCompactionRetry s <=? 0 then s
  else
    let s1 := set_pendingCompactionRetry (pendingCompactionRetry s - 1) s in
    if (pendingCompactionRetry s1 =? 0) && negb (compactionInFlight s1)
    then resolveGate s1
    else s1.

Definition isCompacting (s : State) : bool :=
  compactionInFlight s || (0 <? pendingCompactionRetry s).

(** [waitForCompactionRetry()]: either the shared gate promise is
    returned, or a fresh promise that looks at the state again in a
    microtask ([recheckCompactionWait]). *)
Inductive Wait := WaitOnGate (promise : nat) | WaitResolved | WaitMicrotask.

Definition gateOf (s : State) : Wait :=
  match compactionRetryPromise s with
  | Some pr => WaitOnGate pr
  | None => WaitResolved
  end.

Definition waitForCompactionRetry (s : State) : State * Wait :=
  if compactionInFlight s || (0 <? pendingCompactionRetry s)
  then let s1 := ensureCompactionPromise s in (s1, gateOf s1)
  else (s, WaitMicrotask).

Definition recheckCompactionWait (s : State) : State * Wait :=
  if compactionInFlight s || (0 <? pendingCompactionRetry s)
  then let s1 := ensureCompactionPromise s in (s1, gateOf s1)
  else (s, WaitResolved).

(** *** Tool summaries, block replies, reasoning drafts *)

Definition emitToolSummary (p : Params) (toolName : string) (meta : option string)
    (s : State) : State :=
  if negb (onToolResult p) then s
  else
    let metas :=
      match meta with
      | Some m => if Js.truthy m then Some [m] else None
      | None => None
      end in
    let '(cleanedText, mediaUrls) :=
      splitMediaFromOutput (formatToolAggregate toolName metas) in
    if negb (Js.truthy cleanedText) && bool_decide (mediaUrls = []) then s
    else emit (ToolResult cleanedText mediaUrls) s.

Definition emitBlockChunk (text : string) (s : State) : State :=
  let '(strippedText, active) :=
    stripBlockThinkingSegments (blockThinkingActive s) text in
  let s := set_blockThinkingActive active s in
  let chunk := Js.trimEnd strippedText in
  if negb (Js.truthy chunk) then s
  else if bool_decide (lastBlockReplyText s = Some chunk) then s
  else if isMessagingToolDuplicate chunk (messagingToolSentTexts s) then s
  else
    emit (BlockChunk chunk)
      (set_assistantTexts (assistantTexts s ++ [chunk])
         (set_lastBlockReplyText (Some chunk) s)).

(** [blockChunker.drain({ force, emit: emitBlockChunk })]. *)
Definition drainChunker (force : bool) (c : C) (s : State) : State :=
  let '(chunks, c') := chunker_drain force c in
  fold_left (fun st chunk => emitBlockChunk chunk st) chunks
    (set_blockChunker (Some c') s).

Definition resetChunker (s : State) : State :=
  set_blockChunker (chunker_reset <$> blockChunker s) s.

Definition emitReasoningStream (p : Params) (text : string) (s : State) : State :=
  if negb (streamReasoning p) || negb (onReasoningStream p) then s
  else
    let formatted := formatReasoningDraft text in
    if negb (Js.truthy formatted) then s
    else if bool_decide (lastStreamedReasoning s = Some formatted) then s
    else emit (ReasoningDraft formatted) (set_lastStreamedReasoning (Some formatted) s).

Definition resetForCompactionRetry (s : State) : State :=
  {| assistantTexts := [];
     toolMetas := [];
     toolMetaById := ∅;
     toolSummaryById := ∅;
     messagingToolSentTexts := [];
     messagingToolSentTargets := [];
     pendingMessagingTexts := ∅;
     pendingMessagingTargets := ∅;
     deltaBuffer := EmptyString;
     blockBuffer := EmptyString;
     blockChunker := chunker_reset <$> blockChunker s;
     blockThinkingActive := false;
     lastStreamedAssistant := None;
     lastStreamedReasoning := None;
     lastBlockReplyText := None;
     assistantTextBaseline := 0%nat;
     (* not assigned by the reset *)
     compactionInFlight := compactionInFlight s;
     pendingCompactionRetry := pendingCompactionRetry s;
     compactionRetryPromise := compactionRetryPromise s;
     lastReasoningSent := lastReasoningSent s;
     promisesCreated := promisesCreated s;
     promisesResolved := promisesResolved s;
     outputs := outputs s |}.

(** The flush shared by [text_end] and [agent_end]: drain a chunker that
    has buffered text, otherwise emit the whole [blockBuffer]. *)
Definition flushBlock (s : State) : State :=
  match blockChunker s with
  | Some c =>
      if chunker_hasBuffered c then resetChunker (drainChunker true c s)
      else if (0 <? String.length (blockBuffer s))%nat
      then set_blockBuffer EmptyString (emitBlockChunk (blockBuffer s) s)
      else s
  | None =>
      if (0 <? String.length (blockBuffer s))%nat
      then set_blockBuffer EmptyString (emitBlockChunk (blockBuffer s) s)
      else s
  end.

(** *** Event handlers *)

Definition onMessageStart (s : State) : State :=
  {| deltaBuffer := EmptyString;
     blockBuffer := EmptyString;
     blockChunker := chunker_reset <$> blockChunker s;
     blockThinkingActive := false;
     lastStreamedAssistant := None;
     lastBlockReplyText := None;
     lastStreamedReasoning := None;
     lastReasoningSent := None;
     assistantTextBaseline := length (assistantTexts s);
     (* not assigned at [message_start] *)
     assistantTexts := assistantTexts s;
     toolMetas := toolMetas s;
     toolMetaById := toolMetaById s;
     toolSummaryById := toolSummaryById s;
     compactionInFlight := compactionInFlight s;
     pendingCompactionRetry := pendingCompactionRetry s;
     compactionRetryPromise := compactionRetryPromise s;
     messagingToolSentTexts := messagingToolSentTexts s;
     messagingToolSentTargets := messagingToolSentTargets s;
     pendingMessagingTexts := pendingMessagingTexts s;
     pendingMessagingTargets := pendingMessagingTargets s;
     promisesCreated := promisesCreated s;
     promisesResolved := promisesResolved s;
     outputs := outputs s |}.

Definition actionOf (args : option ToolArgs) : string :=
  match args with
  | Some a => match arg_action a with JsString x => x | _ => EmptyString end
  | None => EmptyString
  end.

(** [(argsRecord.content as string) ?? (argsRecord.message as string)]. *)
Definition sentTextOf (args : option ToolArgs) : JsValue :=
  match args with
  | Some a =>
      match arg_content a with
      | JsUndefined | JsNull => arg_message a
      | v => v
      end
  | None => JsUndefined
  end.

Definition trackMessagingSend (toolName toolCallId : string)
    (args : option ToolArgs) (sendTarget : option MessagingToolSend)
    (s : State) : State :=
  if bool_decide (toolName ∈ MESSAGING_TOOLS) then
    let action := actionOf args in
    if String.eqb action "sendMessage" || String.eqb action "threadReply"
       || String.eqb toolName "sessions_send"
    then
      let s :=
        match sendTarget with
        | Some target =>
            set_pendingMessagingTargets
              (<[toolCallId := target]> (pendingMessagingTargets s)) s
        | None => s
        end in
      match sentTextOf args with
      | JsString text =>
          if Js.truthy text
          then set_pendingMessagingTexts
                 (<[toolCallId := text]> (pendingMessagingTexts s)) s
          else s
      | _ => s
      end
    else s
  else s.

Definition onToolExecutionStart (p : Params) (toolName toolCallId : string)
    (meta : option string) (args : option ToolArgs)
    (sendTarget : option MessagingToolSend) (emitAnswer : bool) (s : State)
  : State :=
  let s := set_toolMetaById (<[toolCallId := meta]> (toolMetaById s)) s in
  let s :=
    when (onToolResult p && shouldEmitToolResult p emitAnswer
          && negb (bool_decide (toolCallId ∈ toolSummaryById s)))
      (fun s => emitToolSummary p toolName meta
                  (set_toolSummaryById ({[toolCallId]} ∪ toolSummaryById s) s)) s in
  trackMessagingSend toolName toolCallId args sendTarget s.

(** Commit messaging tool text on success, discard on error. *)
Definition onToolExecutionEnd (toolName toolCallId : string) (isError : bool)
    (s : State) : State :=
  let meta := mjoin (toolMetaById s !! toolCallId) in
  let s := set_toolMetas (toolMetas s ++ [(toolName, meta)]) s in
  let s := set_toolMetaById (delete toolCallId (toolMetaById s)) s in
  let s := set_toolSummaryById (toolSummaryById s ∖ {[toolCallId]}) s in
  let pendingText := pendingMessagingTexts s !! toolCallId in
  let pendingTarget := pendingMessagingTargets s !! toolCallId in
  let s :=
    match pendingText with
    | Some text =>
        if Js.truthy text then
          let s := set_pendingMessagingTexts
                     (delete toolCallId (pendingMessagingTexts s)) s in
          if negb isError
          then set_messagingToolSentTexts (messagingToolSentTexts s ++ [text]) s
          else s
        else s
    | None => s
    end in
  match pendingTarget with
  | Some target =>
      let s := set_pendingMessagingTargets
                 (delete toolCallId (pendingMessagingTargets s)) s in
      if negb isError
      then set_messagingToolSentTargets (messagingToolSentTargets s ++ [target]) s
      else s
  | None => s
  end.

(** [deltaBuffer += chunk] and the hand-over to the chunker or to
    [blockBuffer], under [if (chunk)]. *)
Definition appendChunk (chunk : string) (s : State) : State :=
  if Js.truthy chunk then
    let s := set_deltaBuffer (deltaBuffer s +:+ chunk) s in
    match blockChunker s with
    | Some c => set_blockChunker (Some (chunker_append c chunk)) s
    | None => set_blockBuffer (blockBuffer s +:+ chunk) s
    end
  else s.

Definition streamThinking (p : Params) (s : State) : State :=
  when (streamReasoning p)
    (emitReasoningStream p (extractThinkingFromStream (deltaBuffer s))) s.

(** The partial reply: [if (next && next !== lastStreamedAssistant)]. *)
Definition streamAssistant (p : Params) (s : State) : State :=
  let next := cleanedNext p (deltaBuffer s) in
  if Js.truthy next && negb (bool_decide (lastStreamedAssistant s = Some next))
  then emit (AssistantStream next) (set_lastStreamedAssistant (Some next) s)
  else s.

(** [if (params.onBlockReply && blockChunking && blockReplyBreak ===
    "text_end") blockChunker?.drain({ force: false, emit: emitBlockChunk })]. *)
Definition drainOnUpdate (p : Params) (s : State) : State :=
  match blockChunker s, blockReplyBreak p with
  | Some c, BreakTextEnd => if onBlockReply p then drainChunker false c s else s
  | _, _ => s
  end.

Definition flushOnTextEnd (p : Params) (evtType : AssistantEventType) (s : State)
  : State :=
  match evtType, blockReplyBreak p with
  | TextEnd, BreakTextEnd => flushBlock s
  | _, _ => s
  end.

Definition onMessageUpdate (p : Params) (evtType : AssistantEventType)
    (delta content : string) (s : State) : State :=
  match evtType with
  | OtherAssistantEvent => s
  | _ =>
      let chunk := resolveChunk evtType delta content (deltaBuffer s) in
      let s := appendChunk chunk s in
      let s := streamThinking p s in
      let s := streamAssistant p s in
      let s := drainOnUpdate p s in
      flushOnTextEnd p evtType s
  end.

(** [text] of the [message_end] handler. *)
Definition finalText (p : Params) (rawText : string) : string :=
  let cleaned :=
    if enforceFinalTag p
    then stripThinkingSegments (stripUnpairedThinkingTags rawText)
    else stripThinkingSegments rawText in
  if enforceFinalTag p && Js.truthy cleaned
  then match extractFinalText cleaned with
       | Some final => Js.trim final
       | None => cleaned
       end
  else cleaned.

(** Non-streaming models: [assistantTexts] gets the final text when
    nothing was added during the message and the chunker holds nothing;
    then the baseline moves to the end of [assistantTexts]. *)
Definition pushFinalText (text : string) (s : State) : State :=
  let addedDuringMessage :=
    (assistantTextBaseline s <? length (assistantTexts s))%nat in
  let chunkerHasBuffered :=
    match blockChunker s with
    | Some c => chunker_hasBuffered c
    | None => false
    end in
  let s :=
    if negb addedDuringMessage && negb chunkerHasBuffered && Js.truthy text
    then
      match last (assistantTexts s) with
      | Some l =>
          if negb (Js.truthy l) || negb (String.eqb l text)
          then set_assistantTexts (assistantTexts s ++ [text]) s
          else s
      | None => set_assistantTexts (assistantTexts s ++ [text]) s
      end
    else s in
  set_assistantTextBaseline (length (assistantTexts s)) s.

Definition emitReasoningBlock (formattedReasoning : string) (s : State) : State :=
  emit (ReasoningBlock formattedReasoning)
    (set_lastReasoningSent (Some formattedReasoning) s).

Definition isMessageEndBreak (p : Params) : bool :=
  match blockReplyBreak p with BreakMessageEnd => true | BreakTextEnd => false end.

(** The final block reply of [message_end]. *)
Definition emitFinalBlock (p : Params) (text : string) (s : State) : State :=
  let buffered :=
    match blockChunker s with
    | Some c => chunker_hasBuffered c
    | None => (0 <? String.length (blockBuffer s))%nat
    end in
  if (isMessageEndBreak p || buffered) && Js.truthy text && onBlockReply p
  then
    let viaText :=
      if negb (bool_decide (lastBlockReplyText s = Some text)) then
        if isMessagingToolDuplicate text (messagingToolSentTexts s) then s
        else emit (FinalBlock text) (set_lastBlockReplyText (Some text) s)
      else s in
    match blockChunker s with
    | Some c =>
        if chunker_hasBuffered c then resetChunker (drainChunker true c s)
        else viaText
    | None => viaText
    end
  else s.

Definition resetAtMessageEnd (s : State) : State :=
  {| deltaBuffer := EmptyString;
     blockBuffer := EmptyString;
     blockChunker := chunker_reset <$> blockChunker s;
     blockThinkingActive := false;
     lastStreamedAssistant := None;
     (* not assigned at the end of [message_end] *)
     lastBlockReplyText := lastBlockReplyText s;
     lastStreamedReasoning := lastStreamedReasoning s;
     lastReasoningSent := lastReasoningSent s;
     assistantTextBaseline := assistantTextBaseline s;
     assistantTexts := assistantTexts s;
     toolMetas := toolMetas s;
     toolMetaById := toolMetaById s;
     toolSummaryById := toolSummaryById s;
     compactionInFlight := compactionInFlight s;
     pendingCompactionRetry := pendingCompactionRetry s;
     compactionRetryPromise := compactionRetryPromise s;
     messagingToolSentTexts := messagingToolSentTexts s;
     messagingToolSentTargets := messagingToolSentTargets s;
     pendingMessagingTexts := pendingMessagingTexts s;
     pendingMessagingTargets := pendingMessagingTargets s;
     promisesCreated := promisesCreated s;
     promisesResolved := promisesResolved s;
     outputs := outputs s |}.

Definition onMessageEnd (p : Params) (rawText assistantThinking : string)
    (s : State) : State :=
  let text := finalText p rawText in
  let rawThinking :=
    if includeReasoning p || streamReasoning p
    then if Js.truthy assistantThinking then assistantThinking
         else extractThinkingFromText rawText
    else EmptyString in
  let formattedReasoning :=
    if Js.truthy rawThinking then formatReasoningMarkdown rawThinking
    else EmptyString in
  let addedDuringMessage :=
    (assistantTextBaseline s <? length (assistantTexts s))%nat in
  let s := pushFinalText text s in
  let shouldEmitReasoning :=
    includeReasoning p && Js.truthy formattedReasoning && onBlockReply p
    && negb (bool_decide (lastReasoningSent s = Some formattedReasoning)) in
  let shouldEmitReasoningBeforeAnswer :=
    shouldEmitReasoning && isMessageEndBreak p && negb addedDuringMessage in
  let s :=
    when (shouldEmitReasoningBeforeAnswer && Js.truthy formattedReasoning)
      (emitReasoningBlock formattedReasoning) s in
  let s := emitFinalBlock p text s in
  let s :=
    when (shouldEmitReasoning && negb shouldEmitReasoningBeforeAnswer
          && Js.truthy formattedReasoning)
      (emitReasoningBlock formattedReasoning) s in
  let s :=
    when (streamReasoning p && Js.truthy rawThinking)
      (emitReasoningStream p rawThinking) s in
  resetAtMessageEnd s.

Definition onAutoCompactionStart (s : State) : State :=
  ensureCompactionPromise (set_compactionInFlight true s).

Definition onAutoCompactionEnd (willRetry : bool) (s : State) : State :=
  let s := set_compactionInFlight false s in
  if willRetry then resetForCompactionRetry (noteCompactionRetry s)
  else maybeResolveCompactionWait s.

(** [if (pendingCompactionRetry > 0) resolveCompactionRetry() else
    maybeResolveCompactionWait()]. *)
Definition settleCompaction (s : State) : State :=
  if 0 <? pendingCompactionRetry s
  then resolveCompactionRetry s
  else maybeResolveCompactionWait s.

Definition onAgentEnd (p : Params) (s : State) : State :=
  let s := when (onBlockReply p) flushBlock s in
  let s := set_blockThinkingActive false s in
  settleCompaction s.

(** The subscription callback. *)
Definition handle (p : Params) (s : State) (evt : Event) : State :=
  match evt with
  | MessageStart Assistant => onMessageStart s
  | MessageStart OtherRole => s
  | ToolExecutionStart toolName toolCallId meta args sendTarget emitAnswer =>
      onToolExecutionStart p toolName toolCallId meta args sendTarget emitAnswer s
  | ToolExecutionUpdate _ _ => s
  | ToolExecutionEnd toolName toolCallId isError =>
      onToolExecutionEnd toolName toolCallId isError s
  | MessageUpdate Assistant evtType delta content =>
      onMessageUpdate p evtType delta content s
  | MessageUpdate OtherRole _ _ _ => s
  | MessageEnd Assistant rawText assistantThinking =>
      onMessageEnd p rawText assistantThinking s
  | MessageEnd OtherRole _ _ => s
  | AgentStart => s
  | AutoCompactionStart => onAutoCompactionStart s
  | AutoCompactionEnd willRetry => onAutoCompactionEnd willRetry s
  | AgentEnd => onAgentEnd p s
  | OtherEvent => s
  end.

Definition run (p : Params) (s : State) (evts : list Event) : State :=
  fold_left (handle p) evts s.

(** What [onBlockReply] and [onPartialReply] receive, computed from the
    output record. *)
Definition payload (text : string) : option (string * list string) :=
  let '(cleanedText, mediaUrls) := splitMediaFromOutput text in
  if negb (Js.truthy cleanedText) && bool_decide (mediaUrls = []) then None
  else Some (cleanedText, mediaUrls).

Definition blockReplyCalls (p : Params) (outs : list Output)
  : list (string * list string) :=
  if onBlockReply p then
    omap (fun o =>
            match o with
            | BlockChunk t | FinalBlock t => payload t
            | ReasoningBlock t => Some (t, [])
            | _ => None
            end) outs
  else [].

Definition partialReplyCalls (p : Params) (outs : list Output)
  : list (string * list string) :=
  if onPartialReply p then
    omap (fun o =>
            match o with
            | AssistantStream next => Some (splitMediaFromOutput next)
            | _ => None
            end) outs
  else [].

(** The texts accepted as block replies ([lastBlockReplyText] assignments). *)
Definition acceptedBlocks (outs : list Output) : list string :=
  omap (fun o =>
          match o with
          | BlockChunk t | FinalBlock t => Some t
          | _ => None
          end) outs.

(** The cleaned cumulative texts streamed as partial replies. *)
Definition streamedTexts (outs : list Output) : list string :=
  omap (fun o => match o with AssistantStream t => Some t | _ => None end) outs.

End Reconciler.

Arguments State C : clear implicits.

(** Modelled from the spec: the helpers [splitMediaFromOutput],
    [isMessagingToolDuplicate] and [formatToolAggregate] are not part of the
    sources.  This instance is the plainest reading of sections 4.5 and 8:
    a reply text that carries no media directive is its own cleaned text, a
    candidate reply is a duplicate when it exactly matches a committed
    tool-sent text, and a tool summary is the tool name followed by its
    metadata.  Block chunking is not configured: there is no chunker state. *)
Definition plainCollaborators : Collaborators Empty_set :=
  {| splitMediaFromOutput := fun text => (text, []);
     isMessagingToolDuplicate := fun text sentTexts => bool_decide (text ∈ sentTexts);
     formatToolAggregate := fun toolName metas =>
       match metas with
       | Some ms => foldl (fun acc m => acc +:+ " " +:+ m) toolName ms
       | None => toolName
       end;
     chunker_append := fun c _ => c;
     chunker_drain := fun _ c => ([], c);
     chunker_hasBuffered := fun _ => false;
     chunker_reset := fun c => c |}.

#[global] Existing Instance plainCollaborators.

(** The default parameters: block replies flushed at [text_end], partial
    replies delivered, no reasoning output, no tool summaries. *)
Definition defaultParams : Params :=
  {| verboseLevelOn := false; reasoningMode := ReasoningOff;
     shouldEmitToolResultFn := false; onToolResult := false;
     onReasoningStream := false; onBlockReply := true;
     blockReplyBreak := BreakTextEnd; onPartialReply := true;
     enforceFinalTag := false |}.

(** The same with block replies sent at [message_end]. *)
Definition atMessageEnd : Params :=
  {| verboseLevelOn := false; reasoningMode := ReasoningOff;
     shouldEmitToolResultFn := false; onToolResult := false;
     onReasoningStream := false; onBlockReply := true;
     blockReplyBreak := BreakMessageEnd; onPartialReply := true;
     enforceFinalTag := false |}.

(** ** The run registry ([pi-embedded-runner.ts]) *)

Module Registry.

(** An [EmbeddedPiQueueHandle].  Its four closures read and drive the
    run's agent session and subscription; the record holds what they
    observe and what they have done: [session.isStreaming], the two
    variables behind [subscription.isCompacting()], the texts passed to
    [session.steer], and whether [abortRun] was called.  [handle_id] is
    the identity of the handle object. *)
Record Handle := {
  handle_id : nat;
  session_isStreaming : bool;
  sub_compactionInFlight : bool;
  sub_pendingCompactionRetry : Z;
  session_steered : list string;
  run_aborted : bool;
}.

Definition handle_isStreaming (h : Handle) : bool := session_isStreaming h.

(** [isCompacting: () => compactionInFlight || pendingCompactionRetry > 0]. *)
Definition handle_isCompacting (h : Handle) : bool :=
  sub_compactionInFlight h || (0 <? sub_pendingCompactionRetry h).

Definition handle_queueMessage (text : string) (h : Handle) : Handle :=
  {| handle_id := handle_id h;
     session_isStreaming := session_isStreaming h;
     sub_compactionInFlight := sub_compactionInFlight h;
     sub_pendingCompactionRetry := sub_pendingCompactionRetry h;
     session_steered := session_steered h ++ [text];
     run_aborted := run_aborted h |}.

Definition handle_abort (h : Handle) : Handle :=
  {| handle_id := handle_id h;
     session_isStreaming := session_isStreaming h;
     sub_compactionInFlight := sub_compactionInFlight h;
     sub_pendingCompactionRetry := sub_pendingCompactionRetry h;
     session_steered := session_steered h;
     run_aborted := true |}.

(** A JavaScript number: a finite value (every finite double is a
    rational), an infinity, or NaN. *)
Inductive JsNumber :=
| NumFinite (q : QArith_base.Q)
| NumPosInf
| NumNegInf
| NumNaN.

(** A whole number of milliseconds as a JavaScript number. *)
Definition ms (z : Z) : JsNumber := NumFinite (QArith_base.inject_Z z).

(** [Math.max(100, n)]: NaN if [n] is NaN, otherwise the larger of the two. *)
Definition mathMax100 (n : JsNumber) : JsNumber :=
  match n with
  | NumFinite q =>
      if QArith_base.Qle_bool q (QArith_base.inject_Z 100) then ms 100 else NumFinite q
  | NumPosInf => NumPosInf
  | NumNegInf => ms 100
  | NumNaN => NumNaN
  end.

(** The largest delay a timer of the runtime takes, [2^31 - 1] ms. *)
Definition TIMEOUT_MAX : Z := 2147483647.

(** The delay, in whole milliseconds, that the runtime's [setTimeout] arms
    for the number it is handed: a delay that is not between 1 and
    [TIMEOUT_MAX], NaN included, is replaced by 1; a fractional delay is
    truncated. *)
Definition setTimeoutDelay (after : JsNumber) : Z :=
  match after with
  | NumFinite q =>
      if QArith_base.Qle_bool (QArith_base.inject_Z 1) q
         && QArith_base.Qle_bool q (QArith_base.inject_Z TIMEOUT_MAX)
      then Qround.Qfloor q
      else 1
  | NumPosInf | NumNegInf | NumNaN => 1
  end.

(** An [EmbeddedRunWaiter]: [waiter_id] names its promise, [timer_ms] is
    the delay its timer was armed with.  The timer of a waiter is armed
    exactly while the waiter is in [EMBEDDED_RUN_WAITERS]. *)
Record Waiter := { waiter_id : nat; timer_ms : Z }.

Global Instance Waiter_eq_dec : EqDecision Waiter.
Proof. solve_decision. Defined.

(** The two module-level maps, the values the waiter promises were
    resolved with, and the number of promises created so far. *)
Record World := {
  ACTIVE_EMBEDDED_RUNS : gmap string Handle;
  EMBEDDED_RUN_WAITERS : gmap string (list Waiter);
  settled : gmap nat bool;
  waitersCreated : nat;
}.

Definition set_active (a : gmap string Handle) (w : World) : World :=
  {| ACTIVE_EMBEDDED_RUNS := a; EMBEDDED_RUN_WAITERS := EMBEDDED_RUN_WAITERS w;
     settled := settled w; waitersCreated := waitersCreated w |}.

Definition set_waiters (ws : gmap string (list Waiter)) (w : World) : World :=
  {| ACTIVE_EMBEDDED_RUNS := ACTIVE_EMBEDDED_RUNS w; EMBEDDED_RUN_WAITERS := ws;
     settled := settled w; waitersCreated := waitersCreated w |}.

(** [waiter.resolve(v)]: only the first resolution of a promise counts. *)
Definition resolve (wt : Waiter) (v : bool) (w : World) : World :=
  {| ACTIVE_EMBEDDED_RUNS := ACTIVE_EMBEDDED_RUNS w;
     EMBEDDED_RUN_WAITERS := EMBEDDED_RUN_WAITERS w;
     settled := match settled w !! waiter_id wt with
                | Some _ => settled w
                | None => <[waiter_id wt := v]> (settled w)
                end;
     waitersCreated := waitersCreated w |}.

Definition queueEmbeddedPiMessage (sessionId text : string) (w : World)
  : World * bool :=
  match ACTIVE_EMBEDDED_RUNS w !! sessionId with
  | None => (w, false)
  | Some handle =>
      if negb (handle_isStreaming handle) then (w, false)
      else if handle_isCompacting handle then (w, false)
      else
        (set_active
           (<[sessionId := handle_queueMessage text handle]> (ACTIVE_EMBEDDED_RUNS w)) w,
         true)
  end.

Definition abortEmbeddedPiRun (sessionId : string) (w : World) : World * bool :=
  match ACTIVE_EMBEDDED_RUNS w !! sessionId with
  | None => (w, false)
  | Some handle =>
      (set_active (<[sessionId := handle_abort handle]> (ACTIVE_EMBEDDED_RUNS w)) w,
       true)
  end.

Definition isEmbeddedPiRunActive (sessionId : string) (w : World) : bool :=
  bool_decide (is_Some (ACTIVE_EMBEDDED_RUNS w !! sessionId)).

Definition isEmbeddedPiRunStreaming (sessionId : string) (w : World) : bool :=
  match ACTIVE_EMBEDDED_RUNS w !! sessionId with
  | None => false
  | Some handle => handle_isStreaming handle
  end.

(** The promise returned by [waitForEmbeddedPiRunEnd]: already resolved, or
    the promise of a registered waiter. *)
Inductive WaitResult := Resolved (ended : bool) | Pending (wt : Waiter).

Definition removeWaiter (sessionId : string) (wt : Waiter) (w : World) : World :=
  let waiters := default [] (EMBEDDED_RUN_WAITERS w !! sessionId) in
  let rest := List.filter (fun x => negb (bool_decide (x = wt))) waiters in
  if bool_decide (rest = [])
  then set_waiters (delete sessionId (EMBEDDED_RUN_WAITERS w)) w
  else set_waiters (<[sessionId := rest]> (EMBEDDED_RUN_WAITERS w)) w.

Definition waitForEmbeddedPiRunEnd (sessionId : string) (timeoutMs : JsNumber)
    (w : World) : World * WaitResult :=
  if negb (Js.truthy sessionId) || negb (isEmbeddedPiRunActive sessionId w)
  then (w, Resolved true)
  else
    let waiters := default [] (EMBEDDED_RUN_WAITERS w !! sessionId) in
    let waiter := {| waiter_id := waitersCreated w;
                     timer_ms := setTimeoutDelay (mathMax100 timeoutMs) |} in
    let w1 :=
      {| ACTIVE_EMBEDDED_RUNS := ACTIVE_EMBEDDED_RUNS w;
         EMBEDDED_RUN_WAITERS :=
           <[sessionId := waiters ++ [waiter]]> (EMBEDDED_RUN_WAITERS w);
         settled := settled w;
         waitersCreated := S (waitersCreated w) |} in
    if negb (isEmbeddedPiRunActive sessionId w1)
    then (resolve waiter true (removeWaiter sessionId waiter w1), Pending waiter)
    else (w1, Pending waiter).

(** The [setTimeout] callback of a waiter; it runs only while the timer is
    armed, that is while the waiter is still registered. *)
Definition timerFires (sessionId : string) (wt : Waiter) (w : World) : World :=
  if bool_decide (wt ∈ default [] (EMBEDDED_RUN_WAITERS w !! sessionId))
  then resolve wt false (removeWaiter sessionId wt w)
  else w.

Definition notifyEmbeddedRunEnded (sessionId : string) (w : World) : World :=
  match EMBEDDED_RUN_WAITERS w !! sessionId with
  | None => w
  | Some [] => w
  | Some waiters =>
      fold_left (fun st wt => resolve wt true st) waiters
        (set_waiters (delete sessionId (EMBEDDED_RUN_WAITERS w)) w)
  end.

(** [ACTIVE_EMBEDDED_RUNS.set(params.sessionId, queueHandle)]. *)
Definition registerRun (sessionId : string) (h : Handle) (w : World) : World :=
  set_active (<[sessionId := h]> (ACTIVE_EMBEDDED_RUNS w)) w.

(** The [finally] block of a run: deregister if the registered handle is
    still this run's handle, then notify the waiters. *)
Definition finishRun (sessionId : string) (queueHandle : nat) (w : World) : World :=
  match ACTIVE_EMBEDDED_RUNS w !! sessionId with
  | Some h =>
      if bool_decide (handle_id h = queueHandle)
      then notifyEmbeddedRunEnded sessionId
             (set_active (delete sessionId (ACTIVE_EMBEDDED_RUNS w)) w)
      else w
  | None => w
  end.

End Registry.

(** ** Profile rotation after an attempt ([runEmbeddedPiAgent]) *)

Module Rotation.

Inductive ThinkLevel := ThinkOff | ThinkMinimal | ThinkLow | ThinkMedium | ThinkHigh.

(** What the attempt loop knows after [session.prompt] and
    [waitForCompactionRetry] returned.  The classifiers imported from
    pi-embedded-helpers.js and failover-error.js are outside this
    repository slice; their verdicts on the error text are part of the
    observation, next to the text itself. *)
Record PromptError := {
  prompt_errorText : string;                 (* describeUnknownError(promptError) *)
  prompt_isContextOverflow : bool;           (* isContextOverflowError(errorText) *)
  prompt_failoverReason : option string;     (* classifyFailoverReason(errorText) *)
  prompt_isFailoverMessage : bool;           (* isFailoverErrorMessage(errorText) *)
  prompt_fallbackThinking : option ThinkLevel; (* pickFallbackThinkingLevel(...) *)
}.

(** [lastAssistant] is the last assistant message of the session
    snapshot, if any: its [errorMessage], and the classifier verdicts the
    loop computes from it ([undefined] where there is no message). *)
Record Attempt := {
  promptError : option PromptError;
  aborted : bool;
  timedOut : bool;
  hasLastAssistant : bool;
  errorMessage : option string;              (* lastAssistant?.errorMessage *)
  formattedError : option string;            (* formatAssistantErrorText(lastAssistant) *)
  fallbackThinking : option ThinkLevel;      (* pickFallbackThinkingLevel(...) *)
  authFailure : bool;                        (* isAuthAssistantError(lastAssistant) *)
  rateLimitFailure : bool;                   (* isRateLimitAssistantError(lastAssistant) *)
  failoverFailure : bool;                    (* isFailoverAssistantError(lastAssistant) *)
  assistantFailoverReason : option string;   (* classifyFailoverReason(errorMessage ?? "") *)
  failoverStatus : option Z;                 (* resolveFailoverStatus(reason ?? "unknown") *)
  messageIsTimeout : bool;                   (* isTimeoutErrorMessage(message) *)
}.

(** The run's fixed inputs: provider and model ids, the candidate list
    ([profileCandidates]), the explicit pin, whether model fallbacks are
    configured, and the credential resolver ([getApiKeyForModel], [None]
    when it throws; the value is the resolved [profileId]). *)
Record RunConfig := {
  provider : string;
  modelId : string;
  profileCandidates : list (option string);
  explicitProfileId : option string;
  fallbackConfigured : bool;
  initialThinkLevel : ThinkLevel;
  resolveApiKey : option string -> option (option string);
}.

(** The loop variables, and the marks written to the profile store. *)
Record LoopState := {
  profileIndex : nat;
  thinkLevel : ThinkLevel;
  attemptedThinking : list ThinkLevel;
  lastProfileId : option string;
  failureMarks : list (string * string);     (* markAuthProfileFailure(profileId, reason) *)
}.

Record FailoverError := {
  fe_message : string;
  fe_reason : string;
  fe_provider : string;
  fe_model : string;
  fe_profileId : option string;
  fe_status : option Z;
}.

Inductive Thrown :=
| ThrowFailover (e : FailoverError)
| ThrowPromptError (errorText : string)
| ThrowCredentialError (candidate : option string).

Inductive Finished :=
| ContextOverflowReply
| Completed (errorPayload : option string).

Inductive Outcome :=
| Continue (st : LoopState)      (* [continue]: another attempt *)
| Throw (st : LoopState) (e : Thrown)
| Return (st : LoopState) (r : Finished).

Inductive Advance :=
| Advanced (st : LoopState)
| Exhausted
| AdvanceThrew (candidate : option string).

Definition truthyOpt (o : option string) : bool :=
  match o with Some s => Js.truthy s | None => false end.

(** The [while] loop of [advanceAuthProfile], from [nextIndex] on. *)
Fixpoint advanceFrom (cfg : RunConfig) (st : LoopState)
    (rest : list (option string)) (nextIndex : nat) : Advance :=
  match rest with
  | [] => Exhausted
  | candidate :: rest' =>
      match resolveApiKey cfg candidate with
      | Some profileId =>
          Advanced {| profileIndex := nextIndex;
                      thinkLevel := initialThinkLevel cfg;
                      attemptedThinking := [];
                      lastProfileId := profileId;
                      failureMarks := failureMarks st |}
      | None =>
          if truthyOpt candidate && bool_decide (candidate = explicitProfileId cfg)
          then AdvanceThrew candidate
          else advanceFrom cfg st rest' (S nextIndex)
      end
  end.

Definition advanceAuthProfile (cfg : RunConfig) (st : LoopState) : Advance :=
  advanceFrom cfg st (drop (S (profileIndex st)) (profileCandidates cfg))
    (S (profileIndex st)).

Definition markAuthProfileFailure (profileId reason : string) (st : LoopState)
  : LoopState :=
  {| profileIndex := profileIndex st; thinkLevel := thinkLevel st;
     attemptedThinking := attemptedThinking st; lastProfileId := lastProfileId st;
     failureMarks := failureMarks st ++ [(profileId, reason)] |}.

Definition withThinkLevel (t : ThinkLevel) (st : LoopState) : LoopState :=
  {| profileIndex := profileIndex st; thinkLevel := t;
     attemptedThinking := attemptedThinking st; lastProfileId := lastProfileId st;
     failureMarks := failureMarks st |}.

Definition isTimeoutReason (r : option string) : bool :=
  match r with Some s => String.eqb s "timeout" | None => false end.

Definition orUnknown (r : option string) : string := default "unknown" r.

(** The branch [if (promptError && !aborted)]. *)
Definition afterPromptError (cfg : RunConfig) (st : LoopState) (e : PromptError)
  : Outcome :=
  if prompt_isContextOverflow e then Return st ContextOverflowReply
  else
    let st :=
      match prompt_failoverReason e, lastProfileId st with
      | Some reason, Some profileId =>
          if Js.truthy reason && negb (String.eqb reason "timeout")
             && Js.truthy profileId
          then markAuthProfileFailure profileId reason st
          else st
      | _, _ => st
      end in
    let rotate :=
      if prompt_isFailoverMessage e && negb (isTimeoutReason (prompt_failoverReason e))
      then Some (advanceAuthProfile cfg st)
      else None in
    match rotate with
    | Some (Advanced st') => Continue st'
    | Some (AdvanceThrew c) => Throw st (ThrowCredentialError c)
    | Some Exhausted | None =>
        match prompt_fallbackThinking e with
        | Some level => Continue (withThinkLevel level st)
        | None => Throw st (ThrowPromptError (prompt_errorText e))
        end
    end.

(** The rest of the loop body, reached when no prompt error is handled:
    thinking fallback, then the [shouldRotate] block, then completion. *)
Definition afterAssistant (cfg : RunConfig) (st : LoopState) (a : Attempt) : Outcome :=
  match fallbackThinking a, aborted a with
  | Some level, false => Continue (withThinkLevel level st)
  | _, _ =>
      let formatted := if hasLastAssistant a then formattedError a else None in
      let shouldRotate := (negb (aborted a) && failoverFailure a) || timedOut a in
      let completed (st : LoopState) :=
        Return st (Completed (if truthyOpt formatted then formatted else None)) in
      if shouldRotate then
        let st :=
          match lastProfileId st with
          | Some profileId =>
              if Js.truthy profileId then
                let reason :=
                  if timedOut a || isTimeoutReason (assistantFailoverReason a)
                  then "timeout"
                  else orUnknown (assistantFailoverReason a) in
                markAuthProfileFailure profileId reason st
              else st
          | None => st
          end in
        match advanceAuthProfile cfg st with
        | Advanced st' => Continue st'
        | AdvanceThrew c => Throw st (ThrowCredentialError c)
        | Exhausted =>
            if fallbackConfigured cfg then
              let trimmedError := Js.trim (default EmptyString (errorMessage a)) in
              let message :=
                if Js.truthy trimmedError then trimmedError
                else if truthyOpt formatted then default EmptyString formatted
                else if timedOut a then "LLM request timed out."
                else if rateLimitFailure a then "LLM request rate limited."
                else if authFailure a then "LLM request unauthorized."
                else "LLM request failed." in
              let status :=
                match failoverStatus a with
                | Some code => Some code
                | None => if messageIsTimeout a then Some 408 else None
                end in
              Throw st
                (ThrowFailover
                   {| fe_message := message;
                      fe_reason := orUnknown (assistantFailoverReason a);
                      fe_provider := provider cfg;
                      fe_model := modelId cfg;
                      fe_profileId := lastProfileId st;
                      fe_status := status |})
            else completed st
        end
      else completed st
  end.

(** One pass through the part of the loop body that follows the attempt. *)
Definition afterAttempt (cfg : RunConfig) (st : LoopState) (a : Attempt) : Outcome :=
  match promptError a, aborted a with
  | Some e, false => afterPromptError cfg st e
  | _, _ => afterAssistant cfg st a
  end.

End Rotation.

(** ** Queue policy: the interrupt mode ([getReplyFromConfig], reply.ts) *)

(** ** Lane names ([pi-embedded-runner.ts], lines 492-500 and 718-720) *)

Definition resolveSessionLane (key : string) : string :=
  let cleaned := if Js.truthy (Js.trim key) then Js.trim key else "main" in
  if Js.startsWith cleaned "session:" then cleaned else "session:" +:+ cleaned.

Definition resolveGlobalLane (lane : option string) : string :=
  match lane with
  | Some l => if Js.truthy (Js.trim l) then Js.trim l else "main"
  | None => "main"
  end.

Definition resolveEmbeddedSessionLane (key : string) : string :=
  resolveSessionLane key.

(** [resolveEmbeddedSessionLane(sessionKey ?? sessionIdFinal)], the lane
    [getReplyFromConfig] inspects (reply.ts, line 983). *)
Definition replyLaneKey (sessionKey : option string) (sessionIdFinal : string) : string :=
  resolveEmbeddedSessionLane (default sessionIdFinal sessionKey).

(** [resolveSessionLane(params.sessionKey?.trim() || params.sessionId)], the
    lane [runEmbeddedPiAgent] queues the run on (line 1057). *)
Definition runLaneKey (sessionKey : option string) (sessionId : string) : string :=
  resolveSessionLane
    match sessionKey with
    | Some k => if Js.truthy (Js.trim k) then Js.trim k else sessionId
    | None => sessionId
    end.

(** ** Queue policy ([auto-reply/reply.ts]) *)

Module Policy.

Inductive QueueMode := Steer | Followup | Collect | SteerBacklog | Interrupt.

(** Modelled from the spec: process/command-queue.js is not part of the
    sources.  A lane is a per-key FIFO execution queue: the task it is
    running, if any, and the tasks waiting behind it.  [getQueueSize]
    counts the work of the lane, running and waiting; [clearCommandLane]
    is the lane-clearing used by interrupt: it drops the waiting tasks
    and returns how many there were. *)
Record Lane := {
  lane_running : option string;
  lane_queued : list string;
}.

Definition getQueueSize (lanes : gmap string Lane) (key : string) : nat :=
  match lanes !! key with
  | Some l => (length (lane_queued l) + match lane_running l with Some _ => 1 | None => 0 end)%nat
  | None => 0%nat
  end.

Definition clearCommandLane (lanes : gmap string Lane) (key : string)
  : gmap string Lane * nat :=
  match lanes !! key with
  | Some l =>
      (<[key := {| lane_running := lane_running l; lane_queued := [] |}]> lanes,
       length (lane_queued l))
  | None => (lanes, 0%nat)
  end.

Record System := {
  lanes : gmap string Lane;
  registry : Registry.World;
}.

(** Lines 983-993 of reply.ts: the lane inspected and cleared is that of
    [sessionKey ?? sessionIdFinal], the run aborted is that of
    [sessionIdFinal]. *)
Definition interruptIfRequested (mode : QueueMode) (sessionKey : option string)
    (sessionIdFinal : string) (sys : System) : System :=
  let sessionLaneKey := replyLaneKey sessionKey sessionIdFinal in
  let laneSize := getQueueSize (lanes sys) sessionLaneKey in
  match mode with
  | Interrupt =>
      if (0 <? laneSize)%nat then
        let '(lanes', cleared) := clearCommandLane (lanes sys) sessionLaneKey in
        let '(registry', aborted) :=
          Registry.abortEmbeddedPiRun sessionIdFinal (registry sys) in
        {| lanes := lanes'; registry := registry' |}
      else sys
  | _ => sys
  end.

(** The arguments [getReplyFromConfig] passes on to [runReplyAgent]. *)
Record Dispatch := {
  commandBody : string;
  followupPrompt : string;
  shouldSteer : bool;
  shouldFollowup : bool;
  isActive : bool;
  isStreaming : bool;
}.

Definition dispatchOf (mode : QueueMode) (sessionIdFinal : string)
    (prefixedCommandBody queuedBody : string) (sys : System) : Dispatch :=
  {| commandBody := prefixedCommandBody;
     followupPrompt := queuedBody;
     shouldSteer :=
       match mode with Steer | SteerBacklog => true | _ => false end;
     shouldFollowup :=
       match mode with Followup | Collect | SteerBacklog => true | _ => false end;
     isActive := Registry.isEmbeddedPiRunActive sessionIdFinal (registry sys);
     isStreaming := Registry.isEmbeddedPiRunStreaming sessionIdFinal (registry sys) |}.

Inductive Action :=
| StartRun (prompt : string)
| SteerInto (text : string) (backlog : bool)
| EnqueueFollowup (prompt : string).

(** Modelled from the spec: [runReplyAgent] (auto-reply/reply/agent-runner.js)
    is not part of the sources.  Section 4.3: with steer or steer-backlog and a
    run that is active and streaming the text is forwarded into the run
    (steer-backlog also queues a followup); the followup-style modes append a
    followup behind an active run; otherwise, and always for interrupt once
    the lane has been cleared, a new run starts with the message. *)
Definition runReplyAgent (d : Dispatch) : Action :=
  if shouldSteer d && isActive d && isStreaming d
  then SteerInto (followupPrompt d) (shouldFollowup d)
  else if shouldFollowup d && isActive d
  then EnqueueFollowup (followupPrompt d)
  else StartRun (commandBody d).

(** The tail of [getReplyFromConfig] for one inbound message. *)
Definition handleInbound (mode : QueueMode) (sessionKey : option string)
    (sessionIdFinal : string) (prefixedCommandBody queuedBody : string)
    (sys : System) : System * Action :=
  let sys' := interruptIfRequested mode sessionKey sessionIdFinal sys in
  (sys', runReplyAgent (dispatchOf mode sessionIdFinal prefixedCommandBody queuedBody sys')).

End Policy.

(** * Properties *)

(** ** Strings *)

Section JsFacts.

Lemma append_nil_l (s : string) : EmptyString +:+ s = s.
Proof. reflexivity. Qed.

Lemma append_cons (a : ascii) (s t : string) :
  String a s +:+ t = String a (s +:+ t).
Proof. reflexivity. Qed.

Lemma append_nil_r (s : string) : s +:+ EmptyString = s.
Proof. induction s as [|a s IH]; [done|]. by rewrite append_cons, IH. Qed.

Lemma append_length (s t : string) :
  String.length (s +:+ t) = (String.length s + String.length t)%nat.
Proof.
  induction s as [|a s IH]; [done|].
  rewrite append_cons. simpl. by rewrite IH.
Qed.

Lemma truthy_false (s : string) : Js.truthy s = false <-> s = EmptyString.
Proof. destruct s; simpl; split; congruence. Qed.

Lemma startsWith_nil (s : string) : Js.startsWith s EmptyString = true.
Proof. by destruct s. Qed.

Lemma startsWith_app (p r : string) : Js.startsWith (p +:+ r) p = true.
Proof.
  induction p as [|a p IH]; [apply startsWith_nil|].
  rewrite append_cons. simpl. by rewrite Ascii.eqb_refl.
Qed.

Lemma startsWith_inv (s p : string) :
  Js.startsWith s p = true -> exists r, s = p +:+ r.
Proof.
  revert s. induction p as [|a p IH]; intros s Hs.
  - by exists s.
  - destruct s as [|b s]; [done|]. simpl in Hs.
    destruct (Ascii.eqb a b) eqn:Hab; [|done].
    apply Ascii.eqb_eq in Hab as ->.
    destruct (IH _ Hs) as [r ->]. by exists r.
Qed.

Lemma startsWith_iff (s p : string) :
  Js.startsWith s p = true <-> exists r, s = p +:+ r.
Proof.
  split; [apply startsWith_inv|]. intros [r ->]. apply startsWith_app.
Qed.

Lemma slice_from_app (p r : string) :
  Js.slice_from (p +:+ r) (String.length p) = r.
Proof. induction p as [|a p IH]; [by destruct r|]. by rewrite append_cons. Qed.

Lemma slice_from_all (s : string) :
  Js.slice_from s (String.length s) = EmptyString.
Proof. induction s; simpl; auto. Qed.

Lemma startsWith_length (s p : string) :
  Js.startsWith s p = true -> (String.length p <= String.length s)%nat.
Proof.
  intros [r ->]%startsWith_inv. rewrite append_length. lia.
Qed.

Lemma startsWith_includes (s p : string) :
  Js.startsWith s p = true -> Js.includes s p = true.
Proof. intros Hs. destruct s; simpl in *; by rewrite Hs. Qed.

Lemma includes_length (s p : string) :
  Js.includes s p = true -> (String.length p <= String.length s)%nat.
Proof.
  induction s as [|a s IH]; intros Hi.
  - destruct p; [simpl; lia | done].
  - change (Js.startsWith (String a s) p || Js.includes s p = true) in Hi.
    apply orb_true_iff in Hi as [Hs|Hi].
    + by apply startsWith_length in Hs.
    + specialize (IH Hi). simpl. lia.
Qed.

(** A string that extends the buffer and also occurs in it is the buffer. *)
Lemma extends_and_included (content buffer : string) :
  Js.startsWith content buffer = true ->
  Js.includes buffer content = true ->
  content = buffer.
Proof.
  intros [r ->]%startsWith_inv Hi%includes_length.
  rewrite append_length in Hi.
  destruct r; [by rewrite append_nil_r|]. simpl in Hi. lia.
Qed.

End JsFacts.

(** ** Chunk resolution (C1) *)

Section ChunkResolution.

Lemma resolveChunk_delta (evtType : AssistantEventType) (delta content buffer : string) :
  evtType <> OtherAssistantEvent ->
  Js.truthy delta = true ->
  resolveChunk evtType delta content buffer = delta.
Proof. intros Ht Hd. destruct evtType; simpl; rewrite ?Hd; done. Qed.

Lemma resolveChunk_extends (content buffer : string) (evtType : AssistantEventType) :
  evtType = TextStart \/ evtType = TextEnd ->
  Js.startsWith content buffer = true ->
  resolveChunk evtType EmptyString content buffer
  = Js.slice_from content (String.length buffer).
Proof.
  intros Ht Hs. destruct Ht as [-> | ->]; simpl; rewrite Hs;
    destruct content; try done;
    destruct buffer; done.
Qed.

Lemma resolveChunk_included (content buffer : string) (evtType : AssistantEventType) :
  evtType = TextStart \/ evtType = TextEnd ->
  Js.includes buffer content = true ->
  resolveChunk evtType EmptyString content buffer = EmptyString.
Proof.
  intros Ht Hi.
  assert (resolveChunk TextEnd EmptyString content buffer = EmptyString) as Hgoal.
  { simpl. destruct (Js.truthy content); [|done].
    destruct (Js.startsWith content buffer) eqn:Hs.
    - rewrite (extends_and_included _ _ Hs Hi). apply slice_from_all.
    - rewrite Hi. simpl. by destruct (Js.startsWith buffer content). }
  destruct Ht as [-> | ->]; exact Hgoal.
Qed.

Lemma resolveChunk_fresh (content buffer : string) (evtType : AssistantEventType) :
  evtType = TextStart \/ evtType = TextEnd ->
  Js.startsWith content buffer = false ->
  Js.includes buffer content = false ->
  resolveChunk evtType EmptyString content buffer = content.
Proof.
  intros Ht Hs Hi.
  assert (Js.startsWith buffer content = false) as Hp.
  { destruct (Js.startsWith buffer content) eqn:Hp; [|done].
    apply startsWith_includes in Hp. congruence. }
  destruct Ht as [-> | ->]; simpl; rewrite Hs, Hp, Hi; by destruct content.
Qed.

End ChunkResolution.

(** ** The reconciler: what each step leaves untouched *)

(** Case analysis on every [match] and [if] of the goal. *)
Ltac split_cases :=
  repeat (simpl;
          match goal with
          | |- context [match ?x with _ => _ end] => destruct x eqn:?
          end);
  simpl.

Section ReconcilerFacts.

Context {C : Type} {E : Collaborators C}.

Implicit Types (s : State C) (p : Params).

(** An invariant of [emitBlockChunk] is an invariant of a drain. *)
Lemma drainChunker_ind (P : State C -> Prop) force c s :
  (forall text st, P st -> P (emitBlockChunk text st)) ->
  P (set_blockChunker (Some (chunker_drain force c).2) s) ->
  P (drainChunker force c s).
Proof.
  intros Hstep. unfold drainChunker.
  destruct (chunker_drain force c) as [chunks c']. simpl.
  generalize (set_blockChunker (Some c') s).
  induction chunks as [|chunk chunks IH]; intros st Hst; simpl; auto.
Qed.

Lemma deltaBuffer_emitBlockChunk text s :
  deltaBuffer (emitBlockChunk text s) = deltaBuffer s.
Proof. unfold emitBlockChunk, emit. split_cases; done. Qed.

Lemma deltaBuffer_drainChunker force c s :
  deltaBuffer (drainChunker force c s) = deltaBuffer s.
Proof.
  apply (drainChunker_ind (fun st => deltaBuffer st = deltaBuffer s)); [|done].
  intros text st <-. apply deltaBuffer_emitBlockChunk.
Qed.

Lemma deltaBuffer_flushBlock s : deltaBuffer (flushBlock s) = deltaBuffer s.
Proof.
  unfold flushBlock, resetChunker.
  split_cases; rewrite ?deltaBuffer_drainChunker, ?deltaBuffer_emitBlockChunk; done.
Qed.

Lemma deltaBuffer_appendChunk chunk s :
  deltaBuffer (appendChunk chunk s) = deltaBuffer s +:+ chunk.
Proof.
  unfold appendChunk. split_cases; try done.
  apply truthy_false in Heqb as ->. by rewrite append_nil_r.
Qed.

Lemma deltaBuffer_streamThinking p s :
  deltaBuffer (streamThinking p s) = deltaBuffer s.
Proof. unfold streamThinking, when, emitReasoningStream, emit. split_cases; done. Qed.

Lemma deltaBuffer_streamAssistant p s :
  deltaBuffer (streamAssistant p s) = deltaBuffer s.
Proof. unfold streamAssistant, emit. split_cases; done. Qed.

Lemma deltaBuffer_drainOnUpdate p s :
  deltaBuffer (drainOnUpdate p s) = deltaBuffer s.
Proof.
  unfold drainOnUpdate. split_cases; rewrite ?deltaBuffer_drainChunker; done.
Qed.

Lemma deltaBuffer_flushOnTextEnd p evtType s :
  deltaBuffer (flushOnTextEnd p evtType s) = deltaBuffer s.
Proof.
  unfold flushOnTextEnd. split_cases; rewrite ?deltaBuffer_flushBlock; done.
Qed.

(** The buffer after an assistant text event is the buffer before it
    followed by the resolved chunk. *)
Lemma deltaBuffer_onMessageUpdate p evtType delta content s :
  evtType <> OtherAssistantEvent ->
  deltaBuffer (onMessageUpdate p evtType delta content s)
  = deltaBuffer s +:+ resolveChunk evtType delta content (deltaBuffer s).
Proof.
  intros Ht. unfold onMessageUpdate.
  destruct evtType; try done;
    by rewrite deltaBuffer_flushOnTextEnd, deltaBuffer_drainOnUpdate,
         deltaBuffer_streamAssistant, deltaBuffer_streamThinking,
         deltaBuffer_appendChunk.
Qed.

End ReconcilerFacts.

(** ** C1: chunk resolution *)

(** C1, as stated, fails at buffer ["abc"] and cumulative content ["bc"] of
    a [text_end] without delta: neither string is a prefix of the other, yet
    the chunk is empty instead of all of [content], because [content]
    occurs inside the buffer. *)
Lemma C1_counterexample :
  Js.startsWith "bc" "abc" = false /\
  Js.startsWith "abc" "bc" = false /\
  resolveChunk TextEnd "" "bc" "abc" = "" /\
  resolveChunk TextEnd "" "bc" "abc" <> "bc".
Proof. repeat split; vm_compute; congruence. Qed.

(** C1 (amended): for every assistant [text_start]/[text_end] event the
    buffer grows by the resolved chunk; a non-empty raw delta is the chunk;
    without a delta, content that extends the buffer contributes its
    appended suffix, content that already occurs in the buffer (as a prefix
    or further inside) contributes nothing and leaves the buffer unchanged,
    and content that neither extends the buffer nor occurs in it is taken
    whole.  In particular replaying a delivered cumulative content leaves
    the buffer unchanged. *)
Theorem C1_chunk_resolution {C : Type} {E : Collaborators C}
    (p : Params) (s : State C) (evtType : AssistantEventType) (delta content : string) :
  evtType = TextStart \/ evtType = TextEnd ->
  let buffer := deltaBuffer s in
  let chunk := resolveChunk evtType delta content buffer in
  let buffer' := deltaBuffer (handle p s (MessageUpdate Assistant evtType delta content)) in
  buffer' = buffer +:+ chunk /\
  (Js.truthy delta = true -> chunk = delta) /\
  (delta = "" -> Js.startsWith content buffer = true ->
     chunk = Js.slice_from content (String.length buffer) /\ buffer' = content) /\
  (delta = "" -> Js.includes buffer content = true ->
     chunk = "" /\ buffer' = buffer) /\
  (delta = "" -> Js.startsWith buffer content = true ->
     chunk = "" /\ buffer' = buffer) /\
  (delta = "" -> Js.startsWith content buffer = false ->
     Js.includes buffer content = false -> chunk = content).
Proof.
  intros Ht buffer chunk buffer'.
  assert (buffer' = buffer +:+ chunk) as Hb.
  { subst buffer' buffer chunk. simpl.
    apply deltaBuffer_onMessageUpdate. by destruct Ht as [-> | ->]. }
  split; [exact Hb|]. subst chunk.
  split; [|split; [|split; [|split]]].
  - intros Hd. apply resolveChunk_delta; [by destruct Ht as [-> | ->] | done].
  - intros -> Hs. split; [by apply resolveChunk_extends|].
    rewrite Hb, resolveChunk_extends by done.
    destruct (startsWith_inv _ _ Hs) as [r ->]. by rewrite slice_from_app.
  - intros -> Hi. split; [by apply resolveChunk_included|].
    rewrite Hb, resolveChunk_included by done. apply append_nil_r.
  - intros -> Hs%startsWith_includes. split; [by apply resolveChunk_included|].
    rewrite Hb, resolveChunk_included by done. apply append_nil_r.
  - intros -> Hs Hi. by apply resolveChunk_fresh.
Qed.

Lemma C1_chunk_resolution_witness :
  let s := set_deltaBuffer "Hello" (initial (C := Empty_set) None) in
  deltaBuffer (handle defaultParams s (MessageUpdate Assistant TextEnd "" "Hello"))
  = "Hello".
Proof.
  intros s.
  destruct (C1_chunk_resolution (E := plainCollaborators) defaultParams s
              TextEnd "" "Hello" (or_intror eq_refl)) as (_ & _ & _ & Hin & _).
  exact (proj2 (Hin eq_refl eq_refl)).
Defined.

(** ** C8: reasoning split across chunk boundaries *)

Definition taggedInput : string := "<think>hidden</think>visible".

(** The two delta chunks when the input is cut [k] characters into
    ["hidden"]: the cut lies after the open marker (7 characters) and
    before the close marker. *)
Definition firstChunk (k : nat) : string := Js.slice taggedInput 0 (7 + k).
Definition secondChunk (k : nat) : string := Js.slice_from taggedInput (7 + k).

Definition withBreak (b : BlockReplyBreak) (p : Params) : Params :=
  {| verboseLevelOn := verboseLevelOn p; reasoningMode := reasoningMode p;
     shouldEmitToolResultFn := shouldEmitToolResultFn p;
     onToolResult := onToolResult p; onReasoningStream := onReasoningStream p;
     onBlockReply := onBlockReply p; blockReplyBreak := b;
     onPartialReply := onPartialReply p; enforceFinalTag := enforceFinalTag p |}.

Definition withFinalTag (b : bool) (p : Params) : Params :=
  {| verboseLevelOn := verboseLevelOn p; reasoningMode := reasoningMode p;
     shouldEmitToolResultFn := shouldEmitToolResultFn p;
     onToolResult := onToolResult p; onReasoningStream := onReasoningStream p;
     onBlockReply := onBlockReply p; blockReplyBreak := blockReplyBreak p;
     onPartialReply := onPartialReply p; enforceFinalTag := b |}.

(** The event stream of one assistant message delivering the tagged input
    in two deltas. *)
Definition taggedStream (k : nat) : list Event :=
  [ MessageStart Assistant;
    MessageUpdate Assistant TextDelta (firstChunk k) "";
    MessageUpdate Assistant TextDelta (secondChunk k) "";
    MessageUpdate Assistant TextEnd "" "";
    MessageEnd Assistant "visible" "hidden" ].

Lemma split_positions (k : nat) :
  (k <= 6)%nat -> k ∈ [0; 1; 2; 3; 4; 5; 6]%nat.
Proof.
  intros Hk.
  do 7 (destruct k as [|k]; [set_solver|]). lia.
Qed.

Lemma emitBlockChunk_split_pair {C : Type} {E : Collaborators C} (k : nat) (s : State C) :
  (k <= 6)%nat ->
  blockThinkingActive s = false ->
  let s1 := emitBlockChunk (firstChunk k) s in
  let s2 := emitBlockChunk (secondChunk k) s1 in
  blockThinkingActive s1 = true /\ outputs s1 = outputs s /\
  assistantTexts s1 = assistantTexts s /\
  blockThinkingActive s2 = false /\
  ((outputs s2 = outputs s /\ assistantTexts s2 = assistantTexts s) \/
   (outputs s2 = outputs s ++ [BlockChunk "visible"] /\
    assistantTexts s2 = assistantTexts s ++ ["visible"])).
Proof.
  intros Hk Hs s1 s2.
  assert (stripBlockThinkingSegments false (firstChunk k) = ("", true) /\
          stripBlockThinkingSegments true (secondChunk k) = ("visible", false))
    as [H1 H2].
  { apply split_positions in Hk.
    repeat (apply elem_of_cons in Hk as [-> | Hk]; [split; vm_compute; reflexivity|]).
    by apply elem_of_nil in Hk. }
  assert (s1 = set_blockThinkingActive true s) as Hs1.
  { subst s1. unfold emitBlockChunk. by rewrite Hs, H1. }
  subst s2. rewrite Hs1. unfold emitBlockChunk, emit. simpl. rewrite H2. simpl.
  split_cases; auto 10.
Qed.

(** For every cut of ["<think>hidden</think>visible"] inside the tagged
    region, the first chunk yields no visible text and sets the
    inside-reasoning flag, the flag carries over to the second chunk, which
    yields exactly ["visible"] and clears the flag; two successive
    [emitBlockChunk] calls therefore add at most the block ["visible"];
    the cumulative buffer cleaned by [stripThinkingSegments] shows nothing
    after the first delta and ["visible"] after the second; and a reconciler
    run over the two deltas ends with ["visible"] as its only answer text
    and block reply, whatever the break mode and [enforceFinalTag], and as
    its only partial reply when [enforceFinalTag] is not set. *)
Lemma split_inside_reasoning (k : nat) :
  (k <= 6)%nat ->
  firstChunk k +:+ secondChunk k = taggedInput /\
  stripBlockThinkingSegments false (firstChunk k) = ("", true) /\
  stripBlockThinkingSegments true (secondChunk k) = ("visible", false) /\
  stripThinkingSegments (firstChunk k) = "" /\
  stripThinkingSegments (firstChunk k +:+ secondChunk k) = "visible" /\
  (forall (C : Type) (E : Collaborators C) (s : State C),
      blockThinkingActive s = false ->
      let s1 := emitBlockChunk (firstChunk k) s in
      let s2 := emitBlockChunk (secondChunk k) s1 in
      blockThinkingActive s1 = true /\ outputs s1 = outputs s /\
      blockThinkingActive s2 = false /\
      (outputs s2 = outputs s \/ outputs s2 = outputs s ++ [BlockChunk "visible"])) /\
  (forall (brk : BlockReplyBreak) (finalTag : bool),
      let p := withFinalTag finalTag (withBreak brk defaultParams) in
      let s := run p (initial (C := Empty_set) None) (taggedStream k) in
      assistantTexts s = ["visible"] /\
      blockReplyCalls p (outputs s) = [("visible", [])] /\
      (finalTag = false -> partialReplyCalls p (outputs s) = [("visible", [])])).
Proof.
  intros Hk.
  split; [|split; [|split; [|split; [|split; [|split]]]]].
  1-5: apply split_positions in Hk;
       repeat (apply elem_of_cons in Hk as [-> | Hk]; [vm_compute; reflexivity|]);
       by apply elem_of_nil in Hk.
  - intros C E s Hs.
    destruct (emitBlockChunk_split_pair k s Hk Hs) as (H1 & H2 & _ & H3 & H4).
    repeat split; try done. destruct H4 as [[-> _] | [-> _]]; auto.
  - intros brk finalTag p s. subst s p.
    apply split_positions in Hk.
    repeat (apply elem_of_cons in Hk as [-> | Hk];
            [destruct brk, finalTag;
             (split; [|split]; [vm_compute; reflexivity ..|]);
             first [discriminate | intros _; vm_compute; reflexivity]|]).
    by apply elem_of_nil in Hk.
Qed.

(** The two deltas ["<think>hid"] and ["den</think>visible"] of one
    assistant message. *)
Definition leakingStream : list Event :=
  [ MessageStart Assistant;
    MessageUpdate Assistant TextDelta "<think>hid" "";
    MessageUpdate Assistant TextDelta "den</think>visible" "";
    MessageUpdate Assistant TextEnd "" "";
    MessageEnd Assistant "visible" "hidden" ].

(** C8 fails on the code at this input: with [enforceFinalTag] set and the
    input ["<think>hidden</think>visible"] delivered as the deltas
    ["<think>hid"] and ["den</think>visible"], [onPartialReply] is called
    with ["hid"], a part of the reasoning, after the first delta.  The
    [message_update] handler then cleans the cumulative buffer with
    [stripThinkingSegments (stripUnpairedThinkingTags deltaBuffer)], and
    [stripUnpairedThinkingTags] removes the open marker whose close has not
    arrived; without it [stripThinkingSegments] alone drops everything
    after the open marker.  The sibling paths do that: on the same deltas
    the block replies and answer texts, which go through
    [stripBlockThinkingSegments] and its flag, hold only ["visible"], and so
    do the partial replies when [enforceFinalTag] is not set. *)
Theorem C8_reasoning_leak_at_input :
  let p := withFinalTag true defaultParams in
  let s := run p (initial (C := Empty_set) None) leakingStream in
  let q := withFinalTag false defaultParams in
  let t := run q (initial (C := Empty_set) None) leakingStream in
  stripUnpairedThinkingTags "<think>hid" = "hid" /\
  stripThinkingSegments (stripUnpairedThinkingTags "<think>hid") = "hid" /\
  partialReplyCalls p (outputs s) = [("hid", []); ("visible", [])] /\
  stripThinkingSegments "<think>hid" = "" /\
  stripBlockThinkingSegments false "<think>hid" = ("", true) /\
  stripBlockThinkingSegments true "den</think>visible" = ("visible", false) /\
  assistantTexts s = ["visible"] /\
  blockReplyCalls p (outputs s) = [("visible", [])] /\
  partialReplyCalls q (outputs t) = [("visible", [])] /\
  assistantTexts t = ["visible"] /\
  blockReplyCalls q (outputs t) = [("visible", [])].
Proof. cbv zeta. repeat split; vm_compute; reflexivity. Qed.

(** ** C3: steering into a live run *)

Section RegistryFacts.

Import Registry.

(** The handle built by [runEmbeddedPiAgent] (lines 1349-1356) reports the
    reconciler's [isCompacting]. *)
Lemma handle_isCompacting_subscription {C : Type} (s : State C) (id : nat) (streaming : bool) :
  handle_isCompacting
    {| handle_id := id; session_isStreaming := streaming;
       sub_compactionInFlight := compactionInFlight s;
       sub_pendingCompactionRetry := pendingCompactionRetry s;
       session_steered := []; run_aborted := false |}
  = isCompacting s.
Proof. reflexivity. Qed.

(** C3: [queueEmbeddedPiMessage] returns [false] exactly when no run is
    registered for the id, or the registered run is not streaming, or it is
    compacting, and then changes nothing; otherwise it returns [true] and
    the text has been appended to what was steered into that run, every
    other run being untouched. *)
Theorem C3_queueMessage (sessionId text : string) (w : World) :
  let w' := (queueEmbeddedPiMessage sessionId text w).1 in
  let ok := (queueEmbeddedPiMessage sessionId text w).2 in
  (ok = false <->
     (ACTIVE_EMBEDDED_RUNS w !! sessionId = None \/
      exists h, ACTIVE_EMBEDDED_RUNS w !! sessionId = Some h /\
                (handle_isStreaming h = false \/ handle_isCompacting h = true))) /\
  (ok = false -> w' = w) /\
  (ok = true ->
     exists h, ACTIVE_EMBEDDED_RUNS w !! sessionId = Some h /\
               ACTIVE_EMBEDDED_RUNS w' !! sessionId = Some (handle_queueMessage text h) /\
               session_steered (handle_queueMessage text h) = session_steered h ++ [text] /\
               (forall other, other <> sessionId ->
                  ACTIVE_EMBEDDED_RUNS w' !! other = ACTIVE_EMBEDDED_RUNS w !! other) /\
               EMBEDDED_RUN_WAITERS w' = EMBEDDED_RUN_WAITERS w /\
               settled w' = settled w).
Proof.
  unfold queueEmbeddedPiMessage.
  destruct (ACTIVE_EMBEDDED_RUNS w !! sessionId) as [h|] eqn:Hh; simpl.
  - destruct (handle_isStreaming h) eqn:Hs; simpl.
    + destruct (handle_isCompacting h) eqn:Hc; simpl.
      * split; [|done]. split; [|done]. intros _. right. exists h. auto.
      * split; [|split; [done|]].
        { split; [done|]. intros [?|(h' & [= <-] & [?|?])]; congruence. }
        intros _. exists h. split; [done|]. split; [apply lookup_insert_eq|].
        split; [done|]. split; [|done].
        intros other Hne. by apply lookup_insert_ne.
    + split; [|done]. split; [|done]. intros _. right. exists h. auto.
  - split; [|done]. split; [|done]. auto.
Qed.

(** ** C9: waiting for a run to end *)





Lemma resolve_settled wt v w id :
  settled (resolve wt v w) !! id
  = match settled w !! id with
    | Some b => Some b
    | None => if bool_decide (id = waiter_id wt) then Some v else None
    end.
Proof.
  unfold resolve. simpl.
  destruct (settled w !! waiter_id wt) as [b|] eqn:Hw.
  - destruct (settled w !! id) eqn:Hid; [done|].
    case_bool_decide; [congruence|done].
  - case_bool_decide as Hid.
    + subst id. by rewrite Hw, lookup_insert_eq.
    + rewrite lookup_insert_ne by done. by destruct (settled w !! id).
Qed.

Lemma resolve_all_settled (waiters : list Waiter) (w : World) (id : nat) :
  settled (fold_left (fun st wt => resolve wt true st) waiters w) !! id
  = match settled w !! id with
    | Some b => Some b
    | None => if bool_decide (id ∈ waiter_id <$> waiters) then Some true else None
    end.
Proof.
  revert w. induction waiters as [|wt waiters IH]; intros w.
  - simpl. by destruct (settled w !! id).
  - cbn [fold_left]. rewrite IH, resolve_settled.
    destruct (settled w !! id) as [b|]; [done|].
    assert (id ∈ waiter_id <$> wt :: waiters <->
            id = waiter_id wt \/ id ∈ waiter_id <$> waiters) as Hc
      by (rewrite fmap_cons; apply elem_of_cons).
    rewrite (bool_decide_ext _ _ Hc), bool_decide_or.
    by destruct (bool_decide (id = waiter_id wt)),
         (bool_decide (id ∈ waiter_id <$> waiters)).
Qed.

Lemma resolve_all_maps (waiters : list Waiter) (w : World) :
  let w' := fold_left (fun st wt => resolve wt true st) waiters w in
  ACTIVE_EMBEDDED_RUNS w' = ACTIVE_EMBEDDED_RUNS w /\
  EMBEDDED_RUN_WAITERS w' = EMBEDDED_RUN_WAITERS w.
Proof.
  revert w. induction waiters as [|wt waiters IH]; intros w; simpl; [done|].
  destruct (IH (resolve wt true w)) as [-> ->]. done.
Qed.




(** Two callers waiting on the same run: both are resolved [true] when the
    run ends; a third caller whose timer fired before that got [false]. *)
Example waiters_coexist :
  let h := {| handle_id := 7; session_isStreaming := true;
              sub_compactionInFlight := false; sub_pendingCompactionRetry := 0;
              session_steered := []; run_aborted := false |} in
  let w0 := registerRun "s1" h
              {| ACTIVE_EMBEDDED_RUNS := ∅; EMBEDDED_RUN_WAITERS := ∅;
                 settled := ∅; waitersCreated := 0 |} in
  let w1 := (waitForEmbeddedPiRunEnd "s1" (ms 15000) w0).1 in
  let w2 := (waitForEmbeddedPiRunEnd "s1" (ms 50) w1).1 in
  let w3 := (waitForEmbeddedPiRunEnd "s1" (ms 15000) w2).1 in
  let w4 := timerFires "s1" {| waiter_id := 1; timer_ms := 100 |} w3 in
  let w5 := finishRun "s1" 7 w4 in
  EMBEDDED_RUN_WAITERS w3 !! "s1"
  = Some [ {| waiter_id := 0; timer_ms := 15000 |};
           {| waiter_id := 1; timer_ms := 100 |};
           {| waiter_id := 2; timer_ms := 15000 |} ] /\
  settled w5 !! 0%nat = Some true /\
  settled w5 !! 1%nat = Some false /\
  settled w5 !! 2%nat = Some true /\
  EMBEDDED_RUN_WAITERS w5 !! "s1" = None /\
  ACTIVE_EMBEDDED_RUNS w5 !! "s1" = None.
Proof. repeat split; vm_compute; reflexivity. Qed.

End RegistryFacts.

(** ** C4: rotation exhausted *)

Section RotationFacts.

Import Rotation.

Lemma advanceFrom_exhausted_nil (cfg : RunConfig) (st : LoopState) (n : nat) :
  advanceFrom cfg st [] n = Exhausted.
Proof. reflexivity. Qed.

(** No candidate after the current one: rotation is exhausted at once. *)
Lemma advanceAuthProfile_last (cfg : RunConfig) (st : LoopState) :
  (length (profileCandidates cfg) <= S (profileIndex st))%nat ->
  advanceAuthProfile cfg st = Exhausted.
Proof.
  intros Hlen. unfold advanceAuthProfile. by rewrite drop_ge.
Qed.

(** The state in which the [shouldRotate] block asks for the next profile:
    the failed profile has been put in cooldown. *)
Definition cooledDown (st : LoopState) (a : Attempt) : LoopState :=
  match lastProfileId st with
  | Some profileId =>
      if Js.truthy profileId then
        markAuthProfileFailure profileId
          (if timedOut a || isTimeoutReason (assistantFailoverReason a)
           then "timeout" else orUnknown (assistantFailoverReason a)) st
      else st
  | None => st
  end.

(** The [shouldRotate] block (lines 1509-1569): when the attempt ended with
    a failover-worthy assistant error or a timeout and no further profile
    can be activated, a configured model fallback yields a [FailoverError]
    carrying reason, provider, model, profile id and status; without a
    configured fallback the run completes with the attempt's error reply and
    is not retried. *)
Lemma shouldRotate_exhausted (cfg : RunConfig) (st : LoopState) (a : Attempt) :
  (promptError a = None \/ aborted a = true) ->
  (fallbackThinking a = None \/ aborted a = true) ->
  (negb (aborted a) && failoverFailure a) || timedOut a = true ->
  advanceAuthProfile cfg (cooledDown st a) = Exhausted ->
  (fallbackConfigured cfg = true ->
     exists e,
       afterAttempt cfg st a = Throw (cooledDown st a) (ThrowFailover e) /\
       fe_reason e = orUnknown (assistantFailoverReason a) /\
       fe_provider e = provider cfg /\
       fe_model e = modelId cfg /\
       fe_profileId e = lastProfileId st /\
       fe_status e = match failoverStatus a with
                     | Some code => Some code
                     | None => if messageIsTimeout a then Some 408 else None
                     end) /\
  (fallbackConfigured cfg = false ->
     exists payload, afterAttempt cfg st a = Return (cooledDown st a) (Completed payload)).
Proof.
  intros Hprompt Hthink Hrot Hex.
  assert (afterAttempt cfg st a = afterAssistant cfg st a) as ->.
  { unfold afterAttempt. destruct Hprompt as [-> | ->]; [done|].
    by destruct (promptError a). }
  unfold afterAssistant.
  assert (forall X (k1 : ThinkLevel -> X) (k2 : X),
            match fallbackThinking a, aborted a with
            | Some level, false => k1 level
            | _, _ => k2
            end = k2) as Hskip.
  { intros X k1 k2. destruct Hthink as [-> | ->]; [done|].
    by destruct (fallbackThinking a). }
  rewrite Hskip, Hrot. fold (cooledDown st a). rewrite Hex.
  assert (lastProfileId (cooledDown st a) = lastProfileId st) as Hpid.
  { unfold cooledDown. destruct (lastProfileId st) as [pid|] eqn:Hl; [|done].
    by destruct (Js.truthy pid). }
  split; intros ->.
  - eexists. split; [reflexivity|]. simpl. by rewrite Hpid.
  - by eexists.
Qed.

(** A run with a single profile ["p1"] and a configured model fallback. *)
Definition singleProfile : RunConfig :=
  {| provider := "anthropic"; modelId := "claude"; profileCandidates := [Some "p1"];
     explicitProfileId := None; fallbackConfigured := true;
     initialThinkLevel := ThinkOff;
     resolveApiKey := fun c => Some c |}.

Definition firstAttempt : LoopState :=
  {| profileIndex := 0; thinkLevel := ThinkOff; attemptedThinking := [ThinkOff];
     lastProfileId := Some "p1"; failureMarks := [] |}.

(** The provider rejects the call with a rate-limit error, reported as the
    error of the last assistant message. *)
Definition rateLimitedReply : Attempt :=
  {| promptError := None; aborted := false; timedOut := false;
     hasLastAssistant := true; errorMessage := Some "429 rate limit exceeded";
     formattedError := Some "429 rate limit exceeded"; fallbackThinking := None;
     authFailure := false; rateLimitFailure := true; failoverFailure := true;
     assistantFailoverReason := Some "rate_limit"; failoverStatus := Some 429;
     messageIsTimeout := false |}.

(** The same failure, thrown by [session.prompt]. *)
Definition rateLimitedThrow : Attempt :=
  {| promptError :=
       Some {| prompt_errorText := "429 rate limit exceeded";
               prompt_isContextOverflow := false;
               prompt_failoverReason := Some "rate_limit";
               prompt_isFailoverMessage := true;
               prompt_fallbackThinking := None |};
     aborted := false; timedOut := false;
     hasLastAssistant := false; errorMessage := None; formattedError := None;
     fallbackThinking := None; authFailure := false; rateLimitFailure := false;
     failoverFailure := false; assistantFailoverReason := None;
     failoverStatus := None; messageIsTimeout := false |}.

(** C4 at the failing input: the only profile is rate limited, a model
    fallback is configured, rotation is exhausted.  When the failure is the
    error of the last assistant message the loop raises the typed
    [FailoverError]; when the same failure is thrown by the prompt call the
    loop rethrows the raw error, although the profile was put in cooldown
    and rotation was attempted in the same way. *)
Theorem C4_rotation_exhausted_at_input :
  let cooled := markAuthProfileFailure "p1" "rate_limit" firstAttempt in
  advanceAuthProfile singleProfile cooled = Exhausted /\
  afterAttempt singleProfile firstAttempt rateLimitedReply
  = Throw cooled
      (ThrowFailover {| fe_message := "429 rate limit exceeded";
                        fe_reason := "rate_limit"; fe_provider := "anthropic";
                        fe_model := "claude"; fe_profileId := Some "p1";
                        fe_status := Some 429 |}) /\
  afterAttempt singleProfile firstAttempt rateLimitedThrow
  = Throw cooled (ThrowPromptError "429 rate limit exceeded").
Proof. repeat split; vm_compute; reflexivity. Qed.

(** The thrown-error branch never raises a [FailoverError], whatever the
    configuration. *)
Lemma afterPromptError_never_failover (cfg : RunConfig) (st : LoopState)
    (e : PromptError) (st' : LoopState) (fe : FailoverError) :
  afterPromptError cfg st e <> Throw st' (ThrowFailover fe).
Proof.
  unfold afterPromptError.
  destruct (prompt_isContextOverflow e); [done|].
  destruct (prompt_isFailoverMessage e && _); simpl.
  - destruct (advanceAuthProfile cfg _); try done;
      by destruct (prompt_fallbackThinking e).
  - by destruct (prompt_fallbackThinking e).
Qed.

End RotationFacts.

(** ** C6: interrupt *)

Section PolicyFacts.

Import Registry Policy.

(** The scenario of the spec: two queued items behind one active run. *)
Definition busySystem : System :=
  {| lanes := {[ "session:s1" :=
                   {| lane_running := Some "run-1";
                      lane_queued := ["queued-1"; "queued-2"] |} ]};
     registry :=
       {| ACTIVE_EMBEDDED_RUNS :=
            {[ "s1" := {| handle_id := 1; session_isStreaming := true;
                          sub_compactionInFlight := false;
                          sub_pendingCompactionRetry := 0;
                          session_steered := []; run_aborted := false |} ]};
          EMBEDDED_RUN_WAITERS := ∅; settled := ∅; waitersCreated := 0 |} |}.



(** The scenario of the spec: the two queued items are dropped and the run
    is aborted. *)
Example interrupt_scenario :
  let sys' := (handleInbound Interrupt None "s1" "new message" "new message"
                 busySystem).1 in
  replyLaneKey None "s1" = "session:s1" /\
  getQueueSize (lanes busySystem) "session:s1" = 3%nat /\
  (clearCommandLane (lanes busySystem) "session:s1").2 = 2%nat /\
  (abortEmbeddedPiRun "s1" (registry busySystem)).2 = true /\
  lanes sys' !! "session:s1"
  = Some {| lane_running := Some "run-1"; lane_queued := [] |} /\
  (run_aborted <$> ACTIVE_EMBEDDED_RUNS (registry sys') !! "s1") = Some true /\
  (handleInbound Interrupt None "s1" "new message" "new message" busySystem).2
  = StartRun "new message".
Proof. repeat split; vm_compute; reflexivity. Qed.

End PolicyFacts.

(** ** The footprint of block emission *)

Section BlockFootprint.

Context {C : Type} {E : Collaborators C}.

Implicit Types (s : State C) (p : Params).

(** Every closure variable that block emission never assigns: all but
    [assistantTexts], [blockBuffer], [blockChunker], [blockThinkingActive],
    [lastBlockReplyText] and the output record. *)
Definition untouchedByBlocks s :=
  (toolMetas s, toolMetaById s, toolSummaryById s, deltaBuffer s,
   lastStreamedAssistant s, lastStreamedReasoning s, assistantTextBaseline s,
   compactionInFlight s, pendingCompactionRetry s, compactionRetryPromise s,
   lastReasoningSent s, messagingToolSentTexts s, messagingToolSentTargets s,
   pendingMessagingTexts s, pendingMessagingTargets s, promisesCreated s,
   promisesResolved s).

Lemma untouched_emitBlockChunk text s :
  untouchedByBlocks (emitBlockChunk text s) = untouchedByBlocks s.
Proof. unfold emitBlockChunk, emit. split_cases; done. Qed.

Lemma untouched_drainChunker force c s :
  untouchedByBlocks (drainChunker force c s) = untouchedByBlocks s.
Proof.
  apply (drainChunker_ind (fun st => untouchedByBlocks st = untouchedByBlocks s));
    [|done].
  intros text st <-. apply untouched_emitBlockChunk.
Qed.

Lemma untouched_resetChunker s :
  untouchedByBlocks (resetChunker s) = untouchedByBlocks s.
Proof. done. Qed.

Lemma untouched_flushBlock s :
  untouchedByBlocks (flushBlock s) = untouchedByBlocks s.
Proof.
  unfold flushBlock. split_cases;
    rewrite ?untouched_resetChunker, ?untouched_drainChunker; try done;
    change (untouchedByBlocks (emitBlockChunk (blockBuffer s) s) = untouchedByBlocks s);
    apply untouched_emitBlockChunk.
Qed.

Lemma untouched_drainOnUpdate p s :
  untouchedByBlocks (drainOnUpdate p s) = untouchedByBlocks s.
Proof.
  unfold drainOnUpdate. split_cases; rewrite ?untouched_drainChunker; done.
Qed.

Lemma untouched_flushOnTextEnd p evtType s :
  untouchedByBlocks (flushOnTextEnd p evtType s) = untouchedByBlocks s.
Proof.
  unfold flushOnTextEnd. split_cases; rewrite ?untouched_flushBlock; done.
Qed.

Lemma untouched_emitFinalBlock p text s :
  untouchedByBlocks (emitFinalBlock p text s) = untouchedByBlocks s.
Proof.
  unfold emitFinalBlock, emit. split_cases;
    rewrite ?untouched_resetChunker, ?untouched_drainChunker; done.
Qed.

(** The compaction gate: the variables [isCompacting] and
    [waitForCompactionRetry] depend on. *)
Definition gate s :=
  (compactionInFlight s, pendingCompactionRetry s, compactionRetryPromise s,
   promisesCreated s, promisesResolved s).

Lemma gate_of_untouched s s' :
  untouchedByBlocks s' = untouchedByBlocks s -> gate s' = gate s.
Proof. unfold untouchedByBlocks, gate. intros [= ]. congruence. Qed.

(** The messaging-tool tracking. *)
Definition messaging s :=
  (messagingToolSentTexts s, messagingToolSentTargets s,
   pendingMessagingTexts s, pendingMessagingTargets s).

Lemma messaging_of_untouched s s' :
  untouchedByBlocks s' = untouchedByBlocks s -> messaging s' = messaging s.
Proof. unfold untouchedByBlocks, messaging. intros [= ]. congruence. Qed.

End BlockFootprint.

(** ** C5: compaction retry *)

Section CompactionFacts.

Context {C : Type} {E : Collaborators C}.

Implicit Types (s : State C) (p : Params).

(** [gate] and [messaging] together. *)
Definition quiet s := (gate s, messaging s).

Lemma quiet_of_untouched s s' :
  untouchedByBlocks s' = untouchedByBlocks s -> quiet s' = quiet s.
Proof.
  intros Hu. unfold quiet.
  by rewrite (gate_of_untouched _ _ Hu), (messaging_of_untouched _ _ Hu).
Qed.

Lemma gate_of_quiet s s' : quiet s' = quiet s -> gate s' = gate s.
Proof. intros Hq. exact (f_equal fst Hq). Qed.

Lemma messaging_of_quiet s s' : quiet s' = quiet s -> messaging s' = messaging s.
Proof. intros Hq. exact (f_equal snd Hq). Qed.

Lemma quiet_onMessageStart s : quiet (onMessageStart s) = quiet s.
Proof. done. Qed.

Lemma quiet_onMessageUpdate p evtType delta content s :
  quiet (onMessageUpdate p evtType delta content s) = quiet s.
Proof.
  unfold onMessageUpdate.
  assert (forall chunk st, quiet (streamAssistant p (streamThinking p (appendChunk chunk st)))
                           = quiet st) as Hpre.
  { intros chunk st.
    unfold streamAssistant, streamThinking, when, emitReasoningStream, appendChunk, emit.
    split_cases; done. }
  destruct evtType; [| | |done];
    rewrite (quiet_of_untouched _ _ (untouched_flushOnTextEnd _ _ _)),
      (quiet_of_untouched _ _ (untouched_drainOnUpdate _ _)); apply Hpre.
Qed.

Lemma quiet_onMessageEnd p rawText thinking s :
  quiet (onMessageEnd p rawText thinking s) = quiet s.
Proof.
  unfold onMessageEnd. cbv zeta.
  assert (forall st, quiet (resetAtMessageEnd st) = quiet st) as H1 by done.
  assert (forall b x st, quiet (when b (emitReasoningStream p x) st) = quiet st) as H2.
  { intros b x st. unfold when, emitReasoningStream, emit. split_cases; done. }
  assert (forall b x st, quiet (when b (emitReasoningBlock x) st) = quiet st) as H3.
  { intros b x st. unfold when, emitReasoningBlock, emit. split_cases; done. }
  assert (forall x st, quiet (pushFinalText x st) = quiet st) as H4.
  { intros x st. unfold pushFinalText. split_cases; done. }
  rewrite H1, H2, H3, (quiet_of_untouched _ _ (untouched_emitFinalBlock _ _ _)), H3.
  apply H4.
Qed.

Lemma gate_onToolExecutionStart p toolName toolCallId meta args target answer s :
  gate (onToolExecutionStart p toolName toolCallId meta args target answer s) = gate s.
Proof.
  unfold onToolExecutionStart, when, emitToolSummary, trackMessagingSend, emit.
  split_cases; done.
Qed.

Lemma gate_onToolExecutionEnd toolName toolCallId isError s :
  gate (onToolExecutionEnd toolName toolCallId isError s) = gate s.
Proof. unfold onToolExecutionEnd. split_cases; done. Qed.

(** Only the compaction events and [agent_end] touch the gate. *)
Lemma gate_handle p s evt :
  evt <> AutoCompactionStart -> (forall b, evt <> AutoCompactionEnd b) ->
  evt <> AgentEnd ->
  gate (handle p s evt) = gate s.
Proof.
  intros H1 H2 H3. destruct evt as [[]| | | |[]|[]| | | | |]; simpl; try done.
  - apply gate_onToolExecutionStart.
  - apply gate_onToolExecutionEnd.
  - apply gate_of_quiet, quiet_onMessageUpdate.
  - apply gate_of_quiet, quiet_onMessageEnd.
  - by destruct (H2 willRetry).
Qed.

Lemma promisesResolved_of_gate s s' :
  gate s' = gate s -> promisesResolved s' = promisesResolved s.
Proof. intros Hg. exact (f_equal snd Hg). Qed.

(** What holds of the gate in every state of a run: the counter is not
    negative, the pending promise (if any) has been created and is not yet
    resolved, and every resolved promise has been created. *)
Definition gateInv s : Prop :=
  0 <= pendingCompactionRetry s /\
  (forall pr, compactionRetryPromise s = Some pr ->
     (pr < promisesCreated s)%nat /\ pr ∉ promisesResolved s) /\
  (forall pr, pr ∈ promisesResolved s -> (pr < promisesCreated s)%nat).

Lemma gateInv_gate s s' : gate s' = gate s -> gateInv s -> gateInv s'.
Proof. unfold gate, gateInv. intros [= _ -> -> -> ->]. done. Qed.

Lemma gateInv_initial chunker : gateInv (initial chunker).
Proof.
  unfold gateInv. simpl. split; [lia|]. split; [done|].
  intros pr Hpr. by apply elem_of_nil in Hpr.
Qed.

Lemma gateInv_ensure s : gateInv s -> gateInv (ensureCompactionPromise s).
Proof.
  intros Hinv. unfold ensureCompactionPromise.
  destruct (compactionRetryPromise s) as [pr|] eqn:Hp; [exact Hinv|].
  destruct Hinv as (H0 & H1 & H2). unfold gateInv. simpl.
  split; [done|]. split.
  - intros pr [= <-]. split; [lia|]. intros Hin. apply H2 in Hin. lia.
  - intros pr Hin. apply H2 in Hin. lia.
Qed.

Lemma gateInv_resolveGate s : gateInv s -> gateInv (resolveGate s).
Proof.
  intros Hinv. unfold resolveGate.
  destruct (compactionRetryPromise s) as [pr|] eqn:Hp; [|exact Hinv].
  destruct Hinv as (H0 & H1 & H2). unfold gateInv. simpl.
  split; [done|]. split; [done|].
  intros pr' [Hin | ->%list_elem_of_singleton]%elem_of_app; [by apply H2|].
  by apply H1.
Qed.

Lemma gateInv_settle s : gateInv s -> gateInv (settleCompaction s).
Proof.
  intros Hinv. unfold settleCompaction, resolveCompactionRetry, maybeResolveCompactionWait.
  destruct (0 <? pendingCompactionRetry s) eqn:Hpos.
  - apply Z.ltb_lt in Hpos.
    rewrite (proj2 (Z.leb_gt _ _)) by lia.
    match goal with
    | |- gateInv (if _ then resolveGate ?st else ?st) =>
        assert (gateInv st) as Hst
    end.
    { destruct Hinv as (H0 & H1 & H2). unfold gateInv. simpl.
      split; [lia|]. split; done. }
    destruct (_ && _); [by apply gateInv_resolveGate|done].
  - destruct (_ && _); [by apply gateInv_resolveGate|done].
Qed.

Lemma gateInv_handle p s evt : gateInv s -> gateInv (handle p s evt).
Proof.
  intros Hinv.
  destruct (decide (evt = AutoCompactionStart)) as [->|H1].
  { simpl. unfold onAutoCompactionStart. apply gateInv_ensure.
    destruct Hinv as (H0 & H1 & H2). by unfold gateInv. }
  destruct (decide (evt = AgentEnd)) as [->|H3].
  { simpl. unfold onAgentEnd. apply gateInv_settle.
    eapply gateInv_gate; [|exact Hinv].
    unfold when. destruct (onBlockReply p); [|done].
    change (gate (flushBlock s) = gate s).
    apply gate_of_untouched, untouched_flushBlock. }
  destruct evt as [| | | | | | | |willRetry| |];
    try (eapply gateInv_gate; [apply gate_handle; done|exact Hinv]).
  simpl. unfold onAutoCompactionEnd. destruct willRetry.
  - eapply (gateInv_gate (ensureCompactionPromise
              (set_pendingCompactionRetry (pendingCompactionRetry s + 1)
                 (set_compactionInFlight false s)))); [done|].
    apply gateInv_ensure. destruct Hinv as (H0 & Hp & Hr).
    unfold gateInv. simpl. split; [lia|]. split; done.
  - unfold maybeResolveCompactionWait.
    assert (gateInv (set_compactionInFlight false s)) as Hst.
    { destruct Hinv as (H0 & Hp & Hr). by unfold gateInv. }
    destruct (_ && _); [by apply gateInv_resolveGate|done].
Qed.

Lemma gateInv_run p s evts : gateInv s -> gateInv (run p s evts).
Proof.
  revert s. induction evts as [|evt evts IH]; intros s Hs; [done|].
  simpl. apply IH. by apply gateInv_handle.
Qed.

(** The gate promise is resolved only by a step after which the counter is
    zero and no compaction is in flight. *)
Lemma resolved_only_when_clear p s evt pr :
  pr ∈ promisesResolved (handle p s evt) ->
  pr ∉ promisesResolved s ->
  pendingCompactionRetry (handle p s evt) = 0 /\
  compactionInFlight (handle p s evt) = false.
Proof.
  intros Hin Hout.
  assert (forall st : State C,
            pendingCompactionRetry st = 0 -> compactionInFlight st = false ->
            pendingCompactionRetry (resolveGate st) = 0 /\
            compactionInFlight (resolveGate st) = false) as Hres.
  { intros st H0 H1. unfold resolveGate.
    by destruct (compactionRetryPromise st). }
  assert (forall st : State C, pr ∈ promisesResolved (maybeResolveCompactionWait st) ->
                     pr ∉ promisesResolved st ->
                     pendingCompactionRetry (maybeResolveCompactionWait st) = 0 /\
                     compactionInFlight (maybeResolveCompactionWait st) = false) as Hmaybe.
  { intros st. unfold maybeResolveCompactionWait.
    destruct (pendingCompactionRetry st =? 0) eqn:H0; simpl; [|done].
    destruct (compactionInFlight st) eqn:H1; simpl; [done|].
    intros _ _. apply Z.eqb_eq in H0. apply Hres; auto. }
  destruct (decide (evt = AgentEnd)) as [->|H3].
  { simpl in *. unfold onAgentEnd in *.
    set (st := set_blockThinkingActive false (when (onBlockReply p) flushBlock s)) in *.
    assert (promisesResolved st = promisesResolved s) as Hsame.
    { subst st. simpl. unfold when. destruct (onBlockReply p); [|done].
      apply promisesResolved_of_gate, gate_of_untouched, untouched_flushBlock. }
    rewrite <- Hsame in Hout. clearbody st. clear Hsame.
    unfold settleCompaction in *.
    destruct (0 <? pendingCompactionRetry st) eqn:Hpos; [|by apply Hmaybe].
    unfold resolveCompactionRetry in *.
    apply Z.ltb_lt in Hpos. rewrite (proj2 (Z.leb_gt _ _)) in * by lia.
    simpl in *.
    destruct (pendingCompactionRetry st - 1 =? 0) eqn:H0; simpl in *; [|done].
    destruct (compactionInFlight st) eqn:H1; simpl in *; [done|].
    apply Z.eqb_eq in H0. apply Hres; auto. }
  destruct (decide (evt = AutoCompactionStart)) as [->|H1].
  { simpl in Hin. unfold onAutoCompactionStart, ensureCompactionPromise in Hin.
    simpl in Hin. by destruct (compactionRetryPromise s). }
  destruct evt as [| | | | | | | |willRetry| |];
    try (rewrite (promisesResolved_of_gate _ _
                    (gate_handle p s _ H1 ltac:(done) H3)) in Hin; done).
  simpl in *. unfold onAutoCompactionEnd in *. destruct willRetry.
  - exfalso. apply Hout.
    revert Hin. unfold noteCompactionRetry, ensureCompactionPromise. simpl.
    by destruct (compactionRetryPromise s).
  - by apply Hmaybe.
Qed.

End CompactionFacts.

(** C5: on [auto_compaction_end] with [willRetry] the reconciler empties
    the delta buffer, the block buffer (and resets the chunker), the
    reasoning flag, the accumulated assistant texts, the tool metadata and
    the messaging-tool tracking, forgets the last streamed and last block
    texts, and adds one to the pending-retry counter.  In every state of a
    run: a step resolves the retry gate only if it leaves the counter at
    zero with no compaction in flight; [waitForCompactionRetry] hands out
    the pending, unresolved gate promise exactly while [isCompacting()]
    holds and otherwise resolves after a microtask only if the state is
    still clear; and [isCompacting()] is [true] exactly when a compaction is
    in flight or the counter is not zero. *)
Theorem C5_compaction_retry {C : Type} {E : Collaborators C}
    (p : Params) (chunker : option C) (evts : list Event) :
  let s := run p (initial chunker) evts in
  (let s' := handle p s (AutoCompactionEnd true) in
   deltaBuffer s' = "" /\ blockBuffer s' = "" /\
   blockChunker s' = (chunker_reset <$> blockChunker s) /\
   blockThinkingActive s' = false /\
   assistantTexts s' = [] /\
   toolMetas s' = [] /\ toolMetaById s' = ∅ /\ toolSummaryById s' = ∅ /\
   messagingToolSentTexts s' = [] /\ messagingToolSentTargets s' = [] /\
   pendingMessagingTexts s' = ∅ /\ pendingMessagingTargets s' = ∅ /\
   lastStreamedAssistant s' = None /\ lastStreamedReasoning s' = None /\
   lastBlockReplyText s' = None /\ assistantTextBaseline s' = 0%nat /\
   pendingCompactionRetry s' = pendingCompactionRetry s + 1 /\
   compactionInFlight s' = false /\
   isCompacting s' = true /\
   promisesResolved s' = promisesResolved s) /\
  (forall evt pr,
     pr ∈ promisesResolved (handle p s evt) -> pr ∉ promisesResolved s ->
     pendingCompactionRetry (handle p s evt) = 0 /\
     compactionInFlight (handle p s evt) = false) /\
  (isCompacting s = true ->
     exists pr, (waitForCompactionRetry s).2 = WaitOnGate pr /\
                compactionRetryPromise (waitForCompactionRetry s).1 = Some pr /\
                (pr ∉ promisesResolved (waitForCompactionRetry s).1)) /\
  (isCompacting s = false ->
     waitForCompactionRetry s = (s, WaitMicrotask) /\
     recheckCompactionWait s = (s, WaitResolved)) /\
  ((recheckCompactionWait s).2 = WaitResolved ->
     pendingCompactionRetry s = 0 /\ compactionInFlight s = false) /\
  (isCompacting s = true <->
     compactionInFlight s = true \/ pendingCompactionRetry s <> 0).
Proof.
  intros s.
  assert (gateInv s) as Hinv by apply gateInv_run, gateInv_initial.
  clearbody s.
  assert (isCompacting s = true <->
          compactionInFlight s = true \/ pendingCompactionRetry s <> 0) as Hiff.
  { unfold isCompacting. destruct Hinv as (H0 & _).
    rewrite orb_true_iff, Z.ltb_lt. split; intros [?|?]; auto; right; lia. }
  split; [|split; [|split; [|split; [|split]]]].
  - simpl. unfold onAutoCompactionEnd, noteCompactionRetry, ensureCompactionPromise.
    destruct Hinv as (H0 & _).
    assert ((0 <? pendingCompactionRetry s + 1) = true) as Hpos by (apply Z.ltb_lt; lia).
    destruct (compactionRetryPromise (set_pendingCompactionRetry _ _)); simpl;
      unfold isCompacting; simpl; rewrite Hpos; repeat split; done.
  - intros evt pr. apply resolved_only_when_clear.
  - intros Hc. unfold waitForCompactionRetry.
    change (compactionInFlight s || (0 <? pendingCompactionRetry s))
      with (isCompacting s). rewrite Hc. simpl.
    pose proof (gateInv_ensure s Hinv) as (_ & Hp & _).
    unfold gateOf.
    destruct (compactionRetryPromise (ensureCompactionPromise s)) as [pr|] eqn:Hpr.
    + exists pr. split; [done|]. split; [done|]. by apply Hp.
    + exfalso. revert Hpr. unfold ensureCompactionPromise.
      destruct (compactionRetryPromise s) eqn:Hs; simpl; congruence.
  - intros Hc. unfold waitForCompactionRetry, recheckCompactionWait.
    change (compactionInFlight s || (0 <? pendingCompactionRetry s))
      with (isCompacting s). by rewrite Hc.
  - unfold recheckCompactionWait.
    change (compactionInFlight s || (0 <? pendingCompactionRetry s))
      with (isCompacting s).
    destruct (isCompacting s) eqn:Hc; simpl.
    + unfold gateOf.
      destruct (compactionRetryPromise (ensureCompactionPromise s)) eqn:Hpr; [done|].
      exfalso. revert Hpr. unfold ensureCompactionPromise.
      destruct (compactionRetryPromise s) eqn:Hs; simpl; congruence.
    + intros _.
      assert (~ (compactionInFlight s = true \/ pendingCompactionRetry s <> 0)) as Hn.
      { intros Hx. destruct Hiff as [_ Hb]. specialize (Hb Hx). discriminate. }
      split.
      * destruct (decide (pendingCompactionRetry s = 0)) as [Hz|Hne]; [exact Hz|].
        exfalso. apply Hn. right. exact Hne.
      * destruct (compactionInFlight s) eqn:Hf; [|reflexivity].
        exfalso. apply Hn. left. first [reflexivity | exact Hf].
  - exact Hiff.
Qed.

(** A compaction that retries, seen from the caller: the gate is pending
    after [auto_compaction_end], and resolves at the [agent_end] of the
    retry. *)
Example compaction_retry_gate :
  let s1 := run defaultParams (initial (C := Empty_set) None)
              [ AgentStart; MessageStart Assistant;
                MessageUpdate Assistant TextDelta "partial" "";
                AutoCompactionStart; AutoCompactionEnd true ] in
  let s2 := run defaultParams s1
              [ MessageStart Assistant;
                MessageUpdate Assistant TextDelta "answer" "";
                MessageUpdate Assistant TextEnd "" "answer";
                MessageEnd Assistant "answer" "" ] in
  let s3 := handle defaultParams s2 AgentEnd in
  isCompacting s1 = true /\ (waitForCompactionRetry s1).2 = WaitOnGate 0 /\
  promisesResolved s2 = [] /\
  promisesResolved s3 = [0%nat] /\ isCompacting s3 = false /\
  assistantTexts s3 = ["answer"].
Proof. repeat split; vm_compute; reflexivity. Qed.

(** ** C7: repeated texts *)

(** No element of [xs] equals its predecessor, [prev] being the predecessor
    of the first element. *)
Fixpoint noRepeat (prev : option string) (xs : list string) : Prop :=
  match xs with
  | [] => True
  | x :: xs' => prev <> Some x /\ noRepeat (Some x) xs'
  end.

Definition lastOf (prev : option string) (xs : list string) : option string :=
  match last xs with
  | Some x => Some x
  | None => prev
  end.

Definition blockText (o : Output) : option string :=
  match o with
  | BlockChunk t | FinalBlock t => Some t
  | _ => None
  end.

Definition streamText (o : Output) : option string :=
  match o with
  | AssistantStream t => Some t
  | _ => None
  end.

Section RepeatFacts.

Context {C : Type} {E : Collaborators C}.

Implicit Types (s : State C) (p : Params).

Lemma lastOf_app prev xs ys :
  lastOf prev (xs ++ ys) = lastOf (lastOf prev xs) ys.
Proof.
  unfold lastOf. rewrite last_app. by destruct (last ys), (last xs).
Qed.

Lemma noRepeat_app prev xs ys :
  noRepeat prev (xs ++ ys) <-> noRepeat prev xs /\ noRepeat (lastOf prev xs) ys.
Proof.
  revert prev. induction xs as [|x xs IH]; intros prev; simpl.
  - unfold lastOf. simpl. tauto.
  - rewrite IH.
    assert (lastOf prev (x :: xs) = lastOf (Some x) xs) as ->.
    { change (x :: xs) with ([x] ++ xs). by rewrite lastOf_app. }
    tauto.
Qed.

(** [noRepeat]: neighbours differ. *)
Lemma noRepeat_neighbours prev xs i x y :
  noRepeat prev xs -> xs !! i = Some x -> xs !! S i = Some y -> x <> y.
Proof.
  revert prev i. induction xs as [|a xs IH]; intros prev i Hn Hx Hy; [done|].
  destruct Hn as [_ Hn]. destruct i as [|i]; simpl in *.
  - injection Hx as ->. destruct xs as [|b xs]; [done|].
    simpl in Hy. injection Hy as ->. destruct Hn as [Hne _]. congruence.
  - by apply (IH (Some a) i).
Qed.

(** From [s] to [s'] the output record grows, and the texts selected by
    [sel] that were added never repeat their predecessor, [lastf] holding
    the last selected text. *)
Definition advances (sel : Output -> option string) (lastf : State C -> option string)
    s s' : Prop :=
  exists new,
    outputs s' = outputs s ++ new /\
    noRepeat (lastf s) (omap sel new) /\
    lastf s' = lastOf (lastf s) (omap sel new).

Lemma advances_refl sel lastf s : advances sel lastf s s.
Proof. exists []. by rewrite app_nil_r. Qed.

Lemma advances_trans sel lastf s1 s2 s3 :
  advances sel lastf s1 s2 -> advances sel lastf s2 s3 -> advances sel lastf s1 s3.
Proof.
  intros (n1 & Ho1 & Hn1 & Hl1) (n2 & Ho2 & Hn2 & Hl2).
  exists (n1 ++ n2). rewrite Ho2, Ho1, app_assoc, omap_app, lastOf_app.
  split; [done|]. split; [|by rewrite Hl2, Hl1].
  apply noRepeat_app. split; [done|]. by rewrite <- Hl1.
Qed.

Lemma advances_frame sel lastf s s' :
  outputs s' = outputs s -> lastf s' = lastf s -> advances sel lastf s s'.
Proof. intros Ho Hl. exists []. by rewrite app_nil_r. Qed.

Lemma advances_silent sel lastf s s' o :
  outputs s' = outputs s ++ [o] -> sel o = None -> lastf s' = lastf s ->
  advances sel lastf s s'.
Proof. intros Ho Hs Hl. exists [o]. simpl. by rewrite Hs. Qed.

Lemma advances_one sel lastf s s' o x :
  outputs s' = outputs s ++ [o] -> sel o = Some x ->
  lastf s <> Some x -> lastf s' = Some x ->
  advances sel lastf s s'.
Proof. intros Ho Hs Hne Hl. exists [o]. simpl. by rewrite Hs. Qed.

Lemma advances_when sel lastf b (f : State C -> State C) s :
  advances sel lastf s (f s) -> advances sel lastf s (when b f s).
Proof. intros Hf. unfold when. destruct b; [done|apply advances_refl]. Qed.

(** *** Block replies *)

Local Abbreviation advancesB := (advances blockText lastBlockReplyText).

Lemma advancesB_emitBlockChunk text s : advancesB s (emitBlockChunk text s).
Proof.
  unfold emitBlockChunk, emit.
  destruct (stripBlockThinkingSegments _ _) as [stripped active].
  destruct (negb (Js.truthy _)); [by apply advances_frame|].
  case_bool_decide as Hlast; [by apply advances_frame|].
  destruct (isMessagingToolDuplicate _ _); [by apply advances_frame|].
  by eapply advances_one.
Qed.

Lemma advancesB_drainChunker force c s : advancesB s (drainChunker force c s).
Proof.
  apply (drainChunker_ind (fun st => advancesB s st)).
  - intros text st Hst. eapply advances_trans; [exact Hst|].
    apply advancesB_emitBlockChunk.
  - by apply advances_frame.
Qed.

Lemma advancesB_flushBlock s : advancesB s (flushBlock s).
Proof.
  unfold flushBlock.
  assert (forall st, advancesB s st -> advancesB s (resetChunker st)) as Hreset.
  { intros st Hst. eapply advances_trans; [exact Hst|]. by apply advances_frame. }
  assert (advancesB s (set_blockBuffer "" (emitBlockChunk (blockBuffer s) s))) as Hbuf.
  { eapply advances_trans; [apply advancesB_emitBlockChunk|]. by apply advances_frame. }
  destruct (blockChunker s) as [c|].
  - destruct (chunker_hasBuffered c); [apply Hreset, advancesB_drainChunker|].
    destruct (0 <? _)%nat; [exact Hbuf|apply advances_refl].
  - destruct (0 <? _)%nat; [exact Hbuf|apply advances_refl].
Qed.

Lemma advancesB_emitFinalBlock p text s : advancesB s (emitFinalBlock p text s).
Proof.
  unfold emitFinalBlock, emit.
  destruct (_ && onBlockReply p); [|apply advances_refl].
  assert (advancesB s
            (if negb (bool_decide (lastBlockReplyText s = Some text))
             then if isMessagingToolDuplicate text (messagingToolSentTexts s) then s
                  else set_outputs (outputs (set_lastBlockReplyText (Some text) s)
                                    ++ [FinalBlock text])
                         (set_lastBlockReplyText (Some text) s)
             else s)) as Hvia.
  { case_bool_decide as Hlast; simpl; [apply advances_refl|].
    destruct (isMessagingToolDuplicate _ _); [apply advances_refl|].
    by eapply advances_one. }
  destruct (blockChunker s) as [c|]; [|exact Hvia].
  destruct (chunker_hasBuffered c); [|exact Hvia].
  eapply advances_trans; [apply advancesB_drainChunker|]. by apply advances_frame.
Qed.

Lemma advancesB_onMessageUpdate p evtType delta content s :
  advancesB s (onMessageUpdate p evtType delta content s).
Proof.
  unfold onMessageUpdate.
  assert (forall chunk st, advancesB st (appendChunk chunk st)) as H1.
  { intros chunk st. unfold appendChunk. split_cases; by apply advances_frame. }
  assert (forall st, advancesB st (streamThinking p st)) as H2.
  { intros st. unfold streamThinking. apply advances_when.
    unfold emitReasoningStream, emit. split_cases;
      first [by apply advances_frame | by eapply advances_silent]. }
  assert (forall st, advancesB st (streamAssistant p st)) as H3.
  { intros st. unfold streamAssistant, emit. split_cases;
      first [by apply advances_frame | by eapply advances_silent]. }
  assert (forall st, advancesB st (drainOnUpdate p st)) as H4.
  { intros st. unfold drainOnUpdate. split_cases;
      first [apply advancesB_drainChunker | apply advances_refl]. }
  assert (forall st, advancesB st (flushOnTextEnd p evtType st)) as H5.
  { intros st. unfold flushOnTextEnd. split_cases;
      first [apply advancesB_flushBlock | apply advances_refl]. }
  destruct evtType; [| | |apply advances_refl];
    (eapply advances_trans; [|apply H5]);
    (eapply advances_trans; [|apply H4]);
    (eapply advances_trans; [|apply H3]);
    (eapply advances_trans; [|apply H2]); apply H1.
Qed.

Lemma advancesB_onMessageEnd p rawText thinking s :
  advancesB s (onMessageEnd p rawText thinking s).
Proof.
  unfold onMessageEnd. cbv zeta.
  assert (forall x st, advancesB st (pushFinalText x st)) as H1.
  { intros x st. unfold pushFinalText. split_cases; by apply advances_frame. }
  assert (forall b x st, advancesB st (when b (emitReasoningBlock x) st)) as H2.
  { intros b x st. apply advances_when. by eapply advances_silent. }
  assert (forall b x st, advancesB st (when b (emitReasoningStream p x) st)) as H3.
  { intros b x st. apply advances_when.
    unfold emitReasoningStream, emit. split_cases;
      first [by apply advances_frame | by eapply advances_silent]. }
  assert (forall st, advancesB st (resetAtMessageEnd st)) as H4.
  { intros st. by apply advances_frame. }
  (eapply advances_trans; [|apply H4]).
  (eapply advances_trans; [|apply H3]).
  (eapply advances_trans; [|apply H2]).
  (eapply advances_trans; [|apply advancesB_emitFinalBlock]).
  (eapply advances_trans; [|apply H2]).
  apply H1.
Qed.

Lemma advancesB_settleCompaction s : advancesB s (settleCompaction s).
Proof.
  unfold settleCompaction, resolveCompactionRetry, maybeResolveCompactionWait,
    resolveGate.
  split_cases; by apply advances_frame.
Qed.

(** The events that start a new accumulation: an assistant [message_start]
    and a compaction end that retries. *)
Definition startsAfresh (evt : Event) : bool :=
  match evt with
  | MessageStart Assistant | AutoCompactionEnd true => true
  | _ => false
  end.

Lemma advancesB_handle p s evt :
  startsAfresh evt = false -> advancesB s (handle p s evt).
Proof.
  intros Hevt.
  destruct evt as [[]|toolName toolCallId meta args target answer| |toolName toolCallId isError
                  |[]|[]| | |[]| |]; simpl; try done; try apply advances_refl.
  - unfold onToolExecutionStart, when, emitToolSummary, trackMessagingSend, emit.
    split_cases; first [by apply advances_frame | by eapply advances_silent].
  - unfold onToolExecutionEnd. split_cases; by apply advances_frame.
  - apply advancesB_onMessageUpdate.
  - apply advancesB_onMessageEnd.
  - unfold onAutoCompactionStart, ensureCompactionPromise.
    split_cases; by apply advances_frame.
  - unfold onAutoCompactionEnd, maybeResolveCompactionWait, resolveGate.
    split_cases; by apply advances_frame.
  - unfold onAgentEnd.
    eapply advances_trans; [|apply advancesB_settleCompaction].
    eapply advances_trans; [|by apply advances_frame].
    apply advances_when, advancesB_flushBlock.
Qed.

Lemma advancesB_run p s evts :
  forallb (fun evt => negb (startsAfresh evt)) evts = true ->
  advancesB s (run p s evts).
Proof.
  revert s. induction evts as [|evt evts IH]; intros s Hall; simpl in *.
  - apply advances_refl.
  - apply andb_true_iff in Hall as [Hevt Hall].
    eapply advances_trans; [|by apply IH].
    apply advancesB_handle. by destruct (startsAfresh evt).
Qed.

(** *** Partial replies *)

Local Abbreviation advancesS := (advances streamText lastStreamedAssistant).

Lemma advancesS_emitBlockChunk text s : advancesS s (emitBlockChunk text s).
Proof.
  unfold emitBlockChunk, emit.
  split_cases; first [by apply advances_frame | by eapply advances_silent].
Qed.

Lemma advancesS_drainChunker force c s : advancesS s (drainChunker force c s).
Proof.
  apply (drainChunker_ind (fun st => advancesS s st)).
  - intros text st Hst. eapply advances_trans; [exact Hst|].
    apply advancesS_emitBlockChunk.
  - by apply advances_frame.
Qed.

Lemma advancesS_flushBlock s : advancesS s (flushBlock s).
Proof.
  unfold flushBlock.
  assert (forall st, advancesS s st -> advancesS s (resetChunker st)) as Hreset.
  { intros st Hst. eapply advances_trans; [exact Hst|]. by apply advances_frame. }
  assert (advancesS s (set_blockBuffer "" (emitBlockChunk (blockBuffer s) s))) as Hbuf.
  { eapply advances_trans; [apply advancesS_emitBlockChunk|]. by apply advances_frame. }
  destruct (blockChunker s) as [c|].
  - destruct (chunker_hasBuffered c); [apply Hreset, advancesS_drainChunker|].
    destruct (0 <? _)%nat; [exact Hbuf|apply advances_refl].
  - destruct (0 <? _)%nat; [exact Hbuf|apply advances_refl].
Qed.

Lemma advancesS_streamAssistant p s : advancesS s (streamAssistant p s).
Proof.
  unfold streamAssistant, emit.
  destruct (Js.truthy _); simpl; [|apply advances_refl].
  case_bool_decide as Hlast; simpl; [apply advances_refl|].
  by eapply advances_one.
Qed.

Lemma advancesS_onMessageUpdate p evtType delta content s :
  advancesS s (onMessageUpdate p evtType delta content s).
Proof.
  unfold onMessageUpdate.
  assert (forall chunk st, advancesS st (appendChunk chunk st)) as H1.
  { intros chunk st. unfold appendChunk. split_cases; by apply advances_frame. }
  assert (forall st, advancesS st (streamThinking p st)) as H2.
  { intros st. unfold streamThinking. apply advances_when.
    unfold emitReasoningStream, emit. split_cases;
      first [by apply advances_frame | by eapply advances_silent]. }
  assert (forall st, advancesS st (drainOnUpdate p st)) as H4.
  { intros st. unfold drainOnUpdate. split_cases;
      first [apply advancesS_drainChunker | apply advances_refl]. }
  assert (forall st, advancesS st (flushOnTextEnd p evtType st)) as H5.
  { intros st. unfold flushOnTextEnd. split_cases;
      first [apply advancesS_flushBlock | apply advances_refl]. }
  destruct evtType; [| | |apply advances_refl];
    (eapply advances_trans; [|apply H5]);
    (eapply advances_trans; [|apply H4]);
    (eapply advances_trans; [|apply advancesS_streamAssistant]);
    (eapply advances_trans; [|apply H2]); apply H1.
Qed.

(** The events after which the partial-reply comparison starts over: those
    of [startsAfresh] and an assistant [message_end]. *)
Definition endsStreaming (evt : Event) : bool :=
  match evt with
  | MessageEnd Assistant _ _ => true
  | _ => startsAfresh evt
  end.

Lemma advancesS_handle p s evt :
  endsStreaming evt = false -> advancesS s (handle p s evt).
Proof.
  intros Hevt.
  destruct evt as [[]|toolName toolCallId meta args target answer| |toolName toolCallId isError
                  |[]|[]| | |[]| |]; simpl; try done; try apply advances_refl.
  - unfold onToolExecutionStart, when, emitToolSummary, trackMessagingSend, emit.
    split_cases; first [by apply advances_frame | by eapply advances_silent].
  - unfold onToolExecutionEnd. split_cases; by apply advances_frame.
  - apply advancesS_onMessageUpdate.
  - unfold onAutoCompactionStart, ensureCompactionPromise.
    split_cases; by apply advances_frame.
  - unfold onAutoCompactionEnd, maybeResolveCompactionWait, resolveGate.
    split_cases; by apply advances_frame.
  - unfold onAgentEnd.
    eapply advances_trans;
      [|unfold settleCompaction, resolveCompactionRetry, maybeResolveCompactionWait,
          resolveGate; split_cases; by apply advances_frame].
    eapply advances_trans; [|by apply advances_frame].
    apply advances_when, advancesS_flushBlock.
Qed.

Lemma advancesS_run p s evts :
  forallb (fun evt => negb (endsStreaming evt)) evts = true ->
  advancesS s (run p s evts).
Proof.
  revert s. induction evts as [|evt evts IH]; intros s Hall; simpl in *.
  - apply advances_refl.
  - apply andb_true_iff in Hall as [Hevt Hall].
    eapply advances_trans; [|by apply IH].
    apply advancesS_handle. by destruct (endsStreaming evt).
Qed.

End RepeatFacts.

(** One assistant message whose three text blocks are ["On it."],
    ["Still working."] and again ["On it."], each closed by its [text_end]. *)
Definition repeatedBlocks : list Event :=
  [ MessageStart Assistant;
    MessageUpdate Assistant TextDelta "On it." "";
    MessageUpdate Assistant TextEnd "" "On it.";
    MessageUpdate Assistant TextDelta "Still working." "";
    MessageUpdate Assistant TextEnd "" "Still working.";
    MessageUpdate Assistant TextDelta "On it." "";
    MessageUpdate Assistant TextEnd "" "On it." ].

(** One assistant message whose open marker arrives in two deltas. *)
Definition splitMarker : list Event :=
  [ MessageStart Assistant;
    MessageUpdate Assistant TextDelta "x" "";
    MessageUpdate Assistant TextDelta "<think" "";
    MessageUpdate Assistant TextDelta ">" "" ].

(** C7, as stated, fails: a block reply text is emitted again once another
    text has been emitted in between, and so is the cleaned cumulative text
    of a partial reply (after the open marker completes, the cleaned text
    falls back to what was streamed two deltas earlier). *)
Lemma C7_counterexample :
  let s := run defaultParams (initial (C := Empty_set) None) repeatedBlocks in
  let s' := run defaultParams (initial (C := Empty_set) None) splitMarker in
  acceptedBlocks (outputs s) = ["On it."; "Still working."; "On it."] /\
  blockReplyCalls defaultParams (outputs s)
  = [("On it.", []); ("Still working.", []); ("On it.", [])] /\
  ~ NoDup (blockReplyCalls defaultParams (outputs s)) /\
  streamedTexts (outputs s') = ["x"; "x<think"; "x"] /\
  partialReplyCalls defaultParams (outputs s')
  = [("x", []); ("x<think", []); ("x", [])] /\
  ~ NoDup (partialReplyCalls defaultParams (outputs s')).
Proof.
  assert (forall (a b : string * list string) l, ~ NoDup (a :: b :: a :: l)) as Hdup.
  { intros a b l Hnd. apply NoDup_cons in Hnd as [Hnotin _].
    apply Hnotin. set_solver. }
  cbv zeta.
  replace (blockReplyCalls defaultParams _)
    with [("On it.", @nil string); ("Still working.", []); ("On it.", [])]
    by (vm_compute; reflexivity).
  replace (partialReplyCalls defaultParams _)
    with [("x", @nil string); ("x<think", []); ("x", [])]
    by (vm_compute; reflexivity).
  repeat split; try (vm_compute; reflexivity); apply Hdup.
Qed.

(** C7 (amended): while no assistant [message_start] and no retrying
    compaction end intervenes, the texts accepted as block replies (by
    [emitBlockChunk] or as the final block of [message_end]) never repeat
    the text accepted just before: every accepted text differs from its
    predecessor, the first one from [lastBlockReplyText] of the starting
    state.  While moreover no assistant [message_end] intervenes, the
    cleaned cumulative texts streamed as partial replies never repeat the
    text streamed just before.  A text may come back after a different
    one. *)
Theorem C7_no_immediate_repeat {C : Type} {E : Collaborators C}
    (p : Params) (s : State C) (evts : list Event) :
  forallb (fun evt => negb (startsAfresh evt)) evts = true ->
  exists new,
    outputs (run p s evts) = outputs s ++ new /\
    noRepeat (lastBlockReplyText s) (acceptedBlocks new) /\
    (forall i x y, acceptedBlocks new !! i = Some x ->
                   acceptedBlocks new !! S i = Some y -> x <> y) /\
    lastBlockReplyText (run p s evts)
    = lastOf (lastBlockReplyText s) (acceptedBlocks new) /\
    (forallb (fun evt => negb (endsStreaming evt)) evts = true ->
     noRepeat (lastStreamedAssistant s) (streamedTexts new) /\
     (forall i x y, streamedTexts new !! i = Some x ->
                    streamedTexts new !! S i = Some y -> x <> y) /\
     lastStreamedAssistant (run p s evts)
     = lastOf (lastStreamedAssistant s) (streamedTexts new)).
Proof.
  intros Hall.
  destruct (advancesB_run p s evts Hall) as (new & Ho & Hn & Hl).
  exists new. split; [exact Ho|]. split; [exact Hn|].
  split; [intros i x y; by apply noRepeat_neighbours with (prev := lastBlockReplyText s)|].
  split; [exact Hl|].
  intros Hstream.
  destruct (advancesS_run p s evts Hstream) as (new' & Ho' & Hn' & Hl').
  assert (new' = new) as -> by (rewrite Ho in Ho'; by apply app_inv_head in Ho').
  split; [exact Hn'|]. split; [|exact Hl'].
  intros i x y. by apply noRepeat_neighbours with (prev := lastStreamedAssistant s).
Qed.

Lemma C7_no_immediate_repeat_witness :
  exists new,
    outputs (run defaultParams (initial (C := Empty_set) None) (tail repeatedBlocks))
    = new /\
    noRepeat None (acceptedBlocks new).
Proof.
  destruct (C7_no_immediate_repeat defaultParams (initial (C := Empty_set) None)
              (tail repeatedBlocks)) as (new & Ho & Hn & _).
  - vm_compute. reflexivity.
  - exists new. split; [exact Ho | exact Hn].
Defined.

(** ** C2: messaging-tool deduplication *)

(** The text of a block after reasoning strip and [trimEnd]. *)
Definition cleanedBlock (active : bool) (text : string) : string :=
  Js.trimEnd (stripBlockThinkingSegments active text).1.

Section DedupFacts.

Context {C : Type} {E : Collaborators C}.

Implicit Types (s : State C) (p : Params).

(** From [s] to [s'] the committed tool-sent texts stay as they are and
    every text accepted as a block reply was not a duplicate of them. *)
Definition acceptsFresh s s' : Prop :=
  messagingToolSentTexts s' = messagingToolSentTexts s /\
  exists new,
    outputs s' = outputs s ++ new /\
    Forall (fun t => isMessagingToolDuplicate t (messagingToolSentTexts s) = false)
      (acceptedBlocks new).

Lemma acceptsFresh_refl s : acceptsFresh s s.
Proof. split; [done|]. exists []. by rewrite app_nil_r. Qed.

Lemma acceptsFresh_trans s1 s2 s3 :
  acceptsFresh s1 s2 -> acceptsFresh s2 s3 -> acceptsFresh s1 s3.
Proof.
  intros (Hm1 & n1 & Ho1 & Hf1) (Hm2 & n2 & Ho2 & Hf2).
  split; [congruence|]. exists (n1 ++ n2).
  rewrite Ho2, Ho1, app_assoc. split; [done|].
  unfold acceptedBlocks in *. rewrite omap_app. apply Forall_app.
  split; [done|]. by rewrite <- Hm1.
Qed.

Lemma acceptsFresh_frame s s' :
  messagingToolSentTexts s' = messagingToolSentTexts s ->
  outputs s' = outputs s -> acceptsFresh s s'.
Proof. intros Hm Ho. split; [done|]. exists []. by rewrite app_nil_r. Qed.

Lemma acceptsFresh_silent s s' o :
  messagingToolSentTexts s' = messagingToolSentTexts s ->
  outputs s' = outputs s ++ [o] -> blockText o = None -> acceptsFresh s s'.
Proof.
  intros Hm Ho Hb. split; [done|]. exists [o]. split; [done|].
  destruct o; try discriminate; constructor.
Qed.

Lemma acceptsFresh_when b (f : State C -> State C) s :
  acceptsFresh s (f s) -> acceptsFresh s (when b f s).
Proof. intros Hf. unfold when. destruct b; [done|apply acceptsFresh_refl]. Qed.

Lemma acceptsFresh_emitBlockChunk text s : acceptsFresh s (emitBlockChunk text s).
Proof.
  unfold emitBlockChunk, emit.
  destruct (stripBlockThinkingSegments _ _) as [stripped active].
  destruct (negb (Js.truthy _)); [by apply acceptsFresh_frame|].
  case_bool_decide as Hlast; [by apply acceptsFresh_frame|].
  destruct (isMessagingToolDuplicate _ _) eqn:Hdup; [by apply acceptsFresh_frame|].
  split; [done|]. eexists. split; [reflexivity|].
  unfold acceptedBlocks. simpl. by constructor.
Qed.

Lemma acceptsFresh_drainChunker force c s : acceptsFresh s (drainChunker force c s).
Proof.
  apply (drainChunker_ind (fun st => acceptsFresh s st)).
  - intros text st Hst. eapply acceptsFresh_trans; [exact Hst|].
    apply acceptsFresh_emitBlockChunk.
  - by apply acceptsFresh_frame.
Qed.

Lemma acceptsFresh_flushBlock s : acceptsFresh s (flushBlock s).
Proof.
  unfold flushBlock.
  assert (forall st, acceptsFresh s st -> acceptsFresh s (resetChunker st)) as Hreset.
  { intros st Hst. eapply acceptsFresh_trans; [exact Hst|]. by apply acceptsFresh_frame. }
  assert (acceptsFresh s (set_blockBuffer "" (emitBlockChunk (blockBuffer s) s))) as Hbuf.
  { eapply acceptsFresh_trans; [apply acceptsFresh_emitBlockChunk|].
    by apply acceptsFresh_frame. }
  destruct (blockChunker s) as [c|].
  - destruct (chunker_hasBuffered c); [apply Hreset, acceptsFresh_drainChunker|].
    destruct (0 <? _)%nat; [exact Hbuf|apply acceptsFresh_refl].
  - destruct (0 <? _)%nat; [exact Hbuf|apply acceptsFresh_refl].
Qed.

Lemma acceptsFresh_emitFinalBlock p text s : acceptsFresh s (emitFinalBlock p text s).
Proof.
  unfold emitFinalBlock, emit.
  destruct (_ && onBlockReply p); [|apply acceptsFresh_refl].
  assert (acceptsFresh s
            (if negb (bool_decide (lastBlockReplyText s = Some text))
             then if isMessagingToolDuplicate text (messagingToolSentTexts s) then s
                  else set_outputs (outputs (set_lastBlockReplyText (Some text) s)
                                    ++ [FinalBlock text])
                         (set_lastBlockReplyText (Some text) s)
             else s)) as Hvia.
  { case_bool_decide as Hlast; simpl; [apply acceptsFresh_refl|].
    destruct (isMessagingToolDuplicate _ _) eqn:Hdup; [apply acceptsFresh_refl|].
    split; [done|]. eexists. split; [reflexivity|].
    unfold acceptedBlocks. simpl. by constructor. }
  destruct (blockChunker s) as [c|]; [|exact Hvia].
  destruct (chunker_hasBuffered c); [|exact Hvia].
  eapply acceptsFresh_trans; [apply acceptsFresh_drainChunker|].
  by apply acceptsFresh_frame.
Qed.

Lemma acceptsFresh_onMessageUpdate p evtType delta content s :
  acceptsFresh s (onMessageUpdate p evtType delta content s).
Proof.
  unfold onMessageUpdate.
  assert (forall chunk st, acceptsFresh st (appendChunk chunk st)) as H1.
  { intros chunk st. unfold appendChunk. split_cases; by apply acceptsFresh_frame. }
  assert (forall st, acceptsFresh st (streamThinking p st)) as H2.
  { intros st. unfold streamThinking. apply acceptsFresh_when.
    unfold emitReasoningStream, emit. split_cases;
      first [by apply acceptsFresh_frame | by eapply acceptsFresh_silent]. }
  assert (forall st, acceptsFresh st (streamAssistant p st)) as H3.
  { intros st. unfold streamAssistant, emit. split_cases;
      first [by apply acceptsFresh_frame | by eapply acceptsFresh_silent]. }
  assert (forall st, acceptsFresh st (drainOnUpdate p st)) as H4.
  { intros st. unfold drainOnUpdate. split_cases;
      first [apply acceptsFresh_drainChunker | apply acceptsFresh_refl]. }
  assert (forall st, acceptsFresh st (flushOnTextEnd p evtType st)) as H5.
  { intros st. unfold flushOnTextEnd. split_cases;
      first [apply acceptsFresh_flushBlock | apply acceptsFresh_refl]. }
  destruct evtType; [| | |apply acceptsFresh_refl];
    (eapply acceptsFresh_trans; [|apply H5]);
    (eapply acceptsFresh_trans; [|apply H4]);
    (eapply acceptsFresh_trans; [|apply H3]);
    (eapply acceptsFresh_trans; [|apply H2]); apply H1.
Qed.

Lemma acceptsFresh_onMessageEnd p rawText thinking s :
  acceptsFresh s (onMessageEnd p rawText thinking s).
Proof.
  unfold onMessageEnd. cbv zeta.
  assert (forall x st, acceptsFresh st (pushFinalText x st)) as H1.
  { intros x st. unfold pushFinalText. split_cases; by apply acceptsFresh_frame. }
  assert (forall b x st, acceptsFresh st (when b (emitReasoningBlock x) st)) as H2.
  { intros b x st. apply acceptsFresh_when. by eapply acceptsFresh_silent. }
  assert (forall b x st, acceptsFresh st (when b (emitReasoningStream p x) st)) as H3.
  { intros b x st. apply acceptsFresh_when.
    unfold emitReasoningStream, emit. split_cases;
      first [by apply acceptsFresh_frame | by eapply acceptsFresh_silent]. }
  assert (forall st, acceptsFresh st (resetAtMessageEnd st)) as H4.
  { intros st. by apply acceptsFresh_frame. }
  (eapply acceptsFresh_trans; [|apply H4]).
  (eapply acceptsFresh_trans; [|apply H3]).
  (eapply acceptsFresh_trans; [|apply H2]).
  (eapply acceptsFresh_trans; [|apply acceptsFresh_emitFinalBlock]).
  (eapply acceptsFresh_trans; [|apply H2]).
  apply H1.
Qed.

(** The events that assign [messagingToolSentTexts]. *)
Definition changesCommitted (evt : Event) : bool :=
  match evt with
  | ToolExecutionEnd _ _ false | AutoCompactionEnd true => true
  | _ => false
  end.

Lemma acceptsFresh_handle p s evt :
  changesCommitted evt = false -> acceptsFresh s (handle p s evt).
Proof.
  intros Hevt.
  destruct evt as [[]|toolName toolCallId meta args target answer| |toolName toolCallId []
                  |[]|[]| | |[]| |]; simpl; try done; try apply acceptsFresh_refl.
  - by apply acceptsFresh_frame.
  - unfold onToolExecutionStart, when, emitToolSummary, trackMessagingSend, emit.
    split_cases; first [by apply acceptsFresh_frame | by eapply acceptsFresh_silent].
  - unfold onToolExecutionEnd. split_cases; by apply acceptsFresh_frame.
  - apply acceptsFresh_onMessageUpdate.
  - apply acceptsFresh_onMessageEnd.
  - unfold onAutoCompactionStart, ensureCompactionPromise.
    split_cases; by apply acceptsFresh_frame.
  - unfold onAutoCompactionEnd, maybeResolveCompactionWait, resolveGate.
    split_cases; by apply acceptsFresh_frame.
  - unfold onAgentEnd.
    eapply acceptsFresh_trans;
      [|unfold settleCompaction, resolveCompactionRetry, maybeResolveCompactionWait,
          resolveGate; split_cases; by apply acceptsFresh_frame].
    eapply acceptsFresh_trans; [|by apply acceptsFresh_frame].
    apply acceptsFresh_when, acceptsFresh_flushBlock.
Qed.

(** The end of a tool call whose text is pending: committed on success,
    discarded on error; no output either way. *)
Lemma onToolExecutionEnd_pending toolName toolCallId isError text s :
  pendingMessagingTexts s !! toolCallId = Some text ->
  Js.truthy text = true ->
  let s' := onToolExecutionEnd toolName toolCallId isError s in
  pendingMessagingTexts s' !! toolCallId = None /\
  messagingToolSentTexts s'
  = (if isError then messagingToolSentTexts s else messagingToolSentTexts s ++ [text]) /\
  outputs s' = outputs s.
Proof.
  intros Hp Ht. unfold onToolExecutionEnd. simpl. rewrite Hp, Ht.
  destruct isError; simpl;
    destruct (pendingMessagingTargets s !! toolCallId); simpl;
    rewrite lookup_delete_eq; done.
Qed.

(** A tool call without pending text commits nothing. *)
Lemma onToolExecutionEnd_not_pending toolName toolCallId isError s :
  pendingMessagingTexts s !! toolCallId = None ->
  messagingToolSentTexts (onToolExecutionEnd toolName toolCallId isError s)
  = messagingToolSentTexts s.
Proof.
  intros Hp. unfold onToolExecutionEnd. simpl. rewrite Hp.
  split_cases; done.
Qed.

(** Whether [emitBlockChunk] accepts a candidate text: the cleaned chunk is
    non-empty, differs from the last block reply and is not a duplicate of
    the committed tool-sent texts.  The pending map is not consulted. *)
Definition blockAccepted s (text : string) : bool :=
  let chunk := cleanedBlock (blockThinkingActive s) text in
  Js.truthy chunk
  && negb (bool_decide (lastBlockReplyText s = Some chunk))
  && negb (isMessagingToolDuplicate chunk (messagingToolSentTexts s)).

Lemma emitBlockChunk_accepts text s :
  acceptedBlocks (outputs (emitBlockChunk text s))
  = acceptedBlocks (outputs s)
    ++ (if blockAccepted s text then [cleanedBlock (blockThinkingActive s) text] else []).
Proof.
  unfold blockAccepted, cleanedBlock, emitBlockChunk, emit, acceptedBlocks.
  destruct (stripBlockThinkingSegments _ _) as [stripped active]. simpl.
  destruct (Js.truthy (Js.trimEnd stripped)); simpl; [|by rewrite app_nil_r].
  case_bool_decide; simpl; [by rewrite app_nil_r|].
  destruct (isMessagingToolDuplicate _ _); simpl; [by rewrite app_nil_r|].
  by rewrite omap_app.
Qed.

(** The end of a tool call leaves what [emitBlockChunk] reads, the committed
    texts apart. *)
Lemma blockAccepted_onToolExecutionEnd toolName toolCallId isError s text :
  messagingToolSentTexts (onToolExecutionEnd toolName toolCallId isError s)
  = messagingToolSentTexts s ->
  blockAccepted (onToolExecutionEnd toolName toolCallId isError s) text
  = blockAccepted s text.
Proof.
  intros Hm. unfold blockAccepted. rewrite Hm.
  assert (blockThinkingActive (onToolExecutionEnd toolName toolCallId isError s)
          = blockThinkingActive s) as ->.
  { unfold onToolExecutionEnd. split_cases; done. }
  assert (lastBlockReplyText (onToolExecutionEnd toolName toolCallId isError s)
          = lastBlockReplyText s) as ->.
  { unfold onToolExecutionEnd. split_cases; done. }
  done.
Qed.

End DedupFacts.

(** Deduplication of block replies: when a tool call whose sent text is
    pending ends with an error, the text leaves the pending map and the
    committed texts stay as they were;
    when it ends without error the text is committed.  The committed list
    changes at no other event, except that a retrying compaction end
    empties it.  Every text accepted as a block reply or final block reply
    while an event is handled was judged against the texts committed before
    that event, and never against a pending one: a text accepted then is not
    a duplicate of the committed ones; so with a duplicate test that
    recognises an exact match, no accepted reply equals a committed text,
    while a text that was only pending suppresses nothing: [emitBlockChunk]
    accepts a candidate exactly when [blockAccepted] holds, which the failed
    call leaves as it was for every candidate and which is false after the
    successful call for a candidate whose cleaned text is the sent text. *)
Lemma messaging_dedup_block_replies {C : Type} {E : Collaborators C}
    (p : Params) (s : State C) (toolName toolCallId text : string) :
  pendingMessagingTexts s !! toolCallId = Some text ->
  Js.truthy text = true ->
  (forall t sent, t ∈ sent -> isMessagingToolDuplicate t sent = true) ->
  let failed := handle p s (ToolExecutionEnd toolName toolCallId true) in
  let succeeded := handle p s (ToolExecutionEnd toolName toolCallId false) in
  (pendingMessagingTexts failed !! toolCallId = None /\
   messagingToolSentTexts failed = messagingToolSentTexts s /\
   outputs failed = outputs s) /\
  (pendingMessagingTexts succeeded !! toolCallId = None /\
   messagingToolSentTexts succeeded = messagingToolSentTexts s ++ [text] /\
   outputs succeeded = outputs s) /\
  (forall (st : State C) evt,
     changesCommitted evt = false ->
     messagingToolSentTexts (handle p st evt) = messagingToolSentTexts st /\
     exists new,
       outputs (handle p st evt) = outputs st ++ new /\
       (forall t, t ∈ acceptedBlocks new ->
          isMessagingToolDuplicate t (messagingToolSentTexts st) = false /\
          t ∉ messagingToolSentTexts st)) /\
  (forall evt,
     changesCommitted evt = false ->
     exists new new',
       outputs (handle p failed evt) = outputs failed ++ new /\
       outputs (handle p succeeded evt) = outputs succeeded ++ new' /\
       (forall t, t ∈ acceptedBlocks new ->
          isMessagingToolDuplicate t (messagingToolSentTexts s) = false) /\
       text ∉ acceptedBlocks new') /\
  (forall (st : State C) t,
     acceptedBlocks (outputs (emitBlockChunk t st))
     = acceptedBlocks (outputs st)
       ++ (if blockAccepted st t then [cleanedBlock (blockThinkingActive st) t]
           else [])) /\
  (forall t, blockAccepted failed t = blockAccepted s t) /\
  (forall t, cleanedBlock (blockThinkingActive succeeded) t = text ->
             blockAccepted succeeded t = false).
Proof.
  intros Hp Ht Hexact failed succeeded.
  assert (forall (st : State C) evt,
     changesCommitted evt = false ->
     messagingToolSentTexts (handle p st evt) = messagingToolSentTexts st /\
     exists new,
       outputs (handle p st evt) = outputs st ++ new /\
       (forall t, t ∈ acceptedBlocks new ->
          isMessagingToolDuplicate t (messagingToolSentTexts st) = false /\
          t ∉ messagingToolSentTexts st)) as Hfresh.
  { intros st evt Hevt.
    destruct (acceptsFresh_handle p st evt Hevt) as (Hm & new & Ho & Hf).
    split; [exact Hm|]. exists new. split; [exact Ho|].
    intros t Hin. rewrite Forall_forall in Hf. specialize (Hf t Hin).
    split; [exact Hf|]. intros Hc. apply Hexact in Hc. congruence. }
  destruct (onToolExecutionEnd_pending toolName toolCallId true text s Hp Ht)
    as (Hf1 & Hf2 & Hf3).
  destruct (onToolExecutionEnd_pending toolName toolCallId false text s Hp Ht)
    as (Hs1 & Hs2 & Hs3).
  split; [done|]. split; [done|]. split; [exact Hfresh|].
  assert (text ∈ messagingToolSentTexts succeeded) as Hin.
  { subst succeeded. simpl. rewrite Hs2.
    apply elem_of_app. right. by apply list_elem_of_singleton. }
  repeat split.
  - intros evt Hevt.
    destruct (Hfresh failed evt Hevt) as (_ & new & Ho & Hn).
    destruct (Hfresh succeeded evt Hevt) as (_ & new' & Ho' & Hn').
    exists new, new'. split; [exact Ho|]. split; [exact Ho'|]. split.
    + intros t Ht'. destruct (Hn t Ht') as [Hd _].
      subst failed. simpl in Hd. by rewrite Hf2 in Hd.
    + intros Ht'. by destruct (Hn' text Ht') as [_ Hnotin].
  - intros st t. apply emitBlockChunk_accepts.
  - intros t. by apply blockAccepted_onToolExecutionEnd.
  - intros t Hclean. unfold blockAccepted. rewrite Hclean, (Hexact _ _ Hin).
    by rewrite andb_false_r.
Qed.

(** A telegram [sendMessage] call carrying ["Done!"]. *)
Definition sendDone : Event :=
  ToolExecutionStart "telegram" "call-1" None
    (Some {| arg_action := JsString "sendMessage"; arg_content := JsString "Done!";
             arg_message := JsUndefined |})
    (Some {| send_tool := "telegram"; send_provider := "telegram";
             send_accountId := None; send_to := Some "telegram:42" |})
    false.

(** The model's own reply ["Done!"] as the next assistant message. *)
Definition replyDone : list Event :=
  [ MessageStart Assistant;
    MessageUpdate Assistant TextDelta "Done!" "";
    MessageUpdate Assistant TextEnd "" "Done!" ].

Example failed_send_not_committed :
  let s := handle defaultParams (initial (C := Empty_set) None) sendDone in
  messagingToolSentTexts (handle defaultParams s (ToolExecutionEnd "telegram" "call-1" true))
  = [] /\
  messagingToolSentTexts (handle defaultParams s (ToolExecutionEnd "telegram" "call-1" false))
  = ["Done!"].
Proof.
  intros s.
  destruct (messaging_dedup_block_replies defaultParams s "telegram" "call-1" "Done!")
    as ((_ & Hf & _) & (_ & Hs & _) & _).
  - vm_compute. reflexivity.
  - reflexivity.
  - intros t sent Hin. simpl. by apply bool_decide_eq_true_2.
  - split; [exact Hf | exact Hs].
Qed.

(** The scenario of the spec: after a committed send of ["Done!"] the
    identical reply is not emitted as a block; after a failed send of the
    same text it is. *)
Example done_scenario :
  let s := handle defaultParams (initial (C := Empty_set) None) sendDone in
  let committed := handle defaultParams s (ToolExecutionEnd "telegram" "call-1" false) in
  let failed := handle defaultParams s (ToolExecutionEnd "telegram" "call-1" true) in
  pendingMessagingTexts s !! "call-1" = Some "Done!" /\
  blockReplyCalls defaultParams (outputs (run defaultParams committed replyDone)) = [] /\
  blockReplyCalls defaultParams (outputs (run defaultParams failed replyDone))
  = [("Done!", [])] /\
  messagingToolSentTexts (run defaultParams failed replyDone) = [].
Proof. repeat split; vm_compute; reflexivity. Qed.


(** ** C10: a late [text_end] after [message_end] *)

(** The concatenation of the deltas of a message. *)
Definition joined (deltas : list string) : string :=
  foldr (fun d rest => d +:+ rest) "" deltas.

(** An assistant message that streams its deltas, closes the text block
    with a [text_end] carrying the cumulative [content], and completes. *)
Definition streamedMessage (deltas : list string) (content : string) : list Event :=
  MessageStart Assistant
    :: ((fun d => MessageUpdate Assistant TextDelta d "") <$> deltas)
    ++ [MessageUpdate Assistant TextEnd "" content].

(** A provider that resends the full accumulated text on each [text_end]:
    a message of two text blocks, ["A"] and ["B"], then its [message_end],
    where [extractAssistantText] joins the two blocks with a line feed. *)
Definition twoBlocksThenLate : list Event :=
  [ MessageStart Assistant;
    MessageUpdate Assistant TextDelta "A" "";
    MessageUpdate Assistant TextEnd "" "A";
    MessageUpdate Assistant TextDelta "B" "";
    MessageUpdate Assistant TextEnd "" "AB";
    MessageEnd Assistant ("A" +:+ String (Ascii.ascii_of_nat 10) "B") "" ].

Section LateTextEnd.

Context {C : Type} {E : Collaborators C}.

Implicit Types (s : State C) (p : Params).

(** What block emission reads and writes. *)
Definition blockState s :=
  (assistantTexts s, blockBuffer s, blockChunker s, blockThinkingActive s,
   lastBlockReplyText s, deltaBuffer s, assistantTextBaseline s,
   messagingToolSentTexts s, acceptedBlocks (outputs s)).

Lemma append_assoc (a b c : string) : (a +:+ b) +:+ c = a +:+ (b +:+ c).
Proof. induction a as [|x a IH]; [done|]. by rewrite !append_cons, IH. Qed.

Lemma acceptedBlocks_snoc_silent outs o :
  blockText o = None -> acceptedBlocks (outs ++ [o]) = acceptedBlocks outs.
Proof.
  intros Ho. unfold acceptedBlocks. rewrite omap_app.
  destruct o; try discriminate; simpl; by rewrite app_nil_r.
Qed.

Lemma blockState_streamThinking p s :
  blockState (streamThinking p s) = blockState s.
Proof.
  unfold streamThinking, when, emitReasoningStream, emit, blockState.
  split_cases; rewrite ?acceptedBlocks_snoc_silent; done.
Qed.

Lemma blockState_streamAssistant p s :
  blockState (streamAssistant p s) = blockState s.
Proof.
  unfold streamAssistant, emit, blockState.
  split_cases; rewrite ?acceptedBlocks_snoc_silent; done.
Qed.

Lemma blockState_appendChunk chunk s :
  blockChunker s = None ->
  blockState (appendChunk chunk s)
  = (assistantTexts s, blockBuffer s +:+ chunk, None, blockThinkingActive s,
     lastBlockReplyText s, deltaBuffer s +:+ chunk, assistantTextBaseline s,
     messagingToolSentTexts s, acceptedBlocks (outputs s)).
Proof.
  intros Hc. unfold appendChunk, blockState.
  destruct (Js.truthy chunk) eqn:Ht; simpl; rewrite Hc; simpl; [by rewrite Hc|].
  apply truthy_false in Ht as ->. by rewrite !append_nil_r.
Qed.

(** A text delta without chunker: both buffers grow, nothing is emitted as
    a block. *)
Lemma blockState_textDelta p delta s :
  blockChunker s = None ->
  blockState (handle p s (MessageUpdate Assistant TextDelta delta ""))
  = (assistantTexts s, blockBuffer s +:+ delta, None, blockThinkingActive s,
     lastBlockReplyText s, deltaBuffer s +:+ delta, assistantTextBaseline s,
     messagingToolSentTexts s, acceptedBlocks (outputs s)).
Proof.
  intros Hc. simpl. unfold onMessageUpdate, flushOnTextEnd.
  assert (blockState (streamAssistant p (streamThinking p (appendChunk delta s)))
          = (assistantTexts s, blockBuffer s +:+ delta, None, blockThinkingActive s,
             lastBlockReplyText s, deltaBuffer s +:+ delta, assistantTextBaseline s,
             messagingToolSentTexts s, acceptedBlocks (outputs s))) as Hv.
  { by rewrite blockState_streamAssistant, blockState_streamThinking,
      blockState_appendChunk. }
  assert (blockChunker (streamAssistant p (streamThinking p (appendChunk delta s)))
          = None) as Hnone.
  { unfold blockState in Hv. by injection Hv. }
  simpl. unfold drainOnUpdate. by rewrite Hnone.
Qed.

Lemma blockState_textDeltas p deltas s :
  blockChunker s = None ->
  blockState (run p s ((fun d => MessageUpdate Assistant TextDelta d "") <$> deltas))
  = (assistantTexts s, blockBuffer s +:+ joined deltas, None, blockThinkingActive s,
     lastBlockReplyText s, deltaBuffer s +:+ joined deltas, assistantTextBaseline s,
     messagingToolSentTexts s, acceptedBlocks (outputs s)).
Proof.
  revert s. induction deltas as [|d deltas IH]; intros s Hc.
  - simpl. unfold blockState. by rewrite Hc, !append_nil_r.
  - change (run p s (_ <$> d :: deltas))
      with (run p (handle p s (MessageUpdate Assistant TextDelta d ""))
              ((fun d => MessageUpdate Assistant TextDelta d "") <$> deltas)).
    pose proof (blockState_textDelta p d s Hc) as Hd.
    generalize dependent (handle p s (MessageUpdate Assistant TextDelta d "")).
    intros s1 Hd. unfold blockState in Hd.
    injection Hd as H1 H2 H3 H4 H5 H6 H7 H8 H9.
    rewrite IH by done. rewrite H1, H2, H4, H5, H6, H7, H8, H9.
    simpl. by rewrite !append_assoc.
Qed.

(** The two outcomes of [emitBlockChunk]. *)
Lemma emitBlockChunk_rejected text s :
  let chunk := cleanedBlock (blockThinkingActive s) text in
  chunk = "" \/ lastBlockReplyText s = Some chunk \/
  isMessagingToolDuplicate chunk (messagingToolSentTexts s) = true ->
  emitBlockChunk text s
  = set_blockThinkingActive (stripBlockThinkingSegments (blockThinkingActive s) text).2 s.
Proof.
  unfold cleanedBlock, emitBlockChunk.
  destruct (stripBlockThinkingSegments _ _) as [stripped active]. simpl.
  intros [Hc | [Hc | Hc]].
  - by rewrite Hc.
  - destruct (Js.truthy _); simpl; [|done]. by rewrite bool_decide_eq_true_2.
  - destruct (Js.truthy _); simpl; [|done]. case_bool_decide; [done|]. by rewrite Hc.
Qed.

Lemma emitBlockChunk_outcome text s :
  let chunk := cleanedBlock (blockThinkingActive s) text in
  let s' := emitBlockChunk text s in
  blockChunker s' = blockChunker s /\ blockBuffer s' = blockBuffer s /\
  messagingToolSentTexts s' = messagingToolSentTexts s /\
  deltaBuffer s' = deltaBuffer s /\
  assistantTextBaseline s' = assistantTextBaseline s /\
  (length (assistantTexts s) <= length (assistantTexts s'))%nat /\
  (chunk = "" \/ lastBlockReplyText s' = Some chunk \/
   isMessagingToolDuplicate chunk (messagingToolSentTexts s) = true) /\
  ((assistantTexts s' = assistantTexts s /\
    acceptedBlocks (outputs s') = acceptedBlocks (outputs s) /\
    lastBlockReplyText s' = lastBlockReplyText s) \/
   (assistantTexts s' = assistantTexts s ++ [chunk] /\
    acceptedBlocks (outputs s') = acceptedBlocks (outputs s) ++ [chunk] /\
    lastBlockReplyText s' = Some chunk)).
Proof.
  unfold cleanedBlock, emitBlockChunk, emit.
  destruct (stripBlockThinkingSegments _ _) as [stripped active]. simpl.
  destruct (Js.truthy (Js.trimEnd stripped)) eqn:Ht; simpl.
  - case_bool_decide as Hl; simpl.
    + repeat split; auto.
    + destruct (isMessagingToolDuplicate _ _) eqn:Hd; simpl.
      * repeat split; auto.
      * repeat split; auto.
        -- rewrite length_app. simpl. lia.
        -- right. repeat split; try done.
           unfold acceptedBlocks. by rewrite omap_app.
  - apply truthy_false in Ht. repeat split; auto.
Qed.

Lemma resolveChunk_replay (content : string) :
  resolveChunk TextEnd "" content content = "".
Proof.
  simpl. destruct (Js.truthy content); [|done].
  assert (Js.startsWith content content = true) as ->.
  { rewrite <- (append_nil_r content) at 1. apply startsWith_app. }
  apply slice_from_all.
Qed.

Lemma resolveChunk_from_empty (content : string) :
  resolveChunk TextEnd "" content "" = content.
Proof. simpl. by destruct content. Qed.

(** Outputs that are not block replies. *)
Definition isReply (o : Output) : bool :=
  match o with
  | BlockChunk _ | FinalBlock _ | ReasoningBlock _ => true
  | _ => false
  end.

Definition streamsOnly s s' : Prop :=
  exists new, outputs s' = outputs s ++ new /\ Forall (fun o => isReply o = false) new.

Lemma streamsOnly_refl s : streamsOnly s s.
Proof. exists []. by rewrite app_nil_r. Qed.

Lemma streamsOnly_trans s1 s2 s3 :
  streamsOnly s1 s2 -> streamsOnly s2 s3 -> streamsOnly s1 s3.
Proof.
  intros (n1 & Ho1 & Hf1) (n2 & Ho2 & Hf2). exists (n1 ++ n2).
  rewrite Ho2, Ho1, app_assoc. split; [done|]. by apply Forall_app.
Qed.

Lemma streamsOnly_stream p chunk s :
  streamsOnly s (streamAssistant p (streamThinking p (appendChunk chunk s))).
Proof.
  assert (forall st, streamsOnly st (appendChunk chunk st)) as H1.
  { intros st. unfold appendChunk. split_cases; exists []; by rewrite app_nil_r. }
  assert (forall st, streamsOnly st (streamThinking p st)) as H2.
  { intros st. unfold streamThinking, when, emitReasoningStream, emit.
    split_cases; first [apply streamsOnly_refl | eexists; split; [reflexivity|]];
      by repeat constructor. }
  assert (forall st, streamsOnly st (streamAssistant p st)) as H3.
  { intros st. unfold streamAssistant, emit.
    split_cases; first [apply streamsOnly_refl | eexists; split; [reflexivity|]];
      by repeat constructor. }
  eapply streamsOnly_trans; [|apply H3].
  eapply streamsOnly_trans; [|apply H2]. apply H1.
Qed.

Lemma streamsOnly_replies p s s' :
  streamsOnly s s' ->
  acceptedBlocks (outputs s') = acceptedBlocks (outputs s) /\
  blockReplyCalls p (outputs s') = blockReplyCalls p (outputs s).
Proof.
  intros (new & -> & Hf).
  assert (acceptedBlocks new = [] /\
          omap (fun o => match o with
                         | BlockChunk t | FinalBlock t => payload t
                         | ReasoningBlock t => Some (t, [])
                         | _ => None
                         end) new = []) as [Ha Hb].
  { unfold acceptedBlocks.
    induction Hf as [|o new Ho Hf [IH1 IH2]]; [done|].
    destruct o; try discriminate; simpl; by rewrite ?IH1, ?IH2. }
  unfold blockReplyCalls, acceptedBlocks in *.
  rewrite !omap_app, Ha, Hb, !app_nil_r. by destruct (onBlockReply p).
Qed.

(** An assistant [text_end] without delta when no chunker is configured:
    the resolved chunk joins the buffers, partial output may be streamed,
    and in the text_end break mode a non-empty block buffer is emitted as
    one block and emptied. *)
Lemma textEnd_without_chunker p content s :
  blockChunker s = None ->
  exists u,
    blockState u
    = (assistantTexts s,
       blockBuffer s +:+ resolveChunk TextEnd "" content (deltaBuffer s), None,
       blockThinkingActive s, lastBlockReplyText s,
       deltaBuffer s +:+ resolveChunk TextEnd "" content (deltaBuffer s),
       assistantTextBaseline s, messagingToolSentTexts s,
       acceptedBlocks (outputs s)) /\
    streamsOnly s u /\
    handle p s (MessageUpdate Assistant TextEnd "" content)
    = match blockReplyBreak p with
      | BreakTextEnd =>
          if (0 <? String.length (blockBuffer u))%nat
          then set_blockBuffer "" (emitBlockChunk (blockBuffer u) u)
          else u
      | BreakMessageEnd => u
      end.
Proof.
  intros Hc.
  set (chunk := resolveChunk TextEnd "" content (deltaBuffer s)).
  exists (streamAssistant p (streamThinking p (appendChunk chunk s))).
  assert (blockState (streamAssistant p (streamThinking p (appendChunk chunk s)))
          = (assistantTexts s, blockBuffer s +:+ chunk, None, blockThinkingActive s,
             lastBlockReplyText s, deltaBuffer s +:+ chunk, assistantTextBaseline s,
             messagingToolSentTexts s, acceptedBlocks (outputs s))) as Hv.
  { by rewrite blockState_streamAssistant, blockState_streamThinking,
      blockState_appendChunk. }
  split; [exact Hv|]. split; [apply streamsOnly_stream|].
  assert (blockChunker (streamAssistant p (streamThinking p (appendChunk chunk s)))
          = None) as Hnone.
  { unfold blockState in Hv. by injection Hv. }
  change (handle p s (MessageUpdate Assistant TextEnd "" content))
    with (flushOnTextEnd p TextEnd
            (drainOnUpdate p (streamAssistant p (streamThinking p (appendChunk chunk s))))).
  unfold drainOnUpdate. rewrite Hnone. unfold flushOnTextEnd, flushBlock.
  by rewrite Hnone.
Qed.

(** What [message_end] leaves of the block state when no chunker is
    configured. *)
Lemma messageEnd_without_chunker p rawText thinking s :
  blockChunker s = None ->
  let s' := handle p s (MessageEnd Assistant rawText thinking) in
  deltaBuffer s' = "" /\ blockBuffer s' = "" /\ blockThinkingActive s' = false /\
  blockChunker s' = None /\
  messagingToolSentTexts s' = messagingToolSentTexts s /\
  (blockReplyBreak p = BreakTextEnd -> blockBuffer s = "" ->
   lastBlockReplyText s' = lastBlockReplyText s).
Proof.
  intros Hc s'.
  pose proof (messaging_of_quiet _ _ (quiet_onMessageEnd p rawText thinking s)) as Hm.
  unfold messaging in Hm. injection Hm as Hm _ _ _.
  assert (forall x (st : State C), (blockBuffer (pushFinalText x st), blockChunker (pushFinalText x st),
                        lastBlockReplyText (pushFinalText x st))
                       = (blockBuffer st, blockChunker st, lastBlockReplyText st)) as H1.
  { intros x st. unfold pushFinalText. split_cases; done. }
  assert (forall b x (st : State C),
            (blockBuffer (when b (emitReasoningBlock x) st),
             blockChunker (when b (emitReasoningBlock x) st),
             lastBlockReplyText (when b (emitReasoningBlock x) st))
            = (blockBuffer st, blockChunker st, lastBlockReplyText st)) as H2.
  { intros b x st. unfold when. by destruct b. }
  assert (forall b x (st : State C),
            (blockBuffer (when b (emitReasoningStream p x) st),
             blockChunker (when b (emitReasoningStream p x) st),
             lastBlockReplyText (when b (emitReasoningStream p x) st))
            = (blockBuffer st, blockChunker st, lastBlockReplyText st)) as H3.
  { intros b x st. unfold when, emitReasoningStream, emit. split_cases; done. }
  assert (forall x (st : State C), blockChunker st = None ->
            blockChunker (emitFinalBlock p x st) = None /\
            (blockReplyBreak p = BreakTextEnd -> blockBuffer st = "" ->
             lastBlockReplyText (emitFinalBlock p x st) = lastBlockReplyText st)) as H4.
  { intros x st Hst. unfold emitFinalBlock, isMessageEndBreak, emit. rewrite Hst.
    split.
    - split_cases; done.
    - intros -> ->. done. }
  subst s'. simpl. unfold onMessageEnd. cbv zeta.
  split; [done|]. split; [done|]. split; [done|].
  split; [|split; [exact Hm|]].
  - simpl.
    match goal with
    | |- chunker_reset <$> blockChunker ?st = None =>
        assert (blockChunker st = None) as ->; [|done]
    end.
    match goal with
    | |- blockChunker (when ?b (emitReasoningStream p ?x) ?st) = None =>
        pose proof (H3 b x st) as [= _ -> _]
    end.
    match goal with
    | |- blockChunker (when ?b (emitReasoningBlock ?x) ?st) = None =>
        pose proof (H2 b x st) as [= _ -> _]
    end.
    apply H4.
    match goal with
    | |- blockChunker (when ?b (emitReasoningBlock ?x) ?st) = None =>
        pose proof (H2 b x st) as [= _ -> _]
    end.
    pose proof (H1 (finalText p rawText) s) as [= _ -> _]. exact Hc.
  - intros Hbrk Hbuf. simpl.
    match goal with
    | |- lastBlockReplyText (when ?b (emitReasoningStream p ?x) ?st) = _ =>
        pose proof (H3 b x st) as [= _ _ ->]
    end.
    match goal with
    | |- lastBlockReplyText (when ?b (emitReasoningBlock ?x) ?st) = _ =>
        pose proof (H2 b x st) as [= _ _ ->]
    end.
    match goal with
    | |- lastBlockReplyText (emitFinalBlock p ?x ?st) = _ =>
        assert (blockChunker st = None /\ blockBuffer st = "" /\
                lastBlockReplyText st = lastBlockReplyText s) as (Ha & Hb & Hl)
    end.
    { match goal with
      | |- blockChunker (when ?b (emitReasoningBlock ?x) ?st) = None /\ _ =>
          pose proof (H2 b x st) as [= -> -> ->]
      end.
      pose proof (H1 (finalText p rawText) s) as [= -> -> ->]. done. }
    rewrite (proj2 (H4 _ _ Ha) Hbrk Hb). exact Hl.
Qed.

End LateTextEnd.

(** A late [text_end] after a message emitted as one block:
    [message_end] empties the delta and block buffers and
    leaves [lastBlockReplyText] at the last block text accepted so far (its
    own final block included); the next assistant [message_start] clears all
    three.  When no block chunker is configured and the message was streamed
    as deltas closed by a single [text_end] carrying their concatenation, a
    late [text_end] after [message_end] that replays this content adds no
    entry to [assistantTexts] and makes no block reply when it is
    handled. *)
Lemma late_text_end_single_block {C : Type} {E : Collaborators C} (p : Params)
    (s0 : State C) (deltas : list string) (rawText thinking : string) :
  blockChunker s0 = None ->
  let content := joined deltas in
  let s1 := run p s0 (streamedMessage deltas content) in
  let s2 := handle p s1 (MessageEnd Assistant rawText thinking) in
  let s3 := handle p s2 (MessageUpdate Assistant TextEnd "" content) in
  let s4 := handle p s2 (MessageStart Assistant) in
  (deltaBuffer s2 = "" /\ blockBuffer s2 = "" /\
   exists new, outputs s2 = outputs s1 ++ new /\
     lastBlockReplyText s2 = lastOf (lastBlockReplyText s1) (acceptedBlocks new)) /\
  (deltaBuffer s4 = "" /\ blockBuffer s4 = "" /\ lastBlockReplyText s4 = None) /\
  (assistantTexts s3 = assistantTexts s2 /\
   acceptedBlocks (outputs s3) = acceptedBlocks (outputs s2) /\
   blockReplyCalls p (outputs s3) = blockReplyCalls p (outputs s2)).
Proof.
  intros Hc content s1 s2 s3 s4.
  set (sa := handle p s0 (MessageStart Assistant)).
  set (sb := run p sa ((fun d => MessageUpdate Assistant TextDelta d "") <$> deltas)).
  assert (s1 = handle p sb (MessageUpdate Assistant TextEnd "" content)) as Hs1.
  { subst s1 sb sa. unfold streamedMessage, run. simpl. by rewrite fold_left_app. }
  assert (blockChunker sa = None) as Hca by (subst sa; simpl; by rewrite Hc).
  pose proof (blockState_textDeltas p deltas sa Hca) as Hsb.
  fold sb in Hsb. fold content in Hsb.
  change (blockBuffer sa) with EmptyString in Hsb.
  change (deltaBuffer sa) with EmptyString in Hsb.
  change (blockThinkingActive sa) with false in Hsb.
  change (lastBlockReplyText sa) with (@None string) in Hsb.
  rewrite !append_nil_l in Hsb.
  clearbody s1 sb.
  unfold blockState in Hsb.
  injection Hsb as _ Hbb Hcb Hab Hlb Hdb _ Hmb _.
  (* the text_end that closes the message *)
  destruct (textEnd_without_chunker p content sb Hcb) as (u & Hu & _ & Hstep).
  rewrite <- Hs1 in Hstep.
  rewrite Hdb, resolveChunk_replay, !append_nil_r, Hbb, Hab, Hlb in Hu.
  unfold blockState in Hu.
  injection Hu as _ Hbu Hcu Hau Hlu _ _ Hmu _.
  assert (blockChunker s1 = None /\
          (blockReplyBreak p = BreakTextEnd ->
           blockBuffer s1 = "" /\
           (cleanedBlock false content = "" \/
            lastBlockReplyText s1 = Some (cleanedBlock false content) \/
            isMessagingToolDuplicate (cleanedBlock false content)
              (messagingToolSentTexts s1) = true))) as [Hc1 Hk].
  { rewrite Hstep. destruct (blockReplyBreak p) eqn:Hbrk; [|by split].
    rewrite Hbu. destruct (0 <? String.length content)%nat eqn:Hlen.
    - pose proof (emitBlockChunk_outcome content u) as (H1 & _ & H3 & _ & _ & _ & H7 & _).
      rewrite Hau in H7. simpl. rewrite H1, H3.
      split; [exact Hcu|]. intros _. split; [done|exact H7].
    - apply Nat.ltb_ge in Hlen.
      assert (content = "") as -> by (destruct content; simpl in Hlen; [done|lia]).
      split; [done|]. intros _. split; [done|]. by left. }
  (* message_end *)
  pose proof (messageEnd_without_chunker p rawText thinking s1 Hc1) as Hend.
  cbv zeta in Hend. fold s2 in Hend.
  destruct Hend as (Hd2 & Hb2 & Ha2 & Hc2 & Hm2 & Hl2).
  assert (exists new, outputs s2 = outputs s1 ++ new /\
            lastBlockReplyText s2
            = lastOf (lastBlockReplyText s1) (acceptedBlocks new)) as Hkept.
  { destruct (advancesB_onMessageEnd p rawText thinking s1) as (new & Ho & _ & Hl).
    exists new. by split. }
  clearbody s2.
  split; [|split].
  - by repeat split.
  - by subst s4.
  - (* the late text_end *)
    destruct (textEnd_without_chunker p content s2 Hc2) as (u' & Hu' & Hso & Hlate).
    fold s3 in Hlate.
    rewrite Hd2, Hb2, resolveChunk_from_empty, !append_nil_l, Ha2 in Hu'.
    unfold blockState in Hu'.
    injection Hu' as Hxu' Hbu' _ Hau' Hlu' _ _ Hmu' _.
    destruct (streamsOnly_replies p _ _ Hso) as [Hacc Hcalls].
    assert (s3 = u' \/
            s3 = set_blockBuffer ""
                   (set_blockThinkingActive
                      (stripBlockThinkingSegments (blockThinkingActive u') content).2 u'))
      as Hs3.
    { rewrite Hlate. destruct (blockReplyBreak p) eqn:Hbrk; [|by left].
      destruct (0 <? String.length (blockBuffer u'))%nat; [|by left]. right.
      rewrite Hbu'. f_equal. apply emitBlockChunk_rejected.
      rewrite Hau', Hlu', Hmu', (Hl2 eq_refl (proj1 (Hk eq_refl))), Hm2.
      apply (Hk eq_refl). }
    destruct Hs3 as [-> | ->]; simpl; by rewrite ?Hxu', ?Hacc, ?Hcalls.
Qed.

(** The completed message ["Hello world"] is replied once, and the late
    [text_end] changes neither the texts nor the block replies. *)
Example late_text_end_scenario :
  let p := defaultParams in
  let s2 := run p (initial (C := Empty_set) None)
              (streamedMessage ["Hello"; " world"] "Hello world"
               ++ [MessageEnd Assistant "Hello world" ""]) in
  let s3 := handle p s2 (MessageUpdate Assistant TextEnd "" "Hello world") in
  lastBlockReplyText s2 = Some "Hello world" /\
  assistantTexts s3 = ["Hello world"] /\
  blockReplyCalls p (outputs s3) = [("Hello world", [])].
Proof. cbv zeta. repeat split; vm_compute; reflexivity. Qed.

(** A message whose text [" Hello"] starts with a space: its finished text,
    as [extractAssistantText] returns it, is ["Hello"].  After [message_end]
    the provider replays the [text_end], then the run ends. *)
Definition spacedThenLate : list Event :=
  [ MessageStart Assistant;
    MessageUpdate Assistant TextDelta " Hello" "";
    MessageUpdate Assistant TextEnd "" " Hello";
    MessageEnd Assistant "Hello" "";
    MessageUpdate Assistant TextEnd "" " Hello";
    AgentEnd ].

(** C10 fails on the code at these inputs.  [message_end] does keep
    [lastBlockReplyText] while it empties the delta and block buffers, but
    that does not make a late [text_end] harmless, as the comment at
    [message_start] has it.  First input, block replies at [text_end]: the
    message ["AB"] was emitted as the blocks ["A"] and ["B"], so
    [lastBlockReplyText] is ["B"]; the late [text_end] replaying ["AB"]
    meets an empty delta buffer, is taken as a new chunk, differs from
    ["B"], and is pushed onto [assistantTexts] and sent as a third block
    reply.  Second input, block replies at [message_end]: the message
    [" Hello"] is replied as ["Hello"]; the late [text_end] parks
    [" Hello"] in the block buffer, and [agent_end] flushes it as a second
    entry of [assistantTexts] and a second block reply. *)
Theorem C10_late_text_end_at_input :
  let p := defaultParams in
  let late := MessageUpdate Assistant TextEnd "" "AB" in
  let s2 := run p (initial (C := Empty_set) None) twoBlocksThenLate in
  let s3 := handle p s2 late in
  let q := atMessageEnd in
  let t2 := run q (initial (C := Empty_set) None) (take 4 spacedThenLate) in
  let t3 := run q (initial (C := Empty_set) None) (take 5 spacedThenLate) in
  let t4 := run q (initial (C := Empty_set) None) spacedThenLate in
  (deltaBuffer s2 = "" /\ blockBuffer s2 = "" /\ lastBlockReplyText s2 = Some "B") /\
  (assistantTexts s2 = ["A"; "B"] /\
   blockReplyCalls p (outputs s2) = [("A", []); ("B", [])]) /\
  (assistantTexts s3 = ["A"; "B"; "AB"] /\
   blockReplyCalls p (outputs s3) = [("A", []); ("B", []); ("AB", [])]) /\
  (deltaBuffer t2 = "" /\ blockBuffer t2 = "" /\ lastBlockReplyText t2 = Some "Hello") /\
  (assistantTexts t2 = ["Hello"] /\ blockReplyCalls q (outputs t2) = [("Hello", [])]) /\
  (blockBuffer t3 = " Hello" /\ assistantTexts t3 = ["Hello"] /\
   blockReplyCalls q (outputs t3) = [("Hello", [])]) /\
  (assistantTexts t4 = ["Hello"; " Hello"] /\
   blockReplyCalls q (outputs t4) = [("Hello", []); (" Hello", [])]).
Proof. cbv zeta. repeat split; vm_compute; reflexivity. Qed.

(** * Further properties of the code *)

(** ** Whitespace trimming *)

(** A string that [trim] leaves as it is. *)
Definition Trimmed (s : string) : Prop :=
  Js.trimStart s = s /\ Js.trimEnd s = s.

Section TrimFacts.

Lemma trimStart_idem (s : string) : Js.trimStart (Js.trimStart s) = Js.trimStart s.
Proof.
  induction s as [|c s IH]; [done|]. simpl.
  destruct (Js.isSpace c) eqn:Hc; [done|]. simpl. by rewrite Hc.
Qed.

Lemma trimEnd_idem (s : string) : Js.trimEnd (Js.trimEnd s) = Js.trimEnd s.
Proof.
  induction s as [|c s IH]; [done|]. simpl.
  destruct (Js.trimEnd s) as [|d r] eqn:Hr.
  - destruct (Js.isSpace c) eqn:Hc; [done|]. simpl. by rewrite Hc.
  - change (Js.trimEnd (String c (String d r)))
      with (match Js.trimEnd (String d r) with
            | EmptyString => if Js.isSpace c then EmptyString else String c EmptyString
            | x => String c x
            end).
    by rewrite IH.
Qed.

(** [trimEnd] keeps the head of a string it does not erase. *)
Lemma trimStart_trimEnd (s : string) :
  Js.trimStart s = s -> Js.trimStart (Js.trimEnd s) = Js.trimEnd s.
Proof.
  destruct s as [|c s]; [done|]. simpl.
  destruct (Js.isSpace c) eqn:Hc.
  - intros Heq. exfalso.
    assert (forall t, String.length (Js.trimStart t) <= String.length t)%nat as Hlen.
    { induction t as [|d t IH]; simpl; [lia|]. destruct (Js.isSpace d); simpl; lia. }
    specialize (Hlen s). rewrite Heq in Hlen. simpl in Hlen. lia.
  - intros _. destruct (Js.trimEnd s); simpl; by rewrite Hc.
Qed.

Lemma trimmed_trim (s : string) : Trimmed (Js.trim s).
Proof.
  unfold Trimmed, Js.trim. split; [|apply trimEnd_idem].
  apply trimStart_trimEnd, trimStart_idem.
Qed.

Lemma trim_of_trimmed (s : string) : Trimmed s -> Js.trim s = s.
Proof. intros [H1 H2]. unfold Js.trim. by rewrite H1. Qed.

Lemma trimEnd_app (p s : string) :
  Js.trimEnd s <> EmptyString -> Js.trimEnd (p +:+ s) = p +:+ Js.trimEnd s.
Proof.
  intros Hs. induction p as [|c p IH]; [done|].
  rewrite !append_cons. simpl. rewrite IH.
  destruct (p +:+ Js.trimEnd s) eqn:Hp; [|done].
  destruct p; [|by rewrite append_cons in Hp].
  by rewrite append_nil_l in Hp.
Qed.

(** A literal prefix that starts with a visible character, in front of a
    non-empty Trimmed string. *)
Lemma trimmed_app (c : ascii) (p s : string) :
  Js.isSpace c = false -> Trimmed s -> s <> EmptyString ->
  Trimmed (String c p +:+ s).
Proof.
  intros Hc [H1 H2] Hs. split.
  - rewrite append_cons. simpl. by rewrite Hc.
  - rewrite trimEnd_app; by rewrite H2.
Qed.

Lemma trimmed_nonspace_head (c : ascii) (s : string) :
  Trimmed (String c s) -> Js.isSpace c = false.
Proof.
  intros [H1 _]. simpl in H1. destruct (Js.isSpace c); [|done]. exfalso.
  assert (forall t, String.length (Js.trimStart t) <= String.length t)%nat as Hlen.
  { induction t as [|d t IH]; simpl; [lia|]. destruct (Js.isSpace d); simpl; lia. }
  specialize (Hlen s). rewrite H1 in Hlen. simpl in Hlen. lia.
Qed.

End TrimFacts.

(** ** Lanes *)

Section LaneFacts.

Lemma resolveSessionLane_cleaned (key : string) :
  let cleaned := if Js.truthy (Js.trim key) then Js.trim key else "main" in
  Trimmed cleaned /\ cleaned <> EmptyString.
Proof.
  simpl. destruct (Js.truthy (Js.trim key)) eqn:Ht.
  - split; [apply trimmed_trim|]. by destruct (Js.trim key).
  - split; [|done]. by split.
Qed.

Lemma resolveSessionLane_trimmed (key : string) :
  Trimmed (resolveSessionLane key) /\ resolveSessionLane key <> EmptyString.
Proof.
  unfold resolveSessionLane.
  destruct (resolveSessionLane_cleaned key) as [Ht Hne]. simpl in Ht, Hne.
  destruct (Js.startsWith _ "session:"); [done|].
  split; [by apply trimmed_app|]. by rewrite append_cons.
Qed.

Lemma resolveSessionLane_prefixed (key : string) :
  Js.startsWith (resolveSessionLane key) "session:" = true.
Proof.
  unfold resolveSessionLane. cbv zeta.
  generalize (if Js.truthy (Js.trim key) then Js.trim key else "main").
  intros c. destruct (Js.startsWith c "session:") eqn:Hs; [done|].
  apply startsWith_app.
Qed.

Lemma resolveSessionLane_fixed (l : string) :
  Trimmed l -> l <> EmptyString -> Js.startsWith l "session:" = true ->
  resolveSessionLane l = l.
Proof.
  intros Ht Hne Hs. unfold resolveSessionLane.
  rewrite (trim_of_trimmed _ Ht).
  destruct l; [done|]. simpl Js.truthy. cbv iota. by rewrite Hs.
Qed.

End LaneFacts.

(** X1: a session lane name always carries the ["session:"] prefix, is
    never empty, has no surrounding whitespace, does not depend on the
    whitespace around the key, and resolving a lane name again returns it
    unchanged; the global lane is never empty. *)
Theorem X1_session_lane (key : string) (lane : option string) :
  let l := resolveSessionLane key in
  Js.startsWith l "session:" = true /\
  l <> EmptyString /\ Js.trim l = l /\
  resolveSessionLane (Js.trim key) = l /\
  resolveSessionLane l = l /\
  resolveEmbeddedSessionLane key = l /\
  resolveGlobalLane lane <> EmptyString.
Proof.
  intros l. subst l.
  destruct (resolveSessionLane_trimmed key) as [Ht Hne].
  pose proof (resolveSessionLane_prefixed key) as Hp.
  repeat split; try done.
  - by apply trim_of_trimmed.
  - unfold resolveSessionLane.
    by rewrite (trim_of_trimmed _ (trimmed_trim key)).
  - by apply resolveSessionLane_fixed.
  - unfold resolveGlobalLane. destruct lane as [l|]; [|done].
    destruct (Js.trim l) eqn:Hl; done.
Qed.

(** X2: the lane whose size [getReplyFromConfig] inspects and clears is the
    lane the run of the same session is queued on, provided the session key
    is absent or not blank. *)
Theorem X2_reply_and_run_lane (sessionKey : option string) (sessionId : string) :
  (forall k, sessionKey = Some k -> Js.trim k <> EmptyString) ->
  replyLaneKey sessionKey sessionId = runLaneKey sessionKey sessionId.
Proof.
  intros Hk. unfold replyLaneKey, runLaneKey, resolveEmbeddedSessionLane.
  destruct sessionKey as [k|]; [|done]. simpl.
  specialize (Hk k eq_refl).
  destruct (Js.trim k) eqn:Hkt; [done|]. simpl Js.truthy. cbv iota.
  rewrite <- Hkt. unfold resolveSessionLane.
  by rewrite (trim_of_trimmed _ (trimmed_trim k)).
Qed.

Lemma X2_reply_and_run_lane_witness :
  replyLaneKey (Some " agent:main:dm ") "abc" = runLaneKey (Some " agent:main:dm ") "abc".
Proof.
  apply X2_reply_and_run_lane. intros k [= <-]. vm_compute. discriminate.
Defined.

(** With a blank session key the two lanes differ. *)
Example blank_session_key_lanes :
  replyLaneKey (Some " ") "abc" = "session:main" /\
  runLaneKey (Some " ") "abc" = "session:abc".
Proof. split; reflexivity. Qed.

(** ** Messaging targets ([pi-embedded-subscribe.ts], lines 216-335) *)

Definition isDigit (c : ascii) : bool :=
  let n := nat_of_ascii c in ((48 <=? n) && (n <=? 57))%nat.

(** [[A-Z0-9]] under the [i] flag. *)
Definition isAlnum (c : ascii) : bool :=
  let n := nat_of_ascii c in
  (isDigit c || ((65 <=? n) && (n <=? 90)) || ((97 <=? n) && (n <=? 122)))%nat.

(** [[A-Za-z0-9_]]. *)
Definition isWordChar (c : ascii) : bool := isAlnum c || Ascii.eqb c "_".

Fixpoint allChars (ok : ascii -> bool) (s : string) : bool :=
  match s with
  | EmptyString => true
  | String c r => ok c && allChars ok r
  end.

(** The string in front of a final [">"]. *)
Fixpoint beforeClosing (s : string) : option string :=
  match s with
  | EmptyString => None
  | String c r =>
      match r with
      | EmptyString => if Ascii.eqb c ">" then Some EmptyString else None
      | _ => String c <$> beforeClosing r
      end
  end.

(** Group 1 of [/^<@([A-Z0-9]+)>$/i]. *)
Definition slackMention (s : string) : option string :=
  match s with
  | String "<" (String "@" r) =>
      match beforeClosing r with
      | Some id => if Js.truthy id && allChars isAlnum id then Some id else None
      | None => None
      end
  | _ => None
  end.

(** Group 1 of [/^<@!?(\d+)>$/]. *)
Definition discordMention (s : string) : option string :=
  match s with
  | String "<" (String "@" r) =>
      let r := match r with String "!" r' => r' | _ => r end in
      match beforeClosing r with
      | Some id => if Js.truthy id && allChars isDigit id then Some id else None
      | None => None
      end
  | _ => None
  end.

(** [id ? `${kind}${id}` : undefined]. *)
Definition withKind (kind id : string) : option string :=
  if Js.truthy id then Some (kind +:+ id) else None.

Definition normalizeSlackTarget (raw : string) : option string :=
  let trimmed := Js.trim raw in
  if negb (Js.truthy trimmed) then None
  else
    match slackMention trimmed with
    | Some id => Some ("user:" +:+ id)
    | None =>
        if Js.startsWith trimmed "user:"
        then withKind "user:" (Js.trim (Js.slice_from trimmed 5))
        else if Js.startsWith trimmed "channel:"
        then withKind "channel:" (Js.trim (Js.slice_from trimmed 8))
        else if Js.startsWith trimmed "slack:"
        then withKind "user:" (Js.trim (Js.slice_from trimmed 6))
        else if Js.startsWith trimmed "@"
        then withKind "user:" (Js.trim (Js.slice_from trimmed 1))
        else if Js.startsWith trimmed "#"
        then withKind "channel:" (Js.trim (Js.slice_from trimmed 1))
        else Some ("channel:" +:+ trimmed)
    end.

Definition normalizeDiscordTarget (raw : string) : option string :=
  let trimmed := Js.trim raw in
  if negb (Js.truthy trimmed) then None
  else
    match discordMention trimmed with
    | Some id => Some ("user:" +:+ id)
    | None =>
        if Js.startsWith trimmed "user:"
        then withKind "user:" (Js.trim (Js.slice_from trimmed 5))
        else if Js.startsWith trimmed "channel:"
        then withKind "channel:" (Js.trim (Js.slice_from trimmed 8))
        else if Js.startsWith trimmed "discord:"
        then withKind "user:" (Js.trim (Js.slice_from trimmed 8))
        else if Js.startsWith trimmed "@"
        then withKind "user:" (Js.trim (Js.slice_from trimmed 1))
        else Some ("channel:" +:+ trimmed)
    end.

(** Group 1 of [/^t\.me\/([A-Za-z0-9_]+)$/i]. *)
Definition tmePath (s : string) : option string :=
  match Tag.word "t.me/" s with
  | Some name => if Js.truthy name && allChars isWordChar name then Some name else None
  | None => None
  end.

(** Group 1 of [/^https?:\/\/t\.me\/([A-Za-z0-9_]+)$/i]. *)
Definition tmeUrl (s : string) : option string :=
  match Tag.word "http" s with
  | Some r =>
      let r :=
        match r with
        | String c r' => if Ascii.eqb (Js.lower c) "s" then r' else r
        | EmptyString => r
        end in
      match Tag.word "://" r with
      | Some r' => tmePath r'
      | None => None
      end
  | None => None
  end.

Definition normalizeTelegramTarget (raw : string) : option string :=
  let trimmed := Js.trim raw in
  if negb (Js.truthy trimmed) then None
  else
    let normalized :=
      if Js.startsWith trimmed "telegram:" then Js.trim (Js.slice_from trimmed 9)
      else if Js.startsWith trimmed "tg:" then Js.trim (Js.slice_from trimmed 3)
      else if Js.startsWith trimmed "group:" then Js.trim (Js.slice_from trimmed 6)
      else trimmed in
    if negb (Js.truthy normalized) then None
    else
      let tmeMatch :=
        match tmeUrl normalized with
        | Some name => Some name
        | None => tmePath normalized
        end in
      let normalized :=
        match tmeMatch with
        | Some name => "@" +:+ name
        | None => normalized
        end in
      if negb (Js.truthy normalized) then None
      else Some ("telegram:" +:+ normalized).

(** The fields of the tool arguments that [extractMessagingToolSend] reads. *)
Record SendArgs := {
  sa_action : JsValue;
  sa_accountId : JsValue;
  sa_to : JsValue;
  sa_channelId : JsValue;
}.

Definition extractMessagingToolSend (toolName : string) (args : SendArgs)
  : option MessagingToolSend :=
  let action := match sa_action args with JsString a => Js.trim a | _ => EmptyString end in
  let accountId :=
    match sa_accountId args with
    | JsString a => if Js.truthy (Js.trim a) then Some (Js.trim a) else None
    | _ => None
    end in
  let toRaw := match sa_to args with JsString t => Some t | _ => None end in
  let send (provider : string) (to : option string) : option MessagingToolSend :=
    match to with
    | Some t =>
        if Js.truthy t
        then Some {| send_tool := toolName; send_provider := provider;
                     send_accountId := accountId; send_to := Some t |}
        else None
    | None => None
    end in
  if String.eqb toolName "slack" then
    if negb (String.eqb action "sendMessage") then None
    else
      match toRaw with
      | Some t => if Js.truthy t then send "slack" (normalizeSlackTarget t) else None
      | None => None
      end
  else if String.eqb toolName "discord" then
    if String.eqb action "sendMessage" then
      match toRaw with
      | Some t => if Js.truthy t then send "discord" (normalizeDiscordTarget t) else None
      | None => None
      end
    else if String.eqb action "threadReply" then
      let channelId :=
        match sa_channelId args with JsString c => Js.trim c | _ => EmptyString end in
      if negb (Js.truthy channelId) then None
      else send "discord" (normalizeDiscordTarget ("channel:" +:+ channelId))
    else None
  else if String.eqb toolName "telegram" then
    if negb (String.eqb action "sendMessage") then None
    else
      match toRaw with
      | Some t => if Js.truthy t then send "telegram" (normalizeTelegramTarget t) else None
      | None => None
      end
  else None.

Example slack_targets :
  normalizeSlackTarget " <@U012AB> " = Some "user:U012AB" /\
  normalizeSlackTarget "#general" = Some "channel:general" /\
  normalizeSlackTarget "slack: U1" = Some "user:U1" /\
  normalizeSlackTarget "user: " = None /\
  normalizeSlackTarget "C123" = Some "channel:C123".
Proof. repeat split; reflexivity. Qed.

Example discord_targets :
  normalizeDiscordTarget "<@!12345>" = Some "user:12345" /\
  normalizeDiscordTarget "<@abc>" = Some "channel:<@abc>" /\
  normalizeDiscordTarget "@bob" = Some "user:bob".
Proof. repeat split; reflexivity. Qed.

Example telegram_targets :
  normalizeTelegramTarget "HTTPS://T.me/some_chat" = Some "telegram:@some_chat" /\
  normalizeTelegramTarget "tg: 42 " = Some "telegram:42" /\
  normalizeTelegramTarget "telegram:" = None /\
  normalizeTelegramTarget "t.me/a-b" = Some "telegram:t.me/a-b".
Proof. repeat split; reflexivity. Qed.

Section TargetFacts.

Lemma allChars_Trimmed (ok : ascii -> bool) (s : string) :
  (forall c, ok c = true -> Js.isSpace c = false) ->
  allChars ok s = true -> Trimmed s.
Proof.
  intros Hok Hall. split.
  - destruct s as [|c s]; [done|]. simpl in *.
    apply andb_true_iff in Hall as [Hc _]. by rewrite (Hok c Hc).
  - induction s as [|c s IH]; [done|]. simpl in *.
    apply andb_true_iff in Hall as [Hc Hs]. rewrite (IH Hs), (Hok c Hc).
    by destruct s.
Qed.

Lemma isWordChar_visible (c : ascii) : isWordChar c = true -> Js.isSpace c = false.
Proof. destruct c as [[] [] [] [] [] [] [] []]; vm_compute; congruence. Qed.

Lemma isAlnum_visible (c : ascii) : isAlnum c = true -> Js.isSpace c = false.
Proof.
  intros H. apply isWordChar_visible. unfold isWordChar. by rewrite H.
Qed.

Lemma isDigit_visible (c : ascii) : isDigit c = true -> Js.isSpace c = false.
Proof.
  intros H. apply isAlnum_visible. unfold isAlnum. by rewrite H.
Qed.

Lemma slice_from_O (s : string) : Js.slice_from s 0 = s.
Proof. by destruct s. Qed.

Lemma truthy_ne (s : string) : Js.truthy s = true <-> s <> EmptyString.
Proof. destruct s; simpl; split; congruence. Qed.

Lemma slackMention_Some (s id : string) :
  slackMention s = Some id -> id <> EmptyString /\ Trimmed id.
Proof.
  unfold slackMention. intros H.
  repeat match type of H with
         | match ?x with _ => _ end = _ => destruct x eqn:?; try discriminate
         | (if ?x then _ else _) = _ => destruct x eqn:?; try discriminate
         end.
  injection H as <-.
  match goal with Hc : _ && _ = true |- _ => apply andb_true_iff in Hc as [Ht Ha] end.
  split; [by apply truthy_ne|]. eapply allChars_Trimmed; [apply isAlnum_visible|done].
Qed.

Lemma discordMention_Some (s id : string) :
  discordMention s = Some id -> id <> EmptyString /\ Trimmed id.
Proof.
  unfold discordMention. intros H.
  destruct s as [|c s]; [done|].
  destruct (Ascii.eqb c "<") eqn:Hc; [apply Ascii.eqb_eq in Hc as ->|].
  2: { destruct c as [[] [] [] [] [] [] [] []]; try discriminate. }
  destruct s as [|d s]; [done|].
  destruct (Ascii.eqb d "@") eqn:Hd; [apply Ascii.eqb_eq in Hd as ->|].
  2: { destruct d as [[] [] [] [] [] [] [] []]; try discriminate. }
  cbv zeta in H.
  destruct (beforeClosing _) as [x|]; [|done].
  destruct (Js.truthy x && allChars isDigit x) eqn:Hx; [|done].
  injection H as <-. apply andb_true_iff in Hx as [Ht Ha].
  split; [by apply truthy_ne|]. eapply allChars_Trimmed; [apply isDigit_visible|done].
Qed.

Lemma withKind_Some (kind id t : string) :
  withKind kind id = Some t -> t = kind +:+ id /\ id <> EmptyString.
Proof.
  unfold withKind. destruct (Js.truthy id) eqn:Ht; [|done].
  intros [= <-]. split; [done|]. by apply truthy_ne.
Qed.

(** The shape of a normalized Slack or Discord target. *)
Definition kindTarget (t : string) : Prop :=
  exists id, id <> EmptyString /\ Trimmed id /\
             (t = "user:" +:+ id \/ t = "channel:" +:+ id).

Lemma normalizeSlackTarget_shape (raw t : string) :
  normalizeSlackTarget raw = Some t -> kindTarget t.
Proof.
  unfold normalizeSlackTarget. cbv zeta.
  pose proof (trimmed_trim raw) as Htr.
  destruct (Js.truthy (Js.trim raw)) eqn:Ht; [|done]. simpl.
  destruct (slackMention _) as [id|] eqn:Hm.
  { intros [= <-]. apply slackMention_Some in Hm as [??]. exists id. auto. }
  assert (forall k n x, withKind k (Js.trim (Js.slice_from (Js.trim raw) n)) = Some x ->
                        k = "user:" \/ k = "channel:" -> kindTarget x) as Hk.
  { intros k n x Hx Hkind. apply withKind_Some in Hx as [-> Hne].
    eexists. split; [exact Hne|]. split; [apply trimmed_trim|].
    destruct Hkind as [-> | ->]; auto. }
  repeat match goal with
         | |- (if ?x then _ else _) = _ -> _ => destruct x
         end; try (intros H; eapply Hk; eauto; fail).
  intros [= <-]. exists (Js.trim raw). split; [by apply truthy_ne|]. auto.
Qed.

Lemma normalizeDiscordTarget_shape (raw t : string) :
  normalizeDiscordTarget raw = Some t -> kindTarget t.
Proof.
  unfold normalizeDiscordTarget. cbv zeta.
  pose proof (trimmed_trim raw) as Htr.
  destruct (Js.truthy (Js.trim raw)) eqn:Ht; [|done]. simpl.
  destruct (discordMention _) as [id|] eqn:Hm.
  { intros [= <-]. apply discordMention_Some in Hm as [??]. exists id. auto. }
  assert (forall k n x, withKind k (Js.trim (Js.slice_from (Js.trim raw) n)) = Some x ->
                        k = "user:" \/ k = "channel:" -> kindTarget x) as Hk.
  { intros k n x Hx Hkind. apply withKind_Some in Hx as [-> Hne].
    eexists. split; [exact Hne|]. split; [apply trimmed_trim|].
    destruct Hkind as [-> | ->]; auto. }
  repeat match goal with
         | |- (if ?x then _ else _) = _ -> _ => destruct x
         end; try (intros H; eapply Hk; eauto; fail).
  intros [= <-]. exists (Js.trim raw). split; [by apply truthy_ne|]. auto.
Qed.

Lemma normalizeSlackTarget_fixed (t : string) :
  kindTarget t -> normalizeSlackTarget t = Some t.
Proof.
  intros (id & Hne & Hid & Ht).
  assert (Js.truthy id = true) as Hty by by apply truthy_ne.
  unfold normalizeSlackTarget. cbv zeta.
  destruct Ht as [-> | ->].
  - rewrite (trim_of_trimmed ("user:" +:+ id)) by by apply trimmed_app.
    rewrite !append_cons, append_nil_l. simpl.
    rewrite startsWith_nil, slice_from_O, (trim_of_trimmed id Hid).
    unfold withKind. rewrite Hty.
    by rewrite !append_cons, append_nil_l.
  - rewrite (trim_of_trimmed ("channel:" +:+ id)) by by apply trimmed_app.
    rewrite !append_cons, append_nil_l. simpl.
    rewrite startsWith_nil, slice_from_O, (trim_of_trimmed id Hid).
    unfold withKind. rewrite Hty.
    by rewrite !append_cons, append_nil_l.
Qed.

Lemma normalizeDiscordTarget_fixed (t : string) :
  kindTarget t -> normalizeDiscordTarget t = Some t.
Proof.
  intros (id & Hne & Hid & Ht).
  assert (Js.truthy id = true) as Hty by by apply truthy_ne.
  unfold normalizeDiscordTarget. cbv zeta.
  destruct Ht as [-> | ->].
  - rewrite (trim_of_trimmed ("user:" +:+ id)) by by apply trimmed_app.
    rewrite !append_cons, append_nil_l. simpl.
    rewrite startsWith_nil, slice_from_O, (trim_of_trimmed id Hid).
    unfold withKind. rewrite Hty.
    by rewrite !append_cons, append_nil_l.
  - rewrite (trim_of_trimmed ("channel:" +:+ id)) by by apply trimmed_app.
    rewrite !append_cons, append_nil_l. simpl.
    rewrite startsWith_nil, slice_from_O, (trim_of_trimmed id Hid).
    unfold withKind. rewrite Hty.
    by rewrite !append_cons, append_nil_l.
Qed.

End TargetFacts.

Section TelegramFacts.

(** The shape of a normalized Telegram target: the part after the prefix
    is not a t.me link any more. *)
Definition telegramTarget (t : string) : Prop :=
  exists n, n <> EmptyString /\ Trimmed n /\
            tmeUrl n = None /\ tmePath n = None /\ t = "telegram:" +:+ n.

Lemma tmePath_Some (s name : string) :
  tmePath s = Some name -> name <> EmptyString /\ allChars isWordChar name = true.
Proof.
  unfold tmePath. destruct (Tag.word _ _) as [x|]; [|done].
  destruct (Js.truthy x && allChars isWordChar x) eqn:Hx; [|done].
  intros [= <-]. apply andb_true_iff in Hx as [Ht Ha].
  split; [by apply truthy_ne|done].
Qed.

Lemma tmeUrl_Some (s name : string) :
  tmeUrl s = Some name -> name <> EmptyString /\ allChars isWordChar name = true.
Proof.
  unfold tmeUrl. destruct (Tag.word "http" s) as [r|]; [|done]. cbv zeta.
  destruct (Tag.word "://" _) as [r'|]; [|done]. apply tmePath_Some.
Qed.

Lemma normalizeTelegramTarget_shape (raw t : string) :
  normalizeTelegramTarget raw = Some t -> telegramTarget t.
Proof.
  unfold normalizeTelegramTarget. cbv zeta.
  destruct (Js.truthy (Js.trim raw)) eqn:Ht; [|done]. simpl negb. cbv iota.
  set (normalized :=
         if Js.startsWith (Js.trim raw) "telegram:" then Js.trim (Js.slice_from (Js.trim raw) 9)
         else if Js.startsWith (Js.trim raw) "tg:" then Js.trim (Js.slice_from (Js.trim raw) 3)
         else if Js.startsWith (Js.trim raw) "group:" then Js.trim (Js.slice_from (Js.trim raw) 6)
         else Js.trim raw).
  assert (Trimmed normalized) as Hn.
  { subst normalized. repeat case_match; apply trimmed_trim. }
  clearbody normalized.
  destruct (Js.truthy normalized) eqn:Hty; [|done]. simpl negb. cbv iota.
  assert (forall name, name <> EmptyString -> allChars isWordChar name = true ->
            telegramTarget ("telegram:" +:+ ("@" +:+ name))) as Hat.
  { intros name Hne Hall. exists ("@" +:+ name).
    split; [by rewrite append_cons|]. split; [|done].
    apply trimmed_app; [done| |done].
    eapply allChars_Trimmed; [apply isWordChar_visible|done]. }
  destruct (tmeUrl normalized) as [name|] eqn:Hu.
  { rewrite append_cons. simpl. intros [= <-].
    apply tmeUrl_Some in Hu as [??]. by apply Hat. }
  destruct (tmePath normalized) as [name|] eqn:Hp.
  { rewrite append_cons. simpl. intros [= <-].
    apply tmePath_Some in Hp as [??]. by apply Hat. }
  rewrite Hty. simpl. intros [= <-].
  exists normalized. split; [by apply truthy_ne|]. done.
Qed.

Lemma normalizeTelegramTarget_fixed (t : string) :
  telegramTarget t -> normalizeTelegramTarget t = Some t.
Proof.
  intros (n & Hne & Hn & Hu & Hp & ->).
  assert (Js.truthy n = true) as Hty by by apply truthy_ne.
  unfold normalizeTelegramTarget. cbv zeta.
  rewrite (trim_of_trimmed ("telegram:" +:+ n)) by by apply trimmed_app.
  rewrite !append_cons, append_nil_l. simpl.
  rewrite startsWith_nil, slice_from_O, (trim_of_trimmed n Hn), Hty. simpl.
  rewrite Hu, Hp, Hty. simpl.
  by rewrite ?append_cons, ?append_nil_l.
Qed.

End TelegramFacts.

(** X3: a Slack target that [normalizeSlackTarget] accepts is ["user:"] or
    ["channel:"] followed by a non-empty id without surrounding whitespace,
    and normalizing it again returns it unchanged; a blank target is
    refused. *)
Theorem X3_normalizeSlackTarget (raw : string) :
  (Js.trim raw = EmptyString -> normalizeSlackTarget raw = None) /\
  (forall t, normalizeSlackTarget raw = Some t ->
     (exists id, id <> EmptyString /\ Js.trim id = id /\
                 (t = "user:" +:+ id \/ t = "channel:" +:+ id)) /\
     normalizeSlackTarget t = Some t).
Proof.
  split.
  - intros Hb. unfold normalizeSlackTarget. by rewrite Hb.
  - intros t Ht. pose proof (normalizeSlackTarget_shape raw t Ht) as Hk.
    split; [|by apply normalizeSlackTarget_fixed].
    destruct Hk as (id & Hne & Hid & Hor). exists id.
    split; [done|]. split; [by apply trim_of_trimmed|done].
Qed.

(** X4: the same for Discord targets. *)
Theorem X4_normalizeDiscordTarget (raw : string) :
  (Js.trim raw = EmptyString -> normalizeDiscordTarget raw = None) /\
  (forall t, normalizeDiscordTarget raw = Some t ->
     (exists id, id <> EmptyString /\ Js.trim id = id /\
                 (t = "user:" +:+ id \/ t = "channel:" +:+ id)) /\
     normalizeDiscordTarget t = Some t).
Proof.
  split.
  - intros Hb. unfold normalizeDiscordTarget. by rewrite Hb.
  - intros t Ht. pose proof (normalizeDiscordTarget_shape raw t Ht) as Hk.
    split; [|by apply normalizeDiscordTarget_fixed].
    destruct Hk as (id & Hne & Hid & Hor). exists id.
    split; [done|]. split; [by apply trim_of_trimmed|done].
Qed.

(** X5: a Telegram target that [normalizeTelegramTarget] accepts is
    ["telegram:"] followed by a non-empty name without surrounding
    whitespace, in which a t.me link has been replaced by the ["@"] handle,
    and normalizing it again returns it unchanged; a blank target is
    refused. *)
Theorem X5_normalizeTelegramTarget (raw : string) :
  (Js.trim raw = EmptyString -> normalizeTelegramTarget raw = None) /\
  (forall t, normalizeTelegramTarget raw = Some t ->
     (exists n, n <> EmptyString /\ Js.trim n = n /\
                tmeUrl n = None /\ tmePath n = None /\ t = "telegram:" +:+ n) /\
     normalizeTelegramTarget t = Some t).
Proof.
  split.
  - intros Hb. unfold normalizeTelegramTarget. by rewrite Hb.
  - intros t Ht. pose proof (normalizeTelegramTarget_shape raw t Ht) as Hk.
    split; [|by apply normalizeTelegramTarget_fixed].
    destruct Hk as (n & Hne & Hn & Hu & Hp & ->). exists n.
    split; [done|]. split; [by apply trim_of_trimmed|done].
Qed.

(** X6: [extractMessagingToolSend] yields a target only for the slack,
    discord and telegram tools and only for a [sendMessage] action (or a
    discord [threadReply]); the target names the tool as its provider, its
    [to] is a non-empty target in the normal form of that tool, and its
    account id, when present, is non-empty and trimmed. *)
Theorem X6_extractMessagingToolSend (toolName : string) (args : SendArgs)
    (target : MessagingToolSend) :
  extractMessagingToolSend toolName args = Some target ->
  send_tool target = toolName /\ send_provider target = toolName /\
  (exists action, sa_action args = JsString action /\
     (Js.trim action = "sendMessage" \/
      (toolName = "discord" /\ Js.trim action = "threadReply"))) /\
  (exists to, send_to target = Some to /\ to <> EmptyString /\
     ((toolName = "slack" /\ normalizeSlackTarget to = Some to) \/
      (toolName = "discord" /\ normalizeDiscordTarget to = Some to) \/
      (toolName = "telegram" /\ normalizeTelegramTarget to = Some to))) /\
  (forall a, send_accountId target = Some a -> a <> EmptyString /\ Js.trim a = a).
Proof.
  unfold extractMessagingToolSend. cbv zeta.
  set (accountId := match sa_accountId args with
                    | JsString a => if Js.truthy (Js.trim a) then Some (Js.trim a) else None
                    | _ => None
                    end).
  assert (forall a, accountId = Some a -> a <> EmptyString /\ Js.trim a = a) as Hacc.
  { subst accountId. intros a. destruct (sa_accountId args) as [| |x|]; try done.
    destruct (Js.truthy (Js.trim x)) eqn:Hx; [|done]. intros [= <-].
    split; [by apply truthy_ne|]. apply trim_of_trimmed, trimmed_trim. }
  clearbody accountId.
  assert (exists action, (match sa_action args with
                          | JsString a => Js.trim a | _ => EmptyString end) = action)
    as [action Haction] by eauto.
  rewrite Haction.
  assert (action <> EmptyString -> exists a, sa_action args = JsString a /\ Js.trim a = action)
    as Hact.
  { intros Hne. destruct (sa_action args) as [| |a|]; try (by subst action). eauto. }
  destruct (String.eqb toolName "slack") eqn:Hslack.
  { apply String.eqb_eq in Hslack as ->.
    destruct (String.eqb action "sendMessage") eqn:Ha; [|done]. simpl.
    apply String.eqb_eq in Ha.
    destruct (sa_to args) as [| |raw|]; try done.
    destruct (Js.truthy raw); [|done].
    destruct (normalizeSlackTarget raw) as [t|] eqn:Ht; [|done].
    destruct (Js.truthy t) eqn:Hty; [|done]. intros [= <-]. simpl.
    split; [done|]. split; [done|]. split.
    - destruct Hact as (a & -> & Hta); [by rewrite Ha|]. exists a. rewrite Hta. auto.
    - split; [|done]. exists t. split; [done|]. split; [by apply truthy_ne|]. left.
      split; [done|]. by eapply normalizeSlackTarget_fixed, normalizeSlackTarget_shape. }
  destruct (String.eqb toolName "discord") eqn:Hdiscord.
  { apply String.eqb_eq in Hdiscord as ->.
    destruct (String.eqb action "sendMessage") eqn:Ha.
    - apply String.eqb_eq in Ha.
      destruct (sa_to args) as [| |raw|]; try done.
      destruct (Js.truthy raw); [|done].
      destruct (normalizeDiscordTarget raw) as [t|] eqn:Ht; [|done].
      destruct (Js.truthy t) eqn:Hty; [|done]. intros [= <-]. simpl.
      split; [done|]. split; [done|]. split.
      + destruct Hact as (a & -> & Hta); [by rewrite Ha|]. exists a. rewrite Hta. auto.
      + split; [|done]. exists t. split; [done|]. split; [by apply truthy_ne|].
        right. left.
        split; [done|]. by eapply normalizeDiscordTarget_fixed, normalizeDiscordTarget_shape.
    - destruct (String.eqb action "threadReply") eqn:Hb; [|done].
      apply String.eqb_eq in Hb.
      destruct (Js.truthy _); [|done]. simpl.
      destruct (normalizeDiscordTarget _) as [t|] eqn:Ht; [|done].
      destruct (Js.truthy t) eqn:Hty; [|done]. intros [= <-]. simpl.
      split; [done|]. split; [done|]. split.
      + destruct Hact as (a & -> & Hta); [by rewrite Hb|]. exists a. rewrite Hta. auto.
      + split; [|done]. exists t. split; [done|]. split; [by apply truthy_ne|].
        right. left.
        split; [done|]. by eapply normalizeDiscordTarget_fixed, normalizeDiscordTarget_shape. }
  destruct (String.eqb toolName "telegram") eqn:Htelegram; [|done].
  apply String.eqb_eq in Htelegram as ->.
  destruct (String.eqb action "sendMessage") eqn:Ha; [|done]. simpl.
  apply String.eqb_eq in Ha.
  destruct (sa_to args) as [| |raw|]; try done.
  destruct (Js.truthy raw); [|done].
  destruct (normalizeTelegramTarget raw) as [t|] eqn:Ht; [|done].
  destruct (Js.truthy t) eqn:Hty; [|done]. intros [= <-]. simpl.
  split; [done|]. split; [done|]. split.
  - destruct Hact as (a & -> & Hta); [by rewrite Ha|]. exists a. rewrite Hta. auto.
  - split; [|done]. exists t. split; [done|]. split; [by apply truthy_ne|].
    right. right.
    split; [done|]. by eapply normalizeTelegramTarget_fixed, normalizeTelegramTarget_shape.
Qed.

Lemma X6_extractMessagingToolSend_witness :
  let args := {| sa_action := JsString "sendMessage"; sa_accountId := JsString " work ";
                 sa_to := JsString "#general"; sa_channelId := JsUndefined |} in
  extractMessagingToolSend "slack" args
  = Some {| send_tool := "slack"; send_provider := "slack";
            send_accountId := Some "work"; send_to := Some "channel:general" |} /\
  normalizeSlackTarget "channel:general" = Some "channel:general".
Proof.
  intros args. split; [reflexivity|].
  destruct (X6_extractMessagingToolSend "slack" args _ eq_refl)
    as (_ & _ & _ & (to & Hto & _ & Hn) & _).
  injection Hto as <-.
  destruct Hn as [[_ H] | [[H _] | [H _]]]; [exact H | discriminate H | discriminate H].
Defined.

(** The tools without a target normalizer never yield a target. *)
Example no_target_for_other_tools (args : SendArgs) :
  extractMessagingToolSend "whatsapp" args = None /\
  extractMessagingToolSend "sessions_send" args = None.
Proof. split; reflexivity. Qed.

(** ** Reasoning tags promoted to blocks ([pi-embedded-subscribe.ts],
    lines 126-214; [pi-embedded-utils.ts], lines 4-35) *)

(** A block of [AssistantMessage.content]: text, thinking, or any other
    block (a tool call), of which only the type matters here. *)
Inductive ContentBlock :=
| TextContent (text : string)
| ThinkingContent (thinking : string)
| OtherContent (type : string).

Inductive ThinkTaggedSplitBlock :=
| SplitThinking (thinking : string)
| SplitText (text : string).

Definition pushText (value : string) (blocks : list ThinkTaggedSplitBlock)
  : list ThinkTaggedSplitBlock :=
  if Js.truthy value then blocks ++ [SplitText value] else blocks.

Definition pushThinking (value : string) (blocks : list ThinkTaggedSplitBlock)
  : list ThinkTaggedSplitBlock :=
  let cleaned := Js.trim value in
  if Js.truthy cleaned then blocks ++ [SplitThinking cleaned] else blocks.

Definition isSplitThinking (b : ThinkTaggedSplitBlock) : bool :=
  match b with SplitThinking _ => true | SplitText _ => false end.

(** The loop of [splitThinkingTaggedText] over the tag matches; the state
    is [(blocks, inThinking, cursor, thinkingStart)]. *)
Definition splitLoop (text : string) (ms : list Tag.Match)
  : list ThinkTaggedSplitBlock * bool * nat * nat :=
  fold_left
    (fun '(blocks, inThinking, cursor, thinkingStart) m =>
       if negb inThinking && negb (Tag.isClose m)
       then (pushText (Js.slice text cursor (Tag.index m)) blocks, true, cursor,
             (Tag.index m + Tag.len m)%nat)
       else if (inThinking : bool) && Tag.isClose m
       then (pushThinking (Js.slice text thinkingStart (Tag.index m)) blocks, false,
             (Tag.index m + Tag.len m)%nat, thinkingStart)
       else (blocks, inThinking, cursor, thinkingStart))
    ms ([], false, 0%nat, 0%nat).

Definition splitThinkingTaggedText (text : string)
  : option (list ThinkTaggedSplitBlock) :=
  let trimmedStart := Js.trimStart text in
  if negb (Js.startsWith trimmedStart "<") then None
  else if negb (existsb isOpenTag (thinkingTags trimmedStart)) then None
  else if negb (existsb Tag.isClose (thinkingTags text)) then None
  else
    let '(blocks, inThinking, cursor, _) := splitLoop text (thinkingTags text) in
    if inThinking then None
    else
      let blocks := pushText (Js.slice_from text cursor) blocks in
      if existsb isSplitThinking blocks then Some blocks else None.

Definition isThinkingContent (b : ContentBlock) : bool :=
  match b with ThinkingContent _ => true | _ => false end.

(** The blocks that replace a text block that was split. *)
Definition promotedPart (part : ThinkTaggedSplitBlock) : list ContentBlock :=
  match part with
  | SplitThinking thinking => [ThinkingContent thinking]
  | SplitText text =>
      let cleaned := Js.trimStart text in
      if Js.truthy cleaned then [TextContent cleaned] else []
  end.

(** [promoteThinkingTagsToBlocks] on the content array; the result is the
    content of the message afterwards. *)
Definition promoteThinkingTagsToBlocks (content : list ContentBlock)
  : list ContentBlock :=
  if existsb isThinkingContent content then content
  else
    let '(next, changed) :=
      fold_left
        (fun '(next, changed) block =>
           match block with
           | TextContent text =>
               match splitThinkingTaggedText text with
               | None => (next ++ [block], changed)
               | Some split => (next ++ concat (promotedPart <$> split), true)
               end
           | _ => (next ++ [block], changed)
           end)
        content ([], false) in
    if changed : bool then next else content.

(** [blocks.join("\n")]. *)
Fixpoint joinLines (blocks : list string) : string :=
  match blocks with
  | [] => EmptyString
  | [b] => b
  | b :: rest => b +:+ newline +:+ joinLines rest
  end.

Definition extractAssistantText (content : list ContentBlock) : string :=
  Js.trim
    (joinLines
       (List.filter Js.truthy
          (omap (fun b => match b with TextContent t => Some (Js.trim t) | _ => None end)
             content))).

Definition extractAssistantThinking (content : list ContentBlock) : string :=
  Js.trim
    (joinLines
       (List.filter Js.truthy
          ((fun b => match b with ThinkingContent t => Js.trim t | _ => EmptyString end)
             <$> content))).

Example promote_tagged :
  promoteThinkingTagsToBlocks [TextContent " <think> hidden </think> visible"]
  = [ThinkingContent "hidden"; TextContent "visible"] /\
  promoteThinkingTagsToBlocks [TextContent "plain <think>x</think>"]
  = [TextContent "plain <think>x</think>"] /\
  promoteThinkingTagsToBlocks [TextContent "<think>open"; OtherContent "toolCall"]
  = [TextContent "<think>open"; OtherContent "toolCall"] /\
  splitThinkingTaggedText "<think>a</think>b<thinking>c</thinking>"
  = Some [SplitThinking "a"; SplitText "b"; SplitThinking "c"].
Proof. repeat split; reflexivity. Qed.

Section PromotionFacts.

(** A well-formed part: text is non-empty, thinking is non-empty and
    trimmed. *)
Definition wfPart (b : ThinkTaggedSplitBlock) : Prop :=
  match b with
  | SplitText t => t <> EmptyString
  | SplitThinking t => t <> EmptyString /\ Js.trim t = t
  end.

Lemma pushText_wf value blocks :
  Forall wfPart blocks -> Forall wfPart (pushText value blocks).
Proof.
  intros H. unfold pushText. destruct (Js.truthy value) eqn:Hv; [|done].
  apply Forall_app. split; [done|]. constructor; [|done]. by apply truthy_ne.
Qed.

Lemma pushThinking_wf value blocks :
  Forall wfPart blocks -> Forall wfPart (pushThinking value blocks).
Proof.
  intros H. unfold pushThinking. cbv zeta.
  destruct (Js.truthy (Js.trim value)) eqn:Hv; [|done].
  apply Forall_app. split; [done|]. constructor; [|done].
  split; [by apply truthy_ne|]. apply trim_of_trimmed, trimmed_trim.
Qed.

Lemma splitLoop_wf text ms :
  Forall wfPart (splitLoop text ms).1.1.1.
Proof.
  unfold splitLoop.
  match goal with |- context [fold_left ?f _ _] => set (step := f) end.
  assert (forall ms st, Forall wfPart st.1.1.1 ->
                        Forall wfPart (fold_left step ms st).1.1.1) as Hind.
  { clear ms. induction ms as [|m ms IH]; intros st Hst; [done|].
    simpl. apply IH. destruct st as [[[blocks inThinking] cursor] thinkingStart].
    subst step. simpl in *.
    destruct (negb inThinking && negb (Tag.isClose m)); simpl;
      [by apply pushText_wf|].
    destruct (inThinking && Tag.isClose m); simpl; [by apply pushThinking_wf|done]. }
  by apply Hind.
Qed.

Lemma splitThinkingTaggedText_Some text blocks :
  splitThinkingTaggedText text = Some blocks ->
  existsb isSplitThinking blocks = true /\ Forall wfPart blocks /\
  Js.startsWith (Js.trimStart text) "<" = true.
Proof.
  unfold splitThinkingTaggedText. cbv zeta.
  destruct (Js.startsWith (Js.trimStart text) "<") eqn:Hs; [|done]. simpl.
  destruct (existsb isOpenTag _); [|done]. simpl.
  destruct (existsb Tag.isClose _); [|done]. simpl.
  pose proof (splitLoop_wf text (thinkingTags text)) as Hwf.
  destruct (splitLoop text (thinkingTags text)) as [[[bs inThinking] cursor] ts].
  simpl in Hwf. destruct inThinking; [done|].
  destruct (existsb isSplitThinking (pushText _ bs)) eqn:He; [|done].
  intros [= <-]. split; [done|]. split; [by apply pushText_wf|done].
Qed.

Definition isOtherContent (b : ContentBlock) : bool :=
  match b with OtherContent _ => true | _ => false end.

(** What the loop of [promoteThinkingTagsToBlocks] keeps. *)
Definition promoteInv (seen : list ContentBlock) (st : list ContentBlock * bool) : Prop :=
  List.filter isOtherContent st.1 = List.filter isOtherContent seen /\
  (st.2 = false -> st.1 = seen) /\
  (st.2 = true -> existsb isThinkingContent st.1 = true).

Lemma promotedPart_others split :
  List.filter isOtherContent (concat (promotedPart <$> split)) = [].
Proof.
  induction split as [|part split IH]; [done|].
  rewrite fmap_cons. simpl. rewrite List.filter_app, IH, app_nil_r.
  destruct part as [t|t]; simpl; [done|]. by destruct (Js.truthy _).
Qed.

Lemma promotedPart_thinking split :
  existsb isSplitThinking split = true ->
  existsb isThinkingContent (concat (promotedPart <$> split)) = true.
Proof.
  induction split as [|part split IH]; [done|].
  rewrite fmap_cons. simpl. rewrite existsb_app.
  destruct part as [t|t]; simpl; [done|].
  intros H. rewrite (IH H). apply orb_true_r.
Qed.

Lemma promote_loop content :
  promoteInv content
    (fold_left
       (fun '(next, changed) block =>
          match block with
          | TextContent text =>
              match splitThinkingTaggedText text with
              | None => (next ++ [block], changed)
              | Some split => (next ++ concat (promotedPart <$> split), true)
              end
          | _ => (next ++ [block], changed)
          end)
       content ([], false)).
Proof.
  induction content as [|block content IH] using rev_ind; [done|].
  rewrite fold_left_app. simpl.
  destruct (fold_left _ content _) as [next changed].
  destruct IH as (Ho & Hsame & Hthink). simpl in *.
  assert (promoteInv (content ++ [block]) (next ++ [block], changed)) as Hkeep.
  { split; [|split]; simpl.
    - by rewrite !List.filter_app, Ho.
    - intros Hc. by rewrite (Hsame Hc).
    - intros Hc. by rewrite existsb_app, (Hthink Hc). }
  destruct block as [text|thinking|type]; try exact Hkeep.
  destruct (splitThinkingTaggedText text) as [split|] eqn:Hsplit; [|exact Hkeep].
  apply splitThinkingTaggedText_Some in Hsplit as (He & _ & _).
  split; [|split]; simpl.
  - by rewrite !List.filter_app, promotedPart_others, Ho.
  - done.
  - intros _. rewrite existsb_app, (promotedPart_thinking _ He). apply orb_true_r.
Qed.

End PromotionFacts.

(** X7: the parts [splitThinkingTaggedText] returns contain a thinking
    part, every text part is non-empty, every thinking part is non-empty and
    trimmed, and a text is split only if its first visible character is
    ["<"]. *)
Theorem X7_splitThinkingTaggedText (text : string)
    (blocks : list ThinkTaggedSplitBlock) :
  splitThinkingTaggedText text = Some blocks ->
  (exists t, SplitThinking t ∈ blocks) /\
  (forall t, SplitText t ∈ blocks -> t <> EmptyString) /\
  (forall t, SplitThinking t ∈ blocks -> t <> EmptyString /\ Js.trim t = t) /\
  Js.startsWith (Js.trimStart text) "<" = true.
Proof.
  intros H. apply splitThinkingTaggedText_Some in H as (He & Hwf & Hs).
  split; [|split; [|split]]; [| | |done].
  - apply existsb_exists in He as ([t|t] & Hin & Ht); [|done].
    exists t. by apply list_elem_of_In.
  - intros t Hin. rewrite Forall_forall in Hwf. exact (Hwf _ Hin).
  - intros t Hin. rewrite Forall_forall in Hwf. exact (Hwf _ Hin).
Qed.

Lemma X7_splitThinkingTaggedText_witness :
  exists t, SplitThinking t ∈ [SplitThinking "a"; SplitText "b"].
Proof.
  exact (proj1 (X7_splitThinkingTaggedText "<think> a </think>b"
                  [SplitThinking "a"; SplitText "b"] eq_refl)).
Defined.

(** X8: [promoteThinkingTagsToBlocks] leaves a content that has a thinking
    block as it is, keeps the blocks that are neither text nor thinking in
    their order, gives a content with a thinking block whenever it changes
    anything, and promoting twice is promoting once. *)
Theorem X8_promoteThinkingTagsToBlocks (content : list ContentBlock) :
  let promoted := promoteThinkingTagsToBlocks content in
  (existsb isThinkingContent content = true -> promoted = content) /\
  List.filter isOtherContent promoted = List.filter isOtherContent content /\
  (promoted <> content -> existsb isThinkingContent promoted = true) /\
  promoteThinkingTagsToBlocks promoted = promoted.
Proof.
  intros promoted.
  assert (promoted = content \/
          (List.filter isOtherContent promoted = List.filter isOtherContent content /\
           existsb isThinkingContent promoted = true)) as Hcases.
  { subst promoted. unfold promoteThinkingTagsToBlocks.
    destruct (existsb isThinkingContent content) eqn:Hth; [by left|].
    pose proof (promote_loop content) as Hinv.
    destruct (fold_left _ content _) as [next changed].
    destruct Hinv as (Ho & Hsame & Hthink). simpl in *.
    destruct changed; [right|by left]. by split; [|apply Hthink]. }
  split; [|split; [|split]].
  - intros Hth. subst promoted. unfold promoteThinkingTagsToBlocks. by rewrite Hth.
  - by destruct Hcases as [-> | [? _]].
  - intros Hne. by destruct Hcases as [? | [_ ?]].
  - destruct Hcases as [Heq | [_ Hth]].
    + by rewrite Heq.
    + unfold promoteThinkingTagsToBlocks at 1. by rewrite Hth.
Qed.

(** *** A reply that opens with one tagged reasoning segment *)

(** No character of the string can start a tag. *)
Definition noTagStart (s : string) : bool :=
  allChars (fun c => negb (Ascii.eqb c "<")) s.

Section TaggedReply.

Lemma matchAllFrom_plain w sfx idx pre rest :
  noTagStart pre = true ->
  Tag.matchAllFrom w sfx idx 0 (pre +:+ rest)
  = Tag.matchAllFrom w sfx (idx + String.length pre) 0 rest.
Proof.
  revert idx. induction pre as [|c pre IH]; intros idx Hpre.
  - rewrite append_nil_l. simpl. by rewrite Nat.add_0_r.
  - rewrite append_cons. simpl in Hpre.
    apply andb_true_iff in Hpre as [Hc Hpre].
    change (Tag.matchAllFrom w sfx idx 0 (String c (pre +:+ rest)))
      with (match Tag.matchAt w sfx (String c (pre +:+ rest)) with
            | Some (slash, n) =>
                {| Tag.index := idx; Tag.len := n; Tag.isClose := slash |}
                  :: Tag.matchAllFrom w sfx (S idx) (n - 1) (pre +:+ rest)
            | None => Tag.matchAllFrom w sfx (S idx) 0 (pre +:+ rest)
            end).
    assert (Tag.matchAt w sfx (String c (pre +:+ rest)) = None) as ->.
    { unfold Tag.matchAt.
      destruct (Ascii.eqb c "<") eqn:Heq; [done|].
      destruct c as [[] [] [] [] [] [] [] []]; try done. }
    rewrite IH by done. f_equal. simpl. lia.
Qed.

Lemma matchAllFrom_skip w sfx idx pre rest :
  Tag.matchAllFrom w sfx idx (String.length pre) (pre +:+ rest)
  = Tag.matchAllFrom w sfx (idx + String.length pre) 0 rest.
Proof.
  revert idx. induction pre as [|c pre IH]; intros idx.
  - rewrite append_nil_l. simpl. by rewrite Nat.add_0_r.
  - rewrite append_cons. simpl. rewrite IH. f_equal. lia.
Qed.

Lemma matchAllFrom_nil w sfx idx s :
  noTagStart s = true -> Tag.matchAllFrom w sfx idx 0 s = [].
Proof.
  intros Hs. rewrite <- (append_nil_r s), matchAllFrom_plain by done.
  reflexivity.
Qed.

Lemma matchAllFrom_head w sfx idx c s :
  Tag.matchAllFrom w sfx idx 0 (String c s)
  = match Tag.matchAt w sfx (String c s) with
    | Some (slash, n) =>
        {| Tag.index := idx; Tag.len := n; Tag.isClose := slash |}
          :: Tag.matchAllFrom w sfx (S idx) (n - 1) s
    | None => Tag.matchAllFrom w sfx (S idx) 0 s
    end.
Proof. reflexivity. Qed.

Lemma matchAt_open rest :
  Tag.matchAt "think" "ing" ("<think>" +:+ rest) = Some (false, 7%nat).
Proof.
  rewrite !append_cons, append_nil_l. unfold Tag.matchAt. simpl.
  do 2 f_equal. lia.
Qed.

Lemma matchAt_close rest :
  Tag.matchAt "think" "ing" ("</think>" +:+ rest) = Some (true, 8%nat).
Proof.
  rewrite !append_cons, append_nil_l. unfold Tag.matchAt. simpl.
  do 2 f_equal. lia.
Qed.

Lemma matchAllFrom_open idx rest :
  Tag.matchAllFrom "think" "ing" idx 0 ("<think>" +:+ rest)
  = {| Tag.index := idx; Tag.len := 7; Tag.isClose := false |}
      :: Tag.matchAllFrom "think" "ing" (idx + 7) 0 rest.
Proof.
  pose proof (matchAt_open rest) as Hat.
  pose proof (matchAllFrom_skip "think" "ing" (S idx) "think>" rest) as Hskip.
  rewrite append_cons in Hat |- *. rewrite matchAllFrom_head, Hat.
  change (7 - 1)%nat with (String.length "think>").
  rewrite Hskip. do 2 f_equal. simpl. lia.
Qed.

Lemma matchAllFrom_close idx rest :
  Tag.matchAllFrom "think" "ing" idx 0 ("</think>" +:+ rest)
  = {| Tag.index := idx; Tag.len := 8; Tag.isClose := true |}
      :: Tag.matchAllFrom "think" "ing" (idx + 8) 0 rest.
Proof.
  pose proof (matchAt_close rest) as Hat.
  pose proof (matchAllFrom_skip "think" "ing" (S idx) "/think>" rest) as Hskip.
  rewrite append_cons in Hat |- *. rewrite matchAllFrom_head, Hat.
  change (8 - 1)%nat with (String.length "/think>").
  rewrite Hskip. do 2 f_equal. simpl. lia.
Qed.

End TaggedReply.

(** A reply made of leading whitespace [ws], a reasoning segment [r] in
    think tags, and the answer [a]. *)
Definition taggedReply (ws r a : string) : string :=
  ws +:+ ("<think>" +:+ (r +:+ ("</think>" +:+ a))).

Section TaggedReplyFacts.

Lemma slice_app_take (x y : string) : Js.slice (x +:+ y) 0 (String.length x) = x.
Proof.
  unfold Js.slice. rewrite Nat.sub_0_r.
  induction x as [|c x IH]; [by destruct y|].
  rewrite append_cons. simpl. by rewrite IH.
Qed.

Lemma slice_app_drop (x y : string) (i j : nat) :
  Js.slice (x +:+ y) (String.length x + i) (String.length x + j) = Js.slice y i j.
Proof.
  unfold Js.slice. induction x as [|c x IH]; [by rewrite append_nil_l|].
  rewrite append_cons. simpl. exact IH.
Qed.

Lemma slice_from_app_drop (x y : string) (k : nat) :
  Js.slice_from (x +:+ y) (String.length x + k) = Js.slice_from y k.
Proof.
  induction x as [|c x IH]; [by rewrite append_nil_l|].
  rewrite append_cons. simpl. exact IH.
Qed.

Lemma space_noTagStart (ws : string) :
  allChars Js.isSpace ws = true -> noTagStart ws = true.
Proof.
  unfold noTagStart. induction ws as [|c ws IH]; [done|]. simpl.
  intros [Hc Hws]%andb_true_iff. rewrite (IH Hws), andb_true_r.
  destruct c as [[] [] [] [] [] [] [] []]; done.
Qed.

Lemma trimStart_spaces (ws s : string) :
  allChars Js.isSpace ws = true -> Js.trimStart (ws +:+ s) = Js.trimStart s.
Proof.
  induction ws as [|c ws IH]; [done|]. simpl.
  intros [Hc Hws]%andb_true_iff. rewrite ?append_cons. simpl. by rewrite Hc, IH.
Qed.

Lemma thinkingTags_taggedReply (ws r a : string) :
  noTagStart ws = true -> noTagStart r = true -> noTagStart a = true ->
  thinkingTags (taggedReply ws r a)
  = [ {| Tag.index := String.length ws; Tag.len := 7; Tag.isClose := false |};
      {| Tag.index := String.length ws + 7 + String.length r; Tag.len := 8;
         Tag.isClose := true |} ].
Proof.
  intros Hws Hr Ha. unfold thinkingTags, Tag.matchAll, taggedReply.
  rewrite matchAllFrom_plain, matchAllFrom_open, matchAllFrom_plain,
    matchAllFrom_close, matchAllFrom_nil by done.
  reflexivity.
Qed.

Lemma splitLoop_taggedReply (ws r a : string) :
  noTagStart ws = true -> noTagStart r = true -> noTagStart a = true ->
  splitLoop (taggedReply ws r a) (thinkingTags (taggedReply ws r a))
  = (pushThinking r (pushText ws []), false,
     (String.length ws + 7 + String.length r + 8)%nat,
     (String.length ws + 7)%nat).
Proof.
  intros Hws Hr Ha. rewrite thinkingTags_taggedReply by done.
  unfold splitLoop. simpl.
  assert (Js.slice (taggedReply ws r a) 0 (String.length ws) = ws) as ->
    by apply slice_app_take.
  assert (Js.slice (taggedReply ws r a) (String.length ws + 7)
            (String.length ws + 7 + String.length r) = r) as ->.
  { unfold taggedReply. rewrite <- Nat.add_assoc, slice_app_drop.
    change 7%nat with (String.length "<think>" + 0)%nat at 1.
    change (7 + String.length r)%nat with (String.length "<think>" + String.length r)%nat.
    rewrite slice_app_drop. apply slice_app_take. }
  reflexivity.
Qed.

End TaggedReplyFacts.

Section TaggedReplyPromotion.

Lemma splitThinkingTaggedText_taggedReply (ws r a : string) :
  allChars Js.isSpace ws = true -> noTagStart r = true -> noTagStart a = true ->
  splitThinkingTaggedText (taggedReply ws r a)
  = if Js.truthy (Js.trim r)
    then Some (pushText a (pushThinking r (pushText ws [])))
    else None.
Proof.
  intros Hws Hr Ha. pose proof (space_noTagStart ws Hws) as Hws'.
  unfold splitThinkingTaggedText. cbv zeta.
  rewrite splitLoop_taggedReply by done.
  assert (Js.trimStart (taggedReply ws r a) = taggedReply "" r a) as ->.
  { unfold taggedReply. rewrite trimStart_spaces by done.
    by rewrite append_nil_l, append_cons. }
  rewrite !thinkingTags_taggedReply by done.
  assert (Js.slice_from (taggedReply ws r a)
            (String.length ws + 7 + String.length r + 8) = a) as ->.
  { unfold taggedReply. rewrite <- !Nat.add_assoc, slice_from_app_drop.
    change (7 + (String.length r + 8))%nat
      with (String.length "<think>" + (String.length r + 8))%nat.
    rewrite slice_from_app_drop.
    change 8%nat with (String.length "</think>" + 0)%nat.
    rewrite slice_from_app_drop, slice_from_app_drop. apply slice_from_O. }
  unfold taggedReply at 1. rewrite append_nil_l, append_cons. simpl.
  unfold pushText, pushThinking. cbv zeta.
  destruct (Js.truthy ws), (Js.truthy (Js.trim r)), (Js.truthy a); simpl;
    rewrite ?existsb_app; simpl; done.
Qed.

End TaggedReplyPromotion.

(** X9: a reply whose text block is leading whitespace, one reasoning
    segment in think tags and then the answer (neither containing ["<"]) is
    promoted to a thinking block holding the trimmed reasoning followed by
    the answer without its leading whitespace; [extractAssistantThinking]
    then returns the trimmed reasoning and [extractAssistantText] the
    trimmed answer.  With a blank reasoning segment the content is left as
    it is. *)
Theorem X9_promote_tagged_reply (ws r a : string) :
  allChars Js.isSpace ws = true -> noTagStart r = true -> noTagStart a = true ->
  let content := promoteThinkingTagsToBlocks [TextContent (taggedReply ws r a)] in
  (Js.trim r <> EmptyString ->
     content = ThinkingContent (Js.trim r)
                 :: (if Js.truthy (Js.trimStart a) then [TextContent (Js.trimStart a)]
                     else []) /\
     extractAssistantThinking content = Js.trim r /\
     extractAssistantText content = Js.trim a) /\
  (Js.trim r = EmptyString -> content = [TextContent (taggedReply ws r a)]).
Proof.
  intros Hws Hr Ha content.
  assert (content = if Js.truthy (Js.trim r)
                    then ThinkingContent (Js.trim r)
                           :: (if Js.truthy (Js.trimStart a)
                               then [TextContent (Js.trimStart a)] else [])
                    else [TextContent (taggedReply ws r a)]) as Hcontent.
  { subst content. unfold promoteThinkingTagsToBlocks. simpl.
    rewrite splitThinkingTaggedText_taggedReply by done.
    destruct (Js.truthy (Js.trim r)) eqn:Htr; [|done].
    unfold pushThinking, pushText. cbv zeta. rewrite Htr.
    assert (Js.trimStart ws = EmptyString) as Hblank.
    { rewrite <- (append_nil_r ws). by rewrite trimStart_spaces. }
    destruct (Js.truthy ws), (Js.truthy a) eqn:Hta; simpl;
      rewrite ?Hblank; simpl; rewrite ?app_nil_r; try done.
    all: apply truthy_false in Hta as ->; done. }
  assert (Js.trim (Js.trim r) = Js.trim r) as Hrr
    by apply trim_of_trimmed, trimmed_trim.
  split.
  - intros Hne. apply truthy_ne in Hne. rewrite Hne in Hcontent.
    split; [exact Hcontent|]. rewrite Hcontent. split.
    + unfold extractAssistantThinking.
      destruct (Js.truthy (Js.trimStart a)); simpl; rewrite Hrr, Hne; simpl; exact Hrr.
    + unfold extractAssistantText.
      assert (Js.trim (Js.trimStart a) = Js.trim a) as Hta
        by (unfold Js.trim; by rewrite trimStart_idem).
      destruct (Js.truthy (Js.trimStart a)) eqn:Hts; simpl.
      * rewrite Hta. destruct (Js.truthy (Js.trim a)) eqn:Htt; simpl.
        -- apply trim_of_trimmed, trimmed_trim.
        -- by apply truthy_false in Htt as ->.
      * apply truthy_false in Hts. unfold Js.trim. by rewrite Hts.
  - intros Hblank. by rewrite Hblank in Hcontent.
Qed.

Lemma X9_promote_tagged_reply_witness :
  extractAssistantText
    (promoteThinkingTagsToBlocks [TextContent (taggedReply " " "hidden" "visible")])
  = "visible".
Proof.
  destruct (X9_promote_tagged_reply " " "hidden" "visible" eq_refl eq_refl eq_refl)
    as [H _].
  destruct H as (_ & _ & H); [discriminate|exact H].
Defined.

(** ** Tool results passed to the event stream ([pi-embedded-subscribe.ts],
    lines 66-93) *)

(** A JavaScript value as far as [sanitizeToolResult] can tell values
    apart; an object is the map of its own properties. *)
#[local] Unset Elimination Schemes.
Inductive Value :=
| VUndefined
| VNull
| VBool (b : bool)
| VNumber (n : Z)
| VString (s : string)
| VArray (items : list Value)
| VObject (props : gmap string Value).
#[local] Set Elimination Schemes.

(** [value[key]] for a string key that is not an array index. *)
Definition prop (key : string) (v : Value) : Value :=
  match v with
  | VObject props => default VUndefined (props !! key)
  | _ => VUndefined
  end.

Section ToolResults.

(** [truncateUtf16Safe] (utils.js) is outside this repository slice, and the
    mark appended after a truncation contains an ellipsis, which is not a
    Latin-1 character. *)
Variable truncateUtf16Safe : string -> nat -> string.
Variable truncationMark : string.

Definition TOOL_RESULT_MAX_CHARS : nat := N.to_nat 8000.

Definition truncateToolText (text : string) : string :=
  if (String.length text <=? TOOL_RESULT_MAX_CHARS)%nat then text
  else truncateUtf16Safe text TOOL_RESULT_MAX_CHARS +:+ truncationMark.

(** The callback of [content.map]. *)
Definition sanitizeItem (item : Value) : Value :=
  match item with
  | VObject entry =>
      match entry !! "type" with
      | Some (VString type) =>
          if String.eqb type "text" then
            match entry !! "text" with
            | Some (VString text) =>
                VObject (<["text" := VString (truncateToolText text)]> entry)
            | _ => item
            end
          else if String.eqb type "image" then
            let bytes :=
              match entry !! "data" with
              | Some (VString data) =>
                  if Js.truthy data then VNumber (Z.of_nat (String.length data))
                  else VUndefined
              | _ => VUndefined
              end in
            VObject (<["omitted" := VBool true]>
                       (<["bytes" := bytes]> (delete "data" entry)))
          else item
      | _ => item
      end
  | _ => item
  end.

Definition sanitizeToolResult (result : Value) : Value :=
  match result with
  | VObject record =>
      match record !! "content" with
      | Some (VArray content) =>
          VObject (<["content" := VArray (sanitizeItem <$> content)]> record)
      | _ => result
      end
  | _ => result
  end.

End ToolResults.

Section ToolResultFacts.

Context (truncateUtf16Safe : string -> nat -> string) (truncationMark : string).

Local Abbreviation sanitizeItem := (sanitizeItem truncateUtf16Safe truncationMark).
Local Abbreviation sanitizeToolResult := (sanitizeToolResult truncateUtf16Safe truncationMark).

Lemma sanitizeItem_image (item : Value) :
  prop "type" (sanitizeItem item) = VString "image" ->
  prop "data" (sanitizeItem item) = VUndefined /\
  prop "omitted" (sanitizeItem item) = VBool true.
Proof.
  destruct item as [| | | | | |entry]; try done. simpl.
  destruct (entry !! "type") as [[| | | |type| |]|] eqn:Htype; simpl;
    rewrite ?Htype; try done.
  destruct (String.eqb type "text") eqn:Htext.
  - apply String.eqb_eq in Htext as ->.
    destruct (entry !! "text") as [[| | | |text| |]|]; simpl; rewrite ?Htype; try done.
    rewrite lookup_insert_ne by done. by rewrite Htype.
  - destruct (String.eqb type "image") eqn:Himage; simpl.
    + intros _. rewrite lookup_insert_ne, lookup_insert_ne, lookup_delete_eq by done.
      by rewrite lookup_insert_eq.
    + rewrite Htype. simpl. intros [= ->]. done.
Qed.

Lemma sanitizeItem_other (item : Value) :
  prop "type" item <> VString "image" ->
  (forall text, prop "text" item = VString text ->
                (String.length text <= TOOL_RESULT_MAX_CHARS)%nat) ->
  sanitizeItem item = item.
Proof.
  destruct item as [| | | | | |entry]; try done. simpl.
  destruct (entry !! "type") as [[| | | |type| |]|] eqn:Htype; simpl; try done.
  intros Hne Hshort.
  destruct (String.eqb type "text") eqn:Htext.
  - destruct (entry !! "text") as [[| | | |text| |]|] eqn:Ht; simpl in *; try done.
    unfold truncateToolText.
    destruct (String.length text <=? TOOL_RESULT_MAX_CHARS)%nat eqn:Hlen.
    + by rewrite insert_id.
    + apply Nat.leb_gt in Hlen. specialize (Hshort text eq_refl). lia.
  - destruct (String.eqb type "image") eqn:Himage; [|done].
    apply String.eqb_eq in Himage as ->. done.
Qed.

End ToolResultFacts.

(** X10: for a tool result whose [content] is an array, [sanitizeToolResult]
    changes only that property and keeps the number of its items; no item
    of type ["image"] carries a [data] property afterwards and each is
    marked [omitted]; an item that is not an image and has no text longer
    than [TOOL_RESULT_MAX_CHARS] is passed on unchanged. *)
Theorem X10_sanitizeToolResult (truncateUtf16Safe : string -> nat -> string)
    (truncationMark : string) (record : gmap string Value) (content : list Value) :
  record !! "content" = Some (VArray content) ->
  let out := sanitizeToolResult truncateUtf16Safe truncationMark (VObject record) in
  (forall key, key <> "content" -> prop key out = prop key (VObject record)) /\
  exists sanitized,
    prop "content" out = VArray sanitized /\
    length sanitized = length content /\
    (forall item, item ∈ sanitized -> prop "type" item = VString "image" ->
       prop "data" item = VUndefined /\ prop "omitted" item = VBool true) /\
    (forall i item, content !! i = Some item ->
       prop "type" item <> VString "image" ->
       (forall text, prop "text" item = VString text ->
                     (String.length text <= TOOL_RESULT_MAX_CHARS)%nat) ->
       sanitized !! i = Some item).
Proof.
  intros Hcontent out. subst out. simpl. rewrite Hcontent. simpl. split.
  - intros key Hkey. by rewrite lookup_insert_ne.
  - exists (sanitizeItem truncateUtf16Safe truncationMark <$> content).
    split; [by rewrite lookup_insert_eq|]. split; [by rewrite length_fmap|]. split.
    + intros item [x [-> _]]%list_elem_of_fmap. apply sanitizeItem_image.
    + intros i item Hi Hne Hshort. rewrite list_lookup_fmap, Hi. simpl.
      f_equal. by apply sanitizeItem_other.
Qed.

Lemma X10_sanitizeToolResult_witness :
  let image := VObject {[ "type" := VString "image"; "data" := VString "iVBOR" ]} in
  let record := {[ "content" := VArray [image] ]} in
  exists sanitized,
    prop "content" (sanitizeToolResult (fun s _ => s) "" (VObject record))
    = VArray sanitized /\
    length sanitized = 1%nat.
Proof.
  intros image record.
  destruct (X10_sanitizeToolResult (fun s _ => s) "" record [image])
    as (_ & sanitized & Hs & Hl & _).
  - reflexivity.
  - exists sanitized. split; [exact Hs | exact Hl].
Defined.

(** A non-object, and an object without a content array, pass through. *)
Example sanitizeToolResult_passthrough (truncateUtf16Safe : string -> nat -> string)
    (mark : string) :
  sanitizeToolResult truncateUtf16Safe mark (VString "done") = VString "done" /\
  sanitizeToolResult truncateUtf16Safe mark (VObject {[ "content" := VString "x" ]})
  = VObject {[ "content" := VString "x" ]} /\
  sanitizeToolResult truncateUtf16Safe mark VUndefined = VUndefined.
Proof. repeat split; reflexivity. Qed.

(** ** What the reconciler sends *)

(** A formatted reasoning text: the heading and a non-empty trimmed body. *)
Definition reasoningText (text : string) : Prop :=
  exists body, body <> EmptyString /\ Js.trim body = body /\
               text = "Reasoning:" +:+ newline +:+ body.

(** What holds of an entry of the output record under the parameters [p]:
    the callback it goes to was supplied and its mode is on, and the text is
    not empty.  For [AssistantStream next] the text is the cleaned
    cumulative text [next], not the partial reply made from it, and for
    [BlockChunk] and [FinalBlock] it is the accepted text, not the block
    reply made from it: those are what [splitMediaFromOutput] returns. *)
Definition wellFormedOutput (p : Params) (o : Output) : Prop :=
  match o with
  | ToolResult text mediaUrls =>
      onToolResult p = true /\ (text <> EmptyString \/ mediaUrls <> [])
  | ReasoningDraft text =>
      reasoningMode p = ReasoningStream /\ onReasoningStream p = true /\
      reasoningText text
  | AssistantStream next => next <> EmptyString /\ Js.trim next = next
  | BlockChunk chunk => chunk <> EmptyString /\ Js.trimEnd chunk = chunk
  | FinalBlock text => onBlockReply p = true /\ text <> EmptyString
  | ReasoningBlock text =>
      reasoningMode p = ReasoningOn /\ onBlockReply p = true /\ reasoningText text
  end.

Section OutputFacts.

Context {C : Type} {E : Collaborators C}.

Implicit Types (s : State C) (p : Params).

(** From [s] to [s'] the output record grows by outputs satisfying [P]. *)
Definition appends (P : Output -> Prop) s s' : Prop :=
  exists new, outputs s' = outputs s ++ new /\ Forall P new.

Lemma appends_refl P s : appends P s s.
Proof. exists []. by rewrite app_nil_r. Qed.

Lemma appends_trans P s1 s2 s3 :
  appends P s1 s2 -> appends P s2 s3 -> appends P s1 s3.
Proof.
  intros (n1 & Ho1 & Hf1) (n2 & Ho2 & Hf2). exists (n1 ++ n2).
  rewrite Ho2, Ho1, app_assoc. split; [done|]. by apply Forall_app.
Qed.

Lemma appends_frame P s s' : outputs s' = outputs s -> appends P s s'.
Proof. intros Ho. exists []. by rewrite app_nil_r. Qed.

Lemma appends_one P s s' o :
  outputs s' = outputs s ++ [o] -> P o -> appends P s s'.
Proof. intros Ho Hp. exists [o]. split; [done|]. by constructor. Qed.

Lemma formatReasoningMarkdown_shape text :
  Js.truthy (formatReasoningMarkdown text) = true ->
  reasoningText (formatReasoningMarkdown text).
Proof.
  unfold formatReasoningMarkdown. cbv zeta.
  destruct (Js.truthy (Js.trim text)) eqn:Ht; simpl; [|done].
  intros _. exists (Js.trim text). split; [by apply truthy_ne|].
  split; [apply trim_of_trimmed, trimmed_trim|done].
Qed.

Lemma formatReasoningDraft_shape text :
  Js.truthy (formatReasoningDraft text) = true ->
  reasoningText (formatReasoningDraft text).
Proof. apply formatReasoningMarkdown_shape. Qed.

Lemma cleanedNext_trimmed p buffer : Js.trim (cleanedNext p buffer) = cleanedNext p buffer.
Proof.
  unfold cleanedNext. cbv zeta.
  repeat case_match; apply trim_of_trimmed, trimmed_trim.
Qed.

Local Abbreviation sends p := (appends (wellFormedOutput p)).

Lemma sends_emitToolSummary p toolName meta s :
  sends p s (emitToolSummary p toolName meta s).
Proof.
  unfold emitToolSummary, emit.
  destruct (onToolResult p) eqn:Hcb; simpl; [|apply appends_refl].
  destruct (splitMediaFromOutput _) as [cleanedText mediaUrls].
  destruct (Js.truthy cleanedText) eqn:Ht; simpl.
  - eapply appends_one; [done|]. split; [done|]. left. by apply truthy_ne.
  - case_bool_decide as Hm; [apply appends_refl|].
    eapply appends_one; [done|]. split; [done|]. by right.
Qed.

Lemma sends_emitBlockChunk p text s : sends p s (emitBlockChunk text s).
Proof.
  unfold emitBlockChunk, emit.
  destruct (stripBlockThinkingSegments _ _) as [stripped active].
  destruct (Js.truthy (Js.trimEnd stripped)) eqn:Ht; simpl; [|by apply appends_frame].
  case_bool_decide as Hlast; [by apply appends_frame|].
  destruct (isMessagingToolDuplicate _ _); [by apply appends_frame|].
  eapply appends_one; [done|]. split; [by apply truthy_ne|apply trimEnd_idem].
Qed.

Lemma sends_drainChunker p force c s : sends p s (drainChunker force c s).
Proof.
  apply (drainChunker_ind (fun st => sends p s st)).
  - intros text st Hst. eapply appends_trans; [exact Hst|].
    apply sends_emitBlockChunk.
  - by apply appends_frame.
Qed.

Lemma sends_flushBlock p s : sends p s (flushBlock s).
Proof.
  unfold flushBlock.
  assert (forall st, sends p s st -> sends p s (resetChunker st)) as Hreset.
  { intros st Hst. eapply appends_trans; [exact Hst|]. by apply appends_frame. }
  assert (sends p s (set_blockBuffer "" (emitBlockChunk (blockBuffer s) s))) as Hbuf.
  { eapply appends_trans; [apply sends_emitBlockChunk|]. by apply appends_frame. }
  destruct (blockChunker s) as [c|].
  - destruct (chunker_hasBuffered c); [apply Hreset, sends_drainChunker|].
    destruct (0 <? _)%nat; [exact Hbuf|apply appends_refl].
  - destruct (0 <? _)%nat; [exact Hbuf|apply appends_refl].
Qed.

Lemma sends_emitReasoningStream p text s :
  sends p s (emitReasoningStream p text s).
Proof.
  unfold emitReasoningStream, emit, streamReasoning.
  destruct (reasoningMode p) eqn:Hmode; simpl; try apply appends_refl.
  destruct (onReasoningStream p) eqn:Hcb; simpl; [|apply appends_refl].
  destruct (Js.truthy (formatReasoningDraft text)) eqn:Ht; simpl; [|apply appends_refl].
  case_bool_decide; [apply appends_refl|].
  eapply appends_one; [done|]. split; [done|]. split; [done|].
  by apply formatReasoningDraft_shape.
Qed.

Lemma sends_emitFinalBlock p text s : sends p s (emitFinalBlock p text s).
Proof.
  unfold emitFinalBlock, emit.
  destruct (Js.truthy text) eqn:Ht; [|rewrite andb_false_r; apply appends_refl].
  destruct (onBlockReply p) eqn:Hcb; [|rewrite andb_false_r; apply appends_refl].
  destruct (_ && true && true); [|apply appends_refl].
  assert (sends p s
            (if negb (bool_decide (lastBlockReplyText s = Some text))
             then if isMessagingToolDuplicate text (messagingToolSentTexts s) then s
                  else set_outputs (outputs (set_lastBlockReplyText (Some text) s)
                                    ++ [FinalBlock text])
                         (set_lastBlockReplyText (Some text) s)
             else s)) as Hvia.
  { case_bool_decide as Hlast; simpl; [apply appends_refl|].
    destruct (isMessagingToolDuplicate _ _); [apply appends_refl|].
    eapply appends_one; [done|]. split; [done|]. by apply truthy_ne. }
  destruct (blockChunker s) as [c|]; [|exact Hvia].
  destruct (chunker_hasBuffered c); [|exact Hvia].
  eapply appends_trans; [apply sends_drainChunker|]. by apply appends_frame.
Qed.

Lemma sends_onMessageUpdate p evtType delta content s :
  sends p s (onMessageUpdate p evtType delta content s).
Proof.
  unfold onMessageUpdate.
  assert (forall chunk st, sends p st (appendChunk chunk st)) as H1.
  { intros chunk st. unfold appendChunk. split_cases; by apply appends_frame. }
  assert (forall st, sends p st (streamThinking p st)) as H2.
  { intros st. unfold streamThinking, when.
    destruct (streamReasoning p); [apply sends_emitReasoningStream|apply appends_refl]. }
  assert (forall st, sends p st (streamAssistant p st)) as H3.
  { intros st. unfold streamAssistant, emit.
    destruct (Js.truthy (cleanedNext p (deltaBuffer st))) eqn:Ht; simpl;
      [|apply appends_refl].
    case_bool_decide; simpl; [apply appends_refl|].
    eapply appends_one; [done|].
    split; [by apply truthy_ne|apply cleanedNext_trimmed]. }
  assert (forall st, sends p st (drainOnUpdate p st)) as H4.
  { intros st. unfold drainOnUpdate. split_cases;
      first [apply sends_drainChunker | apply appends_refl]. }
  assert (forall st, sends p st (flushOnTextEnd p evtType st)) as H5.
  { intros st. unfold flushOnTextEnd. split_cases;
      first [apply sends_flushBlock | apply appends_refl]. }
  destruct evtType; [| | |apply appends_refl];
    (eapply appends_trans; [|apply H5]);
    (eapply appends_trans; [|apply H4]);
    (eapply appends_trans; [|apply H3]);
    (eapply appends_trans; [|apply H2]); apply H1.
Qed.

Lemma sends_onMessageEnd p rawText thinking s :
  sends p s (onMessageEnd p rawText thinking s).
Proof.
  unfold onMessageEnd. cbv zeta.
  assert (forall x st, sends p st (pushFinalText x st)) as H1.
  { intros x st. unfold pushFinalText. split_cases; by apply appends_frame. }
  assert (forall b x st,
            (b = true -> includeReasoning p = true /\ onBlockReply p = true /\
                         Js.truthy (formatReasoningMarkdown x) = true) ->
            sends p st (when b (emitReasoningBlock (formatReasoningMarkdown x)) st)) as H2.
  { intros b x st Hb. unfold when. destruct b; [|apply appends_refl].
    destruct (Hb eq_refl) as (Hinc & Hcb & Ht).
    eapply appends_one; [done|].
    unfold includeReasoning in Hinc.
    destruct (reasoningMode p) eqn:Hmode; try done.
    split; [done|]. split; [done|]. by apply formatReasoningMarkdown_shape. }
  assert (forall b x st, sends p st (when b (emitReasoningStream p x) st)) as H3.
  { intros b x st. unfold when.
    destruct b; [apply sends_emitReasoningStream|apply appends_refl]. }
  assert (forall st, sends p st (resetAtMessageEnd st)) as H4.
  { intros st. by apply appends_frame. }
  set (rawThinking := if includeReasoning p || streamReasoning p
                      then if Js.truthy thinking then thinking
                           else extractThinkingFromText rawText
                      else "").
  assert ((if Js.truthy rawThinking then formatReasoningMarkdown rawThinking else "")
          = formatReasoningMarkdown rawThinking) as ->.
  { destruct (Js.truthy rawThinking) eqn:Hr; [done|].
    apply truthy_false in Hr as ->. done. }
  (eapply appends_trans; [|apply H4]).
  (eapply appends_trans; [|apply H3]).
  (eapply appends_trans; [|apply H2]).
  (eapply appends_trans; [|apply sends_emitFinalBlock]).
  (eapply appends_trans; [|apply H2]).
  - apply H1.
  - intros Hb. repeat (apply andb_true_iff in Hb as [Hb ?]). auto.
  - intros Hb. repeat (apply andb_true_iff in Hb as [Hb ?]). auto.
Qed.

Lemma sends_handle p s evt : sends p s (handle p s evt).
Proof.
  destruct evt as [[]|toolName toolCallId meta args target answer| |toolName toolCallId isError
                  |[]|[]| | |[]| |]; simpl; try apply appends_refl.
  - by apply appends_frame.
  - unfold onToolExecutionStart.
    assert (forall st, sends p st (trackMessagingSend toolName toolCallId args target st))
      as Htrack.
    { intros st. unfold trackMessagingSend. split_cases; by apply appends_frame. }
    eapply appends_trans; [|apply Htrack].
    unfold when. destruct (_ && _); [|by apply appends_frame].
    eapply appends_trans; [|apply sends_emitToolSummary]. by apply appends_frame.
  - unfold onToolExecutionEnd. split_cases; by apply appends_frame.
  - apply sends_onMessageUpdate.
  - apply sends_onMessageEnd.
  - unfold onAutoCompactionStart, ensureCompactionPromise.
    split_cases; by apply appends_frame.
  - unfold onAutoCompactionEnd, noteCompactionRetry, ensureCompactionPromise.
    split_cases; by apply appends_frame.
  - unfold onAutoCompactionEnd, maybeResolveCompactionWait, resolveGate.
    split_cases; by apply appends_frame.
  - unfold onAgentEnd.
    assert (forall st, sends p st (settleCompaction st)) as Hsettle.
    { intros st.
      unfold settleCompaction, resolveCompactionRetry, maybeResolveCompactionWait,
        resolveGate.
      split_cases; by apply appends_frame. }
    eapply appends_trans; [|apply Hsettle].
    eapply (appends_trans _ _ (when (onBlockReply p) flushBlock s));
      [|by apply appends_frame].
    unfold when. destruct (onBlockReply p); [apply sends_flushBlock|apply appends_refl].
Qed.

Lemma sends_run p s evts : sends p s (run p s evts).
Proof.
  revert s. induction evts as [|evt evts IH]; intros s; [apply appends_refl|].
  simpl. eapply appends_trans; [apply sends_handle|apply IH].
Qed.

End OutputFacts.

Lemma payload_nonempty {C : Type} {E : Collaborators C} (t : string)
    (call : string * list string) :
  payload t = Some call -> call.1 <> EmptyString \/ call.2 <> [].
Proof.
  unfold payload. destruct (splitMediaFromOutput t) as [cleanedText mediaUrls].
  destruct (Js.truthy cleanedText) eqn:Ht; simpl.
  - intros [= <-]. left. by apply truthy_ne.
  - case_bool_decide as Hm; [done|]. intros [= <-]. by right.
Qed.

(** X11: over any sequence of events from any state the output record is
    only appended to, and every entry appended is well formed: a tool
    summary, reasoning draft, final block or reasoning block is only made
    when its callback was supplied (and the reasoning mode asks for it), a
    tool summary has a text or media, a reasoning text is the heading
    followed by a non-empty trimmed body, the cleaned cumulative text that
    becomes a partial reply is non-empty and trimmed, an accepted block
    chunk is non-empty and has no trailing whitespace, an accepted final
    block is non-empty.  Of the calls made from these entries: every call
    of [onBlockReply] has a text or media; every call of [onPartialReply]
    is made only when that callback was supplied and passes what
    [splitMediaFromOutput] returns for a non-empty trimmed cumulative text,
    with no test of its own, so the text passed may be empty. *)
Theorem X11_outputs_well_formed {C : Type} {E : Collaborators C}
    (p : Params) (s : State C) (evts : list Event) :
  exists new,
    outputs (run p s evts) = outputs s ++ new /\
    Forall (wellFormedOutput p) new /\
    Forall (fun call => call.1 <> EmptyString \/ call.2 <> [])
      (blockReplyCalls p new) /\
    (forall call, call ∈ partialReplyCalls p new ->
       onPartialReply p = true /\
       exists next, AssistantStream next ∈ new /\ next <> EmptyString /\
                    Js.trim next = next /\ call = splitMediaFromOutput next).
Proof.
  destruct (sends_run p s evts) as (new & Ho & Hwf).
  exists new. split; [exact Ho|]. split; [exact Hwf|].
  rewrite Forall_forall in Hwf. split.
  - apply Forall_forall. intros call Hin. unfold blockReplyCalls in Hin.
    destruct (onBlockReply p); [|by apply elem_of_nil in Hin].
    apply list_elem_of_omap in Hin as (o & Ho' & Hcall).
    specialize (Hwf o Ho').
    destruct o as [| | |t|t|t]; try discriminate.
    + by apply (payload_nonempty t).
    + by apply (payload_nonempty t).
    + injection Hcall as <-. left. simpl.
      destruct Hwf as (_ & _ & body & _ & _ & ->). done.
  - intros call Hin. unfold partialReplyCalls in Hin.
    destruct (onPartialReply p); [|by apply elem_of_nil in Hin].
    split; [done|].
    apply list_elem_of_omap in Hin as (o & Ho' & Hcall).
    specialize (Hwf o Ho').
    destruct o as [| |next| | |]; try discriminate.
    injection Hcall as <-. exists next. destruct Hwf as [Hne Htrim]. done.
Qed.

(** ** The accumulated assistant texts *)

Definition chunkText (o : Output) : option string :=
  match o with BlockChunk t => Some t | _ => None end.

Section TextFacts.

Context {C : Type} {E : Collaborators C}.

Implicit Types (s : State C) (p : Params).

(** From [s] to [s'] [assistantTexts] grows by non-empty texts, among them
    the texts of the block chunks sent meanwhile, in order; and the
    baseline stays within [assistantTexts]. *)
Definition records s s' : Prop :=
  (exists more new,
     assistantTexts s' = assistantTexts s ++ more /\
     outputs s' = outputs s ++ new /\
     Forall (fun t => t <> EmptyString) more /\
     omap chunkText new `sublist_of` more) /\
  ((assistantTextBaseline s <= length (assistantTexts s))%nat ->
   (assistantTextBaseline s' <= length (assistantTexts s'))%nat).

Lemma records_refl s : records s s.
Proof.
  split; [|done]. exists [], []. rewrite !app_nil_r. by repeat split.
Qed.

Lemma records_trans s1 s2 s3 : records s1 s2 -> records s2 s3 -> records s1 s3.
Proof.
  intros [(m1 & n1 & Ht1 & Ho1 & Hf1 & Hs1) Hb1] [(m2 & n2 & Ht2 & Ho2 & Hf2 & Hs2) Hb2].
  split; [|auto]. exists (m1 ++ m2), (n1 ++ n2).
  rewrite Ht2, Ht1, Ho2, Ho1, !app_assoc, omap_app.
  split; [done|]. split; [done|]. split; [by apply Forall_app|].
  by apply sublist_app.
Qed.

Lemma records_frame s s' :
  assistantTexts s' = assistantTexts s -> outputs s' = outputs s ->
  assistantTextBaseline s' = assistantTextBaseline s -> records s s'.
Proof.
  intros Ht Ho Hb. split; [|by rewrite Hb, Ht].
  exists [], []. rewrite !app_nil_r. by repeat split.
Qed.

Lemma records_silent s s' o :
  assistantTexts s' = assistantTexts s -> outputs s' = outputs s ++ [o] ->
  chunkText o = None ->
  assistantTextBaseline s' = assistantTextBaseline s -> records s s'.
Proof.
  intros Ht Ho Hc Hb. split; [|by rewrite Hb, Ht].
  exists [], [o]. rewrite !app_nil_r. simpl. rewrite Hc. by repeat split.
Qed.

Lemma records_emitBlockChunk text s : records s (emitBlockChunk text s).
Proof.
  unfold emitBlockChunk, emit.
  destruct (stripBlockThinkingSegments _ _) as [stripped active].
  destruct (Js.truthy (Js.trimEnd stripped)) eqn:Ht; simpl; [|by apply records_frame].
  case_bool_decide as Hlast; [by apply records_frame|].
  destruct (isMessagingToolDuplicate _ _); [by apply records_frame|].
  split; simpl.
  - exists [Js.trimEnd stripped], [BlockChunk (Js.trimEnd stripped)].
    split; [done|]. split; [done|]. split; [|done].
    constructor; [by apply truthy_ne|done].
  - rewrite length_app. simpl. lia.
Qed.

Lemma records_drainChunker force c s : records s (drainChunker force c s).
Proof.
  apply (drainChunker_ind (fun st => records s st)).
  - intros text st Hst. eapply records_trans; [exact Hst|].
    apply records_emitBlockChunk.
  - by apply records_frame.
Qed.

Lemma records_flushBlock s : records s (flushBlock s).
Proof.
  unfold flushBlock.
  assert (forall st, records s st -> records s (resetChunker st)) as Hreset.
  { intros st Hst. eapply records_trans; [exact Hst|]. by apply records_frame. }
  assert (records s (set_blockBuffer "" (emitBlockChunk (blockBuffer s) s))) as Hbuf.
  { eapply records_trans; [apply records_emitBlockChunk|]. by apply records_frame. }
  destruct (blockChunker s) as [c|].
  - destruct (chunker_hasBuffered c); [apply Hreset, records_drainChunker|].
    destruct (0 <? _)%nat; [exact Hbuf|apply records_refl].
  - destruct (0 <? _)%nat; [exact Hbuf|apply records_refl].
Qed.

Lemma records_emitFinalBlock p text s : records s (emitFinalBlock p text s).
Proof.
  unfold emitFinalBlock, emit.
  destruct (_ && onBlockReply p); [|apply records_refl].
  assert (records s
            (if negb (bool_decide (lastBlockReplyText s = Some text))
             then if isMessagingToolDuplicate text (messagingToolSentTexts s) then s
                  else set_outputs (outputs (set_lastBlockReplyText (Some text) s)
                                    ++ [FinalBlock text])
                         (set_lastBlockReplyText (Some text) s)
             else s)) as Hvia.
  { case_bool_decide as Hlast; simpl; [apply records_refl|].
    destruct (isMessagingToolDuplicate _ _); [apply records_refl|].
    by eapply records_silent. }
  destruct (blockChunker s) as [c|]; [|exact Hvia].
  destruct (chunker_hasBuffered c); [|exact Hvia].
  eapply records_trans; [apply records_drainChunker|]. by apply records_frame.
Qed.

Lemma records_pushFinalText text s : records s (pushFinalText text s).
Proof.
  unfold pushFinalText. cbv zeta.
  assert (Js.truthy text = true ->
          records s (set_assistantTextBaseline (length (assistantTexts s ++ [text]))
                       (set_assistantTexts (assistantTexts s ++ [text]) s))) as Hpush.
  { intros Ht. split; simpl; [|lia].
    exists [text], []. rewrite app_nil_r.
    split; [done|]. split; [done|]. split; [|apply sublist_nil_l].
    constructor; [by apply truthy_ne|done]. }
  assert (records s (set_assistantTextBaseline (length (assistantTexts s)) s)) as Hkeep.
  { split; simpl; [|lia]. exists [], []. rewrite !app_nil_r. by repeat split. }
  destruct (Js.truthy text) eqn:Ht; [|by rewrite andb_false_r].
  destruct (negb _ && negb _ && true); [|exact Hkeep].
  destruct (last (assistantTexts s)) as [l|]; [|by apply Hpush].
  destruct (negb (Js.truthy l) || negb (String.eqb l text)); [by apply Hpush|exact Hkeep].
Qed.

Lemma records_onMessageUpdate p evtType delta content s :
  records s (onMessageUpdate p evtType delta content s).
Proof.
  unfold onMessageUpdate.
  assert (forall chunk st, records st (appendChunk chunk st)) as H1.
  { intros chunk st. unfold appendChunk. split_cases; by apply records_frame. }
  assert (forall st, records st (streamThinking p st)) as H2.
  { intros st. unfold streamThinking, when, emitReasoningStream, emit.
    split_cases; first [by apply records_frame | by eapply records_silent]. }
  assert (forall st, records st (streamAssistant p st)) as H3.
  { intros st. unfold streamAssistant, emit. split_cases;
      first [by apply records_frame | by eapply records_silent]. }
  assert (forall st, records st (drainOnUpdate p st)) as H4.
  { intros st. unfold drainOnUpdate. split_cases;
      first [apply records_drainChunker | apply records_refl]. }
  assert (forall st, records st (flushOnTextEnd p evtType st)) as H5.
  { intros st. unfold flushOnTextEnd. split_cases;
      first [apply records_flushBlock | apply records_refl]. }
  destruct evtType; [| | |apply records_refl];
    (eapply records_trans; [|apply H5]);
    (eapply records_trans; [|apply H4]);
    (eapply records_trans; [|apply H3]);
    (eapply records_trans; [|apply H2]); apply H1.
Qed.

Lemma records_onMessageEnd p rawText thinking s :
  records s (onMessageEnd p rawText thinking s).
Proof.
  unfold onMessageEnd. cbv zeta.
  assert (forall b x st, records st (when b (emitReasoningBlock x) st)) as H2.
  { intros b x st. unfold when. destruct b; [|apply records_refl].
    by eapply records_silent. }
  assert (forall b x st, records st (when b (emitReasoningStream p x) st)) as H3.
  { intros b x st. unfold when, emitReasoningStream, emit.
    split_cases; first [by apply records_frame | by eapply records_silent]. }
  assert (forall st, records st (resetAtMessageEnd st)) as H4.
  { intros st. by apply records_frame. }
  (eapply records_trans; [|apply H4]).
  (eapply records_trans; [|apply H3]).
  (eapply records_trans; [|apply H2]).
  (eapply records_trans; [|apply records_emitFinalBlock]).
  (eapply records_trans; [|apply H2]).
  apply records_pushFinalText.
Qed.

Lemma records_handle p s evt :
  evt <> AutoCompactionEnd true -> records s (handle p s evt).
Proof.
  intros Hevt.
  destruct evt as [[]|toolName toolCallId meta args target answer| |toolName toolCallId isError
                  |[]|[]| | |[]| |]; simpl; try done; try apply records_refl.
  - split; simpl; [|lia]. exists [], []. rewrite !app_nil_r. by repeat split.
  - unfold onToolExecutionStart, when, emitToolSummary, trackMessagingSend, emit.
    split_cases; first [by apply records_frame | by eapply records_silent].
  - unfold onToolExecutionEnd. split_cases; by apply records_frame.
  - apply records_onMessageUpdate.
  - apply records_onMessageEnd.
  - unfold onAutoCompactionStart, ensureCompactionPromise.
    split_cases; by apply records_frame.
  - unfold onAutoCompactionEnd, maybeResolveCompactionWait, resolveGate.
    split_cases; by apply records_frame.
  - unfold onAgentEnd.
    assert (forall st, records st (settleCompaction st)) as Hsettle.
    { intros st.
      unfold settleCompaction, resolveCompactionRetry, maybeResolveCompactionWait,
        resolveGate.
      split_cases; by apply records_frame. }
    eapply records_trans; [|apply Hsettle].
    eapply (records_trans _ (when (onBlockReply p) flushBlock s));
      [|by apply records_frame].
    unfold when. destruct (onBlockReply p); [apply records_flushBlock|apply records_refl].
Qed.

Lemma records_run p s evts :
  Forall (fun evt => evt <> AutoCompactionEnd true) evts -> records s (run p s evts).
Proof.
  revert s. induction evts as [|evt evts IH]; intros s Hall; [apply records_refl|].
  apply Forall_cons in Hall as [Hevt Hall].
  simpl. eapply records_trans; [by apply records_handle|by apply IH].
Qed.

(** The invariant of [assistantTexts] and its baseline. *)
Definition textsInv s : Prop :=
  Forall (fun t => t <> EmptyString) (assistantTexts s) /\
  (assistantTextBaseline s <= length (assistantTexts s))%nat.

Lemma textsInv_records s s' : records s s' -> textsInv s -> textsInv s'.
Proof.
  intros [(more & new & Ht & _ & Hf & _) Hb] [Hall Hbase].
  split; [|by apply Hb]. rewrite Ht. by apply Forall_app.
Qed.

Lemma textsInv_handle p s evt : textsInv s -> textsInv (handle p s evt).
Proof.
  intros Hinv. destruct (decide (evt = AutoCompactionEnd true)) as [->|Hevt].
  - split; simpl; [done|lia].
  - eapply textsInv_records; [by apply records_handle|done].
Qed.

Lemma textsInv_run p s evts : textsInv s -> textsInv (run p s evts).
Proof.
  revert s. induction evts as [|evt evts IH]; intros s Hs; [done|].
  simpl. apply IH. by apply textsInv_handle.
Qed.

End TextFacts.

(** X12: in every state of a run, no entry of [assistantTexts] is empty and
    the baseline of the current message lies within [assistantTexts]. *)
Theorem X12_assistantTexts_invariant {C : Type} {E : Collaborators C}
    (p : Params) (chunker : option C) (evts : list Event) :
  let s := run p (initial chunker) evts in
  Forall (fun t => t <> EmptyString) (assistantTexts s) /\
  (assistantTextBaseline s <= length (assistantTexts s))%nat.
Proof.
  apply (textsInv_run p (initial chunker) evts). split; simpl; [done|lia].
Qed.

(** X13: as long as no compaction end asks for a retry, [assistantTexts] is
    only ever appended to, by non-empty texts, and the texts of the block
    chunks sent meanwhile are among the appended texts, in the order they
    were sent. *)
Theorem X13_assistantTexts_append_only {C : Type} {E : Collaborators C}
    (p : Params) (s : State C) (evts : list Event) :
  Forall (fun evt => evt <> AutoCompactionEnd true) evts ->
  exists more new,
    assistantTexts (run p s evts) = assistantTexts s ++ more /\
    outputs (run p s evts) = outputs s ++ new /\
    Forall (fun t => t <> EmptyString) more /\
    omap chunkText new `sublist_of` more.
Proof. intros Hall. exact (proj1 (records_run p s evts Hall)). Qed.

(** One assistant message streamed as a single block. *)
Definition plainReply : list Event :=
  [ MessageStart Assistant;
    MessageUpdate Assistant TextDelta "Hello" "";
    MessageUpdate Assistant TextEnd "" "Hello";
    MessageEnd Assistant "Hello" "" ].

Lemma X13_assistantTexts_append_only_witness :
  exists more new,
    assistantTexts (run defaultParams (initial (C := Empty_set) None) plainReply)
    = [] ++ more /\
    outputs (run defaultParams (initial (C := Empty_set) None) plainReply)
    = [] ++ new /\
    Forall (fun t => t <> EmptyString) more /\
    omap chunkText new `sublist_of` more.
Proof.
  apply (X13_assistantTexts_append_only defaultParams (initial (C := Empty_set) None)
           plainReply).
  repeat constructor; discriminate.
Defined.

(** ** Tool summaries *)

Section SummaryFacts.

Context {C : Type} {E : Collaborators C}.

Implicit Types (s : State C) (p : Params).

Lemma toolSummaryById_of_untouched s s' :
  untouchedByBlocks s' = untouchedByBlocks s -> toolSummaryById s' = toolSummaryById s.
Proof. unfold untouchedByBlocks. intros [= ]. congruence. Qed.

(** Only the tool events and a retrying compaction end touch the set of
    summarised tool calls. *)
Lemma toolSummaryById_handle p s evt :
  (forall n i m a t b, evt <> ToolExecutionStart n i m a t b) ->
  (forall n i e, evt <> ToolExecutionEnd n i e) ->
  evt <> AutoCompactionEnd true ->
  toolSummaryById (handle p s evt) = toolSummaryById s.
Proof.
  intros H1 H2 H3.
  destruct evt as [[]|toolName toolCallId meta args target answer| |toolName toolCallId isError
                  |[] evtType delta content|[] rawText thinking| | |[]| |];
    simpl; try done.
  - by destruct (H1 toolName toolCallId meta args target answer).
  - by destruct (H2 toolName toolCallId isError).
  - unfold onMessageUpdate. destruct evtType; try done;
      rewrite (toolSummaryById_of_untouched _ _ (untouched_flushOnTextEnd _ _ _)),
        (toolSummaryById_of_untouched _ _ (untouched_drainOnUpdate _ _));
      unfold streamAssistant, streamThinking, when, emitReasoningStream, appendChunk, emit;
      split_cases; done.
  - unfold onMessageEnd. cbv zeta.
    assert (forall b x (st : State C), toolSummaryById (when b (emitReasoningStream p x) st)
                           = toolSummaryById st) as Ha.
    { intros b x st. unfold when, emitReasoningStream, emit. split_cases; done. }
    assert (forall b x (st : State C), toolSummaryById (when b (emitReasoningBlock x) st)
                           = toolSummaryById st) as Hb.
    { intros b x st. unfold when, emitReasoningBlock, emit. split_cases; done. }
    assert (forall x (st : State C), toolSummaryById (pushFinalText x st) = toolSummaryById st) as Hc.
    { intros x st. unfold pushFinalText. split_cases; done. }
    change (toolSummaryById (resetAtMessageEnd ?st)) with (toolSummaryById st).
    rewrite Ha, Hb, (toolSummaryById_of_untouched _ _ (untouched_emitFinalBlock _ _ _)), Hb.
    apply Hc.
  - unfold onAutoCompactionStart, ensureCompactionPromise. split_cases; done.
  - unfold onAutoCompactionEnd, maybeResolveCompactionWait, resolveGate.
    split_cases; done.
  - unfold onAgentEnd.
    assert (forall st : State C, toolSummaryById (settleCompaction st) = toolSummaryById st) as Hs.
    { intros st.
      unfold settleCompaction, resolveCompactionRetry, maybeResolveCompactionWait,
        resolveGate. split_cases; done. }
    rewrite Hs. simpl. unfold when. destruct (onBlockReply p); [|done].
    apply toolSummaryById_of_untouched, untouched_flushBlock.
Qed.

Lemma toolSummaryById_start p toolName toolCallId meta args target answer s id :
  id ∈ toolSummaryById s ->
  id ∈ toolSummaryById
         (onToolExecutionStart p toolName toolCallId meta args target answer s).
Proof.
  intros Hin. unfold onToolExecutionStart, when, emitToolSummary, trackMessagingSend, emit.
  split_cases; set_solver.
Qed.

Lemma toolSummaryById_end toolName toolCallId isError s id :
  id <> toolCallId -> id ∈ toolSummaryById s ->
  id ∈ toolSummaryById (onToolExecutionEnd toolName toolCallId isError s).
Proof.
  intros Hne Hin. unfold onToolExecutionEnd. split_cases; set_solver.
Qed.

(** The events that make the reconciler forget that the call [id] was
    summarised. *)
Definition forgetsSummary (id : string) (evt : Event) : bool :=
  match evt with
  | ToolExecutionEnd _ i _ => String.eqb i id
  | AutoCompactionEnd true => true
  | _ => false
  end.

Lemma toolSummaryById_kept p s evts id :
  forallb (fun evt => negb (forgetsSummary id evt)) evts = true ->
  id ∈ toolSummaryById s -> id ∈ toolSummaryById (run p s evts).
Proof.
  revert s. induction evts as [|evt evts IH]; intros s Hall Hin; [done|].
  simpl in Hall. apply andb_true_iff in Hall as [Hevt Hall].
  simpl. apply IH; [done|].
  destruct evt as [| n i m a t ans | | n i e | | | | | b | |];
    try (rewrite toolSummaryById_handle; done).
  - by apply toolSummaryById_start.
  - simpl in *. apply toolSummaryById_end; [|done].
    intros ->. by rewrite String.eqb_refl in Hevt.
  - destruct b; [done|]. by rewrite toolSummaryById_handle.
Qed.

Lemma start_quiet_when_summarised p toolName toolCallId meta args target answer s :
  onToolResult p && shouldEmitToolResult p answer = false
  \/ toolCallId ∈ toolSummaryById s ->
  outputs (onToolExecutionStart p toolName toolCallId meta args target answer s)
  = outputs s.
Proof.
  intros Hq. unfold onToolExecutionStart.
  assert (forall st : State C, outputs (trackMessagingSend toolName toolCallId args target st)
                     = outputs st) as ->.
  { intros st. unfold trackMessagingSend. split_cases; done. }
  unfold when. simpl.
  destruct Hq as [-> | Hin]; [done|].
  rewrite bool_decide_eq_true_2 by done. by rewrite andb_false_r.
Qed.

Lemma start_summarises p toolName toolCallId meta args target answer s :
  onToolResult p && shouldEmitToolResult p answer = true ->
  toolCallId ∈ toolSummaryById
                 (onToolExecutionStart p toolName toolCallId meta args target answer s).
Proof.
  intros Hen. unfold onToolExecutionStart, when, emitToolSummary, trackMessagingSend, emit.
  simpl. rewrite Hen. split_cases; try set_solver.
  all: match goal with H : negb (bool_decide _) = false |- _ =>
         apply negb_false_iff, bool_decide_eq_true_1 in H end; done.
Qed.

(** A start at which no summary is due leaves the set of summarised calls
    as it is. *)
Lemma start_records_nothing p toolName toolCallId meta args target answer s :
  onToolResult p && shouldEmitToolResult p answer = false ->
  toolSummaryById (onToolExecutionStart p toolName toolCallId meta args target answer s)
  = toolSummaryById s.
Proof.
  intros Hen. unfold onToolExecutionStart, when, trackMessagingSend.
  simpl. rewrite Hen. split_cases; done.
Qed.

End SummaryFacts.

(** X14: a tool call is summarised at most once from its start to its end.
    A [tool_execution_start] is due a summary when [onToolResult] was
    supplied and [shouldEmitToolResult()], asked at that start, says yes.
    After a start that was due one, the call id is on record, and a later
    start for the same id sends nothing, whatever [shouldEmitToolResult()]
    answers then and whatever happens in between, unless the call ended or
    a compaction asked for a retry.  A start that was not due a summary
    sends nothing and records nothing, so it does not stop a later start
    from sending the summary.  Without a [shouldEmitToolResult] callback the
    answer is the verbose level, the same at every start, and a later start
    for the same id never sends anything. *)
Theorem X14_tool_summary_once {C : Type} {E : Collaborators C} (p : Params)
    (s : State C) (toolCallId : string) (evts : list Event)
    (toolName toolName' : string) (meta meta' : option string)
    (args args' : option ToolArgs) (target target' : option MessagingToolSend)
    (answer answer' : bool) :
  forallb (fun evt => negb (forgetsSummary toolCallId evt)) evts = true ->
  let due := onToolResult p && shouldEmitToolResult p answer in
  let s1 := handle p s (ToolExecutionStart toolName toolCallId meta args target answer) in
  let s2 := run p s1 evts in
  let again := ToolExecutionStart toolName' toolCallId meta' args' target' answer' in
  (due = true ->
     toolCallId ∈ toolSummaryById s2 /\ outputs (handle p s2 again) = outputs s2) /\
  (due = false ->
     outputs s1 = outputs s /\ toolSummaryById s1 = toolSummaryById s) /\
  (shouldEmitToolResultFn p = false -> outputs (handle p s2 again) = outputs s2).
Proof.
  intros Hall due s1 s2 again.
  assert (due = true -> toolCallId ∈ toolSummaryById s2) as Hrec.
  { intros Hen. subst s2. apply toolSummaryById_kept; [done|].
    subst s1. simpl. by apply start_summarises. }
  split; [|split].
  - intros Hen. split; [by apply Hrec|].
    subst again. simpl. apply start_quiet_when_summarised. right. by apply Hrec.
  - intros Hen. subst s1. simpl.
    split; [apply start_quiet_when_summarised; by left
           |by apply start_records_nothing].
  - intros Hfn. subst again. simpl. apply start_quiet_when_summarised.
    assert (shouldEmitToolResult p answer' = shouldEmitToolResult p answer) as Heq
      by (unfold shouldEmitToolResult; by rewrite Hfn).
    rewrite Heq. fold due. destruct due; [right; by apply Hrec|by left].
Qed.

Lemma X14_tool_summary_once_witness :
  let p := {| verboseLevelOn := false; reasoningMode := ReasoningOff;
              shouldEmitToolResultFn := true; onToolResult := true;
              onReasoningStream := false; onBlockReply := true;
              blockReplyBreak := BreakTextEnd; onPartialReply := true;
              enforceFinalTag := false |} in
  let s1 := handle p (initial (C := Empty_set) None)
              (ToolExecutionStart "bash" "call-1" (Some "ls") None None true) in
  let s2 := run p s1 [ToolExecutionUpdate "bash" "call-1"] in
  outputs s1 = [ToolResult "bash ls" []] /\
  outputs (handle p s2 (ToolExecutionStart "bash" "call-1" (Some "ls") None None true))
  = outputs s2.
Proof.
  intros p s1 s2. split; [vm_compute; reflexivity|].
  destruct (X14_tool_summary_once p (initial (C := Empty_set) None) "call-1"
              [ToolExecutionUpdate "bash" "call-1"]
              "bash" "bash" (Some "ls") (Some "ls") None None None None true true
              eq_refl) as (Hdue & _).
  exact (proj2 (Hdue eq_refl)).
Defined.

(** A callback that says no at the first start and yes at the second: the
    first start sends nothing, the second sends the summary; with the
    answers the other way round only the first sends it. *)
Example summary_follows_the_answer :
  let p := {| verboseLevelOn := false; reasoningMode := ReasoningOff;
              shouldEmitToolResultFn := true; onToolResult := true;
              onReasoningStream := false; onBlockReply := true;
              blockReplyBreak := BreakTextEnd; onPartialReply := true;
              enforceFinalTag := false |} in
  let start answer := ToolExecutionStart "bash" "call-1" (Some "ls") None None answer in
  let s0 := initial (C := Empty_set) None in
  outputs (run p s0 [start false]) = [] /\
  outputs (run p s0 [start false; start true]) = [ToolResult "bash ls" []] /\
  outputs (run p s0 [start true; start false; start true]) = [ToolResult "bash ls" []].
Proof. cbv zeta. repeat split; vm_compute; reflexivity. Qed.

(** ** The compaction gate opens *)

Definition isCompactionEvent (evt : Event) : bool :=
  match evt with
  | AutoCompactionStart | AutoCompactionEnd _ => true
  | _ => false
  end.

Definition isAgentEnd (evt : Event) : bool :=
  match evt with AgentEnd => true | _ => false end.

Section GateProgress.

Context {C : Type} {E : Collaborators C}.

Implicit Types (s : State C) (p : Params).

Lemma gate_run p s evts :
  forallb (fun evt => negb (isCompactionEvent evt) && negb (isAgentEnd evt)) evts = true ->
  gate (run p s evts) = gate s.
Proof.
  revert s. induction evts as [|evt evts IH]; intros s Hall; [done|].
  simpl in Hall. apply andb_true_iff in Hall as [Hevt Hall].
  simpl. rewrite IH by done. apply gate_handle; by destruct evt.
Qed.

Lemma gate_settle_congr s s' :
  gate s' = gate s -> gate (settleCompaction s') = gate (settleCompaction s).
Proof.
  unfold gate, settleCompaction, resolveCompactionRetry, maybeResolveCompactionWait,
    resolveGate.
  intros Hg. injection Hg as H1 H2 H3 H4 H5. rewrite H1, H2, H3.
  split_cases; congruence.
Qed.

Lemma gate_onAgentEnd p s :
  gate (onAgentEnd p s) = gate (settleCompaction s).
Proof.
  unfold onAgentEnd. apply gate_settle_congr.
  change (gate (when (onBlockReply p) flushBlock s) = gate s).
  unfold when. destruct (onBlockReply p); [|done].
  apply gate_of_untouched, untouched_flushBlock.
Qed.

(** The gate is open: nothing pending, no compaction in flight, no
    promise left, and [pr] resolved if it was the pending promise. *)
Definition gateOpen (pr : option nat) s : Prop :=
  isCompacting s = false /\ compactionRetryPromise s = None /\
  (forall x, pr = Some x -> x ∈ promisesResolved s).

Lemma gate_progress p evts s :
  compactionInFlight s = false ->
  0 < pendingCompactionRetry s ->
  forallb (fun evt => negb (isCompactionEvent evt)) evts = true ->
  Z.of_nat (length (List.filter isAgentEnd evts)) = pendingCompactionRetry s ->
  gateOpen (compactionRetryPromise s) (run p s evts).
Proof.
  revert s. induction evts as [|evt evts IH]; intros s Hfl Hpos Hall Hcount.
  { simpl in Hcount. lia. }
  simpl in Hall. apply andb_true_iff in Hall as [Hevt Hall]. simpl.
  destruct (isAgentEnd evt) eqn:Hend.
  - destruct evt; try discriminate. simpl in Hcount.
    pose proof (gate_onAgentEnd p s) as Hg. simpl.
    unfold settleCompaction, resolveCompactionRetry in Hg.
    rewrite (proj2 (Z.ltb_lt _ _) Hpos), (proj2 (Z.leb_gt _ _) Hpos) in Hg.
    simpl in Hg. rewrite Hfl in Hg. simpl in Hg.
    destruct (pendingCompactionRetry s - 1 =? 0) eqn:Hz.
    + apply Z.eqb_eq in Hz.
      assert (forallb (fun evt => negb (isCompactionEvent evt) && negb (isAgentEnd evt))
                evts = true) as Hrest.
      { apply forallb_forall. intros e He. rewrite forallb_forall in Hall.
        rewrite (Hall e He). simpl.
        destruct (isAgentEnd e) eqn:Hee; [|done]. exfalso.
        assert (In e (List.filter isAgentEnd evts)) as Hin by by apply filter_In.
        destruct (List.filter isAgentEnd evts); [done|]. simpl in Hcount. lia. }
      pose proof (gate_run p (onAgentEnd p s) evts Hrest) as Hrun.
      rewrite Hg in Hrun. unfold gateOpen, isCompacting.
      unfold gate in Hrun. unfold resolveGate in Hrun. simpl in Hrun.
      destruct (compactionRetryPromise s) as [pr|] eqn:Hp; simpl in Hrun;
        injection Hrun as -> -> -> _ ->; rewrite Hz; simpl.
      * rewrite Hfl. split; [done|]. split; [done|]. intros x [= <-]. set_solver.
      * rewrite Hfl, Hp. split; [done|]. split; [done|]. done.
    + apply Z.eqb_neq in Hz. simpl in Hg. unfold gate in Hg.
      injection Hg as H1 H2 H3 H4 H5.
      rewrite <- H3. apply IH; [by rewrite H1| rewrite H2; lia | done | rewrite H2; lia].
  - simpl in Hcount. rewrite Hend in Hcount.
    assert (gate (handle p s evt) = gate s) as Hg.
    { apply gate_handle; by destruct evt. }
    unfold gate in Hg. injection Hg as H1 H2 H3 H4 H5.
    rewrite <- H3. apply IH; [by rewrite H1 | by rewrite H2 | done | by rewrite H2].
Qed.

End GateProgress.

(** X15: the gate opens.  With no compaction in flight and [n > 0] retries
    pending, any sequence of events without compaction events that contains
    exactly [n] [agent_end] events leaves the reconciler not compacting,
    with the pending gate promise resolved and dropped. *)
Theorem X15_compaction_gate_opens {C : Type} {E : Collaborators C} (p : Params)
    (s : State C) (evts : list Event) :
  compactionInFlight s = false ->
  0 < pendingCompactionRetry s ->
  forallb (fun evt => negb (isCompactionEvent evt)) evts = true ->
  Z.of_nat (length (List.filter isAgentEnd evts)) = pendingCompactionRetry s ->
  let s' := run p s evts in
  isCompacting s' = false /\
  compactionRetryPromise s' = None /\
  (forall pr, compactionRetryPromise s = Some pr -> pr ∈ promisesResolved s').
Proof. intros H1 H2 H3 H4. exact (gate_progress p evts s H1 H2 H3 H4). Qed.

Lemma X15_compaction_gate_opens_witness :
  let s := run defaultParams (initial (C := Empty_set) None)
             [AutoCompactionStart; AutoCompactionEnd true] in
  let s' := run defaultParams s [MessageStart Assistant; AgentEnd] in
  compactionRetryPromise s = Some 0%nat /\
  isCompacting s = true /\
  isCompacting s' = false /\
  0%nat ∈ promisesResolved s'.
Proof.
  intros s s'.
  destruct (X15_compaction_gate_opens defaultParams s [MessageStart Assistant; AgentEnd])
    as (Hc & _ & Hr); try reflexivity.
  split; [reflexivity|]. split; [reflexivity|]. split; [exact Hc|].
  by apply Hr.
Defined.

(** ** Tool-call bookkeeping *)

Section BookkeepingFacts.

Context {C : Type} {E : Collaborators C}.

Implicit Types (s : State C) (p : Params).

(** What the reconciler keeps per tool call, and the committed sends. *)
Definition tracking s :=
  (toolMetaById s, toolSummaryById s, messagingToolSentTexts s,
   messagingToolSentTargets s, pendingMessagingTexts s, pendingMessagingTargets s).

Lemma tracking_of_untouched s s' :
  untouchedByBlocks s' = untouchedByBlocks s -> tracking s' = tracking s.
Proof. unfold untouchedByBlocks, tracking. intros [= ]. congruence. Qed.

(** Only the tool events and a retrying compaction end touch it. *)
Lemma tracking_handle p s evt :
  (forall n i m a t b, evt <> ToolExecutionStart n i m a t b) ->
  (forall n i e, evt <> ToolExecutionEnd n i e) ->
  evt <> AutoCompactionEnd true ->
  tracking (handle p s evt) = tracking s.
Proof.
  intros H1 H2 H3.
  destruct evt as [[]|toolName toolCallId meta args target answer| |toolName toolCallId isError
                  |[] evtType delta content|[] rawText thinking| | |[]| |];
    simpl; try done.
  - by destruct (H1 toolName toolCallId meta args target answer).
  - by destruct (H2 toolName toolCallId isError).
  - unfold onMessageUpdate. destruct evtType; try done;
      rewrite (tracking_of_untouched _ _ (untouched_flushOnTextEnd _ _ _)),
        (tracking_of_untouched _ _ (untouched_drainOnUpdate _ _));
      unfold streamAssistant, streamThinking, when, emitReasoningStream, appendChunk, emit;
      split_cases; done.
  - unfold onMessageEnd. cbv zeta.
    assert (forall b x (st : State C), tracking (when b (emitReasoningStream p x) st)
                           = tracking st) as Ha.
    { intros b x st. unfold when, emitReasoningStream, emit. split_cases; done. }
    assert (forall b x (st : State C), tracking (when b (emitReasoningBlock x) st)
                           = tracking st) as Hb.
    { intros b x st. unfold when, emitReasoningBlock, emit. split_cases; done. }
    assert (forall x (st : State C), tracking (pushFinalText x st) = tracking st) as Hc.
    { intros x st. unfold pushFinalText. split_cases; done. }
    change (tracking (resetAtMessageEnd ?st)) with (tracking st).
    rewrite Ha, Hb, (tracking_of_untouched _ _ (untouched_emitFinalBlock _ _ _)), Hb.
    apply Hc.
  - unfold onAutoCompactionStart, ensureCompactionPromise. split_cases; done.
  - unfold onAutoCompactionEnd, maybeResolveCompactionWait, resolveGate.
    split_cases; done.
  - unfold onAgentEnd.
    assert (forall st : State C, tracking (settleCompaction st) = tracking st) as Hs.
    { intros st.
      unfold settleCompaction, resolveCompactionRetry, maybeResolveCompactionWait,
        resolveGate. split_cases; done. }
    rewrite Hs. simpl. unfold when. destruct (onBlockReply p); [|done].
    apply tracking_of_untouched, untouched_flushBlock.
Qed.

(** Everything kept per tool call belongs to a call that has started and
    not ended, and no recorded text is empty. *)
Definition bookInv s : Prop :=
  toolSummaryById s ⊆ dom (toolMetaById s) /\
  dom (pendingMessagingTexts s) ⊆ dom (toolMetaById s) /\
  dom (pendingMessagingTargets s) ⊆ dom (toolMetaById s) /\
  map_Forall (fun _ text => text <> EmptyString) (pendingMessagingTexts s) /\
  Forall (fun text => text <> EmptyString) (messagingToolSentTexts s).

Lemma bookInv_tracking s s' : tracking s' = tracking s -> bookInv s -> bookInv s'.
Proof. unfold tracking, bookInv. intros [= -> -> -> _ -> ->]. done. Qed.

(** What [tool_execution_start] and [tool_execution_end] assign. *)
Lemma start_tracking p toolName toolCallId meta args target answer s :
  let s' := onToolExecutionStart p toolName toolCallId meta args target answer s in
  toolMetaById s' = <[toolCallId := meta]> (toolMetaById s) /\
  toolSummaryById s' ⊆ {[toolCallId]} ∪ toolSummaryById s /\
  (pendingMessagingTexts s' = pendingMessagingTexts s \/
   exists text, text <> EmptyString /\
     pendingMessagingTexts s' = <[toolCallId := text]> (pendingMessagingTexts s)) /\
  (pendingMessagingTargets s' = pendingMessagingTargets s \/
   exists tg, pendingMessagingTargets s' = <[toolCallId := tg]> (pendingMessagingTargets s)) /\
  messagingToolSentTexts s' = messagingToolSentTexts s.
Proof.
  unfold onToolExecutionStart, when, emitToolSummary, trackMessagingSend, emit.
  split_cases; (split; [done|]); (split; [set_solver|]);
    (split; [first [by left | right; eexists; split; [|reflexivity]; by intros ->]|]);
    (split; [|done]); first [by left | right; by eexists].
Qed.

Lemma end_tracking toolName toolCallId isError s :
  map_Forall (fun _ text => text <> EmptyString) (pendingMessagingTexts s) ->
  let s' := onToolExecutionEnd toolName toolCallId isError s in
  toolMetaById s' = delete toolCallId (toolMetaById s) /\
  toolSummaryById s' = toolSummaryById s ∖ {[toolCallId]} /\
  pendingMessagingTexts s' = delete toolCallId (pendingMessagingTexts s) /\
  pendingMessagingTargets s' = delete toolCallId (pendingMessagingTargets s) /\
  messagingToolSentTexts s'
  = messagingToolSentTexts s
    ++ (if isError then [] else option_list (pendingMessagingTexts s !! toolCallId)).
Proof.
  intros Hne. unfold onToolExecutionEnd. cbv zeta. simpl.
  destruct (pendingMessagingTexts s !! toolCallId) as [text|] eqn:Ht.
  - assert (Js.truthy text = true) as ->.
    { specialize (Hne _ _ Ht). by destruct text. }
    destruct (pendingMessagingTargets s !! toolCallId) as [tg|] eqn:Hg;
      destruct isError; simpl; rewrite ?app_nil_r; repeat split; try done;
      symmetry; by apply delete_id.
  - destruct (pendingMessagingTargets s !! toolCallId) as [tg|] eqn:Hg;
      destruct isError; simpl; rewrite ?app_nil_r; repeat split; try done;
      symmetry; by apply delete_id.
Qed.

Lemma bookInv_start p toolName toolCallId meta args target answer s :
  bookInv s ->
  bookInv (onToolExecutionStart p toolName toolCallId meta args target answer s).
Proof.
  intros (H1 & H2 & H3 & H4 & H5).
  destruct (start_tracking p toolName toolCallId meta args target answer s)
    as (K1 & K2 & K3 & K4 & K5).
  unfold bookInv. rewrite K1, K5, dom_insert_L.
  split; [etrans; [exact K2|by apply union_mono_l]|].
  split; [|split; [|split; [|done]]].
  - destruct K3 as [-> | (text & _ & ->)]; rewrite ?dom_insert_L;
      [etrans; [exact H2|apply union_subseteq_r] | by apply union_mono_l].
  - destruct K4 as [-> | (tg & ->)]; rewrite ?dom_insert_L;
      [etrans; [exact H3|apply union_subseteq_r] | by apply union_mono_l].
  - destruct K3 as [-> | (text & Hne & ->)]; [done|]. by apply map_Forall_insert_2.
Qed.

Lemma bookInv_end toolName toolCallId isError s :
  bookInv s -> bookInv (onToolExecutionEnd toolName toolCallId isError s).
Proof.
  intros (H1 & H2 & H3 & H4 & H5).
  destruct (end_tracking toolName toolCallId isError s H4) as (K1 & K2 & K3 & K4 & K5).
  unfold bookInv. rewrite K1, K2, K3, K4, K5, !dom_delete_L.
  split; [by apply difference_mono_r|]. split; [by apply difference_mono_r|].
  split; [by apply difference_mono_r|].
  split; [by apply map_Forall_delete|].
  apply Forall_app. split; [done|]. destruct isError; [done|].
  destruct (pendingMessagingTexts s !! toolCallId) as [text|] eqn:Ht; [|done].
  apply Forall_singleton. exact (H4 _ _ Ht).
Qed.

Lemma bookInv_handle p s evt : bookInv s -> bookInv (handle p s evt).
Proof.
  intros Hinv.
  destruct evt as [r|toolName toolCallId meta args target answer| |toolName toolCallId isError
                  |r evtType delta content|r rawText thinking| | |b| |] eqn:Hevt;
    try (rewrite <- Hevt; apply (bookInv_tracking s); [|done];
         apply tracking_handle; subst evt; try done; by destruct b).
  - by apply bookInv_start.
  - by apply bookInv_end.
  - destruct b; [|apply (bookInv_tracking s); [|done]; by apply tracking_handle].
    simpl. unfold onAutoCompactionEnd, bookInv. simpl.
    rewrite !dom_empty_L. repeat split; done.
Qed.

Lemma bookInv_run p s evts : bookInv s -> bookInv (run p s evts).
Proof.
  revert s. induction evts as [|evt evts IH]; intros s Hs; [done|].
  simpl. apply IH. by apply bookInv_handle.
Qed.

Lemma bookInv_initial (chunker : option C) : bookInv (initial chunker).
Proof.
  unfold bookInv. simpl. rewrite !dom_empty_L. repeat split; done.
Qed.

End BookkeepingFacts.

(** X16: in every state of a run, the summarised call ids and the pending
    messaging texts and targets all belong to tool calls that have started
    and not yet ended, and no committed messaging text is empty; so after a
    [tool_execution_end] nothing is kept for that call, whether it failed or
    not. *)
Theorem X16_tool_bookkeeping {C : Type} {E : Collaborators C} (p : Params)
    (chunker : option C) (evts : list Event) :
  let s := run p (initial chunker) evts in
  toolSummaryById s ⊆ dom (toolMetaById s) /\
  dom (pendingMessagingTexts s) ⊆ dom (toolMetaById s) /\
  dom (pendingMessagingTargets s) ⊆ dom (toolMetaById s) /\
  Forall (fun text => text <> EmptyString) (messagingToolSentTexts s) /\
  (forall toolName toolCallId isError,
     let s' := handle p s (ToolExecutionEnd toolName toolCallId isError) in
     toolMetaById s' !! toolCallId = None /\
     (toolCallId ∉ toolSummaryById s') /\
     pendingMessagingTexts s' !! toolCallId = None /\
     pendingMessagingTargets s' !! toolCallId = None).
Proof.
  intros s.
  pose proof (bookInv_run p _ evts (bookInv_initial chunker)) as Hinv. fold s in Hinv.
  destruct Hinv as (H1 & H2 & H3 & H4 & H5).
  split; [done|]. split; [done|]. split; [done|]. split; [done|].
  intros toolName toolCallId isError s'.
  destruct (end_tracking toolName toolCallId isError s H4) as (K1 & K2 & K3 & K4 & _).
  subst s'. cbn [handle]. rewrite K1, K2, K3, K4, !lookup_delete_eq.
  split; [done|]. split; [|done].
  rewrite not_elem_of_difference. right. by apply elem_of_singleton.
Qed.

(** ** The run registry over time *)

(** The calls that read or write the two registry maps: the registration
    in [runEmbeddedPiAgent] and its [finally] block, the exported
    [queueEmbeddedPiMessage], [abortEmbeddedPiRun] and
    [waitForEmbeddedPiRunEnd], and the timer callback of a waiter. *)
Inductive RegistryCall :=
| CallRegisterRun (sessionId : string) (h : Registry.Handle)
| CallQueueMessage (sessionId text : string)
| CallAbortRun (sessionId : string)
| CallWaitForEnd (sessionId : string) (timeoutMs : Registry.JsNumber)
| CallTimerFires (sessionId : string) (wt : Registry.Waiter)
| CallFinishRun (sessionId : string) (queueHandle : nat).

Definition registryStep (w : Registry.World) (call : RegistryCall) : Registry.World :=
  match call with
  | CallRegisterRun sessionId h => Registry.registerRun sessionId h w
  | CallQueueMessage sessionId text => (Registry.queueEmbeddedPiMessage sessionId text w).1
  | CallAbortRun sessionId => (Registry.abortEmbeddedPiRun sessionId w).1
  | CallWaitForEnd sessionId timeoutMs =>
      (Registry.waitForEmbeddedPiRunEnd sessionId timeoutMs w).1
  | CallTimerFires sessionId wt => Registry.timerFires sessionId wt w
  | CallFinishRun sessionId queueHandle => Registry.finishRun sessionId queueHandle w
  end.

Definition registryRun (w : Registry.World) (calls : list RegistryCall) : Registry.World :=
  fold_left registryStep calls w.

(** The registry when the module is loaded. *)
Definition emptyRegistry : Registry.World :=
  {| Registry.ACTIVE_EMBEDDED_RUNS := ∅; Registry.EMBEDDED_RUN_WAITERS := ∅;
     Registry.settled := ∅; Registry.waitersCreated := 0 |}.

(** [wt] is in the waiter set of [sessionId]. *)
Definition registered (w : Registry.World) (sessionId : string) (wt : Registry.Waiter)
  : Prop :=
  wt ∈ default [] (Registry.EMBEDDED_RUN_WAITERS w !! sessionId).

Section RegistryInvariant.

Import Registry.

Record regInv (w : World) : Prop := {
  inv_nonempty : forall sessionId, EMBEDDED_RUN_WAITERS w !! sessionId <> Some [];
  inv_active : forall sessionId wt,
    registered w sessionId wt -> is_Some (ACTIVE_EMBEDDED_RUNS w !! sessionId);
  inv_pending : forall sessionId wt,
    registered w sessionId wt ->
    settled w !! waiter_id wt = None /\ (waiter_id wt < waitersCreated w)%nat;
  inv_kept : forall id,
    (id < waitersCreated w)%nat -> settled w !! id = None ->
    exists sessionId wt, registered w sessionId wt /\ waiter_id wt = id;
  inv_created : forall id, is_Some (settled w !! id) -> (id < waitersCreated w)%nat;
  inv_unique : forall sessionId sessionId' wt wt',
    registered w sessionId wt -> registered w sessionId' wt' ->
    waiter_id wt = waiter_id wt' -> wt = wt' /\ sessionId = sessionId';
}.

Lemma regInv_empty : regInv emptyRegistry.
Proof.
  split; unfold registered; simpl.
  - intros sessionId. by rewrite lookup_empty.
  - intros sessionId wt. rewrite lookup_empty. simpl. by intros ?%elem_of_nil.
  - intros sessionId wt. rewrite lookup_empty. simpl. by intros ?%elem_of_nil.
  - intros id Hlt. lia.
  - intros id. rewrite lookup_empty. by intros [? ?].
  - intros sessionId sessionId' wt wt'. rewrite lookup_empty. simpl.
    by intros ?%elem_of_nil.
Qed.

(** A call that leaves the waiters and the promises alone and does not
    deregister a run keeps the invariant. *)
Lemma regInv_active w w' :
  EMBEDDED_RUN_WAITERS w' = EMBEDDED_RUN_WAITERS w ->
  settled w' = settled w ->
  waitersCreated w' = waitersCreated w ->
  (forall sessionId, is_Some (ACTIVE_EMBEDDED_RUNS w !! sessionId) ->
                     is_Some (ACTIVE_EMBEDDED_RUNS w' !! sessionId)) ->
  regInv w -> regInv w'.
Proof.
  intros Hw Hs Hc Ha [I1 I2 I3 I4 I5 I6].
  split; unfold registered in *; rewrite ?Hw, ?Hs, ?Hc; eauto.
Qed.

Lemma regInv_registerRun sessionId h w : regInv w -> regInv (registerRun sessionId h w).
Proof.
  apply regInv_active; try done. intros sid Hsid. simpl.
  destruct (decide (sid = sessionId)) as [->|Hne].
  - rewrite lookup_insert_eq. by eexists.
  - by rewrite lookup_insert_ne.
Qed.

Lemma regInv_queue sessionId text w :
  regInv w -> regInv (queueEmbeddedPiMessage sessionId text w).1.
Proof.
  unfold queueEmbeddedPiMessage.
  destruct (ACTIVE_EMBEDDED_RUNS w !! sessionId) as [h|] eqn:Hh; [|done].
  destruct (negb (handle_isStreaming h)); [done|].
  destruct (handle_isCompacting h); [done|]. simpl.
  apply regInv_active; try done. intros sid Hsid. simpl.
  destruct (decide (sid = sessionId)) as [->|Hne].
  - rewrite lookup_insert_eq. by eexists.
  - by rewrite lookup_insert_ne.
Qed.

Lemma regInv_abort sessionId w :
  regInv w -> regInv (abortEmbeddedPiRun sessionId w).1.
Proof.
  unfold abortEmbeddedPiRun.
  destruct (ACTIVE_EMBEDDED_RUNS w !! sessionId) as [h|] eqn:Hh; [|done]. simpl.
  apply regInv_active; try done. intros sid Hsid. simpl.
  destruct (decide (sid = sessionId)) as [->|Hne].
  - rewrite lookup_insert_eq. by eexists.
  - by rewrite lookup_insert_ne.
Qed.

Lemma registered_insert w ws sessionId sid wt :
  wt ∈ default [] (<[sessionId := ws]> (EMBEDDED_RUN_WAITERS w) !! sid) <->
  (sid = sessionId /\ wt ∈ ws) \/ (sid <> sessionId /\ registered w sid wt).
Proof.
  unfold registered. destruct (decide (sid = sessionId)) as [->|Hne].
  - rewrite lookup_insert_eq. simpl. tauto.
  - rewrite lookup_insert_ne by done. tauto.
Qed.

Lemma registered_delete w sessionId sid wt :
  wt ∈ default [] (delete sessionId (EMBEDDED_RUN_WAITERS w) !! sid) <->
  sid <> sessionId /\ registered w sid wt.
Proof.
  unfold registered. destruct (decide (sid = sessionId)) as [->|Hne].
  - rewrite lookup_delete_eq. simpl. split; [by intros ?%elem_of_nil|tauto].
  - rewrite lookup_delete_ne by done. tauto.
Qed.

Lemma regInv_wait sessionId timeoutMs w :
  regInv w -> regInv (waitForEmbeddedPiRunEnd sessionId timeoutMs w).1.
Proof.
  intros Hinv. unfold waitForEmbeddedPiRunEnd.
  destruct (negb (Js.truthy sessionId) || negb (isEmbeddedPiRunActive sessionId w))
    eqn:Hgo; [done|].
  apply orb_false_iff in Hgo as [_ Hact]. apply negb_false_iff in Hact.
  unfold isEmbeddedPiRunActive in *. simpl. rewrite Hact. simpl.
  apply bool_decide_eq_true in Hact.
  destruct Hinv as [I1 I2 I3 I4 I5 I6].
  set (wt0 := {| waiter_id := waitersCreated w; timer_ms := setTimeoutDelay (mathMax100 timeoutMs) |}).
  assert (forall sid wt, registered w sid wt -> waiter_id wt <> waiter_id wt0) as Hfresh.
  { intros sid wt Hreg. destruct (I3 _ _ Hreg) as [_ Hlt]. simpl. lia. }
  split; unfold registered; simpl.
  - intros sid. destruct (decide (sid = sessionId)) as [->|Hne].
    + rewrite lookup_insert_eq. intros [= Happ]. by apply app_eq_nil in Happ as [_ ?].
    + rewrite lookup_insert_ne by done. apply I1.
  - intros sid wt. rewrite registered_insert. intros [[-> _]|[_ Hreg]]; eauto.
  - intros sid wt. rewrite registered_insert.
    intros [[-> [Hin| ->%list_elem_of_singleton]%elem_of_app]|[_ Hreg]].
    + destruct (I3 _ _ Hin) as [? ?]. split; [done|lia].
    + simpl. split; [|lia].
      destruct (settled w !! waitersCreated w) eqn:Hs; [|done].
      assert (waitersCreated w < waitersCreated w)%nat; [|lia]. apply I5. by eexists.
    + destruct (I3 _ _ Hreg) as [? ?]. split; [done|lia].
  - intros id Hlt Hnone.
    destruct (decide (id = waitersCreated w)) as [->|Hne].
    + exists sessionId, wt0. split; [|done]. rewrite registered_insert. left.
      split; [done|]. apply elem_of_app. right. by apply list_elem_of_singleton.
    + destruct (I4 id) as (sid & wt & Hreg & Hid); [lia|done|].
      exists sid, wt. split; [|done]. rewrite registered_insert.
      destruct (decide (sid = sessionId)) as [->|Hsid]; [left|by right].
      split; [done|]. apply elem_of_app. by left.
  - intros id Hid. specialize (I5 id Hid). lia.
  - intros sid sid' wt wt'. rewrite !registered_insert.
    assert (forall s x, (s = sessionId /\ x ∈ default [] (EMBEDDED_RUN_WAITERS w !! sessionId) ++ [wt0])
                        \/ (s <> sessionId /\ registered w s x) ->
                        (x = wt0 /\ s = sessionId) \/ registered w s x) as Hcase.
    { intros s x [[-> [Hin| ->%list_elem_of_singleton]%elem_of_app]|[_ Hreg]]; auto. }
    intros [[-> ->]|H1]%Hcase [[-> ->]|H2]%Hcase Hid; try done.
    + by destruct (Hfresh _ _ H2).
    + by destruct (Hfresh _ _ H1).
    + by apply (I6 sid sid').
Qed.

Lemma removeWaiter_registered sessionId wt w sid x :
  registered (removeWaiter sessionId wt w) sid x <->
  registered w sid x /\ (sid = sessionId -> x <> wt).
Proof.
  unfold removeWaiter, registered.
  set (rest := List.filter _ _).
  assert (forall y, y ∈ rest <->
            y ∈ default [] (EMBEDDED_RUN_WAITERS w !! sessionId) /\ y <> wt) as Hrest.
  { intros y. subst rest. rewrite list_elem_of_In, filter_In, <- list_elem_of_In.
    rewrite negb_true_iff, bool_decide_eq_false. done. }
  case_bool_decide as Hnil; simpl.
  - fold (registered w sid x). rewrite registered_delete.
    split; [intros [Hne Hreg]; split; [exact Hreg|done]|]. intros [Hreg Hne].
    split; [|done]. intros ->. specialize (Hne eq_refl).
    assert (x ∈ rest) as Hin by (by apply Hrest). rewrite Hnil in Hin.
    by apply elem_of_nil in Hin.
  - fold (registered w sid x). rewrite registered_insert, Hrest.
    split.
    + intros [[-> [Hx Hne]]|[Hne Hx]]; [by split|]. split; [exact Hx|done].
    + intros [Hx Hne]. destruct (decide (sid = sessionId)) as [->|Hsid].
      * left. split; [done|]. split; [exact Hx|by apply Hne].
      * right. by split.
Qed.

Lemma removeWaiter_nonempty sessionId wt w sid :
  EMBEDDED_RUN_WAITERS w !! sid <> Some [] ->
  EMBEDDED_RUN_WAITERS (removeWaiter sessionId wt w) !! sid <> Some [].
Proof.
  intros Hne. unfold removeWaiter. case_bool_decide as Hnil; simpl.
  - destruct (decide (sid = sessionId)) as [->|Hsid].
    + by rewrite lookup_delete_eq.
    + by rewrite lookup_delete_ne.
  - destruct (decide (sid = sessionId)) as [->|Hsid].
    + rewrite lookup_insert_eq. by intros [= ?].
    + by rewrite lookup_insert_ne.
Qed.

Lemma regInv_timerFires sessionId wt w :
  regInv w -> regInv (timerFires sessionId wt w).
Proof.
  intros Hinv. unfold timerFires. case_bool_decide as Hin; [|done].
  fold (registered w sessionId wt) in Hin.
  destruct Hinv as [I1 I2 I3 I4 I5 I6].
  assert (forall sid x, registered (resolve wt false (removeWaiter sessionId wt w)) sid x
            <-> registered w sid x /\ (sid = sessionId -> x <> wt)) as Hreg.
  { intros sid x. apply removeWaiter_registered. }
  assert (settled (removeWaiter sessionId wt w) = settled w) as Hset.
  { unfold removeWaiter. by case_bool_decide. }
  assert (waitersCreated (resolve wt false (removeWaiter sessionId wt w))
          = waitersCreated w) as Hc.
  { unfold removeWaiter. by case_bool_decide. }
  assert (ACTIVE_EMBEDDED_RUNS (resolve wt false (removeWaiter sessionId wt w))
          = ACTIVE_EMBEDDED_RUNS w) as Ha.
  { unfold removeWaiter. by case_bool_decide. }
  destruct (I3 _ _ Hin) as [Hun Hlt].
  split.
  - intros sid. apply (removeWaiter_nonempty sessionId wt w sid), I1.
  - intros sid x [Hx _]%Hreg. rewrite Ha. eauto.
  - intros sid x [Hx Hne]%Hreg. rewrite Hc, resolve_settled, Hset.
    destruct (I3 _ _ Hx) as [-> ?]. split; [|done].
    case_bool_decide as Hid; [|done].
    destruct (I6 _ _ _ _ Hx Hin Hid) as [-> ->]. by destruct Hne.
  - intros id Hid. rewrite Hc in Hid. rewrite resolve_settled, Hset.
    destruct (settled w !! id) eqn:Hs; [done|].
    case_bool_decide as Heq; [done|]. intros _.
    destruct (I4 id Hid Hs) as (sid & x & Hx & Hxid).
    exists sid, x. split; [|done]. apply Hreg. split; [done|].
    intros _ ->. done.
  - intros id. rewrite Hc, resolve_settled, Hset.
    destruct (settled w !! id) eqn:Hs; [intros _; apply I5; by eexists|].
    case_bool_decide as Heq; [subst id; done|]. by intros [? ?].
  - intros sid sid' x x' [Hx _]%Hreg [Hx' _]%Hreg. by apply I6.
Qed.

Lemma regInv_finishRun sessionId queueHandle w :
  regInv w -> regInv (finishRun sessionId queueHandle w).
Proof.
  intros Hinv. unfold finishRun.
  destruct (ACTIVE_EMBEDDED_RUNS w !! sessionId) as [h|] eqn:Hh; [|done].
  case_bool_decide as Hown; [|done].
  destruct Hinv as [I1 I2 I3 I4 I5 I6].
  unfold notifyEmbeddedRunEnded. cbn [EMBEDDED_RUN_WAITERS set_active].
  destruct (EMBEDDED_RUN_WAITERS w !! sessionId) as [[|w0 ws]|] eqn:Hws.
  - by destruct (I1 sessionId).
  - set (w1 := set_waiters _ _).
    change (fold_left _ ws _) with
      (fold_left (fun st x => resolve x true st) (w0 :: ws) w1).
    destruct (resolve_all_maps (w0 :: ws) w1) as [Ha Hw]. cbv zeta in Ha, Hw.
    assert (waitersCreated (fold_left (fun st x => resolve x true st) (w0 :: ws) w1)
            = waitersCreated w) as Hc.
    { generalize (w0 :: ws). intros l.
      assert (waitersCreated w1 = waitersCreated w) as <- by done.
      generalize w1. induction l as [|y l IH]; intros v; [done|].
      simpl. by rewrite IH. }
    assert (forall sid x,
              registered (fold_left (fun st x => resolve x true st) (w0 :: ws) w1) sid x
              <-> sid <> sessionId /\ registered w sid x) as Hreg.
    { intros sid x. unfold registered at 1. rewrite Hw. subst w1. simpl.
      apply registered_delete. }
    split.
    + intros sid. rewrite Hw. subst w1. simpl.
      destruct (decide (sid = sessionId)) as [->|Hsid].
      * by rewrite lookup_delete_eq.
      * rewrite lookup_delete_ne by done. apply I1.
    + intros sid x [Hne Hx]%Hreg. rewrite Ha. subst w1. simpl.
      rewrite lookup_delete_ne by done. eauto.
    + intros sid x [Hne Hx]%Hreg. rewrite Hc, resolve_all_settled.
      destruct (I3 _ _ Hx) as [Hun Hlt]. split; [|done].
      subst w1. cbn [settled set_waiters set_active]. rewrite Hun.
      case_bool_decide as Hin; [|done].
      apply list_elem_of_fmap in Hin as (y & Hid & Hy).
      assert (registered w sessionId y) as Hry by (unfold registered; by rewrite Hws).
      by destruct (I6 _ _ _ _ Hx Hry Hid) as [_ ?].
    + intros id Hid. rewrite Hc in Hid. rewrite resolve_all_settled.
      subst w1. cbn [settled set_waiters set_active].
      destruct (settled w !! id) eqn:Hs; [done|].
      case_bool_decide as Hin; [done|]. intros _.
      destruct (I4 id Hid Hs) as (sid & x & Hx & Hxid).
      exists sid, x. split; [|done]. apply Hreg. split; [|done].
      intros ->. apply Hin. unfold registered in Hx. rewrite Hws in Hx. simpl in Hx.
      subst id. by apply list_elem_of_fmap_2.
    + intros id. rewrite Hc, resolve_all_settled.
      subst w1. cbn [settled set_waiters set_active].
      destruct (settled w !! id) eqn:Hs; [intros _; apply I5; by eexists|].
      case_bool_decide as Hin; [|by intros [? ?]]. intros _.
      apply list_elem_of_fmap in Hin as (y & -> & Hy).
      assert (registered w sessionId y) as Hry by (unfold registered; by rewrite Hws).
      by destruct (I3 _ _ Hry).
    + intros sid sid' x x' [_ Hx]%Hreg [_ Hx']%Hreg. by apply I6.
  - split; unfold registered in *; simpl.
    + apply I1.
    + intros sid x Hx. destruct (decide (sid = sessionId)) as [->|Hne].
      * rewrite Hws in Hx. by apply elem_of_nil in Hx.
      * rewrite lookup_delete_ne by done. eauto.
    + apply I3.
    + apply I4.
    + apply I5.
    + apply I6.
Qed.

Lemma regInv_step w call : regInv w -> regInv (registryStep w call).
Proof.
  destruct call; simpl.
  - apply regInv_registerRun.
  - apply regInv_queue.
  - apply regInv_abort.
  - apply regInv_wait.
  - apply regInv_timerFires.
  - apply regInv_finishRun.
Qed.

Lemma regInv_run w calls : regInv w -> regInv (registryRun w calls).
Proof.
  revert w. induction calls as [|call calls IH]; intros w Hw; [done|].
  simpl. apply IH. by apply regInv_step.
Qed.

(** A promise keeps the value it was first resolved with. *)
Lemma settled_step w call id b :
  settled w !! id = Some b -> settled (registryStep w call) !! id = Some b.
Proof.
  intros Hs. destruct call as [sid h|sid text|sid|sid t|sid wt|sid qh]; simpl.
  - done.
  - unfold queueEmbeddedPiMessage. by repeat case_match.
  - unfold abortEmbeddedPiRun. by repeat case_match.
  - unfold waitForEmbeddedPiRunEnd.
    destruct (negb (Js.truthy sid) || negb (isEmbeddedPiRunActive sid w)); [done|].
    cbv zeta. destruct (negb (isEmbeddedPiRunActive sid _)); cbn [fst]; [|done].
    rewrite resolve_settled. unfold removeWaiter.
    case_bool_decide; simpl; by rewrite Hs.
  - unfold timerFires. case_bool_decide; [|done]. rewrite resolve_settled.
    assert (settled (removeWaiter sid wt w) = settled w) as ->.
    { unfold removeWaiter. by case_bool_decide. }
    by rewrite Hs.
  - unfold finishRun. destruct (ACTIVE_EMBEDDED_RUNS w !! sid); [|done].
    case_bool_decide; [|done]. unfold notifyEmbeddedRunEnded.
    cbn [EMBEDDED_RUN_WAITERS set_active].
    destruct (EMBEDDED_RUN_WAITERS w !! sid) as [[|w0 ws]|]; try done.
    change (fold_left _ ws _) with
      (fold_left (fun st x => resolve x true st) (w0 :: ws)
         (set_waiters (delete sid (EMBEDDED_RUN_WAITERS w))
            (set_active (delete sid (ACTIVE_EMBEDDED_RUNS w)) w))).
    rewrite resolve_all_settled. cbn [settled set_waiters set_active]. by rewrite Hs.
Qed.

Lemma settled_run w calls id b :
  settled w !! id = Some b -> settled (registryRun w calls) !! id = Some b.
Proof.
  revert w. induction calls as [|call calls IH]; intros w Hw; [done|].
  simpl. apply IH. by apply settled_step.
Qed.

End RegistryInvariant.

(** X17: after any sequence of registry calls from the empty registry, no
    session has an empty waiter set, every session with a waiter has a
    registered run, the promise of every registered waiter is still
    pending, every promise created so far is either resolved or belongs to
    a registered waiter, and no two registered waiters share a promise.  A
    promise, once resolved, keeps its value whatever is called later. *)
Theorem X17_registry_invariant (calls : list RegistryCall) :
  let w := registryRun emptyRegistry calls in
  (forall sessionId, Registry.EMBEDDED_RUN_WAITERS w !! sessionId <> Some []) /\
  (forall sessionId wt, registered w sessionId wt ->
     is_Some (Registry.ACTIVE_EMBEDDED_RUNS w !! sessionId) /\
     Registry.settled w !! Registry.waiter_id wt = None) /\
  (forall id, (id < Registry.waitersCreated w)%nat ->
     is_Some (Registry.settled w !! id) \/
     exists sessionId wt, registered w sessionId wt /\ Registry.waiter_id wt = id) /\
  (forall sessionId sessionId' wt wt',
     registered w sessionId wt -> registered w sessionId' wt' ->
     Registry.waiter_id wt = Registry.waiter_id wt' -> wt = wt' /\ sessionId = sessionId') /\
  (forall more id b,
     Registry.settled w !! id = Some b ->
     Registry.settled (registryRun w more) !! id = Some b).
Proof.
  intros w.
  destruct (regInv_run emptyRegistry calls regInv_empty) as [I1 I2 I3 I4 I5 I6].
  fold w in I1, I2, I3, I4, I5, I6.
  split; [exact I1|]. split; [|split; [|split; [exact I6|]]].
  - intros sessionId wt Hreg. split; [by eapply I2|]. by destruct (I3 _ _ Hreg).
  - intros id Hid. destruct (Registry.settled w !! id) eqn:Hs; [left; by eexists|].
    right. by apply I4.
  - intros more id b. apply settled_run.
Qed.

(** ** Profile rotation: which profile comes next *)

Section AdvanceFacts.

Import Rotation.

(** The candidate cannot be activated, and is not the pinned profile. *)
Definition skipped (cfg : RunConfig) (candidate : option string) : Prop :=
  resolveApiKey cfg candidate = None /\
  truthyOpt candidate && bool_decide (candidate = explicitProfileId cfg) = false.

(** The state after [advanceAuthProfile] returned [true]. *)
Definition activated (cfg : RunConfig) (st : LoopState) (index : nat)
    (profileId : option string) : LoopState :=
  {| profileIndex := index; thinkLevel := initialThinkLevel cfg;
     attemptedThinking := []; lastProfileId := profileId;
     failureMarks := failureMarks st |}.

Lemma advanceFrom_result (cfg : RunConfig) (st : LoopState)
    (rest : list (option string)) (nextIndex : nat) :
  match advanceFrom cfg st rest nextIndex with
  | Advanced st' =>
      exists k candidate profileId,
        rest !! k = Some candidate /\
        resolveApiKey cfg candidate = Some profileId /\
        st' = activated cfg st (nextIndex + k) profileId /\
        (forall i c, (i < k)%nat -> rest !! i = Some c -> skipped cfg c)
  | Exhausted => forall i c, rest !! i = Some c -> skipped cfg c
  | AdvanceThrew candidate =>
      exists k,
        rest !! k = Some candidate /\
        resolveApiKey cfg candidate = None /\
        truthyOpt candidate = true /\ candidate = explicitProfileId cfg /\
        (forall i c, (i < k)%nat -> rest !! i = Some c -> skipped cfg c)
  end.
Proof.
  revert nextIndex. induction rest as [|candidate rest IH]; intros nextIndex.
  { simpl. intros i c Hc. by rewrite lookup_nil in Hc. }
  simpl. destruct (resolveApiKey cfg candidate) as [profileId|] eqn:Hkey.
  - exists 0%nat, candidate, profileId. rewrite Nat.add_0_r.
    split; [done|]. split; [done|]. split; [done|]. intros i c Hi. lia.
  - destruct (truthyOpt candidate && bool_decide (candidate = explicitProfileId cfg))
      eqn:Hpin.
    + apply andb_true_iff in Hpin as [Ht Hp]. apply bool_decide_eq_true in Hp.
      exists 0%nat. split; [done|]. split; [done|]. split; [done|]. split; [done|].
      intros i c Hi. lia.
    + specialize (IH (S nextIndex)).
      destruct (advanceFrom cfg st rest (S nextIndex)) as [st'| |c'].
      * destruct IH as (k & c & pid & Hk & Hr & -> & Hskip).
        exists (S k), c, pid. split; [done|]. split; [done|].
        split; [by rewrite Nat.add_succ_comm|].
        intros [|i] x Hi Hx; [injection Hx as <-; by split|].
        apply (Hskip i); [lia|done].
      * intros [|i] x Hx; [injection Hx as <-; by split|]. by apply (IH i).
      * destruct IH as (k & Hk & Hr & Ht & Hp & Hskip).
        exists (S k). split; [done|]. split; [done|]. split; [done|]. split; [done|].
        intros [|i] x Hi Hx; [injection Hx as <-; by split|].
        apply (Hskip i); [lia|done].
Qed.

(** What an attempt that asks for rotation leaves behind: the marks of the
    profile store grow by at most one entry, for the profile of the attempt. *)
Definition marksGrow (st st' : LoopState) : Prop :=
  failureMarks st' = failureMarks st \/
  exists profileId reason,
    lastProfileId st = Some profileId /\ profileId <> EmptyString /\
    failureMarks st' = failureMarks st ++ [(profileId, reason)].

Definition outcomeState (o : Outcome) : LoopState :=
  match o with Continue st | Throw st _ | Return st _ => st end.

Lemma advance_marks (cfg : RunConfig) (st st' : LoopState) :
  advanceAuthProfile cfg st = Advanced st' ->
  (profileIndex st < profileIndex st' < length (profileCandidates cfg))%nat /\
  thinkLevel st' = initialThinkLevel cfg /\
  attemptedThinking st' = [] /\
  failureMarks st' = failureMarks st.
Proof.
  unfold advanceAuthProfile. intros Hadv.
  pose proof (advanceFrom_result cfg st
                (drop (S (profileIndex st)) (profileCandidates cfg))
                (S (profileIndex st))) as Hres.
  rewrite Hadv in Hres. destruct Hres as (k & c & pid & Hk & _ & -> & _).
  rewrite lookup_drop in Hk. apply lookup_lt_Some in Hk. simpl. split; [lia|done].
Qed.

(** The profile of the attempt may have been put in cooldown; nothing else
    has changed. *)
Definition cooled (st st1 : LoopState) : Prop :=
  profileIndex st1 = profileIndex st /\ thinkLevel st1 = thinkLevel st /\
  attemptedThinking st1 = attemptedThinking st /\
  lastProfileId st1 = lastProfileId st /\ marksGrow st st1.

Lemma cooled_refl st : cooled st st.
Proof. repeat split; by left. Qed.

Lemma cooled_mark st profileId reason :
  lastProfileId st = Some profileId -> Js.truthy profileId = true ->
  cooled st (markAuthProfileFailure profileId reason st).
Proof.
  intros Hl Ht. repeat split; try done. right. exists profileId, reason.
  split; [done|]. split; [by intros ->|done].
Qed.

(** What the rest of the loop body does with the state [st1] that carries
    the marks. *)
Definition progress (cfg : RunConfig) (st : LoopState) (o : Outcome) : Prop :=
  (profileIndex st <= profileIndex (outcomeState o))%nat /\
  marksGrow st (outcomeState o) /\
  (forall next, o = Continue next ->
     ((profileIndex st < profileIndex next < length (profileCandidates cfg))%nat /\
      thinkLevel next = initialThinkLevel cfg /\ attemptedThinking next = []) \/
     (profileIndex next = profileIndex st /\
      lastProfileId next = lastProfileId st /\
      attemptedThinking next = attemptedThinking st)).

Lemma progress_stay cfg st st1 (o : Outcome) :
  cooled st st1 -> outcomeState o = st1 -> (forall next, o <> Continue next) ->
  progress cfg st o.
Proof.
  intros (H1 & H2 & H3 & H4 & H5) Ho Hc. unfold progress. rewrite Ho.
  split; [lia|]. split; [done|]. intros next ->. by destruct (Hc next).
Qed.

Lemma progress_think cfg st st1 level :
  cooled st st1 -> progress cfg st (Continue (withThinkLevel level st1)).
Proof.
  intros (H1 & H2 & H3 & H4 & H5). unfold progress. simpl.
  split; [lia|]. split; [done|]. intros next [= <-]. right. done.
Qed.

Lemma progress_advanced cfg st st1 st' :
  cooled st st1 -> advanceAuthProfile cfg st1 = Advanced st' ->
  progress cfg st (Continue st').
Proof.
  intros (H1 & H2 & H3 & H4 & H5) Hadv.
  destruct (advance_marks cfg st1 st' Hadv) as (K1 & K2 & K3 & K4).
  unfold progress. simpl. split; [lia|]. split.
  - destruct H5 as [H5|(pid & reason & Hl & Hne & H5)].
    + left. congruence.
    + right. exists pid, reason. split; [done|]. split; [done|]. congruence.
  - intros next [= <-]. left. split; [lia|done].
Qed.

Lemma afterPromptError_progress cfg st e : progress cfg st (afterPromptError cfg st e).
Proof.
  unfold afterPromptError.
  destruct (prompt_isContextOverflow e).
  { apply (progress_stay cfg st st); [apply cooled_refl|done|done]. }
  set (st1 := match prompt_failoverReason e, lastProfileId st with
              | Some reason, Some profileId => _
              | _, _ => st
              end).
  assert (cooled st st1) as Hcool.
  { subst st1. destruct (prompt_failoverReason e) as [reason|]; [|apply cooled_refl].
    destruct (lastProfileId st) as [pid|] eqn:Hl; [|apply cooled_refl].
    destruct (Js.truthy reason && negb (String.eqb reason "timeout") && Js.truthy pid)
      eqn:Hc; [|apply cooled_refl].
    apply andb_true_iff in Hc as [_ Ht]. by apply cooled_mark. }
  clearbody st1. cbv zeta.
  destruct (prompt_isFailoverMessage e && negb (isTimeoutReason (prompt_failoverReason e))).
  - destruct (advanceAuthProfile cfg st1) as [st'| |c] eqn:Hadv.
    + by apply (progress_advanced cfg st st1).
    + destruct (prompt_fallbackThinking e) as [level|].
      * by apply progress_think.
      * by apply (progress_stay cfg st st1).
    + by apply (progress_stay cfg st st1).
  - destruct (prompt_fallbackThinking e) as [level|].
    + by apply progress_think.
    + by apply (progress_stay cfg st st1).
Qed.

Lemma afterAssistant_progress cfg st a : progress cfg st (afterAssistant cfg st a).
Proof.
  unfold afterAssistant.
  assert (forall o, progress cfg st o ->
            progress cfg st
              match fallbackThinking a, aborted a with
              | Some level, false => Continue (withThinkLevel level st)
              | _, _ => o
              end) as Hthink.
  { intros o Ho. destruct (fallbackThinking a) as [level|]; [|done].
    destruct (aborted a); [done|]. apply progress_think, cooled_refl. }
  apply Hthink. cbv zeta.
  destruct ((negb (aborted a) && failoverFailure a) || timedOut a).
  - set (st1 := match lastProfileId st with Some profileId => _ | None => st end).
    assert (cooled st st1) as Hcool.
    { subst st1. destruct (lastProfileId st) as [pid|] eqn:Hl; [|apply cooled_refl].
      destruct (Js.truthy pid) eqn:Ht; [|apply cooled_refl]. by apply cooled_mark. }
    clearbody st1.
    destruct (advanceAuthProfile cfg st1) as [st'| |c] eqn:Hadv.
    + by apply (progress_advanced cfg st st1).
    + destruct (fallbackConfigured cfg); by apply (progress_stay cfg st st1).
    + by apply (progress_stay cfg st st1).
  - apply (progress_stay cfg st st); [apply cooled_refl|done|done].
Qed.

Lemma afterAttempt_progress cfg st a : progress cfg st (afterAttempt cfg st a).
Proof.
  unfold afterAttempt. destruct (promptError a) as [e|].
  - destruct (aborted a); [apply afterAssistant_progress|apply afterPromptError_progress].
  - apply afterAssistant_progress.
Qed.

End AdvanceFacts.

(** X18: [advanceAuthProfile] activates the first later candidate whose
    credentials resolve: the new index lies after the current one and within
    the candidate list, every candidate in between failed to resolve and is
    not the pinned profile, the thinking level and the attempted levels are
    reset and the failure marks kept.  It reports exhaustion only when every
    later candidate fails, and it rethrows only for the pinned profile. *)
Theorem X18_advanceAuthProfile (cfg : Rotation.RunConfig) (st : Rotation.LoopState) :
  let candidates := Rotation.profileCandidates cfg in
  let between (last : nat) :=
    forall i c, (Rotation.profileIndex st < i < last)%nat ->
                candidates !! i = Some c -> skipped cfg c in
  match Rotation.advanceAuthProfile cfg st with
  | Rotation.Advanced st' =>
      exists candidate profileId,
        (Rotation.profileIndex st < Rotation.profileIndex st')%nat /\
        candidates !! Rotation.profileIndex st' = Some candidate /\
        Rotation.resolveApiKey cfg candidate = Some profileId /\
        st' = activated cfg st (Rotation.profileIndex st') profileId /\
        between (Rotation.profileIndex st')
  | Rotation.Exhausted => between (length candidates)
  | Rotation.AdvanceThrew candidate =>
      exists index,
        (Rotation.profileIndex st < index)%nat /\
        candidates !! index = Some candidate /\
        Rotation.resolveApiKey cfg candidate = None /\
        candidate <> None /\ candidate <> Some EmptyString /\
        candidate = Rotation.explicitProfileId cfg /\
        between index
  end.
Proof.
  intros candidates between. unfold Rotation.advanceAuthProfile.
  pose proof (advanceFrom_result cfg st
                (drop (S (Rotation.profileIndex st)) candidates)
                (S (Rotation.profileIndex st))) as Hres.
  fold candidates.
  destruct (Rotation.advanceFrom cfg st _ _) as [st'| |c'].
  - destruct Hres as (k & c & pid & Hk & Hr & -> & Hskip).
    rewrite lookup_drop in Hk. exists c, pid. simpl.
    split; [lia|]. split; [done|]. split; [done|]. split; [done|].
    intros i x Hi Hx.
    apply (Hskip (i - S (Rotation.profileIndex st))%nat); [lia|].
    rewrite lookup_drop. by replace (S _ + _)%nat with i by lia.
  - intros i x Hi Hx.
    apply (Hres (i - S (Rotation.profileIndex st))%nat).
    rewrite lookup_drop. by replace (S _ + _)%nat with i by lia.
  - destruct Hres as (k & Hk & Hr & Ht & Hp & Hskip).
    rewrite lookup_drop in Hk. exists (S (Rotation.profileIndex st) + k)%nat.
    split; [lia|]. split; [done|]. split; [done|].
    split; [by intros ->|]. split; [by intros ->|]. split; [done|].
    intros i x Hi Hx.
    apply (Hskip (i - S (Rotation.profileIndex st))%nat); [lia|].
    rewrite lookup_drop. by replace (S _ + _)%nat with i by lia.
Qed.

(** X19: one pass through the loop body after an attempt never moves the
    profile index back and records at most one failure, for the profile the
    attempt ran with; when the loop goes round again it has either moved to
    a later profile, with the thinking level reset, or kept the profile and
    only changed the thinking level. *)
Theorem X19_afterAttempt_progress (cfg : Rotation.RunConfig) (st : Rotation.LoopState)
    (a : Rotation.Attempt) :
  let st' := outcomeState (Rotation.afterAttempt cfg st a) in
  (Rotation.profileIndex st <= Rotation.profileIndex st')%nat /\
  marksGrow st st' /\
  (forall next, Rotation.afterAttempt cfg st a = Rotation.Continue next ->
     ((Rotation.profileIndex st < Rotation.profileIndex next
       < length (Rotation.profileCandidates cfg))%nat /\
      Rotation.thinkLevel next = Rotation.initialThinkLevel cfg /\
      Rotation.attemptedThinking next = []) \/
     (Rotation.profileIndex next = Rotation.profileIndex st /\
      Rotation.lastProfileId next = Rotation.lastProfileId st /\
      Rotation.attemptedThinking next = Rotation.attemptedThinking st)).
Proof. exact (afterAttempt_progress cfg st a). Qed.

(** ** Provider parameters ([resolveExtraParams], pi-embedded-runner.ts) *)

(** [toLowerCase] on code units below 256: the ASCII capitals and the
    Latin-1 capitals (all of 192..222 but the multiplication sign) move up
    by 32. *)
Definition lowerCaseUnit (c : ascii) : ascii :=
  let n := nat_of_ascii c in
  if ((65 <=? n) && (n <=? 90))%nat then ascii_of_nat (n + 32)
  else if ((192 <=? n) && (n <=? 222) && negb (n =? 215))%nat then ascii_of_nat (n + 32)
  else c.

Fixpoint toLowerCase (s : string) : string :=
  match s with
  | EmptyString => EmptyString
  | String c s' => String (lowerCaseUnit c) (toLowerCase s')
  end.

(** [cfg?.agents?.defaults?.models]: the configured models by key, each
    with its [params] object if it has one. *)
Definition ModelsConfig := option (gmap string (option (gmap string Value))).

Definition thinkingParam (clearThinking : bool) : Value :=
  VObject (<["type" := VString "enabled"]>
             (<["clear_thinking" := VBool clearThinking]> ∅)).

Definition resolveExtraParams (models : ModelsConfig) (provider modelId : string)
    (thinkLevel : option string) : option (gmap string Value) :=
  let modelKey := provider +:+ "/" +:+ modelId in
  let modelConfig := models ≫= (fun m => m !! modelKey) in
  let extraParams := mjoin modelConfig in
  if String.eqb provider "zai" && negb (bool_decide (thinkLevel = Some "off")) then
    let modelIdLower := toLowerCase modelId in
    let isGlm4 := Js.includes modelIdLower "glm-4" in
    if isGlm4 then
      let hasThinkingConfig :=
        match extraParams ≫= (fun e => e !! "thinking") with
        | None | Some VUndefined => false
        | Some _ => true
        end in
      if negb hasThinkingConfig then
        let isGlm47 := Js.includes modelIdLower "glm-4.7" in
        let clearThinking := negb isGlm47 in
        Some (<["thinking" := thinkingParam clearThinking]> (default ∅ extraParams))
      else extraParams
    else extraParams
  else extraParams.

(** The configured parameters of the model, if any. *)
Definition configuredParams (models : ModelsConfig) (provider modelId : string)
  : option (gmap string Value) :=
  mjoin (models ≫= (fun m => m !! (provider +:+ "/" +:+ modelId))).

(** [params?.[key]]. *)
Definition param (key : string) (params : option (gmap string Value)) : Value :=
  default VUndefined (params ≫= (fun e => e !! key)).

Example glm_thinking :
  resolveExtraParams None "zai" "GLM-4.7" None
  = Some {[ "thinking" := thinkingParam false ]} /\
  resolveExtraParams None "zai" "glm-4.6" (Some "low")
  = Some {[ "thinking" := thinkingParam true ]} /\
  resolveExtraParams None "zai" "glm-4.6" (Some "off") = None /\
  resolveExtraParams None "openai" "glm-4.6" None = None /\
  resolveExtraParams
    (Some {[ "zai/glm-4.6" := Some {[ "thinking" := VObject {[ "type" := VString "disabled" ]} ]} ]})
    "zai" "glm-4.6" None
  = Some {[ "thinking" := VObject {[ "type" := VString "disabled" ]} ]}.
Proof. repeat split; vm_compute; reflexivity. Qed.

(** X20: [resolveExtraParams] never overrides the configuration: every
    configured parameter other than [thinking] is returned as configured,
    and so is a configured [thinking] that is not [undefined].  With
    thinking switched off, or for a provider other than zai, or for a model
    whose lower-cased id does not contain ["glm-4"], the result is the
    configured parameters.  Otherwise a missing [thinking] is enabled, with
    [clear_thinking] false exactly for the ids containing ["glm-4.7"]. *)
Theorem X20_resolveExtraParams (models : ModelsConfig) (provider modelId : string)
    (thinkLevel : option string) :
  let configured := configuredParams models provider modelId in
  let resolved := resolveExtraParams models provider modelId thinkLevel in
  let auto := bool_decide (provider = "zai") && negb (bool_decide (thinkLevel = Some "off"))
              && Js.includes (toLowerCase modelId) "glm-4" in
  (forall key, key <> "thinking" -> param key resolved = param key configured) /\
  (param "thinking" configured <> VUndefined -> resolved = configured) /\
  (auto = false -> resolved = configured) /\
  (auto = true -> param "thinking" configured = VUndefined ->
     param "thinking" resolved
     = thinkingParam (negb (Js.includes (toLowerCase modelId) "glm-4.7"))).
Proof.
  intros configured resolved auto. subst configured resolved auto.
  unfold resolveExtraParams, configuredParams, param. cbv zeta.
  set (extraParams := mjoin _).
  assert (String.eqb provider "zai" = bool_decide (provider = "zai")) as ->.
  { case_bool_decide as Hp; [by apply String.eqb_eq|by apply String.eqb_neq]. }
  destruct (bool_decide (provider = "zai") && negb (bool_decide (thinkLevel = Some "off")));
    simpl; [|done].
  destruct (Js.includes (toLowerCase modelId) "glm-4"); [|done].
  destruct extraParams as [e|]; simpl.
  - destruct (e !! "thinking") as [v|] eqn:Hv; simpl.
    + destruct v; simpl; try done.
      split; [|split; [done|split; [done|]]].
      * intros key Hkey. by rewrite lookup_insert_ne.
      * intros _ _. by rewrite lookup_insert_eq.
    + split; [|split; [done|split; [done|]]].
      * intros key Hkey. by rewrite lookup_insert_ne.
      * intros _ _. by rewrite lookup_insert_eq.
  - split; [|split; [done|split; [done|]]].
    + intros key Hkey. by rewrite lookup_insert_ne.
    + intros _ _. by rewrite lookup_insert_eq.
Qed.

(** ** Elevated permissions ([reply.ts], lines 111-282) *)

Module Elevated.

Definition normalizeAllowToken (value : option string) : string :=
  match value with
  | None => EmptyString
  | Some value =>
      if negb (Js.truthy value) then EmptyString else toLowerCase (Js.trim value)
  end.

(** [text.replace(/^[class]+/, "")]. *)
Fixpoint stripStart (class : ascii -> bool) (s : string) : string :=
  match s with
  | EmptyString => EmptyString
  | String c s' => if class c then stripStart class s' else s
  end.

(** [text.replace(/[class]+$/, "")]. *)
Fixpoint stripEnd (class : ascii -> bool) (s : string) : string :=
  match s with
  | EmptyString => EmptyString
  | String c s' =>
      match stripEnd class s' with
      | EmptyString => if class c then EmptyString else String c EmptyString
      | r => String c r
      end
  end.

(** [text.replace(/[class]+/g, "-")]: every maximal run of characters of
    the class becomes one hyphen. *)
Fixpoint dashRuns (class : ascii -> bool) (s : string) : string :=
  match s with
  | EmptyString => EmptyString
  | String c s' =>
      if class c then
        match s' with
        | EmptyString => String "-" EmptyString
        | String c' _ =>
            if class c' then dashRuns class s' else String "-" (dashRuns class s')
        end
      else String c (dashRuns class s')
  end.

Definition isDash (c : ascii) : bool := Ascii.eqb c "-".

(** [text.replace(/-{2,}/g, "-")]: every run of two or more hyphens
    becomes one hyphen. *)
Fixpoint squeezeDashes (s : string) : string :=
  match s with
  | EmptyString => EmptyString
  | String c s' =>
      if isDash c then
        match s' with
        | EmptyString => String c EmptyString
        | String c' _ =>
            if isDash c' then squeezeDashes s' else String c (squeezeDashes s')
        end
      else String c (squeezeDashes s')
  end.

(** [[@#]]. *)
Definition isAtOrHash (c : ascii) : bool := Ascii.eqb c "@" || Ascii.eqb c "#".

(** [[\s_]]. *)
Definition isSpaceOrUnderscore (c : ascii) : bool := Js.isSpace c || Ascii.eqb c "_".

(** [[a-z0-9-]]. *)
Definition isSlugChar (c : ascii) : bool :=
  let n := nat_of_ascii c in
  ((97 <=? n) && (n <=? 122))%nat || ((48 <=? n) && (n <=? 57))%nat || isDash c.

Definition slugAllowToken (value : option string) : string :=
  match value with
  | None => EmptyString
  | Some value =>
      if negb (Js.truthy value) then EmptyString
      else
        let text := toLowerCase (Js.trim value) in
        if negb (Js.truthy text) then EmptyString
        else
          let text := stripStart isAtOrHash text in
          let text := dashRuns isSpaceOrUnderscore text in
          let text := dashRuns (fun c => negb (isSlugChar c)) text in
          stripEnd isDash (stripStart isDash (squeezeDashes text))
  end.

Definition SENDER_PREFIXES : list string :=
  ["whatsapp"; "telegram"; "discord"; "signal"; "imessage"; "webchat";
   "user"; "group"; "channel"].

(** A match of [/^(p1|p2|...):/i] at the head of [s]; returns the rest. *)
Fixpoint senderPrefix (prefixes : list string) (s : string) : option string :=
  match prefixes with
  | [] => None
  | p :: ps =>
      match Tag.word (p +:+ ":") s with
      | Some rest => Some rest
      | None => senderPrefix ps s
      end
  end.

Definition stripSenderPrefix (value : option string) : string :=
  match value with
  | None => EmptyString
  | Some value =>
      if negb (Js.truthy value) then EmptyString
      else
        let trimmed := Js.trim value in
        default trimmed (senderPrefix SENDER_PREFIXES trimmed)
  end.

(** An [AgentElevatedAllowFromConfig] object: its own properties, each an
    array or [undefined].  An entry of an array, a string or a number, is
    given by its string form [String(entry)]. *)
Definition AllowFrom := gmap string (option (list string)).

(** [allowFrom?.[key]]. *)
Definition allowProp (allowFrom : option AllowFrom) (key : string) : option (list string) :=
  allowFrom ≫= (fun a => mjoin (a !! key)).

Definition resolveElevatedAllowList (allowFrom : option AllowFrom) (provider : string)
    (discordFallback : option (list string)) : option (list string) :=
  if String.eqb provider "whatsapp" then allowProp allowFrom "whatsapp"
  else if String.eqb provider "telegram" then allowProp allowFrom "telegram"
  else if String.eqb provider "discord" then
    let hasExplicit :=
      match allowFrom with
      | Some a => bool_decide (is_Some (a !! "discord"))
      | None => false
      end in
    if hasExplicit then allowProp allowFrom "discord" else discordFallback
  else if String.eqb provider "signal" then allowProp allowFrom "signal"
  else if String.eqb provider "imessage" then allowProp allowFrom "imessage"
  else if String.eqb provider "webchat" then allowProp allowFrom "webchat"
  else None.

(** The fields of [MsgContext] that identify the sender. *)
Record MsgContext := {
  SenderName : option string;
  SenderUsername : option string;
  SenderTag : option string;
  SenderE164 : option string;
  From : option string;
  To : option string;
}.

Definition addToken (value : option string) (tokens : gset string) : gset string :=
  match value with
  | None => tokens
  | Some value =>
      if negb (Js.truthy value) then tokens
      else
        let trimmed := Js.trim value in
        if negb (Js.truthy trimmed) then tokens
        else
          let tokens := {[trimmed]} ∪ tokens in
          let normalized := normalizeAllowToken (Some trimmed) in
          let tokens := if Js.truthy normalized then {[normalized]} ∪ tokens else tokens in
          let slugged := slugAllowToken (Some trimmed) in
          if Js.truthy slugged then {[slugged]} ∪ tokens else tokens
  end.

(** The set [tokens] after the eight [addToken] calls. *)
Definition senderTokens (ctx : MsgContext) : gset string :=
  let tokens := addToken (SenderName ctx) ∅ in
  let tokens := addToken (SenderUsername ctx) tokens in
  let tokens := addToken (SenderTag ctx) tokens in
  let tokens := addToken (SenderE164 ctx) tokens in
  let tokens := addToken (From ctx) tokens in
  let tokens := addToken (Some (stripSenderPrefix (From ctx))) tokens in
  let tokens := addToken (To ctx) tokens in
  addToken (Some (stripSenderPrefix (To ctx))) tokens.

(** One turn of the loop over [allowTokens]: whether it returns [true]. *)
Definition entryMatches (tokens : gset string) (rawEntry : string) : bool :=
  let entry := Js.trim rawEntry in
  if negb (Js.truthy entry) then false
  else
    let stripped := stripSenderPrefix (Some entry) in
    if bool_decide (entry ∈ tokens) || bool_decide (stripped ∈ tokens) then true
    else
      let normalized := normalizeAllowToken (Some stripped) in
      if Js.truthy normalized && bool_decide (normalized ∈ tokens) then true
      else
        let slugged := slugAllowToken (Some stripped) in
        Js.truthy slugged && bool_decide (slugged ∈ tokens).

Definition isApprovedElevatedSender (provider : string) (ctx : MsgContext)
    (allowFrom : option AllowFrom) (discordFallback : option (list string)) : bool :=
  match resolveElevatedAllowList allowFrom provider discordFallback with
  | None => false
  | Some rawAllow =>
      if (length rawAllow =? 0)%nat then false
      else
        let allowTokens := List.filter Js.truthy (Js.trim <$> rawAllow) in
        if (length allowTokens =? 0)%nat then false
        else if existsb (fun entry => String.eqb entry "*") allowTokens then true
        else existsb (entryMatches (senderTokens ctx)) allowTokens
  end.

(** [tools.elevated] of the configuration or of an agent. *)
Record ElevatedConfig := {
  elevated_enabled : option bool;
  elevated_allowFrom : option AllowFrom;
}.

Record Failure := { failure_gate : string; failure_key : string }.

Record Permissions := {
  perm_enabled : bool;
  perm_allowed : bool;
  perm_failures : list Failure;
}.

(** [globalConfig] is [cfg.tools?.elevated], [agentConfig] the [tools?.elevated]
    of [resolveAgentConfig(cfg, agentId)] (agents/agent-scope.js),
    [dmAllowFrom] is [cfg.discord?.dm?.allowFrom]. *)
Definition resolveElevatedPermissions (globalConfig agentConfig : option ElevatedConfig)
    (dmAllowFrom : option (list string)) (ctx : MsgContext) (provider : string)
  : Permissions :=
  let globalEnabled :=
    negb (bool_decide (globalConfig ≫= elevated_enabled = Some false)) in
  let agentEnabled :=
    negb (bool_decide (agentConfig ≫= elevated_enabled = Some false)) in
  let enabled := globalEnabled && agentEnabled in
  let failures :=
    (if negb globalEnabled
     then [{| failure_gate := "enabled"; failure_key := "tools.elevated.enabled" |}]
     else [])
    ++ (if negb agentEnabled
        then [{| failure_gate := "enabled";
                 failure_key := "agents.list[].tools.elevated.enabled" |}]
        else []) in
  if negb enabled
  then {| perm_enabled := enabled; perm_allowed := false; perm_failures := failures |}
  else if negb (Js.truthy provider)
  then {| perm_enabled := enabled; perm_allowed := false;
          perm_failures :=
            failures ++ [{| failure_gate := "provider"; failure_key := "ctx.Provider" |}] |}
  else
    let discordFallback :=
      if String.eqb provider "discord" then dmAllowFrom else None in
    let globalAllowed :=
      isApprovedElevatedSender provider ctx (globalConfig ≫= elevated_allowFrom)
        discordFallback in
    if negb globalAllowed
    then {| perm_enabled := enabled; perm_allowed := false;
            perm_failures :=
              failures
              ++ [{| failure_gate := "allowFrom";
                     failure_key :=
                       if String.eqb provider "discord"
                          && bool_decide (is_Some discordFallback)
                       then "tools.elevated.allowFrom.discord (or discord.dm.allowFrom fallback)"
                       else "tools.elevated.allowFrom." +:+ provider |}] |}
    else
      let agentAllowed :=
        match agentConfig ≫= elevated_allowFrom with
        | Some allowFrom => isApprovedElevatedSender provider ctx (Some allowFrom) None
        | None => true
        end in
      let failures :=
        if negb agentAllowed
        then failures
             ++ [{| failure_gate := "allowFrom";
                    failure_key :=
                      "agents.list[].tools.elevated.allowFrom." +:+ provider |}]
        else failures in
      {| perm_enabled := enabled; perm_allowed := globalAllowed && agentAllowed;
         perm_failures := failures |}.

End Elevated.

Example slug_examples :
  Elevated.slugAllowToken (Some "  @Peter_Parker  ") = "peter-parker" /\
  Elevated.slugAllowToken (Some "#Dev Ops -- Team!") = "dev-ops-team" /\
  Elevated.slugAllowToken (Some "___") = "" /\
  Elevated.slugAllowToken (Some "") = "" /\
  Elevated.slugAllowToken None = "" /\
  Elevated.stripSenderPrefix (Some " Telegram:12345 ") = "12345" /\
  Elevated.stripSenderPrefix (Some "user") = "user" /\
  Elevated.normalizeAllowToken (Some "  Alice ") = "alice".
Proof. repeat split; vm_compute; reflexivity. Qed.

Definition alice : Elevated.MsgContext :=
  {| Elevated.SenderName := Some "Alice Smith"; Elevated.SenderUsername := Some "alice";
     Elevated.SenderTag := None; Elevated.SenderE164 := Some "+15550001";
     Elevated.From := Some "telegram:4242"; Elevated.To := None |}.

Example approval_examples :
  let allow (entries : list string) : option Elevated.AllowFrom :=
    Some {[ "telegram" := Some entries ]} in
  Elevated.isApprovedElevatedSender "telegram" alice (allow ["4242"]) None = true /\
  Elevated.isApprovedElevatedSender "telegram" alice (allow ["ALICE"]) None = true /\
  Elevated.isApprovedElevatedSender "telegram" alice (allow ["alice_smith"]) None = true /\
  Elevated.isApprovedElevatedSender "telegram" alice (allow ["bob"; " * "]) None = true /\
  Elevated.isApprovedElevatedSender "telegram" alice (allow ["bob"]) None = false /\
  Elevated.isApprovedElevatedSender "telegram" alice (allow []) None = false /\
  Elevated.isApprovedElevatedSender "telegram" alice None None = false /\
  Elevated.isApprovedElevatedSender "whatsapp" alice (allow ["4242"]) None = false /\
  Elevated.isApprovedElevatedSender "discord" alice (allow ["4242"]) (Some ["alice"]) = true /\
  Elevated.isApprovedElevatedSender "discord" alice
    (Some {[ "discord" := Some ["bob"] ]}) (Some ["alice"]) = false /\
  Elevated.isApprovedElevatedSender "slack" alice
    (Some {[ "slack" := Some ["*"] ]}) None = false.
Proof. repeat split; vm_compute; reflexivity. Qed.

(** ** Slugs of allow-list tokens *)

(** No two hyphens in a row. *)
Fixpoint noDoubleDash (s : string) : bool :=
  match s with
  | EmptyString => true
  | String a s' =>
      match s' with
      | EmptyString => true
      | String b _ => negb (Elevated.isDash a && Elevated.isDash b) && noDoubleDash s'
      end
  end.

Section SlugFacts.

Import Elevated.

Lemma isDash_eq (c : ascii) : isDash c = true -> c = "-"%char.
Proof. unfold isDash. by intros ?%Ascii.eqb_eq. Qed.

Lemma isSlugChar_visible (c : ascii) : isSlugChar c = true -> Js.isSpace c = false.
Proof. destruct c as [[] [] [] [] [] [] [] []]; by vm_compute. Qed.

Lemma isSlugChar_lower (c : ascii) : isSlugChar c = true -> lowerCaseUnit c = c.
Proof. destruct c as [[] [] [] [] [] [] [] []]; by vm_compute. Qed.

Lemma isSlugChar_plain (c : ascii) :
  isSlugChar c = true -> isAtOrHash c = false /\ isSpaceOrUnderscore c = false.
Proof. destruct c as [[] [] [] [] [] [] [] []]; by vm_compute. Qed.

Lemma isDash_slug (c : ascii) : isDash c = true -> isSlugChar c = true.
Proof. intros ->%isDash_eq. done. Qed.

Lemma allChars_mono (ok ok' : ascii -> bool) (s : string) :
  (forall c, ok c = true -> ok' c = true) -> allChars ok s = true -> allChars ok' s = true.
Proof.
  intros Hok. induction s as [|c s IH]; [done|]. simpl.
  intros [Hc Hs]%andb_true_iff. by rewrite (Hok c Hc), (IH Hs).
Qed.

Lemma toLowerCase_fixed (s : string) :
  allChars isSlugChar s = true -> toLowerCase s = s.
Proof.
  induction s as [|c s IH]; [done|]. simpl.
  intros [Hc Hs]%andb_true_iff. by rewrite (isSlugChar_lower c Hc), (IH Hs).
Qed.

(** *** What each replacement produces *)

Lemma dashRuns_chars (class : ascii -> bool) (s : string) :
  allChars (fun c => negb (class c) || isDash c) (dashRuns class s) = true.
Proof.
  induction s as [|c s IH]; [done|]. simpl.
  destruct (class c) eqn:Hc.
  - destruct s as [|c' s']; [cbn; by rewrite orb_true_r|].
    destruct (class c') eqn:Hc'; [exact IH|].
    change (allChars ?ok (String ?a ?r)) with (ok a && allChars ok r).
    rewrite IH. cbn. by rewrite orb_true_r.
  - cbn [allChars]. by rewrite Hc, IH.
Qed.

Lemma squeezeDashes_chars (ok : ascii -> bool) (s : string) :
  allChars ok s = true -> allChars ok (squeezeDashes s) = true.
Proof.
  induction s as [|c s IH]; [done|].
  change (allChars ok (String c s)) with (ok c && allChars ok s).
  intros [Hc Hs]%andb_true_iff. specialize (IH Hs). simpl.
  destruct (isDash c).
  - destruct s as [|c' s']; [simpl; by rewrite Hc|].
    destruct (isDash c'); [exact IH|].
    change (allChars ?f (String ?a ?r)) with (f a && allChars f r). by rewrite Hc, IH.
  - change (allChars ?f (String ?a ?r)) with (f a && allChars f r). by rewrite Hc, IH.
Qed.

Lemma squeezeDashes_head (s : string) (a : ascii) (r : string) :
  squeezeDashes s = String a r ->
  exists r', s = String a r'.
Proof.
  induction s as [|c s IH]; [done|]. simpl.
  destruct (isDash c) eqn:Hc.
  - destruct s as [|c' s']; [intros [= <- <-]; by eexists|].
    destruct (isDash c') eqn:Hc'.
    + intros Hs. destruct (IH Hs) as (r' & [= -> ->]).
      apply isDash_eq in Hc, Hc'. subst. by eexists.
    + intros [= <- <-]. by eexists.
  - intros [= <- <-]. by eexists.
Qed.

Lemma squeezeDashes_noDouble (s : string) : noDoubleDash (squeezeDashes s) = true.
Proof.
  induction s as [|c s IH]; [done|]. simpl.
  destruct (isDash c) eqn:Hc.
  - destruct s as [|c' s']; [done|]. destruct (isDash c') eqn:Hc'; [exact IH|].
    destruct (squeezeDashes (String c' s')) as [|b r] eqn:Hsq; [done|].
    destruct (squeezeDashes_head _ _ _ Hsq) as (r' & [= <- _]).
    change (noDoubleDash (String c (String c' r)))
      with (negb (isDash c && isDash c') && noDoubleDash (String c' r)).
    by rewrite Hc', andb_false_r, IH.
  - destruct (squeezeDashes s) as [|b r] eqn:Hsq; [done|].
    change (noDoubleDash (String c (String b r)))
      with (negb (isDash c && isDash b) && noDoubleDash (String b r)).
    by rewrite Hc, IH.
Qed.

Lemma stripStart_chars (ok class : ascii -> bool) (s : string) :
  allChars ok s = true -> allChars ok (stripStart class s) = true.
Proof.
  induction s as [|c s IH]; [done|]. simpl.
  intros [Hc Hs]%andb_true_iff. destruct (class c); [by apply IH|].
  simpl. by rewrite Hc, Hs.
Qed.

Lemma stripEnd_chars (ok class : ascii -> bool) (s : string) :
  allChars ok s = true -> allChars ok (stripEnd class s) = true.
Proof.
  induction s as [|c s IH]; [done|]. simpl.
  intros [Hc Hs]%andb_true_iff. specialize (IH Hs).
  destruct (stripEnd class s) as [|b r].
  - destruct (class c); [done|]. simpl. by rewrite Hc.
  - change (allChars ?f (String ?a ?x)) with (f a && allChars f x). by rewrite Hc, IH.
Qed.

Lemma noDoubleDash_tail (c : ascii) (s : string) :
  noDoubleDash (String c s) = true -> noDoubleDash s = true.
Proof. simpl. destruct s; [done|]. by intros [_ ?]%andb_true_iff. Qed.

Lemma stripStart_noDouble (class : ascii -> bool) (s : string) :
  noDoubleDash s = true -> noDoubleDash (stripStart class s) = true.
Proof.
  induction s as [|c s IH]; [done|]. intros Hs. simpl.
  destruct (class c); [|done]. by apply IH, (noDoubleDash_tail c).
Qed.

Lemma stripEnd_head (class : ascii -> bool) (s : string) (a : ascii) (r : string) :
  stripEnd class s = String a r -> exists r', s = String a r'.
Proof.
  destruct s as [|c s]; [done|]. simpl.
  destruct (stripEnd class s).
  - destruct (class c); [done|]. intros [= <- <-]. by eexists.
  - intros [= <- <-]. by eexists.
Qed.

Lemma stripEnd_noDouble (class : ascii -> bool) (s : string) :
  noDoubleDash s = true -> noDoubleDash (stripEnd class s) = true.
Proof.
  induction s as [|c s IH]; [done|]. intros Hs.
  specialize (IH (noDoubleDash_tail c s Hs)). simpl.
  destruct (stripEnd class s) as [|b r] eqn:Hr.
  - by destruct (class c).
  - destruct (stripEnd_head _ _ _ _ Hr) as (r' & ->).
    change (noDoubleDash (String c (String b r)))
      with (negb (isDash c && isDash b) && noDoubleDash (String b r)).
    rewrite IH, andb_true_r.
    change (noDoubleDash (String c (String b r')))
      with (negb (isDash c && isDash b) && noDoubleDash (String b r')) in Hs.
    by apply andb_true_iff in Hs as [? _].
Qed.

Lemma startsWith_dash (c : ascii) (r : string) :
  Js.startsWith (String c r) "-" = isDash c.
Proof.
  change (Js.startsWith (String c r) "-")
    with (if Ascii.eqb "-" c then Js.startsWith r EmptyString else false).
  rewrite Ascii.eqb_sym. fold (isDash c).
  destruct (isDash c); [apply startsWith_nil|done].
Qed.

Lemma stripStart_start (s : string) : Js.startsWith (stripStart isDash s) "-" = false.
Proof.
  induction s as [|c s IH]; [done|]. cbn [stripStart].
  destruct (isDash c) eqn:Hc; [exact IH|]. by rewrite startsWith_dash.
Qed.

Lemma stripEnd_start (s : string) :
  Js.startsWith s "-" = false -> Js.startsWith (stripEnd isDash s) "-" = false.
Proof.
  destruct (stripEnd isDash s) as [|a r] eqn:Hr; [done|].
  destruct (stripEnd_head _ _ _ _ Hr) as (r' & ->).
  by rewrite !startsWith_dash.
Qed.

Lemma stripEnd_end (s u : string) : stripEnd isDash s <> u +:+ "-".
Proof.
  revert u. induction s as [|c s IH]; intros u.
  - simpl. by destruct u.
  - simpl. destruct (stripEnd isDash s) as [|b r] eqn:Hr.
    + destruct (isDash c) eqn:Hc; [by destruct u|].
      destruct u as [|a u]; [|by destruct u].
      rewrite append_nil_l. intros [= ->]. done.
    + destruct u as [|a u]; [by rewrite append_nil_l|].
      rewrite append_cons. intros [= -> Heq]. by apply (IH u).
Qed.

(** *** What each replacement leaves alone *)

Lemma stripStart_fixed (class : ascii -> bool) (s : string) :
  match s with String c _ => class c = false | EmptyString => True end ->
  stripStart class s = s.
Proof. destruct s as [|c s]; [done|]. simpl. by intros ->. Qed.

Lemma dashRuns_fixed (class : ascii -> bool) (s : string) :
  allChars (fun c => negb (class c)) s = true -> dashRuns class s = s.
Proof.
  induction s as [|c s IH]; [done|]. simpl.
  intros [Hc Hs]%andb_true_iff. apply negb_true_iff in Hc. by rewrite Hc, (IH Hs).
Qed.

Lemma squeezeDashes_fixed (s : string) : noDoubleDash s = true -> squeezeDashes s = s.
Proof.
  induction s as [|c s IH]; [done|]. intros Hs.
  specialize (IH (noDoubleDash_tail c s Hs)). simpl.
  destruct s as [|c' s']; [by destruct (isDash c)|].
  change (noDoubleDash (String c (String c' s')))
    with (negb (isDash c && isDash c') && noDoubleDash (String c' s')) in Hs.
  apply andb_true_iff in Hs as [Hd _].
  destruct (isDash c); [|by rewrite IH].
  destruct (isDash c'); [done|]. by rewrite IH.
Qed.

Lemma stripEnd_fixed (s : string) :
  (forall u, s <> u +:+ "-") -> stripEnd isDash s = s.
Proof.
  induction s as [|c s IH]; [done|]. intros Hend. simpl.
  rewrite IH.
  - destruct s as [|c' s']; [|done].
    destruct (isDash c) eqn:Hc; [|done].
    apply isDash_eq in Hc. subst c. by destruct (Hend EmptyString).
  - intros u ->. by apply (Hend (String c u)).
Qed.

Lemma noDoubleDash_includes (s : string) :
  noDoubleDash s = true -> Js.includes s "--" = false.
Proof.
  induction s as [|c s IH]; [done|]. intros Hs.
  specialize (IH (noDoubleDash_tail c s Hs)).
  change (Js.includes (String c s) "--")
    with (Js.startsWith (String c s) "--" || Js.includes s "--").
  rewrite IH, orb_false_r.
  change (Js.startsWith (String c s) "--")
    with (if Ascii.eqb "-" c then Js.startsWith s "-" else false).
  rewrite Ascii.eqb_sym. fold (isDash c).
  destruct (isDash c) eqn:Hc; [|done].
  destruct s as [|c' s']; [done|]. rewrite startsWith_dash.
  change (noDoubleDash (String c (String c' s')))
    with (negb (isDash c && isDash c') && noDoubleDash (String c' s')) in Hs.
  apply andb_true_iff in Hs as [Hd _]. apply negb_true_iff in Hd.
  by rewrite Hc in Hd.
Qed.

(** A slug: only [[a-z0-9-]], no hyphen at either end, no two hyphens in a
    row. *)
Definition isSlug (t : string) : Prop :=
  allChars isSlugChar t = true /\ Js.startsWith t "-" = false /\
  (forall u, t <> u +:+ "-") /\ noDoubleDash t = true.

Lemma slugAllowToken_isSlug (value : option string) : isSlug (slugAllowToken value).
Proof.
  assert (isSlug EmptyString) as Hempty.
  { split; [done|]. split; [done|]. split; [|done]. intros u. by destruct u. }
  unfold slugAllowToken. destruct value as [value|]; [|done].
  destruct (negb (Js.truthy value)); [done|]. cbv zeta.
  destruct (negb (Js.truthy (toLowerCase (Js.trim value)))); [done|].
  set (text := dashRuns _ (dashRuns _ _)).
  assert (allChars isSlugChar text = true) as Hchars.
  { subst text. eapply allChars_mono; [|apply dashRuns_chars].
    intros c. simpl. rewrite negb_involutive.
    intros [Hc|Hc]%orb_true_iff; [done|by apply isDash_slug]. }
  split; [|split; [|split]].
  - by apply stripEnd_chars, stripStart_chars, squeezeDashes_chars.
  - apply stripEnd_start, stripStart_start.
  - intros u. apply stripEnd_end.
  - apply stripEnd_noDouble, stripStart_noDouble, squeezeDashes_noDouble.
Qed.

Lemma slugAllowToken_fixed (t : string) : isSlug t -> slugAllowToken (Some t) = t.
Proof.
  intros (Hchars & Hstart & Hend & Hdouble). unfold slugAllowToken.
  destruct t as [|c t]; [done|]. cbn [Js.truthy negb].
  rewrite (trim_of_trimmed _ (allChars_Trimmed _ _ isSlugChar_visible Hchars)).
  rewrite (toLowerCase_fixed _ Hchars). cbn [Js.truthy negb]. cbv zeta.
  assert (isSlugChar c = true) as Hc.
  { simpl in Hchars. by apply andb_true_iff in Hchars as [? _]. }
  rewrite (stripStart_fixed isAtOrHash) by (by destruct (isSlugChar_plain c Hc)).
  rewrite (dashRuns_fixed isSpaceOrUnderscore).
  2:{ eapply allChars_mono; [|exact Hchars]. intros x Hx.
      by destruct (isSlugChar_plain x Hx) as [_ ->]. }
  rewrite (dashRuns_fixed (fun x => negb (isSlugChar x))).
  2:{ eapply allChars_mono; [|exact Hchars]. intros x Hx. by rewrite Hx. }
  rewrite (squeezeDashes_fixed _ Hdouble).
  rewrite (stripStart_fixed isDash).
  2:{ by rewrite startsWith_dash in Hstart. }
  by apply stripEnd_fixed.
Qed.

End SlugFacts.

(** X21: whatever it is given, [slugAllowToken] returns a slug: only the
    characters a-z, 0-9 and the hyphen, no hyphen at either end and no two
    hyphens in a row; and the slug of a slug is that slug. *)
Theorem X21_slugAllowToken (value : option string) :
  let t := Elevated.slugAllowToken value in
  allChars Elevated.isSlugChar t = true /\
  Js.startsWith t "-" = false /\
  (forall u, t <> u +:+ "-") /\
  Js.includes t "--" = false /\
  Elevated.slugAllowToken (Some t) = t.
Proof.
  intros t. pose proof (slugAllowToken_isSlug value) as Hslug. fold t in Hslug.
  pose proof (slugAllowToken_fixed t Hslug) as Hfix.
  destruct Hslug as (H1 & H2 & H3 & H4).
  split; [done|]. split; [done|]. split; [done|].
  split; [by apply noDoubleDash_includes|done].
Qed.

(** ** Who may use elevated mode *)

(** The sender fields [isApprovedElevatedSender] reads. *)
Definition senderFields (ctx : Elevated.MsgContext) : list (option string) :=
  [Elevated.SenderName ctx; Elevated.SenderUsername ctx; Elevated.SenderTag ctx;
   Elevated.SenderE164 ctx; Elevated.From ctx; Elevated.To ctx].

(** The providers [resolveElevatedAllowList] has a case for. *)
Definition KNOWN_PROVIDERS : list string :=
  ["whatsapp"; "telegram"; "discord"; "signal"; "imessage"; "webchat"].

Section ApprovalFacts.

Import Elevated.

Lemma existsb_elem_of {A} (f : A -> bool) (l : list A) :
  existsb f l = true <-> exists x, x ∈ l /\ f x = true.
Proof.
  rewrite existsb_exists. split; intros (x & Hx & Hf); exists x;
    (split; [by apply list_elem_of_In|done]).
Qed.

Lemma toLowerCase_length (s : string) :
  String.length (toLowerCase s) = String.length s.
Proof. induction s as [|c s IH]; [done|]. simpl. by rewrite IH. Qed.

Lemma toLowerCase_truthy (s : string) : Js.truthy (toLowerCase s) = Js.truthy s.
Proof. by destruct s. Qed.

Lemma trim_idem (s : string) : Js.trim (Js.trim s) = Js.trim s.
Proof. apply trim_of_trimmed, trimmed_trim. Qed.

Lemma addToken_mono (value : option string) (tokens : gset string) (t : string) :
  t ∈ tokens -> t ∈ addToken value tokens.
Proof.
  intros Ht. unfold addToken. destruct value as [value|]; [|done].
  destruct (negb (Js.truthy value)); [done|]. cbv zeta.
  destruct (negb (Js.truthy (Js.trim value))); [done|].
  repeat case_match; repeat (apply elem_of_union; right); done.
Qed.

Lemma addToken_blank (value : option string) (tokens : gset string) :
  Js.trim (default EmptyString value) = EmptyString -> addToken value tokens = tokens.
Proof.
  intros Hb. unfold addToken. destruct value as [value|]; [|done]. simpl in Hb.
  destruct (negb (Js.truthy value)); [done|]. cbv zeta. by rewrite Hb.
Qed.

Lemma addToken_normalized (value : string) (tokens : gset string) :
  Js.trim value <> EmptyString ->
  toLowerCase (Js.trim value) ∈ addToken (Some value) tokens.
Proof.
  intros Hne. unfold addToken.
  assert (Js.truthy (Js.trim value) = true) as Ht by (by destruct (Js.trim value)).
  assert (Js.truthy value = true) as Hv by (destruct value; [done|done]).
  assert (normalizeAllowToken (Some (Js.trim value)) = toLowerCase (Js.trim value))
    as Hn.
  { unfold normalizeAllowToken. by rewrite Ht, trim_idem. }
  rewrite Hv, Ht. cbn [negb]. cbv zeta. rewrite !Hn, toLowerCase_truthy, Ht.
  case_match.
  - apply elem_of_union. right. apply elem_of_union. left. by apply elem_of_singleton.
  - apply elem_of_union. left. by apply elem_of_singleton.
Qed.

Lemma stripSenderPrefix_blank (value : option string) :
  Js.trim (default EmptyString value) = EmptyString ->
  stripSenderPrefix value = EmptyString.
Proof.
  intros Hb. unfold stripSenderPrefix. destruct value as [value|]; [|done].
  simpl in Hb. destruct (negb (Js.truthy value)); [done|]. cbv zeta. by rewrite Hb.
Qed.

Lemma senderTokens_blank (ctx : MsgContext) :
  (forall v, v ∈ senderFields ctx -> Js.trim (default EmptyString v) = EmptyString) ->
  senderTokens ctx = ∅.
Proof.
  intros Hb. unfold senderTokens. cbv zeta.
  assert (forall v, v ∈ senderFields ctx ->
            forall T, addToken (Some (stripSenderPrefix v)) T = T) as Hs.
  { intros v Hv T. apply addToken_blank. simpl.
    by rewrite (stripSenderPrefix_blank v (Hb v Hv)). }
  assert (forall v, v ∈ senderFields ctx -> forall T, addToken v T = T) as Ha.
  { intros v Hv T. by apply addToken_blank, Hb. }
  unfold senderFields in Hs, Ha.
  rewrite (Hs (To ctx)), (Ha (To ctx)), (Hs (From ctx)), (Ha (From ctx)),
    (Ha (SenderE164 ctx)), (Ha (SenderTag ctx)), (Ha (SenderUsername ctx)),
    (Ha (SenderName ctx)); try done;
    repeat first [apply list_elem_of_here | apply list_elem_of_further].
Qed.

Lemma senderTokens_normalized (ctx : MsgContext) (value : string) :
  Some value ∈ senderFields ctx -> Js.trim value <> EmptyString ->
  toLowerCase (Js.trim value) ∈ senderTokens ctx.
Proof.
  intros Hin Hne. unfold senderFields in Hin. unfold senderTokens. cbv zeta.
  repeat (apply elem_of_cons in Hin as [Hin|Hin]);
    [..|by apply elem_of_nil in Hin]; rewrite <- Hin;
    repeat first [by apply addToken_normalized | apply addToken_mono].
Qed.

Lemma entryMatches_empty (rawEntry : string) : entryMatches ∅ rawEntry = false.
Proof.
  unfold entryMatches. destruct (negb (Js.truthy (Js.trim rawEntry))); [done|].
  cbv zeta. rewrite !bool_decide_eq_false_2 by apply not_elem_of_empty.
  by rewrite !andb_false_r.
Qed.

Lemma entryMatches_trim (tokens : gset string) (rawEntry : string) :
  entryMatches tokens (Js.trim rawEntry) = entryMatches tokens rawEntry.
Proof. unfold entryMatches. by rewrite trim_idem. Qed.

Lemma entryMatches_truthy (tokens : gset string) (rawEntry : string) :
  entryMatches tokens rawEntry = true -> Js.truthy (Js.trim rawEntry) = true.
Proof. unfold entryMatches. by destruct (Js.truthy (Js.trim rawEntry)). Qed.

(** The decision once the allow list of the provider is known. *)
Lemma approved_iff (provider : string) (ctx : MsgContext)
    (allowFrom : option AllowFrom) (discordFallback : option (list string)) :
  isApprovedElevatedSender provider ctx allowFrom discordFallback = true <->
  exists entry,
    entry ∈ default [] (resolveElevatedAllowList allowFrom provider discordFallback) /\
    (Js.trim entry = "*" \/ entryMatches (senderTokens ctx) entry = true).
Proof.
  unfold isApprovedElevatedSender.
  destruct (resolveElevatedAllowList allowFrom provider discordFallback)
    as [rawAllow|]; simpl.
  2:{ split; [done|]. by intros (? & ?%elem_of_nil & _). }
  set (allowTokens := List.filter Js.truthy (Js.trim <$> rawAllow)).
  assert (forall t, t ∈ allowTokens <->
            exists entry, entry ∈ rawAllow /\ t = Js.trim entry /\ Js.truthy t = true)
    as Hin.
  { intros t. subst allowTokens.
    rewrite list_elem_of_In, filter_In, <- list_elem_of_In, list_elem_of_fmap.
    split.
    - intros [(e & -> & He) Ht]. by exists e.
    - intros (e & He & -> & Ht). split; [by exists e|done]. }
  assert (existsb (fun entry => String.eqb entry "*") allowTokens = true
          \/ existsb (entryMatches (senderTokens ctx)) allowTokens = true
          <-> exists entry, entry ∈ rawAllow /\
                (Js.trim entry = "*" \/ entryMatches (senderTokens ctx) entry = true))
    as Hex.
  { rewrite !existsb_elem_of. split.
    - intros [(t & Ht & Heq)|(t & Ht & Hm)]; apply Hin in Ht as (e & He & -> & _).
      + apply String.eqb_eq in Heq. exists e. auto.
      + rewrite entryMatches_trim in Hm. exists e. auto.
    - intros (e & He & [Hw|Hm]).
      + left. exists (Js.trim e). split; [|rewrite Hw; done].
        apply Hin. exists e. by rewrite Hw.
      + right. exists (Js.trim e). rewrite entryMatches_trim. split; [|done].
        apply Hin. exists e. split; [done|]. split; [done|].
        by apply (entryMatches_truthy (senderTokens ctx)). }
  rewrite <- Hex.
  destruct (length rawAllow =? 0)%nat eqn:Hlen.
  { apply Nat.eqb_eq in Hlen. destruct rawAllow; [|done]. simpl.
    split; [done|]. by intros [?|?]. }
  destruct (length allowTokens =? 0)%nat eqn:Hlen'.
  { apply Nat.eqb_eq in Hlen'. destruct allowTokens; [|done]. simpl.
    split; [done|]. by intros [?|?]. }
  destruct (existsb (fun entry => String.eqb entry "*") allowTokens).
  - split; [by left|done].
  - split; [by right|]. by intros [?|?].
Qed.

Lemma resolveElevatedAllowList_unknown (allowFrom : option AllowFrom)
    (provider : string) (discordFallback : option (list string)) :
  provider ∉ KNOWN_PROVIDERS ->
  resolveElevatedAllowList allowFrom provider discordFallback = None.
Proof.
  intros Hp.
  assert (forall name, name ∈ KNOWN_PROVIDERS -> String.eqb provider name = false)
    as Hneq.
  { intros name Hname. apply String.eqb_neq. by intros ->. }
  unfold resolveElevatedAllowList.
  rewrite (Hneq "whatsapp"), (Hneq "telegram"), (Hneq "discord"), (Hneq "signal"),
    (Hneq "imessage"), (Hneq "webchat"); [done|..];
    unfold KNOWN_PROVIDERS; repeat constructor.
Qed.

End ApprovalFacts.

(** X22: a sender is approved for elevated mode exactly when the allow list
    of the provider has an entry that is the wildcard or matches one of the
    tokens of the sender.  So nobody is approved without an allow list, for
    a provider other than the six known ones, or by blank entries; a
    message that identifies no sender is approved by the wildcard only; and
    an entry without a sender prefix that equals a sender field up to
    surrounding whitespace and letter case approves the sender.  For
    discord the fallback list is consulted only when the configuration has
    no [discord] property of its own. *)
Theorem X22_isApprovedElevatedSender (provider : string) (ctx : Elevated.MsgContext)
    (allowFrom : option Elevated.AllowFrom) (discordFallback : option (list string)) :
  let approved :=
    Elevated.isApprovedElevatedSender provider ctx allowFrom discordFallback in
  let allowList :=
    default [] (Elevated.resolveElevatedAllowList allowFrom provider discordFallback) in
  let wildcard := exists entry, entry ∈ allowList /\ Js.trim entry = "*" in
  (approved = true <->
     wildcard \/
     exists entry, entry ∈ allowList /\
                   Elevated.entryMatches (Elevated.senderTokens ctx) entry = true) /\
  (provider ∉ KNOWN_PROVIDERS -> approved = false) /\
  ((forall entry, entry ∈ allowList -> Js.trim entry = EmptyString) -> approved = false) /\
  ((forall v, v ∈ senderFields ctx -> Js.trim (default EmptyString v) = EmptyString) ->
     (approved = true <-> wildcard)) /\
  (forall value entry,
     Some value ∈ senderFields ctx -> entry ∈ allowList ->
     Js.trim value <> EmptyString ->
     toLowerCase (Js.trim entry) = toLowerCase (Js.trim value) ->
     Elevated.senderPrefix Elevated.SENDER_PREFIXES (Js.trim entry) = None ->
     approved = true) /\
  (forall a, provider = "discord" -> allowFrom = Some a -> is_Some (a !! "discord") ->
     approved = Elevated.isApprovedElevatedSender provider ctx allowFrom None).
Proof.
  intros approved allowList wildcard.
  assert (approved = true <->
            wildcard \/
            exists entry, entry ∈ allowList /\
              Elevated.entryMatches (Elevated.senderTokens ctx) entry = true) as Hiff.
  { subst approved wildcard allowList. rewrite approved_iff. split.
    - intros (e & He & [Hw|Hm]); [left|right]; by exists e.
    - intros [(e & He & Hw)|(e & He & Hm)]; exists e; auto. }
  split; [exact Hiff|]. split; [|split; [|split; [|split]]].
  - intros Hp. subst approved. unfold Elevated.isApprovedElevatedSender.
    by rewrite resolveElevatedAllowList_unknown.
  - intros Hblank. apply not_true_is_false. intros Ha.
    apply Hiff in Ha as [(e & He & Hw)|(e & He & Hm)].
    + specialize (Hblank e He). by rewrite Hblank in Hw.
    + apply entryMatches_truthy in Hm. by rewrite (Hblank e He) in Hm.
  - intros Hnone. rewrite Hiff, (senderTokens_blank ctx Hnone). split; [|by left].
    intros [Hw|(e & _ & Hm)]; [done|]. by rewrite entryMatches_empty in Hm.
  - intros value entry Hv He Hne Heq Hpre. apply Hiff. right. exists entry.
    split; [done|]. pose proof (senderTokens_normalized ctx value Hv Hne) as Htok.
    assert (Js.truthy (Js.trim entry) = true) as Ht.
    { rewrite <- toLowerCase_truthy, Heq, toLowerCase_truthy.
      by destruct (Js.trim value). }
    unfold Elevated.entryMatches. rewrite Ht. cbn [negb]. cbv zeta.
    unfold Elevated.stripSenderPrefix. rewrite Ht. cbn [negb]. cbv zeta.
    rewrite trim_idem, Hpre. simpl default.
    unfold Elevated.normalizeAllowToken. rewrite Ht. cbn [negb].
    rewrite trim_idem, toLowerCase_truthy, Ht, Heq.
    rewrite (bool_decide_eq_true_2 _ Htok). simpl. by destruct (_ || _).
  - intros a -> -> Hown. subst approved.
    unfold Elevated.isApprovedElevatedSender, Elevated.resolveElevatedAllowList.
    simpl. by rewrite (bool_decide_eq_true_2 _ Hown).
Qed.

(** X23: [resolveElevatedPermissions] allows elevated mode exactly when it
    reports no failing gate.  Allowing requires that neither configuration
    disables it, that the provider is known to the message, that the global
    allow list approves the sender, and that the allow list of the agent,
    if it has one, approves the sender as well.  When elevated mode is
    disabled every reported gate is an [enabled] gate. *)
Theorem X23_resolveElevatedPermissions
    (globalConfig agentConfig : option Elevated.ElevatedConfig)
    (dmAllowFrom : option (list string)) (ctx : Elevated.MsgContext) (provider : string) :
  let r := Elevated.resolveElevatedPermissions globalConfig agentConfig dmAllowFrom
             ctx provider in
  (Elevated.perm_allowed r = true <-> Elevated.perm_failures r = []) /\
  (Elevated.perm_enabled r = false <->
     globalConfig ≫= Elevated.elevated_enabled = Some false \/
     agentConfig ≫= Elevated.elevated_enabled = Some false) /\
  (Elevated.perm_enabled r = false ->
     Elevated.perm_failures r <> [] /\
     Forall (fun f => Elevated.failure_gate f = "enabled") (Elevated.perm_failures r)) /\
  (Elevated.perm_allowed r = true ->
     Elevated.perm_enabled r = true /\ provider <> EmptyString /\
     Elevated.isApprovedElevatedSender provider ctx
       (globalConfig ≫= Elevated.elevated_allowFrom)
       (if String.eqb provider "discord" then dmAllowFrom else None) = true /\
     (forall allowFrom,
        agentConfig ≫= Elevated.elevated_allowFrom = Some allowFrom ->
        Elevated.isApprovedElevatedSender provider ctx (Some allowFrom) None = true)).
Proof.
  intros r. subst r. unfold Elevated.resolveElevatedPermissions. cbv zeta.
  destruct (bool_decide (globalConfig ≫= Elevated.elevated_enabled = Some false))
    eqn:Hg; [apply bool_decide_eq_true in Hg|apply bool_decide_eq_false in Hg];
  (destruct (bool_decide (agentConfig ≫= Elevated.elevated_enabled = Some false))
    eqn:Ha; [apply bool_decide_eq_true in Ha|apply bool_decide_eq_false in Ha]);
  cbn [negb andb app Elevated.perm_allowed Elevated.perm_enabled Elevated.perm_failures].
  1-3: split; [done|]; split; [split; [auto|done]|]; split; [|done];
       intros _; split; [done|]; repeat constructor.
  destruct provider as [|c provider'] eqn:Hprov; cbn [Js.truthy negb].
  { simpl. split; [done|]. split; [split; [done|by intros [?|?]]|]. done. }
  rewrite <- Hprov.
  destruct (Elevated.isApprovedElevatedSender provider ctx
              (globalConfig ≫= Elevated.elevated_allowFrom) _) eqn:Hglobal;
    cbn [negb andb app Elevated.perm_allowed Elevated.perm_enabled Elevated.perm_failures].
  2:{ split; [done|]. split; [split; [done|by intros [?|?]]|]. done. }
  destruct (agentConfig ≫= Elevated.elevated_allowFrom) as [allowFrom|] eqn:Haf.
  - destruct (Elevated.isApprovedElevatedSender provider ctx (Some allowFrom) None)
      eqn:Hagent;
      cbn [negb andb app Elevated.perm_allowed Elevated.perm_enabled
             Elevated.perm_failures].
    + split; [done|]. split; [split; [done|by intros [?|?]]|]. split; [done|].
      intros _. split; [done|]. split; [by subst|]. split; [done|].
      by intros ? [= <-].
    + split; [done|]. split; [split; [done|by intros [?|?]]|]. done.
  - cbn [negb andb app Elevated.perm_allowed Elevated.perm_enabled
           Elevated.perm_failures].
    split; [done|]. split; [split; [done|by intros [?|?]]|]. split; [done|].
    intros _. split; [done|]. split; [by subst|]. split; [done|]. done.
Qed.

(** ** The payloads of a finished run ([runEmbeddedPiAgent], lines 1580-1638) *)

(** The last assistant message of the session snapshot: its content, and
    the text [formatAssistantErrorText] (pi-embedded-helpers.js) gives for
    it. *)
Record LastAssistant := {
  last_content : list ContentBlock;
  last_errorText : option string;
}.

(** An element of [replyItems]; [item_media] is empty where the source has
    [undefined] or an empty array. *)
Record ReplyItem := {
  item_text : string;
  item_media : list string;
  item_isError : bool;
}.

Record RunPayload := {
  payload_text : option string;
  payload_mediaUrls : option (list string);
  payload_mediaUrl : option string;
  payload_isError : bool;
}.

Section Payloads.

Context {C : Type} {E : Collaborators C}.

Definition errorItems (lastAssistant : option LastAssistant) : list ReplyItem :=
  match lastAssistant ≫= last_errorText with
  | Some errorText =>
      if Js.truthy errorText
      then [{| item_text := errorText; item_media := []; item_isError := true |}]
      else []
  | None => []
  end.

Definition toolItems (p : Params) (toolMetas : list (string * option string))
  : list ReplyItem :=
  let inlineToolResults :=
    verboseLevelOn p && negb (onPartialReply p) && negb (onToolResult p)
    && (0 <? length toolMetas)%nat in
  if inlineToolResults then
    omap (fun '(toolName, meta) =>
            let metas :=
              match meta with
              | Some m => if Js.truthy m then [m] else []
              | None => []
              end in
            let agg := formatToolAggregate toolName (Some metas) in
            let '(cleanedText, mediaUrls) := splitMediaFromOutput agg in
            if Js.truthy cleanedText
            then Some {| item_text := cleanedText; item_media := mediaUrls;
                         item_isError := false |}
            else None)
         toolMetas
  else [].

Definition reasoningItems (p : Params) (lastAssistant : option LastAssistant)
  : list ReplyItem :=
  let reasoningText :=
    match lastAssistant with
    | Some msg =>
        if includeReasoning p
        then formatReasoningMarkdown (extractAssistantThinking (last_content msg))
        else EmptyString
    | None => EmptyString
    end in
  if Js.truthy reasoningText
  then [{| item_text := reasoningText; item_media := []; item_isError := false |}]
  else [].

Definition answerTexts (lastAssistant : option LastAssistant)
    (assistantTexts : list string) : list string :=
  let fallbackAnswerText :=
    match lastAssistant with
    | Some msg => extractAssistantText (last_content msg)
    | None => EmptyString
    end in
  if (0 <? length assistantTexts)%nat then assistantTexts
  else if Js.truthy fallbackAnswerText then [fallbackAnswerText]
  else [].

Definition answerItems (texts : list string) : list ReplyItem :=
  omap (fun text =>
          let '(cleanedText, mediaUrls) := splitMediaFromOutput text in
          if negb (Js.truthy cleanedText) && (length mediaUrls =? 0)%nat then None
          else Some {| item_text := cleanedText; item_media := mediaUrls;
                       item_isError := false |})
       texts.

Definition toPayload (item : ReplyItem) : RunPayload :=
  {| payload_text :=
       if Js.truthy (Js.trim (item_text item)) then Some (Js.trim (item_text item))
       else None;
     payload_mediaUrls :=
       if (0 <? length (item_media item))%nat then Some (item_media item) else None;
     payload_mediaUrl := head (item_media item);
     payload_isError := item_isError item |}.

Definition keepPayload (pl : RunPayload) : bool :=
  match payload_text pl with Some t => Js.truthy t | None => false end
  || match payload_mediaUrl pl with Some u => Js.truthy u | None => false end
  || match payload_mediaUrls pl with Some l => (0 <? length l)%nat | None => false end.

(** [payloads], before the final [payloads.length ? payloads : undefined]. *)
Definition buildPayloads (p : Params) (lastAssistant : option LastAssistant)
    (toolMetas : list (string * option string)) (assistantTexts : list string)
  : list RunPayload :=
  let replyItems :=
    errorItems lastAssistant ++ toolItems p toolMetas
    ++ reasoningItems p lastAssistant
    ++ answerItems (answerTexts lastAssistant assistantTexts) in
  List.filter keepPayload (toPayload <$> replyItems).

End Payloads.

Example payloads_of_a_reply :
  buildPayloads defaultParams
    (Some {| last_content := [TextContent " fallback "]; last_errorText := None |})
    [] ["Hello  "; "   "]
  = [ {| payload_text := Some "Hello"; payload_mediaUrls := None;
         payload_mediaUrl := None; payload_isError := false |} ] /\
  buildPayloads defaultParams
    (Some {| last_content := [TextContent " fallback "];
             last_errorText := Some "rate limited" |})
    [] []
  = [ {| payload_text := Some "rate limited"; payload_mediaUrls := None;
         payload_mediaUrl := None; payload_isError := true |};
      {| payload_text := Some "fallback"; payload_mediaUrls := None;
         payload_mediaUrl := None; payload_isError := false |} ] /\
  buildPayloads defaultParams None [] [] = [].
Proof. repeat split; vm_compute; reflexivity. Qed.

Section PayloadFacts.

Context {C : Type} {E : Collaborators C}.

Lemma toPayload_shape (item : ReplyItem) :
  let pl := toPayload item in
  (forall t, payload_text pl = Some t -> t <> EmptyString /\ Js.trim t = t) /\
  (forall l, payload_mediaUrls pl = Some l -> l <> [] /\ payload_mediaUrl pl = head l) /\
  (payload_mediaUrls pl = None -> payload_mediaUrl pl = None).
Proof.
  unfold toPayload. simpl. split; [|split].
  - intros t. destruct (Js.truthy (Js.trim (item_text item))) eqn:Ht; [|done].
    intros [= <-]. split; [by destruct (Js.trim (item_text item))|].
    apply trim_of_trimmed, trimmed_trim.
  - intros l. destruct (item_media item) as [|u l']; simpl; [done|].
    intros [= <-]. done.
  - by destruct (item_media item).
Qed.

Lemma keepPayload_toPayload (item : ReplyItem) :
  keepPayload (toPayload item) = true ->
  is_Some (payload_text (toPayload item)) \/ is_Some (payload_mediaUrls (toPayload item)).
Proof.
  unfold keepPayload, toPayload. simpl.
  destruct (Js.truthy (Js.trim (item_text item))); [left; by eexists|].
  destruct (item_media item); simpl; [done|]. right. by eexists.
Qed.

Lemma filter_toPayload_app (xs ys : list ReplyItem) :
  List.filter keepPayload (toPayload <$> xs ++ ys)
  = List.filter keepPayload (toPayload <$> xs)
    ++ List.filter keepPayload (toPayload <$> ys).
Proof. by rewrite fmap_app, List.filter_app. Qed.

Lemma noError_filter (items : list ReplyItem) :
  Forall (fun item => item_isError item = false) items ->
  Forall (fun pl => payload_isError pl = false)
    (List.filter keepPayload (toPayload <$> items)).
Proof.
  intros Hall. apply Forall_forall. intros pl.
  rewrite list_elem_of_In, filter_In, <- list_elem_of_In, list_elem_of_fmap.
  intros [(item & -> & Hin) _]. rewrite Forall_forall in Hall. exact (Hall item Hin).
Qed.

Lemma omap_length_le {A B} (f : A -> option B) (l : list A) :
  (length (omap f l) <= length l)%nat.
Proof.
  induction l as [|x l IH]; simpl; [lia|].
  change (list_omap A B f l) with (omap f l). destruct (f x); simpl; lia.
Qed.

Lemma toolItems_noError p toolMetas :
  Forall (fun item => item_isError item = false) (toolItems p toolMetas).
Proof.
  unfold toolItems. cbv zeta. case_match; [|done].
  apply Forall_forall. intros item [[toolName meta] [_ Hi]]%list_elem_of_omap.
  revert Hi. destruct (splitMediaFromOutput _) as [cleanedText mediaUrls].
  case_match; [|done]. by intros [= <-].
Qed.

Lemma reasoningItems_noError p lastAssistant :
  Forall (fun item => item_isError item = false) (reasoningItems p lastAssistant).
Proof. unfold reasoningItems. cbv zeta. case_match; repeat constructor. Qed.

Lemma answerItems_noError texts :
  Forall (fun item => item_isError item = false) (answerItems texts).
Proof.
  unfold answerItems.
  apply Forall_forall. intros item [text [_ Hi]]%list_elem_of_omap.
  revert Hi. destruct (splitMediaFromOutput _) as [cleanedText mediaUrls].
  case_match; [done|]. by intros [= <-].
Qed.

End PayloadFacts.

(** X24: no payload of a finished run is empty: each has a text, which is
    then non-empty and trimmed, or media; [mediaUrl] is the first of
    [mediaUrls].  Only the first payload can be an error payload, and it is
    the trimmed error text of the last assistant message.  The answers are
    the texts the reconciler collected; the text of the last assistant
    message is used only when it collected none. *)
Theorem X24_buildPayloads {C : Type} {E : Collaborators C} (p : Params)
    (lastAssistant : option LastAssistant)
    (toolMetas : list (string * option string)) (assistantTexts : list string) :
  let payloads := buildPayloads p lastAssistant toolMetas assistantTexts in
  Forall (fun pl =>
            (is_Some (payload_text pl) \/ is_Some (payload_mediaUrls pl)) /\
            (forall t, payload_text pl = Some t -> t <> EmptyString /\ Js.trim t = t) /\
            (forall l, payload_mediaUrls pl = Some l ->
                       l <> [] /\ payload_mediaUrl pl = head l) /\
            (payload_mediaUrls pl = None -> payload_mediaUrl pl = None))
         payloads /\
  (forall i pl, payloads !! i = Some pl -> payload_isError pl = true ->
     i = 0%nat /\
     exists errorText,
       lastAssistant ≫= last_errorText = Some errorText /\
       payload_text pl = Some (Js.trim errorText)) /\
  (assistantTexts <> [] ->
     answerTexts lastAssistant assistantTexts = assistantTexts) /\
  (exists before,
     payloads = before ++ List.filter keepPayload
                            (toPayload <$> answerItems (answerTexts lastAssistant
                                                          assistantTexts)) /\
     (length before <= 2 + length toolMetas)%nat).
Proof.
  intros payloads. split; [|split; [|split]].
  - apply Forall_forall. intros pl. subst payloads. unfold buildPayloads. cbv zeta.
    rewrite list_elem_of_In, filter_In, <- list_elem_of_In, list_elem_of_fmap.
    intros [(item & -> & _) Hkeep].
    split; [by apply keepPayload_toPayload|]. apply toPayload_shape.
  - intros i pl Hi Herr. subst payloads. unfold buildPayloads in Hi. cbv zeta in Hi.
    rewrite filter_toPayload_app in Hi.
    assert (Forall (fun pl => payload_isError pl = false)
              (List.filter keepPayload
                 (toPayload <$> toolItems p toolMetas ++ reasoningItems p lastAssistant
                  ++ answerItems (answerTexts lastAssistant assistantTexts)))) as Hrest.
    { apply noError_filter. rewrite !Forall_app.
      split; [apply toolItems_noError|].
      split; [apply reasoningItems_noError|apply answerItems_noError]. }
    unfold errorItems in Hi.
    destruct (lastAssistant ≫= last_errorText) as [errorText|] eqn:He.
    + destruct (Js.truthy errorText) eqn:Ht.
      * simpl in Hi. unfold keepPayload at 1 in Hi. simpl in Hi.
        destruct (Js.truthy (Js.trim errorText)) eqn:Htt; rewrite ?Htt in Hi;
          simpl in Hi.
        -- destruct i as [|i]; simpl in Hi.
           ++ injection Hi as <-. split; [done|]. exists errorText. simpl.
              by rewrite Htt.
           ++ rewrite Forall_forall in Hrest.
              assert (payload_isError pl = false); [|congruence].
              apply Hrest. by eapply list_elem_of_lookup_2.
        -- rewrite Forall_forall in Hrest.
           assert (payload_isError pl = false); [|congruence].
           apply Hrest. by eapply list_elem_of_lookup_2.
      * simpl in Hi. rewrite Forall_forall in Hrest.
        assert (payload_isError pl = false); [|congruence].
        apply Hrest. by eapply list_elem_of_lookup_2.
    + simpl in Hi. rewrite Forall_forall in Hrest.
      assert (payload_isError pl = false); [|congruence].
      apply Hrest. by eapply list_elem_of_lookup_2.
  - intros Hne. unfold answerTexts. by destruct assistantTexts.
  - subst payloads. unfold buildPayloads. cbv zeta.
    rewrite !app_assoc, filter_toPayload_app. eexists. split; [reflexivity|].
    etrans; [apply List.filter_length_le|]. rewrite length_fmap, !length_app.
    assert (length (errorItems lastAssistant) <= 1)%nat.
    { unfold errorItems. repeat case_match; simpl; lia. }
    assert (length (reasoningItems p lastAssistant) <= 1)%nat.
    { unfold reasoningItems. cbv zeta. repeat case_match; simpl; lia. }
    assert (length (toolItems p toolMetas) <= length toolMetas)%nat.
    { unfold toolItems. cbv zeta. case_match; [|simpl; lia]. apply omap_length_le. }
    lia.
Qed.

(** ** Reasoning kept apart from the reply *)

(** A reply cut inside its reasoning segment: the text up to the cut, and
    the rest. *)
Definition openReply (pre r : string) : string := pre +:+ ("<think>" +:+ r).
Definition closingReply (r a : string) : string := r +:+ ("</think>" +:+ a).

Section ReasoningApart.

Lemma noTagStart_app (x y : string) :
  noTagStart x = true -> noTagStart y = true -> noTagStart (x +:+ y) = true.
Proof.
  unfold noTagStart. induction x as [|c x IH]; [by rewrite append_nil_l|].
  rewrite append_cons. simpl. intros [Hc Hx]%andb_true_iff Hy.
  by rewrite Hc, IH.
Qed.

Lemma thinkingTags_openReply (pre r : string) :
  noTagStart pre = true -> noTagStart r = true ->
  thinkingTags (openReply pre r)
  = [ {| Tag.index := String.length pre; Tag.len := 7; Tag.isClose := false |} ].
Proof.
  intros Hpre Hr. unfold thinkingTags, Tag.matchAll, openReply.
  rewrite matchAllFrom_plain, matchAllFrom_open, matchAllFrom_nil by done.
  reflexivity.
Qed.

Lemma thinkingTags_closingReply (r a : string) :
  noTagStart r = true -> noTagStart a = true ->
  thinkingTags (closingReply r a)
  = [ {| Tag.index := String.length r; Tag.len := 8; Tag.isClose := true |} ].
Proof.
  intros Hr Ha. unfold thinkingTags, Tag.matchAll, closingReply.
  rewrite matchAllFrom_plain, matchAllFrom_close, matchAllFrom_nil by done.
  reflexivity.
Qed.

Lemma taggedReply_truthy (pre r a : string) : Js.truthy (taggedReply pre r a) = true.
Proof. unfold taggedReply. by destruct pre. Qed.

Lemma openReply_truthy (pre r : string) : Js.truthy (openReply pre r) = true.
Proof. unfold openReply. by destruct pre. Qed.

Lemma closingReply_truthy (r a : string) : Js.truthy (closingReply r a) = true.
Proof. unfold closingReply. by destruct r. Qed.

Lemma taggedReply_before (pre r a : string) :
  Js.slice (taggedReply pre r a) 0 (String.length pre) = pre.
Proof. apply slice_app_take. Qed.

Lemma taggedReply_inside (pre r a : string) :
  Js.slice (taggedReply pre r a) (String.length pre + 7)
    (String.length pre + 7 + String.length r) = r.
Proof.
  unfold taggedReply. rewrite <- Nat.add_assoc, slice_app_drop.
  change 7%nat with (String.length "<think>" + 0)%nat at 1.
  change (7 + String.length r)%nat with (String.length "<think>" + String.length r)%nat.
  rewrite slice_app_drop. apply slice_app_take.
Qed.

Lemma taggedReply_after (pre r a : string) :
  Js.slice_from (taggedReply pre r a) (String.length pre + 7 + String.length r + 8) = a.
Proof.
  unfold taggedReply. rewrite <- !Nat.add_assoc, slice_from_app_drop.
  change (7 + (String.length r + 8))%nat
    with (String.length "<think>" + (String.length r + 8))%nat.
  rewrite slice_from_app_drop.
  change 8%nat with (String.length "</think>" + 0)%nat.
  rewrite slice_from_app_drop, slice_from_app_drop. apply slice_from_O.
Qed.

Lemma openReply_before (pre r : string) :
  Js.slice (openReply pre r) 0 (String.length pre) = pre.
Proof. apply slice_app_take. Qed.

Lemma openReply_after (pre r : string) :
  Js.slice_from (openReply pre r) (String.length pre + 7) = r.
Proof.
  unfold openReply. rewrite slice_from_app_drop.
  change 7%nat with (String.length "<think>" + 0)%nat.
  rewrite slice_from_app_drop. apply slice_from_O.
Qed.

Lemma closingReply_after (r a : string) :
  Js.slice_from (closingReply r a) (String.length r + 8) = a.
Proof.
  unfold closingReply. rewrite slice_from_app_drop.
  change 8%nat with (String.length "</think>" + 0)%nat.
  rewrite slice_from_app_drop. apply slice_from_O.
Qed.

End ReasoningApart.

(** X25: for a reply made of a text [pre], one reasoning segment in think
    tags and an answer [a], none of them containing ["<"], the stripped text
    is [pre] followed by [a] and the extracted reasoning is the trimmed
    segment, whether the text is seen whole or cut inside the segment: up to
    the cut the stripped text is [pre] and the streamed reasoning is the
    trimmed part seen so far, and the block filter, which carries the open
    segment over to the next chunk, lets through [pre] and then [a]. *)
Theorem X25_reasoning_kept_apart (pre r r' a : string) :
  noTagStart pre = true -> noTagStart r = true -> noTagStart r' = true ->
  noTagStart a = true ->
  let whole := taggedReply pre (r +:+ r') a in
  stripThinkingSegments whole = pre +:+ a /\
  extractThinkingFromText whole = Js.trim (r +:+ r') /\
  extractThinkingFromStream whole = Js.trim (r +:+ r') /\
  stripThinkingSegments (openReply pre r) = pre /\
  extractThinkingFromStream (openReply pre r) = Js.trim r /\
  stripBlockThinkingSegments false whole = (pre +:+ a, false) /\
  stripBlockThinkingSegments false (openReply pre r) = (pre, true) /\
  stripBlockThinkingSegments true (closingReply r' a) = (a, false).
Proof.
  intros Hpre Hr Hr' Ha whole.
  pose proof (noTagStart_app r r' Hr Hr') as Hrr.
  pose proof (thinkingTags_taggedReply pre (r +:+ r') a Hpre Hrr Ha) as Hwhole.
  pose proof (thinkingTags_openReply pre r Hpre Hr) as Hopen.
  pose proof (thinkingTags_closingReply r' a Hr' Ha) as Hclose.
  fold whole in Hwhole.
  assert (extractThinkingFromText whole = Js.trim (r +:+ r')) as Htext.
  { unfold extractThinkingFromText. subst whole.
    rewrite taggedReply_truthy, Hwhole. simpl.
    by rewrite taggedReply_inside. }
  assert (extractThinkingFromText (openReply pre r) = EmptyString) as Hnone.
  { unfold extractThinkingFromText. by rewrite openReply_truthy, Hopen. }
  split; [|split; [exact Htext|split; [|split; [|split; [|split; [|split]]]]]].
  - unfold stripThinkingSegments, stripLoop. subst whole.
    rewrite taggedReply_truthy, Hwhole. simpl.
    by rewrite taggedReply_before, taggedReply_after.
  - unfold extractThinkingFromStream. rewrite Htext. subst whole.
    rewrite taggedReply_truthy. cbn [negb].
    destruct (Js.truthy (Js.trim (r +:+ r'))) eqn:Ht; [done|].
    rewrite Hwhole.
    rewrite (filter_cons_True (fun m => isOpenTag m = true)) by done.
    rewrite (filter_cons_False (fun m => isOpenTag m = true)) by done.
    rewrite (filter_cons_False (fun m => Tag.isClose m = true)) by done.
    rewrite (filter_cons_True (fun m => Tag.isClose m = true)) by done.
    rewrite !filter_nil. cbn [last Tag.index].
    assert ((String.length pre <? String.length pre + 7 + String.length (r +:+ r'))%nat
            = true) as -> by (apply Nat.ltb_lt; lia).
    done.
  - unfold stripThinkingSegments, stripLoop.
    rewrite openReply_truthy, Hopen. simpl. by rewrite openReply_before.
  - unfold extractThinkingFromStream. rewrite Hnone, openReply_truthy, Hopen.
    rewrite (filter_cons_True (fun m => isOpenTag m = true)) by done.
    rewrite (filter_cons_False (fun m => Tag.isClose m = true)) by done.
    rewrite !filter_nil. cbn [last Tag.index Tag.len negb Js.truthy].
    by rewrite openReply_after.
  - unfold stripBlockThinkingSegments, stripLoop. subst whole.
    rewrite taggedReply_truthy, Hwhole. simpl.
    by rewrite taggedReply_before, taggedReply_after.
  - unfold stripBlockThinkingSegments, stripLoop.
    rewrite openReply_truthy, Hopen. simpl. by rewrite openReply_before.
  - unfold stripBlockThinkingSegments, stripLoop.
    rewrite closingReply_truthy, Hclose. simpl. by rewrite closingReply_after.
Qed.

Lemma X25_reasoning_kept_apart_witness :
  stripThinkingSegments "Hi <think>plan more</think>Done" = "Hi Done" /\
  extractThinkingFromStream "Hi <think>plan" = "plan" /\
  stripBlockThinkingSegments false "Hi <think>plan" = ("Hi ", true) /\
  stripBlockThinkingSegments true " more</think>Done" = ("Done", false).
Proof.
  destruct (X25_reasoning_kept_apart "Hi " "plan" " more" "Done")
    as (H1 & _ & _ & _ & H5 & _ & H7 & H8); try reflexivity.
  split; [exact H1|]. split; [exact H5|]. split; [exact H7|exact H8].
Defined.

(** ** The final tag *)

(** A reply whose answer [x] stands in final tags, and the same reply
    before the closing tag has arrived. *)
Definition finalReply (pre x post : string) : string :=
  pre +:+ ("<final>" +:+ (x +:+ ("</final>" +:+ post))).

Definition openFinal (pre x : string) : string := pre +:+ ("<final>" +:+ x).

Section FinalTagFacts.

Lemma matchAt_final_open rest :
  Tag.matchAt "final" "" ("<final>" +:+ rest) = Some (false, 7%nat).
Proof.
  rewrite !append_cons, append_nil_l. unfold Tag.matchAt. simpl.
  do 2 f_equal. lia.
Qed.

Lemma matchAt_final_close rest :
  Tag.matchAt "final" "" ("</final>" +:+ rest) = Some (true, 8%nat).
Proof.
  rewrite !append_cons, append_nil_l. unfold Tag.matchAt. simpl.
  do 2 f_equal. lia.
Qed.

Lemma matchAllFrom_final_open idx rest :
  Tag.matchAllFrom "final" "" idx 0 ("<final>" +:+ rest)
  = {| Tag.index := idx; Tag.len := 7; Tag.isClose := false |}
      :: Tag.matchAllFrom "final" "" (idx + 7) 0 rest.
Proof.
  pose proof (matchAt_final_open rest) as Hat.
  pose proof (matchAllFrom_skip "final" "" (S idx) "final>" rest) as Hskip.
  rewrite append_cons in Hat |- *. rewrite matchAllFrom_head, Hat.
  change (7 - 1)%nat with (String.length "final>").
  rewrite Hskip. do 2 f_equal. simpl. lia.
Qed.

Lemma matchAllFrom_final_close idx rest :
  Tag.matchAllFrom "final" "" idx 0 ("</final>" +:+ rest)
  = {| Tag.index := idx; Tag.len := 8; Tag.isClose := true |}
      :: Tag.matchAllFrom "final" "" (idx + 8) 0 rest.
Proof.
  pose proof (matchAt_final_close rest) as Hat.
  pose proof (matchAllFrom_skip "final" "" (S idx) "/final>" rest) as Hskip.
  rewrite append_cons in Hat |- *. rewrite matchAllFrom_head, Hat.
  change (8 - 1)%nat with (String.length "/final>").
  rewrite Hskip. do 2 f_equal. simpl. lia.
Qed.

(** A final tag is not a think tag. *)
Lemma matchAllFrom_think_final_open idx rest :
  Tag.matchAllFrom "think" "ing" idx 0 ("<final>" +:+ rest)
  = Tag.matchAllFrom "think" "ing" (idx + 7) 0 rest.
Proof.
  pose proof (matchAllFrom_plain "think" "ing" (S idx) "final>" rest eq_refl) as Hplain.
  rewrite append_cons, matchAllFrom_head.
  assert (Tag.matchAt "think" "ing" (String "<" ("final>" +:+ rest)) = None) as ->.
  { rewrite !append_cons, append_nil_l. reflexivity. }
  rewrite Hplain. f_equal. simpl. lia.
Qed.

Lemma matchAllFrom_think_final_close idx rest :
  Tag.matchAllFrom "think" "ing" idx 0 ("</final>" +:+ rest)
  = Tag.matchAllFrom "think" "ing" (idx + 8) 0 rest.
Proof.
  pose proof (matchAllFrom_plain "think" "ing" (S idx) "/final>" rest eq_refl) as Hplain.
  rewrite append_cons, matchAllFrom_head.
  assert (Tag.matchAt "think" "ing" (String "<" ("/final>" +:+ rest)) = None) as ->.
  { rewrite !append_cons, append_nil_l. reflexivity. }
  rewrite Hplain. f_equal. simpl. lia.
Qed.

Lemma finalTags_plain (t : string) : noTagStart t = true -> finalTags t = [].
Proof. intros Ht. by apply matchAllFrom_nil. Qed.

Lemma thinkingTags_plain (t : string) : noTagStart t = true -> thinkingTags t = [].
Proof. intros Ht. by apply matchAllFrom_nil. Qed.

Lemma finalTags_finalReply (pre x post : string) :
  noTagStart pre = true -> noTagStart x = true -> noTagStart post = true ->
  finalTags (finalReply pre x post)
  = [ {| Tag.index := String.length pre; Tag.len := 7; Tag.isClose := false |};
      {| Tag.index := String.length pre + 7 + String.length x; Tag.len := 8;
         Tag.isClose := true |} ].
Proof.
  intros Hpre Hx Hpost. unfold finalTags, Tag.matchAll, finalReply.
  rewrite matchAllFrom_plain, matchAllFrom_final_open, matchAllFrom_plain,
    matchAllFrom_final_close, matchAllFrom_nil by done.
  reflexivity.
Qed.

Lemma finalTags_openFinal (pre x : string) :
  noTagStart pre = true -> noTagStart x = true ->
  finalTags (openFinal pre x)
  = [ {| Tag.index := String.length pre; Tag.len := 7; Tag.isClose := false |} ].
Proof.
  intros Hpre Hx. unfold finalTags, Tag.matchAll, openFinal.
  rewrite matchAllFrom_plain, matchAllFrom_final_open, matchAllFrom_nil by done.
  reflexivity.
Qed.

Lemma finalTags_closing (x post : string) :
  noTagStart x = true -> noTagStart post = true ->
  finalTags (x +:+ ("</final>" +:+ post))
  = [ {| Tag.index := String.length x; Tag.len := 8; Tag.isClose := true |} ].
Proof.
  intros Hx Hpost. unfold finalTags, Tag.matchAll.
  rewrite matchAllFrom_plain, matchAllFrom_final_close, matchAllFrom_nil by done.
  reflexivity.
Qed.

Lemma thinkingTags_finalReply (pre x post : string) :
  noTagStart pre = true -> noTagStart x = true -> noTagStart post = true ->
  thinkingTags (finalReply pre x post) = [].
Proof.
  intros Hpre Hx Hpost. unfold thinkingTags, Tag.matchAll, finalReply.
  by rewrite matchAllFrom_plain, matchAllFrom_think_final_open, matchAllFrom_plain,
    matchAllFrom_think_final_close, matchAllFrom_nil by done.
Qed.

Lemma thinkingTags_openFinal (pre x : string) :
  noTagStart pre = true -> noTagStart x = true ->
  thinkingTags (openFinal pre x) = [].
Proof.
  intros Hpre Hx. unfold thinkingTags, Tag.matchAll, openFinal.
  by rewrite matchAllFrom_plain, matchAllFrom_think_final_open, matchAllFrom_nil by done.
Qed.

(** Without think tags the two reasoning filters change nothing. *)
Lemma unthinking (t : string) :
  thinkingTags t = [] -> stripThinkingSegments (stripUnpairedThinkingTags t) = t.
Proof.
  intros Ht.
  assert (stripUnpairedThinkingTags t = t) as ->.
  { unfold stripUnpairedThinkingTags. rewrite Ht. by destruct (Js.truthy t). }
  unfold stripThinkingSegments. rewrite Ht. by destruct (Js.truthy t).
Qed.

Lemma extractFinalText_finalReply (pre x post : string) :
  noTagStart pre = true -> noTagStart x = true -> noTagStart post = true ->
  extractFinalText (finalReply pre x post) = Some x.
Proof.
  intros Hpre Hx Hpost.
  pose proof (finalTags_finalReply pre x post Hpre Hx Hpost) as Htags.
  assert (sanitizeFinalText (finalReply pre x post) = finalReply pre x post) as Hs.
  { unfold sanitizeFinalText. rewrite Htags. simpl.
    by destruct (Js.truthy (finalReply pre x post)). }
  unfold extractFinalText. cbv zeta. rewrite Hs, Htags. simpl.
  assert (Js.slice_from (finalReply pre x post) (String.length pre + 7)
          = x +:+ ("</final>" +:+ post)) as ->.
  { unfold finalReply. rewrite slice_from_app_drop.
    change 7%nat with (String.length "<final>" + 0)%nat.
    rewrite slice_from_app_drop. apply slice_from_O. }
  rewrite finalTags_closing by done. simpl. by rewrite slice_app_take.
Qed.

Lemma sanitizeFinalText_openFinal (pre x : string) :
  noTagStart pre = true -> noTagStart x = true ->
  sanitizeFinalText (openFinal pre x) = pre +:+ x.
Proof.
  intros Hpre Hx. unfold sanitizeFinalText.
  rewrite (finalTags_openFinal pre x Hpre Hx).
  assert (Js.truthy (openFinal pre x) = true) as -> by (unfold openFinal; by destruct pre).
  simpl. unfold Tag.removeFirst. simpl.
  assert (Js.slice (openFinal pre x) 0 (String.length pre) = pre) as ->
    by apply slice_app_take.
  assert (Js.slice_from (openFinal pre x) (String.length pre + 7) = x) as ->.
  { unfold openFinal. rewrite slice_from_app_drop.
    change 7%nat with (String.length "<final>" + 0)%nat.
    rewrite slice_from_app_drop. apply slice_from_O. }
  done.
Qed.

Lemma extractFinalText_plain (t : string) :
  noTagStart t = true -> extractFinalText t = None.
Proof.
  intros Ht. unfold extractFinalText. cbv zeta.
  assert (sanitizeFinalText t = t) as ->.
  { unfold sanitizeFinalText. rewrite (finalTags_plain t Ht).
    by destruct (Js.truthy t). }
  by rewrite (finalTags_plain t Ht).
Qed.

End FinalTagFacts.

(** X26: for a reply whose answer [x] stands in final tags, with text
    [pre] before and [post] after, none containing ["<"], [extractFinalText]
    returns [x], and with the final tag enforced the partial reply is the
    trimmed [x].  While the closing tag has not arrived [extractFinalText]
    returns nothing, although [sanitizeFinalText] drops the open tag, and
    the partial reply is the whole text so far, trimmed, the open tag
    included.  A text without ["<"] has no final text and is streamed
    trimmed. *)
Theorem X26_final_tag (p : Params) (pre x post : string) :
  noTagStart pre = true -> noTagStart x = true -> noTagStart post = true ->
  enforceFinalTag p = true ->
  extractFinalText (finalReply pre x post) = Some x /\
  cleanedNext p (finalReply pre x post) = Js.trim x /\
  sanitizeFinalText (openFinal pre x) = pre +:+ x /\
  extractFinalText (openFinal pre x) = None /\
  cleanedNext p (openFinal pre x) = Js.trim (openFinal pre x) /\
  extractFinalText pre = None /\
  cleanedNext p pre = Js.trim pre.
Proof.
  intros Hpre Hx Hpost Hp.
  pose proof (extractFinalText_finalReply pre x post Hpre Hx Hpost) as Hfinal.
  pose proof (sanitizeFinalText_openFinal pre x Hpre Hx) as Hopen.
  pose proof (noTagStart_app pre x Hpre Hx) as Hpx.
  assert (extractFinalText (openFinal pre x) = None) as Hnone.
  { unfold extractFinalText. cbv zeta. rewrite Hopen.
    by rewrite (finalTags_plain _ Hpx). }
  split; [exact Hfinal|]. split; [|split; [exact Hopen|split; [exact Hnone|]]].
  - unfold cleanedNext. rewrite Hp.
    rewrite (unthinking _ (thinkingTags_finalReply pre x post Hpre Hx Hpost)).
    by rewrite Hfinal.
  - split; [|split; [by apply extractFinalText_plain|]].
    + unfold cleanedNext. rewrite Hp.
      by rewrite (unthinking _ (thinkingTags_openFinal pre x Hpre Hx)), Hnone.
    + unfold cleanedNext. rewrite Hp.
      rewrite (unthinking _ (thinkingTags_plain pre Hpre)).
      by rewrite (extractFinalText_plain pre Hpre).
Qed.

Lemma X26_final_tag_witness :
  let p := {| verboseLevelOn := false; reasoningMode := ReasoningOff;
              shouldEmitToolResultFn := false; onToolResult := false;
              onReasoningStream := false; onBlockReply := true;
              blockReplyBreak := BreakTextEnd; onPartialReply := true;
              enforceFinalTag := true |} in
  cleanedNext p "Sure. <final>Done</final> bye" = "Done" /\
  cleanedNext p "Sure. <final>Do" = "Sure. <final>Do".
Proof.
  intros p.
  destruct (X26_final_tag p "Sure. " "Done" " bye") as (_ & H2 & _); try reflexivity.
  destruct (X26_final_tag p "Sure. " "Do" "") as (_ & _ & _ & _ & H5 & _);
    try reflexivity.
  split; [exact H2|exact H5].
Defined.

(** ** An open reasoning segment across chunks *)

Section OpenSegment.

Context {C : Type} {E : Collaborators C}.

Implicit Types (s : State C) (p : Params).

(** Inside a reasoning segment a chunk without a tag yields no visible text
    and leaves the flag set: the early return of
    [stripBlockThinkingSegments] is not taken while the flag is set. *)
Lemma inside_reasoning_persists (t : string) :
  noTagStart t = true -> stripBlockThinkingSegments true t = (EmptyString, true).
Proof.
  intros Ht. unfold stripBlockThinkingSegments.
  destruct (Js.truthy t) eqn:Htr; simpl.
  - by rewrite (thinkingTags_plain t Ht).
  - by apply truthy_false in Htr as ->.
Qed.

Lemma stripBlock_openReply (pre r : string) :
  noTagStart pre = true -> noTagStart r = true ->
  stripBlockThinkingSegments false (openReply pre r) = (pre, true).
Proof.
  intros Hpre Hr. unfold stripBlockThinkingSegments, stripLoop.
  rewrite openReply_truthy, (thinkingTags_openReply pre r Hpre Hr). simpl.
  by rewrite openReply_before.
Qed.

Lemma stripBlock_closingReply (r a : string) :
  noTagStart r = true -> noTagStart a = true ->
  stripBlockThinkingSegments true (closingReply r a) = (a, false).
Proof.
  intros Hr Ha. unfold stripBlockThinkingSegments, stripLoop.
  rewrite closingReply_truthy, (thinkingTags_closingReply r a Hr Ha). simpl.
  by rewrite closingReply_after.
Qed.

(** So [emitBlockChunk] accepts nothing from such a chunk. *)
Lemma emitBlockChunk_inside (t : string) s :
  blockThinkingActive s = true -> noTagStart t = true ->
  let s' := emitBlockChunk t s in
  blockThinkingActive s' = true /\ outputs s' = outputs s /\
  assistantTexts s' = assistantTexts s /\
  lastBlockReplyText s' = lastBlockReplyText s.
Proof.
  intros Hs Ht. unfold emitBlockChunk.
  rewrite Hs, (inside_reasoning_persists t Ht). by simpl.
Qed.

Lemma emitBlockChunks_inside (middle : list string) s :
  blockThinkingActive s = true ->
  Forall (fun t => noTagStart t = true) middle ->
  let s' := fold_left (fun st t => emitBlockChunk t st) middle s in
  blockThinkingActive s' = true /\ outputs s' = outputs s /\
  assistantTexts s' = assistantTexts s.
Proof.
  intros Hs Hmid. revert s Hs.
  induction Hmid as [|t middle Ht _ IH]; intros s Hs; [done|].
  simpl. destruct (emitBlockChunk_inside t s Hs Ht) as (Hf & Ho & Hat & _).
  destruct (IH _ Hf) as (Hf' & Ho' & Hat'). simpl in *.
  split; [done|]. split; congruence.
Qed.

(** After the open marker any number of chunks without a tag are held
    back; the chunk with the close marker lets through what follows it. *)
Lemma emitBlockChunk_across_chunks (pre r r' a : string) (middle : list string) s :
  blockThinkingActive s = false ->
  noTagStart pre = true -> noTagStart r = true -> noTagStart r' = true ->
  noTagStart a = true ->
  Forall (fun t => noTagStart t = true) middle ->
  Js.trimEnd pre = EmptyString ->
  let s1 := emitBlockChunk (openReply pre r) s in
  let s2 := fold_left (fun st t => emitBlockChunk t st) middle s1 in
  let s3 := emitBlockChunk (closingReply r' a) s2 in
  blockThinkingActive s1 = true /\
  blockThinkingActive s2 = true /\ outputs s2 = outputs s /\
  assistantTexts s2 = assistantTexts s /\
  blockThinkingActive s3 = false /\
  (outputs s3 = outputs s \/ outputs s3 = outputs s ++ [BlockChunk (Js.trimEnd a)]).
Proof.
  intros Hs Hpre Hr Hr' Ha Hmid Hblank s1 s2 s3.
  pose proof (stripBlock_openReply pre r Hpre Hr) as Hopen.
  pose proof (stripBlock_closingReply r' a Hr' Ha) as Hclose.
  assert (blockThinkingActive s1 = true /\ outputs s1 = outputs s /\
          assistantTexts s1 = assistantTexts s) as (Hf1 & Ho1 & Hat1).
  { subst s1. unfold emitBlockChunk. rewrite Hs, Hopen, Hblank. by simpl. }
  destruct (emitBlockChunks_inside middle s1 Hf1 Hmid) as (Hf2 & Ho2 & Hat2).
  fold s2 in Hf2, Ho2, Hat2.
  split; [done|]. split; [done|]. split; [congruence|]. split; [congruence|].
  subst s3. clearbody s2. unfold emitBlockChunk, emit. rewrite Hf2, Hclose. simpl.
  split_cases; simpl; rewrite ?Ho2, ?Ho1; auto.
Qed.

(** The cumulative buffer with an open reasoning segment: without
    [enforceFinalTag] only the text before the marker is shown; with it the
    unpaired open marker is removed first and the reasoning text received
    so far is shown. *)
Lemma cleanedNext_open_segment p (pre r : string) :
  noTagStart pre = true -> noTagStart r = true ->
  cleanedNext p (openReply pre r)
  = if enforceFinalTag p then Js.trim (pre +:+ r) else Js.trim pre.
Proof.
  intros Hpre Hr. unfold cleanedNext. cbv zeta.
  pose proof (thinkingTags_openReply pre r Hpre Hr) as Hopen.
  destruct (enforceFinalTag p).
  - assert (stripUnpairedThinkingTags (openReply pre r) = pre +:+ r) as ->.
    { unfold stripUnpairedThinkingTags. rewrite openReply_truthy, Hopen. simpl.
      unfold Tag.removeFirst. simpl.
      by rewrite openReply_before, openReply_after. }
    pose proof (noTagStart_app pre r Hpre Hr) as Hplain.
    assert (stripThinkingSegments (pre +:+ r) = pre +:+ r) as ->.
    { unfold stripThinkingSegments. rewrite (thinkingTags_plain _ Hplain).
      by destruct (Js.truthy (pre +:+ r)). }
    by rewrite (extractFinalText_plain _ Hplain).
  - unfold stripThinkingSegments, stripLoop.
    rewrite openReply_truthy, Hopen. simpl. by rewrite openReply_before.
Qed.

End OpenSegment.

(** ** The final text of a message *)

Section FinalText.

Context {C : Type} {E : Collaborators C}.

Implicit Types (s : State C) (p : Params).

(** When no block of the message was accepted and no chunker is configured,
    [message_end] appends the final text of the message to [assistantTexts]
    unless it repeats the last entry: the committed tool-sent texts are not
    consulted. *)
Lemma messageEnd_records_final_text p rawText thinking s :
  blockChunker s = None ->
  (length (assistantTexts s) <= assistantTextBaseline s)%nat ->
  Js.truthy (finalText p rawText) = true ->
  last (assistantTexts s) <> Some (finalText p rawText) ->
  assistantTexts (handle p s (MessageEnd Assistant rawText thinking))
  = assistantTexts s ++ [finalText p rawText].
Proof.
  intros Hc Hbase Ht Hlast. simpl. unfold onMessageEnd. cbv zeta.
  assert (forall b x (st : State C),
            assistantTexts (when b (emitReasoningBlock x) st) = assistantTexts st) as H2.
  { intros b x st. unfold when. by destruct b. }
  assert (forall b x (st : State C),
            assistantTexts (when b (emitReasoningStream p x) st) = assistantTexts st) as H3.
  { intros b x st. unfold when, emitReasoningStream, emit. split_cases; done. }
  assert (forall x (st : State C), blockChunker st = None ->
            assistantTexts (emitFinalBlock p x st) = assistantTexts st) as H4.
  { intros x st Hst. unfold emitFinalBlock, emit. rewrite Hst. split_cases; done. }
  assert (forall b x (st : State C),
            blockChunker (when b (emitReasoningBlock x) st) = blockChunker st) as H5.
  { intros b x st. unfold when. by destruct b. }
  assert (forall x (st : State C), blockChunker (pushFinalText x st) = blockChunker st) as H6.
  { intros x st. unfold pushFinalText. split_cases; done. }
  change (assistantTexts (resetAtMessageEnd ?st)) with (assistantTexts st).
  rewrite H3, H2, H4, H2 by (by rewrite H5, H6).
  unfold pushFinalText. rewrite Hc, Ht.
  assert ((assistantTextBaseline s <? length (assistantTexts s))%nat = false) as ->
    by (apply Nat.ltb_ge; lia).
  simpl. destruct (last (assistantTexts s)) as [l|] eqn:Hl; [|done].
  destruct (Js.truthy l); [|done]. simpl.
  destruct (String.eqb l (finalText p rawText)) eqn:Heq; [|done].
  apply String.eqb_eq in Heq. by subst l.
Qed.

End FinalText.
